(* ===== verification/_CoqProject ===== *)
-Q . S2P
Prelude.v
NetAddr.v
Json.v
Dynamic.v
Config.v
ConfigFmt.v
State.v
Waiting.v
Balancer.v
Health.v
Messages.v
Gossip.v
Interleaving.v
Wire.v
Tunnel.v
Io.v
Mux.v
Proxy.v
Headers.v
Trace.v
Retry.v
HttpProxy.v
Listener.v
Registry.v
Subscribe.v
Ingress.v
Serving.v
Path.v
Cli.v
Telemetry.v
Pki.v
Api.v
Tls.v
Cluster.v
Daemon.v
Report.v
TestKit.v
ConfigTests.v
BalancerTests.v
WireTests.v
HttpTests.v
ProxyTests.v
StateTests.v
OpsTests.v
