(* ===== verification/Prelude.v ===== *)
(** * stouter: a verification development

    stouter (sources under [src/src]) is a service-discovery and tunnelling
    daemon. Nodes host services; subscribers open a local port per service and
    carry each connection or HTTP request through an mTLS tunnel to a node that
    hosts it. The cluster shares one versioned configuration, replicated by
    gossip. This library models the daemon's own logic and proves what makes it
    correct. Names follow the sources.

    ** The parts and how they interact

    Data and its serialized forms:
    - The replicated configuration ([config.rs]): services in groups and L7
      routes under one version number, and the mutations the CLI and the admin RPC
      share: Dynamic. The on-disk [Config] around it, its validation and the
      atomic replacement of its file: Config, with NetAddr for socket addresses.
    - serde: Json has the data model and what the derives make of a type, once for
      all types. ConfigFmt has the formats of the configuration ([config.rs]) and
      Wire those of the messages ([gossip/messages.rs]).

    The daemon's state and its replication:
    - Shared state ([state.rs]): everything the tasks of a daemon share, with the
      indexes derived from the configuration and the pools of idle connections:
      State. Its [SharedState] is what every later file reads and updates. Waiting has
      the two places where a task sleeps until another wakes it, step by step: taking a
      pooled connection, and the wait of the graceful drain.
    - Gossip and admin RPC ([gossip/messages.rs], [gossip/mod.rs]): Messages
      (the message type and its framing) and Gossip (handlers, merging, file poll,
      persisting), on a [World], the shared state with the file on disk. Interleaving
      splits the handlers at their locks and runs many of them at once. Cluster
      puts many daemons and the messages between them together.
    - Health checks ([health.rs]): Health. Their report reaches other nodes by
      gossip and filters candidates in Proxy.

    Tunnels:
    - The node side ([node/tunnel.rs], [node/relay.rs], [node/reverse.rs],
      [mux.rs]): Tunnel. Byte copying ([io.rs]): Io. The mux session pool and
      client driver ([mux.rs]): Mux.
    - The subscriber's TCP proxy ([subscribe/proxy.rs]): Proxy (candidates,
      attempts, establishing a tunnel). Path joins the two ends: a tunnel from a
      candidate to the service, over mux streams and relays too.
    - Backend selection ([subscribe/balancer.rs]): Balancer, used by both proxies.

    HTTP:
    - The HTTP proxy ([subscribe/http.rs]): Headers (hop-by-hop headers), Trace
      (trace context and node addresses), Retry (the retry budget) and HttpProxy
      (routing, attempts, the answer).
    - The shared HTTP listener ([subscribe/listener.rs]): Listener, which hands a
      request to the service's HttpProxy. Registry has the proxies of a daemon by
      service name, as the shared objects they are. The background work of a
      subscriber ([subscribe/mod.rs]), which starts and stops the service ports:
      Subscribe. Ingress puts the ports, the listener and the manager together.
    - Serving: what every listener of a daemon does with what it accepts, which tasks
      count as in-flight, and how all of it ends at the shutdown (Waiting's drain).

    Identity, observation and operation:
    - Certificates and key files ([pki.rs]): Pki. TLS configuration and the name a
      peer is known by ([tls.rs]): Tls.
    - Span export ([telemetry.rs]): Telemetry. The REST API and the gauges
      ([subscribe/api.rs], [metrics.rs]): Api.
    - The command line ([main.rs]): Cli has the commands that change the
      configuration, on the local file or on a remote daemon ([Gossip.World]), and
      moving a service between two clusters; Report has what commands read and
      print. Daemon has a daemon's start and stop ([main.rs], [node/mod.rs]).

    The sources' own tests ([mod tests] in each file) are checks of the model. A test
    function is a proposition of the same name that holds by computation: ConfigTests,
    BalancerTests, WireTests, HttpTests, ProxyTests (candidates and the REST API),
    StateTests (health, the drain, copying, gossip) and OpsTests (telemetry, the command
    line, certificates), with what they are written in, TestKit. All 149 tests are there.

    ** How code becomes definitions

    A handler is a function from the state (and what the outside world does, as
    arguments) to the new state and what it sends. Fallible code returns
    [result]. What is outside [src] is an argument or an interface: the bytes of
    MessagePack ([Wire.MsgPack]) and JSON ([ConfigFmt.JsonText]), the [http] crate's
    name, URI and header types ([Dynamic.HttpCrate], [Trace.UriHostLaw],
    [Headers.HeaderMap]), keys and certificates ([Pki.Rcgen]), handshakes
    ([Tls.Rustls]), [tokio]'s [Notify] ([Waiting.Notify]), hyper's connection
    ([Serving.Http1]) and its client, yamux, sockets, clocks and randomness. The laws relied on
    are class fields, and each class has a concrete instance that the witnesses use.
    The order in which a [HashMap] is iterated comes from the class [MapIter] below,
    so theorems hold for every order. Machine integers keep their width: [wrap32],
    [wrap64] and [Balancer.wrap_i64] where the code can wrap, saturating operations
    where it saturates. Times are nanoseconds, or milliseconds where the code has
    them so. What is shared and mutated ([Arc]) is an identifier into a store where
    two holders of it matter: the HTTP proxies (Registry) and mux sessions (Mux).

    A step of the model is what the code does under one lock, or between two awaits
    where it matters. Gossip takes a whole handler as one step, which is what it is when
    nothing interrupts it ([Interleaving.alone_is_handled]); Interleaving takes each
    section of a handler as a step, so that a reader may find the new configuration with
    the old indexes for a moment. A whole pass of a background task is one step on the
    state it read. In Waiting and Serving every access to a shared counter, pool or
    notifier is a step of its own. Logging and counters are left out, but for the
    exporter's own in Telemetry.

    ** What is proved

    - Configuration: [validate] accepts exactly the configurations its contract
      describes; each mutation refines a map update and keeps well-formedness;
      replacing the file by a rename leaves the old or the new text, whatever fails on
      the way, while the fallback that writes in place may leave a part of the new one.
    - Serialized forms: a saved configuration loads as it was, a message that was
      sent reads back but for what is local to the sender.
    - Replication: no step replaces the configuration except by one of higher
      version; the indexes always answer as the configuration does; health reports
      spread, and merge in any order; every admin request's effect and refusal. However
      handlers interleave, a change is answered for only once requests are routed by it.
      Across the cluster, whatever the network does, a version identifies a
      configuration as long as changes are made where the newest one is, and
      rounds of syncs over a connected topology bring everyone to the newest. A
      daemon restarted from its file runs what it last ran.
    - Selection: smooth weighted round-robin gives each node its exact share in
      a round of as many picks as the total weight; connection limits are never exceeded; nodes
      that fail are ejected with the documented back-off, and picks fail open.
    - Tunnels: when a request reaches a local service; a relay is transparent; the
      stream a tunnel uses; the attempts made for a client, none of which leaks a
      slot; pools neither lose nor duplicate connections; copied bytes arrive in
      order. End to end, a tunnel succeeds exactly when the chosen node serves it,
      and carries the bytes of that instance.
    - HTTP: a request is sent again only when that is safe and the budget pays for it;
      the budget's bound with its exact floating-point rounding; the exact split of
      traffic by route weights; which headers are forwarded; the trace and the node's
      address survive the hop; every answer the client can get, and which node's. The two ways in to a
      service share one balancer, so limits hold over both together.
    - Waiting: no task sleeps beside a pooled connection it could have, under any
      interleaving; interleaved step by step, the pool and each call of [take] do what
      the sequential [take_loop] of State does; the drain never misses the end of the last connection,
      ends within a bound once no new work starts, and reports success only when nothing
      counted is being served.
    - Subscribing: after a pass the running proxies are those of the services the
      configuration asks for, when no name has a slash; which service the shared
      listener chooses.
    - Health: two consecutive failures make a service unhealthy, one success healthy.
    - Identity: a private key the program wrote is never readable by others, and is
      written nowhere else; a node with the files issued for it is known by that name;
      an admin request that is not refused came over a connection whose peer showed, in
      its handshake, a certificate under the CA with an authorized name.
    - Telemetry: every span the queue took is posted once, in order; a flush is
      acknowledged after the spans before it.
    - Operation: which tasks a daemon starts; what a local command does is what the
      remote one does; moving a service moves it or leaves it, and touches no other; [status] and the
      routes read back as they are shown.

    ** Fuel and bounds

    Fuel appears in three places. [HttpProxy.attempt_loop] and [Proxy.serve_loop]
    take the number of attempts left, which is the loop's own bound: each
    iteration tries one more node. [Trace.chunks] takes the length of its list, and
    each step consumes at least one element ([Trace.concat_chunks] shows nothing is
    lost). Loops that wait take the sequence of their wake-ups and end with it.
    The rounds of [Cluster.gossip_converges] are bounded by the number of daemons.
    Theorems on counters assume the counts stay in their machine range where the
    code would wrap; the bound is a hypothesis of each.

    ** Not modelled

    The adapters to hyper's and tokio's traits ([subscribe/http.rs], [tls.rs],
    [mux.rs]), which delegate byte by byte to a stream; socket options ([io.rs]);
    binding and configuring the listeners' sockets; installing the metrics recorder and
    the signal handlers; the declarations clap parses the command line by; logging and
    counters: they are glue around the parts above or calls to libraries. The tests'
    assertions on elapsed real time, and on what a library puts in a request's head,
    have no counterpart.

    This first file is the prelude: results, machine integers, map iteration,
    list, sum and string lemmas, reachability, and the automation they share. *)

From Stdlib Require Export ZArith Lia Ascii.
From stdpp Require Export base tactics gmap strings list fin_maps sorting pretty numbers.
Export list_basics.list list_relations.list list_monad.list list_misc.list.

#[export] Set Warnings "-clear-no-such-hyp".

Declare Scope stouter_scope.
Delimit Scope stouter_scope with stouter.

Create HintDb stouter.
Create Rewrite HintDb stouter.

(** ** Fallible code: [Result<A, E>] *)

Inductive result (A E : Type) : Type :=
| Ok (a : A)
| Err (e : E).
Arguments Ok {A E} _.
Arguments Err {A E} _.

Definition is_ok {A E} (r : result A E) : bool :=
  match r with Ok _ => true | Err _ => false end.

Definition map_err {A E F} (f : E -> F) (r : result A E) : result A F :=
  match r with Ok a => Ok a | Err e => Err (f e) end.

Definition ok {A E} (r : result A E) : option A :=
  match r with Ok a => Some a | Err _ => None end.

(** The [?] operator. *)
Notation "'let?' x := r 'in' k" :=
  (match r with Ok x => k | Err e => Err e end)
  (at level 10, x pattern, r at level 100, k at level 200) : stouter_scope.

(** The [?] operator on [Option], and [let Some(x) = e else { return None }]. *)
Notation "'let*' x := o 'in' k" :=
  (match o with Some x => k | None => None end)
  (at level 10, x pattern, o at level 100, k at level 200) : stouter_scope.

Open Scope stouter_scope.

(** Run a fallible check over a list, stopping at the first error (a [for]
    loop whose body returns early). *)
Fixpoint try_each {A E} (f : A -> result unit E) (l : list A) : result unit E :=
  match l with
  | [] => Ok tt
  | x :: l => match f x with Ok _ => try_each f l | Err e => Err e end
  end.

Lemma try_each_ok {A E} (f : A -> result unit E) l :
  try_each f l = Ok tt <-> Forall (fun x => f x = Ok tt) l.
Proof.
  induction l as [|x l IH]; simpl; [by split|].
  rewrite Forall_cons, <- IH. destruct (f x) as [[]|]; intuition congruence.
Qed.

(** ** Machine integers

    Unsigned integers are [Z] with their range stated where it matters; the
    arithmetic operators of a release build wrap. *)

Definition u16_max : Z := 65535.
Definition u32_max : Z := 4294967295.
Definition u64_max : Z := 18446744073709551615.

Definition wrap32 (z : Z) : Z := (z mod 4294967296)%Z.
Definition wrap64 (z : Z) : Z := (z mod 18446744073709551616)%Z.

Definition saturating_add32 (a b : Z) : Z := Z.min (a + b) u32_max.
Definition saturating_sub (a b : Z) : Z := Z.max 0 (a - b).
Definition abs_diff (a b : Z) : Z := Z.abs (a - b).

Lemma wrap64_small z : (0 <= z <= u64_max)%Z -> wrap64 z = z.
Proof. unfold wrap64, u64_max. intros. apply Z.mod_small. lia. Qed.

Lemma wrap32_small z : (0 <= z <= u32_max)%Z -> wrap32 z = z.
Proof. unfold wrap32, u32_max. intros. apply Z.mod_small. lia. Qed.

Lemma wrap64_range z : (0 <= wrap64 z <= u64_max)%Z.
Proof. unfold wrap64, u64_max. pose proof (Z.mod_pos_bound z 18446744073709551616). lia. Qed.

Lemma wrap32_range z : (0 <= wrap32 z <= u32_max)%Z.
Proof. unfold wrap32, u32_max. pose proof (Z.mod_pos_bound z 4294967296). lia. Qed.

Lemma wrap64_succ_gt v : (0 <= v < u64_max)%Z -> wrap64 (v + 1) = (v + 1)%Z.
Proof. intros. apply wrap64_small. unfold u64_max in *. lia. Qed.

#[export] Hint Rewrite wrap64_small wrap32_small using (unfold u64_max, u32_max in *; lia) : stouter.

(** ** [HashMap] iteration order

    Iterating a [HashMap] visits its entries once each, in an order the
    standard library leaves unspecified. Definitions that iterate one take the
    order from this class, so what is proved of them holds for every order. *)

Class MapIter : Type := {
  map_iter : forall {K V : Type} `{Countable K}, gmap K V -> list (K * V);
  map_iter_perm : forall {K V : Type} `{Countable K} (m : gmap K V),
    map_iter m ≡ₚ map_to_list m
}.

(** One such order, for evaluating definitions on concrete inputs. *)
#[global] Program Instance map_iter_to_list : MapIter | 100 :=
  {| map_iter K V _ _ m := map_to_list m |}.
Next Obligation. done. Qed.

Definition map_values `{MapIter} {K V} `{Countable K} (m : gmap K V) : list V :=
  (map_iter m).*2.

Definition map_keys `{MapIter} {K V} `{Countable K} (m : gmap K V) : list K :=
  (map_iter m).*1.

Section map_iter.
Context `{MapIter} {K V : Type} `{Countable K}.

Lemma elem_of_map_iter (m : gmap K V) k v :
  (k, v) ∈ map_iter m <-> m !! k = Some v.
Proof. by rewrite map_iter_perm, elem_of_map_to_list. Qed.

Lemma NoDup_map_iter_fst (m : gmap K V) : NoDup (map_iter m).*1.
Proof. rewrite map_iter_perm. apply NoDup_fst_map_to_list. Qed.

Lemma elem_of_map_values (m : gmap K V) v :
  v ∈ map_values m <-> exists k, m !! k = Some v.
Proof.
  unfold map_values. rewrite list_elem_of_fmap. split.
  - intros ([k v'] & -> & Hin). exists k. by apply elem_of_map_iter.
  - intros [k Hk]. exists (k, v). by rewrite elem_of_map_iter.
Qed.

Lemma elem_of_map_keys (m : gmap K V) k :
  k ∈ map_keys m <-> is_Some (m !! k).
Proof.
  unfold map_keys. rewrite list_elem_of_fmap. split.
  - intros ([k' v'] & -> & Hin). exists v'. by apply elem_of_map_iter.
  - intros [v Hv]. exists (k, v). by rewrite elem_of_map_iter.
Qed.
End map_iter.

#[export] Hint Resolve NoDup_map_iter_fst : stouter.

(** A [BTreeMap]'s keys in order. *)
Definition btree_keys {V} (m : gmap string V) : list string :=
  merge_sort String.le (map_to_list m).*1.

Lemma elem_of_btree_keys {V} (m : gmap string V) k :
  k ∈ btree_keys m <-> is_Some (m !! k).
Proof.
  unfold btree_keys. rewrite merge_sort_Permutation, list_elem_of_fmap. split.
  - intros ([k' v'] & -> & Hin). exists v'. by apply elem_of_map_to_list.
  - intros [v Hv]. exists (k, v). by rewrite elem_of_map_to_list.
Qed.

(** ** Lists *)

(** [iter_mut().find(p)] followed by an assignment through the reference:
    [None] when nothing matches. *)
Fixpoint update_first {A} (p : A -> bool) (f : A -> A) (l : list A) : option (list A) :=
  match l with
  | [] => None
  | x :: l => if p x then Some (f x :: l)
              else match update_first p f l with
                   | Some l' => Some (x :: l')
                   | None => None
                   end
  end.

(** [iter().find(p)]. *)
Fixpoint find_first {A} (p : A -> bool) (l : list A) : option A :=
  match l with
  | [] => None
  | x :: l => if p x then Some x else find_first p l
  end.

(** [iter().position(p)]. *)
Fixpoint position {A} (p : A -> bool) (l : list A) : option nat :=
  match l with
  | [] => None
  | x :: l => if p x then Some 0 else S <$> position p l
  end.

(** [Vec::retain(p)] and [Iterator::filter(p)]. *)
Fixpoint retain {A} (p : A -> bool) (l : list A) : list A :=
  match l with
  | [] => []
  | x :: l => if p x then x :: retain p l else retain p l
  end.

(** [Vec::pop]: the last element, and the vector without it. *)
Definition vec_pop {A} (l : list A) : option (A * list A) :=
  match reverse l with
  | [] => None
  | x :: l => Some (x, reverse l)
  end.

Section lists.
Context {A : Type}.
Implicit Types (p : A -> bool) (l : list A).

Lemma update_first_None p f l :
  update_first p f l = None <-> Forall (fun x => p x = false) l.
Proof.
  induction l as [|x l IH]; simpl; [by split|].
  rewrite Forall_cons, <- IH. destruct (p x), (update_first p f l); intuition congruence.
Qed.

Lemma update_first_Some p f l l' :
  update_first p f l = Some l' <->
  exists l1 x l2, l = l1 ++ x :: l2 /\ l' = l1 ++ f x :: l2 /\ p x = true
                  /\ Forall (fun y => p y = false) l1.
Proof.
  split.
  - revert l'. induction l as [|x l IH]; simpl; intros l' Hl; [done|].
    destruct (p x) eqn:Hp; simplify_eq/=.
    + exists [], x, l. repeat split; auto.
    + destruct (update_first p f l) as [l''|]; simplify_eq/=.
      destruct (IH l'' eq_refl) as (l1 & y & l2 & -> & -> & ? & ?).
      exists (x :: l1), y, l2. repeat split; auto.
  - intros (l1 & x & l2 & -> & -> & Hx & Hl1).
    induction Hl1 as [|y l1 Hy ? IH]; simpl; [by rewrite Hx|by rewrite Hy, IH].
Qed.

Lemma find_first_Some p l x :
  find_first p l = Some x <->
  exists l1 l2, l = l1 ++ x :: l2 /\ p x = true /\ Forall (fun y => p y = false) l1.
Proof.
  split.
  - induction l as [|y l IH]; simpl; intros; [done|].
    destruct (p y) eqn:Hp; simplify_eq/=.
    + exists [], l. auto.
    + destruct IH as (l1 & l2 & -> & ? & ?); [done|].
      exists (y :: l1), l2. repeat split; auto.
  - intros (l1 & l2 & -> & Hx & Hl1).
    induction Hl1 as [|y l1 Hy ? IH]; simpl; [by rewrite Hx|by rewrite Hy, IH].
Qed.

Lemma find_first_None p l : find_first p l = None <-> Forall (fun x => p x = false) l.
Proof.
  induction l as [|x l IH]; simpl; [by split|].
  rewrite Forall_cons, <- IH. destruct (p x); intuition congruence.
Qed.

Lemma find_first_elem_of p l x : find_first p l = Some x -> x ∈ l /\ p x = true.
Proof. intros (l1 & l2 & -> & ? & _)%find_first_Some. set_solver. Qed.

Lemma elem_of_retain p l x : x ∈ retain p l <-> x ∈ l /\ p x = true.
Proof.
  induction l as [|y l IH]; simpl; [set_solver|].
  destruct (p y) eqn:Hp.
  - rewrite !elem_of_cons, IH. split; [|tauto]. intros [->|[]]; auto.
  - rewrite IH, elem_of_cons. split; [tauto|]. intros [[->|] ?]; [congruence|done].
Qed.

Lemma retain_sublist p l : sublist (retain p l) l.
Proof. induction l as [|y l IH]; simpl; [constructor|]. destruct (p y); by constructor. Qed.

Lemma retain_length p l : length (retain p l) <= length l.
Proof. apply sublist_length, retain_sublist. Qed.

Lemma retain_same_length p l : length (retain p l) = length l -> retain p l = l.
Proof.
  induction l as [|y l IH]; simpl; [done|].
  pose proof (retain_length p l). destruct (p y); simpl; intros; [f_equal; auto|lia].
Qed.

Lemma retain_app p l1 l2 : retain p (l1 ++ l2) = retain p l1 ++ retain p l2.
Proof. induction l1 as [|y l1 IH]; simpl; [done|]. destruct (p y); simpl; by rewrite IH. Qed.

Lemma retain_all p l : Forall (fun x => p x = true) l -> retain p l = l.
Proof. induction 1 as [|x l Hx ? IH]; simpl; [done|]. by rewrite Hx, IH. Qed.

Lemma retain_none p l : Forall (fun x => p x = false) l -> retain p l = [].
Proof. induction 1 as [|x l Hx ? IH]; simpl; [done|]. by rewrite Hx. Qed.

Lemma retain_ext p q l : (forall x, x ∈ l -> p x = q x) -> retain p l = retain q l.
Proof.
  induction l as [|y l IH]; simpl; intros Hpq; [done|].
  rewrite Hpq by set_solver. rewrite IH; [done|]. set_solver.
Qed.

Lemma retain_retain p q l : retain p (retain q l) = retain (fun x => q x && p x) l.
Proof. induction l as [|y l IH]; simpl; [done|]. destruct (q y); simpl; rewrite IH; done. Qed.

Lemma retain_nil_inv p l : retain p l = [] -> Forall (fun x => p x = false) l.
Proof. induction l as [|y l IH]; simpl; [constructor|]. destruct (p y) eqn:?; naive_solver. Qed.

Lemma NoDup_retain p l : NoDup l -> NoDup (retain p l).
Proof. intros. by eapply sublist_NoDup, retain_sublist. Qed.

Lemma retain_Permutation p l l' : l ≡ₚ l' -> retain p l ≡ₚ retain p l'.
Proof.
  induction 1; simpl; repeat case_match; auto using perm_swap; by etrans.
Qed.

Lemma find_first_app p l1 l2 :
  find_first p (l1 ++ l2) = match find_first p l1 with Some x => Some x | None => find_first p l2 end.
Proof. induction l1 as [|x l1 IH]; simpl; [done|]. by destruct (p x). Qed.

Lemma find_update_same p f l l' :
  (forall x, p x = true -> p (f x) = true) ->
  update_first p f l = Some l' -> find_first p l' = f <$> find_first p l.
Proof.
  intros Hf. revert l'. induction l as [|x l IH]; simpl; intros l' Hl; [done|].
  destruct (p x) eqn:Hp; simplify_eq/=; [by rewrite Hf|].
  destruct (update_first p f l); simplify_eq/=. rewrite Hp. auto.
Qed.

Lemma find_update_other p q f l l' :
  (forall x, p x = true -> q x = false /\ q (f x) = false) ->
  update_first p f l = Some l' -> find_first q l' = find_first q l.
Proof.
  intros Hq. revert l'. induction l as [|x l IH]; simpl; intros l' Hl; [done|].
  destruct (p x) eqn:Hp; simplify_eq/=.
  - by destruct (Hq x Hp) as [-> ->].
  - destruct (update_first p f l) as [l''|]; simplify_eq/=. by rewrite (IH l'' eq_refl).
Qed.

Lemma update_first_is_Some p f l x :
  find_first p l = Some x -> is_Some (update_first p f l).
Proof.
  induction l as [|y l IH]; simpl; [done|]. destruct (p y); [by eexists|].
  intros Hx. destruct (IH Hx) as [l' ->]. by eexists.
Qed.

Lemma update_first_Forall (P : A -> Prop) p f l l' :
  update_first p f l = Some l' -> Forall P l ->
  (forall x, x ∈ l -> p x = true -> P x -> P (f x)) -> Forall P l'.
Proof.
  intros (l1 & x & l2 & -> & -> & Hx & _)%update_first_Some Hall Hf.
  rewrite Forall_app, Forall_cons in *. destruct Hall as (? & ? & ?).
  repeat split; auto. apply Hf; [set_solver|done|done].
Qed.

Lemma update_first_fmap {K} (key : A -> K) p f l l' :
  update_first p f l = Some l' -> (forall x, p x = true -> key (f x) = key x) ->
  key <$> l' = key <$> l.
Proof.
  intros (l1 & x & l2 & -> & -> & Hx & _)%update_first_Some Hf.
  by rewrite !fmap_app, !fmap_cons, Hf.
Qed.

Lemma find_retain_same p q l :
  (forall x, x ∈ l -> q x = true -> p x = true) -> find_first q (retain p l) = find_first q l.
Proof.
  induction l as [|x l IH]; simpl; intros Hq; [done|].
  assert (IH' : find_first q (retain p l) = find_first q l) by (apply IH; set_solver).
  destruct (q x) eqn:Hqx.
  - rewrite (Hq x); [|set_solver|done]. simpl. by rewrite Hqx.
  - destruct (p x); simpl; [by rewrite Hqx|done].
Qed.

Lemma find_retain_none p q l :
  (forall x, q x = true -> p x = false) -> find_first q (retain p l) = None.
Proof.
  intros Hq. apply find_first_None, Forall_forall. intros x [_ Hp]%elem_of_retain.
  destruct (q x) eqn:Hqx; [|done]. by rewrite (Hq x Hqx) in Hp.
Qed.

Lemma find_first_ext p q l : (forall x, x ∈ l -> p x = q x) -> find_first p l = find_first q l.
Proof.
  induction l as [|x l IH]; simpl; intros Hpq; [done|].
  rewrite (Hpq x) by set_solver. rewrite IH; [done|]. set_solver.
Qed.

Lemma NoDup_fmap_eq {K} (key : A -> K) l x y :
  NoDup (key <$> l) -> x ∈ l -> y ∈ l -> key x = key y -> x = y.
Proof.
  induction l as [|z l IH]; intros Hnd Hx Hy Hk; [by apply not_elem_of_nil in Hx|].
  rewrite fmap_cons, NoDup_cons in Hnd. destruct Hnd as [Hz Hnd].
  apply elem_of_cons in Hx as [->|Hx], Hy as [->|Hy]; auto;
    exfalso; apply Hz, list_elem_of_fmap; eauto.
Qed.

(** With distinct keys, finding by key is membership. *)
Lemma find_first_key {K} (key : A -> K) p k l x :
  (forall y, p y = true <-> key y = k) -> NoDup (key <$> l) ->
  find_first p l = Some x <-> x ∈ l /\ key x = k.
Proof.
  intros Hp Hnd. split.
  - intros [Hin Hx]%find_first_elem_of. by rewrite Hp in Hx.
  - intros [Hin Hk]. induction l as [|y l IH]; [by apply not_elem_of_nil in Hin|]. simpl.
    rewrite fmap_cons, NoDup_cons in Hnd. destruct Hnd as [Hy Hnd].
    apply elem_of_cons in Hin as [->|Hin]; [by rewrite (proj2 (Hp y) Hk)|].
    destruct (p y) eqn:Hpy; [|auto]. exfalso. apply Hy. apply Hp in Hpy.
    rewrite Hpy, <- Hk. apply list_elem_of_fmap. eauto.
Qed.

Lemma vec_pop_Some l x l' : vec_pop l = Some (x, l') <-> l = l' ++ [x].
Proof.
  unfold vec_pop. split.
  - destruct (reverse l) as [|y k] eqn:Hl; intros; simplify_eq.
    rewrite <- (reverse_involutive l), Hl. by rewrite reverse_cons.
  - intros ->. rewrite reverse_app. simpl. by rewrite reverse_involutive.
Qed.

Lemma vec_pop_None l : vec_pop l = None <-> l = [].
Proof.
  unfold vec_pop. destruct (reverse l) as [|y k] eqn:Hl; split; intros; simplify_eq; auto.
  by rewrite <- (reverse_involutive l), Hl.
Qed.
End lists.

#[export] Hint Resolve NoDup_retain : stouter.

(** [for x in l { if bad(x) { return true } }] as [any], and [all]. *)
Abbreviation any := existsb.
Abbreviation all := forallb.

Lemma any_true {A} (p : A -> bool) l : any p l = true <-> exists x, x ∈ l /\ p x = true.
Proof.
  rewrite existsb_exists. split; intros (x & Hx & ?); exists x;
    by rewrite list_elem_of_In in *.
Qed.

Lemma any_false {A} (p : A -> bool) l : any p l = false <-> Forall (fun x => p x = false) l.
Proof.
  induction l as [|x l IH]; simpl; [by split|].
  rewrite orb_false_iff, Forall_cons, IH. done.
Qed.

Lemma all_true {A} (p : A -> bool) l : all p l = true <-> Forall (fun x => p x = true) l.
Proof.
  induction l as [|x l IH]; simpl; [by split|].
  rewrite andb_true_iff, Forall_cons, IH. done.
Qed.

(** What a loop with a growing [HashSet] of the keys seen checks: distinct
    keys, none of them in the set. *)
Definition fresh {A K} `{Countable K} (key : A -> K) (seen : gset K) (l : list A) : Prop :=
  NoDup (key <$> l) /\ (forall x, x ∈ l -> key x ∉ seen).

Lemma fresh_nil {A K} `{Countable K} (key : A -> K) seen : fresh key seen [].
Proof. split; [constructor|]. by intros ? ?%not_elem_of_nil. Qed.

Lemma fresh_cons {A K} `{Countable K} (key : A -> K) seen x l :
  fresh key seen (x :: l) <-> (key x ∉ seen) /\ fresh key ({[key x]} ∪ seen) l.
Proof.
  unfold fresh. rewrite fmap_cons, NoDup_cons. split.
  - intros ((Hx & Hnd) & Hin). split; [apply Hin, elem_of_cons; by left|]. split; [done|].
    intros y Hy [Heq%elem_of_singleton|Hi]%elem_of_union.
    + apply Hx. rewrite <- Heq. apply list_elem_of_fmap. eauto.
    + apply (Hin y); [|done]. apply elem_of_cons. by right.
  - intros (Hx & Hnd & Hin). split; [split; [|done]|].
    + intros (y & Heq & Hy)%list_elem_of_fmap. apply (Hin y Hy). rewrite <- Heq.
      apply elem_of_union; left. by apply elem_of_singleton.
    + intros y [->|Hy]%elem_of_cons; [done|]. intros Hi. apply (Hin y Hy).
      apply elem_of_union. by right.
Qed.

Lemma fresh_empty {A K} `{Countable K} (key : A -> K) l :
  fresh key ∅ l <-> NoDup (key <$> l).
Proof. unfold fresh. split; [by intros [? _]|]. split; [done|]. set_solver. Qed.

(** Sums. *)
Definition sumZ {A} (f : A -> Z) (l : list A) : Z := foldr (fun x s => f x + s)%Z 0%Z l.

Section sums.
Context {A : Type}.
Implicit Types (f g : A -> Z) (l : list A).
Local Open Scope Z_scope.

Lemma sumZ_app f l1 l2 : sumZ f (l1 ++ l2) = sumZ f l1 + sumZ f l2.
Proof. induction l1; simpl in *; lia. Qed.

Lemma sumZ_ext f g l : (forall x, x ∈ l -> f x = g x) -> sumZ f l = sumZ g l.
Proof.
  induction l as [|x l IH]; simpl; intros Hfg; [done|].
  rewrite Hfg by set_solver. rewrite IH; [done|]. set_solver.
Qed.

Lemma sumZ_add f g l : sumZ (fun x => f x + g x) l = sumZ f l + sumZ g l.
Proof. induction l; simpl in *; lia. Qed.

Lemma sumZ_scale c f l : sumZ (fun x => c * f x) l = c * sumZ f l.
Proof. induction l; simpl in *; lia. Qed.

Lemma sumZ_le f g l : (forall x, x ∈ l -> f x <= g x) -> sumZ f l <= sumZ g l.
Proof.
  induction l as [|x l IH]; simpl; intros Hfg; [lia|].
  assert (f x <= g x) by (apply Hfg; set_solver).
  assert (sumZ f l <= sumZ g l) by (apply IH; set_solver). lia.
Qed.

Lemma sumZ_nonneg f l : (forall x, x ∈ l -> 0 <= f x) -> 0 <= sumZ f l.
Proof.
  induction l as [|x l IH]; simpl; intros Hf; [lia|].
  assert (0 <= f x) by (apply Hf; set_solver).
  assert (0 <= sumZ f l) by (apply IH; set_solver). lia.
Qed.

(** A sum of pointwise dominated terms that is equal is equal termwise. *)
Lemma sumZ_le_eq f g l :
  (forall x, x ∈ l -> f x <= g x) -> sumZ f l = sumZ g l -> forall x, x ∈ l -> f x = g x.
Proof.
  induction l as [|y l IH]; simpl; intros Hfg Heq x Hx; [set_solver|].
  assert (f y <= g y) by (apply Hfg; set_solver).
  assert (sumZ f l <= sumZ g l) by (apply sumZ_le; set_solver).
  apply elem_of_cons in Hx as [->|Hx]; [lia|].
  apply IH; [set_solver|lia|done].
Qed.

Lemma sumZ_indicator `{EqDecision A} (c : Z) y l :
  NoDup l -> y ∈ l -> sumZ (fun x => if decide (x = y) then c else 0) l = c.
Proof.
  induction 1 as [|x l Hx Hl IH]; simpl; [set_solver|]. intros Hy.
  destruct (decide (x = y)) as [->|].
  - rewrite (sumZ_ext _ (fun _ => 0 * 0)).
    + rewrite sumZ_scale. lia.
    + intros z Hz. rewrite decide_False; [done|]. by intros ->.
  - rewrite IH; [lia|]. set_solver.
Qed.

Lemma sumZ_Permutation f l l' : l ≡ₚ l' -> sumZ f l = sumZ f l'.
Proof. induction 1; simpl in *; lia. Qed.
End sums.

Lemma NoDup_snoc {A} (l : list A) x : NoDup l -> x ∉ l -> NoDup (l ++ [x]).
Proof.
  intros Hl Hx. apply NoDup_app. split; [done|]. split; [|apply NoDup_singleton].
  by intros y Hy ->%list_elem_of_singleton.
Qed.

(** ** Strings

    A [String] is its UTF-8 bytes. *)

Definition str_eqb (a b : string) : bool := bool_decide (a = b).

Lemma str_eqb_true a b : str_eqb a b = true <-> a = b.
Proof. unfold str_eqb. apply bool_decide_eq_true. Qed.

Lemma str_eqb_false a b : str_eqb a b = false <-> a <> b.
Proof. unfold str_eqb. apply bool_decide_eq_false. Qed.

Lemma str_eqb_refl a : str_eqb a a = true.
Proof. by apply str_eqb_true. Qed.

#[export] Hint Rewrite str_eqb_true str_eqb_false str_eqb_refl : stouter.

Fixpoint str_to_list (s : string) : list ascii :=
  match s with EmptyString => [] | String c s => c :: str_to_list s end.

Fixpoint list_to_str (l : list ascii) : string :=
  match l with [] => EmptyString | c :: l => String c (list_to_str l) end.

Lemma list_to_str_to_list s : list_to_str (str_to_list s) = s.
Proof. induction s; simpl; congruence. Qed.

Lemma str_to_list_to_str l : str_to_list (list_to_str l) = l.
Proof. induction l; simpl; congruence. Qed.

#[export] Hint Rewrite list_to_str_to_list str_to_list_to_str : stouter.

Lemma str_app_nil s : "" +:+ s = s.
Proof. done. Qed.

Lemma str_app_cons c a b : String c a +:+ b = String c (a +:+ b).
Proof. done. Qed.

Lemma str_app_assoc (a b c : string) : a +:+ (b +:+ c) = (a +:+ b) +:+ c.
Proof. induction a as [|x a IH]; [done|]. by rewrite !str_app_cons, IH. Qed.

Lemma substring_all s : String.substring 0 (String.length s) s = s.
Proof. induction s as [|c s IH]; [done|]. simpl. by rewrite IH. Qed.

Lemma str_app_nil_r s : s +:+ "" = s.
Proof. induction s as [|x a IH]; [done|]. by rewrite str_app_cons, IH. Qed.

#[export] Hint Rewrite str_app_nil str_app_cons str_app_nil_r : stouter.

Definition str_is_empty (s : string) : bool :=
  match s with EmptyString => true | _ => false end.

(** [str::strip_prefix]. *)
Fixpoint strip_prefix (pre s : string) : option string :=
  match pre, s with
  | EmptyString, _ => Some s
  | String c pre, String d s => if Ascii.eqb c d then strip_prefix pre s else None
  | String _ _, EmptyString => None
  end.

Definition starts_with (pre s : string) : bool :=
  match strip_prefix pre s with Some _ => true | None => false end.

(** [str::strip_suffix]. *)
Definition strip_suffix (suf s : string) : option string :=
  String.rev <$> strip_prefix (String.rev suf) (String.rev s).

Definition ends_with (suf s : string) : bool :=
  match strip_suffix suf s with Some _ => true | None => false end.

Definition str_contains (c : ascii) (s : string) : bool :=
  any (Ascii.eqb c) (str_to_list s).

Lemma strip_prefix_Some pre s rest : strip_prefix pre s = Some rest <-> s = (pre +:+ rest)%string.
Proof.
  revert s. induction pre as [|c pre IH]; intros s; simpl.
  { split; [by intros [= ->]|by intros ->]. }
  destruct s as [|d s]; [split; [done|discriminate]|].
  destruct (Ascii.eqb_spec c d) as [->|Hne].
  - rewrite IH. split; [by intros ->|by intros [= ->]].
  - split; [done|]. intros [= Heq _]. by destruct Hne.
Qed.

Lemma str_to_list_app a b : str_to_list (a +:+ b) = str_to_list a ++ str_to_list b.
Proof. induction a as [|c a IH]; [done|]. rewrite str_app_cons. cbn [str_to_list]. by rewrite IH. Qed.

Lemma str_to_list_inj a b : str_to_list a = str_to_list b -> a = b.
Proof. intros Hab. by rewrite <- (list_to_str_to_list a), Hab, list_to_str_to_list. Qed.

Lemma length_str_to_list s : length (str_to_list s) = String.length s.
Proof. induction s; simpl; congruence. Qed.

Lemma str_to_list_rev s : str_to_list (String.rev s) = reverse (str_to_list s).
Proof.
  unfold String.rev. rewrite <- (app_nil_r (reverse _)). change (@nil ascii) with (str_to_list "").
  generalize "" as acc. induction s as [|c s IH]; intros acc; [done|].
  cbn [str_to_list String.rev_app]. rewrite IH, reverse_cons, <- (assoc_L (++)). done.
Qed.

Lemma strip_suffix_app a suf : strip_suffix suf (a +:+ suf) = Some a.
Proof.
  unfold strip_suffix. rewrite (proj2 (strip_prefix_Some _ _ (String.rev a))).
  - simpl. f_equal. apply str_to_list_inj. by rewrite !str_to_list_rev, reverse_involutive.
  - apply str_to_list_inj. by rewrite str_to_list_app, !str_to_list_rev, str_to_list_app, reverse_app.
Qed.

Definition code (c : ascii) : Z := Z.of_N (N_of_ascii c).
Definition of_code (z : Z) : ascii := ascii_of_N (Z.to_N z).

Definition is_ascii_uppercase (c : ascii) : bool := (65 <=? code c)%Z && (code c <=? 90)%Z.
Definition is_ascii_digit (c : ascii) : bool := (48 <=? code c)%Z && (code c <=? 57)%Z.
(** [u8::is_ascii_whitespace]: space, [\t], [\n], form feed, [\r]. *)
Definition is_ascii_whitespace (c : ascii) : bool :=
  any (Z.eqb (code c)) [32; 9; 10; 12; 13]%Z.
Definition is_ascii_control (c : ascii) : bool := (code c <? 32)%Z || (code c =? 127)%Z.
Definition is_ascii (c : ascii) : bool := (code c <? 128)%Z.

Definition to_lower (c : ascii) : ascii :=
  if is_ascii_uppercase c then of_code (code c + 32) else c.

Fixpoint str_map (f : ascii -> ascii) (s : string) : string :=
  match s with EmptyString => EmptyString | String c s => String (f c) (str_map f s) end.

Definition to_ascii_lowercase (s : string) : string := str_map to_lower s.

Definition eq_ignore_ascii_case (a b : string) : bool :=
  str_eqb (to_ascii_lowercase a) (to_ascii_lowercase b).

(** [str::split(c)]: always at least one piece. *)
Fixpoint str_split (c : ascii) (s : string) : list string :=
  match s with
  | EmptyString => [EmptyString]
  | String d s =>
      let rest := str_split c s in
      if Ascii.eqb c d then EmptyString :: rest
      else match rest with
           | p :: ps => String d p :: ps
           | [] => [String d EmptyString]
           end
  end.

(** [str::split_once(c)]: around the first occurrence. *)
Fixpoint split_once (c : ascii) (s : string) : option (string * string) :=
  match s with
  | EmptyString => None
  | String d s =>
      if Ascii.eqb c d then Some (EmptyString, s)
      else match split_once c s with
           | Some (a, b) => Some (String d a, b)
           | None => None
           end
  end.

(** [str::rsplit_once(c)]: around the last occurrence. *)
Fixpoint rsplit_once (c : ascii) (s : string) : option (string * string) :=
  match s with
  | EmptyString => None
  | String d s =>
      match rsplit_once c s with
      | Some (a, b) => Some (String d a, b)
      | None => if Ascii.eqb c d then Some (EmptyString, s) else None
      end
  end.

(** Decimal rendering, as [{}] formats an integer. *)
Definition show (z : Z) : string := pretty z.

(** ** Executions: finite sequences of steps *)

Section steps.
Context {S : Type} (step : S -> S -> Prop).

Inductive steps : S -> S -> Prop :=
| steps_refl s : steps s s
| steps_step s1 s2 s3 : steps s1 s2 -> step s2 s3 -> steps s1 s3.

Lemma steps_invariant (I : S -> Prop) s s' :
  (forall s1 s2, I s1 -> step s1 s2 -> I s2) -> I s -> steps s s' -> I s'.
Proof. intros Hstep HI. induction 1; eauto. Qed.

Lemma steps_trans s1 s2 s3 : steps s1 s2 -> steps s2 s3 -> steps s1 s3.
Proof. intros H12. induction 1; eauto using steps. Qed.

(** A relation preserved by every step and transitive holds across an
    execution. *)
Lemma steps_relates (R : S -> S -> Prop) s s' :
  (forall s, R s s) -> (forall a b c, R a b -> R b c -> R a c) ->
  (forall s1 s2, step s1 s2 -> R s1 s2) -> steps s s' -> R s s'.
Proof. intros Hrefl Htrans Hstep. induction 1; eauto. Qed.
End steps.

#[export] Hint Constructors steps : stouter.

(** Turn boolean tests in the context into the propositions they decide. *)
Ltac bool_hyps :=
  repeat match goal with
  | H : _ && _ = true |- _ => apply andb_true_iff in H as [? ?]
  | H : _ || _ = false |- _ => apply orb_false_iff in H as [? ?]
  | H : negb _ = true |- _ => apply negb_true_iff in H
  | H : negb _ = false |- _ => apply negb_false_iff in H
  | H : str_eqb _ _ = true |- _ => apply str_eqb_true in H
  | H : str_eqb _ _ = false |- _ => apply str_eqb_false in H
  | H : bool_decide _ = true |- _ => apply bool_decide_eq_true in H
  | H : bool_decide _ = false |- _ => apply bool_decide_eq_false in H
  | H : (_ <? _)%Z = true |- _ => apply Z.ltb_lt in H
  | H : (_ <? _)%Z = false |- _ => apply Z.ltb_ge in H
  | H : (_ <=? _)%Z = true |- _ => apply Z.leb_le in H
  | H : (_ <=? _)%Z = false |- _ => apply Z.leb_gt in H
  | H : (_ =? _)%Z = true |- _ => apply Z.eqb_eq in H
  | H : (_ =? _)%Z = false |- _ => apply Z.eqb_neq in H
  | H : (_ <? _)%nat = true |- _ => apply Nat.ltb_lt in H
  | H : (_ <? _)%nat = false |- _ => apply Nat.ltb_ge in H
  | H : (_ <=? _)%nat = true |- _ => apply Nat.leb_le in H
  | H : (_ <=? _)%nat = false |- _ => apply Nat.leb_gt in H
  | H : (_ =? _)%nat = true |- _ => apply Nat.eqb_eq in H
  | H : (_ =? _)%nat = false |- _ => apply Nat.eqb_neq in H
  end.
