(* ===== verification/NetAddr.v ===== *)
(** * Socket addresses

    [std::net::SocketAddr] as the configuration uses it: its textual parser
    ([str::parse]), [is_loopback] and [is_unspecified]. The parser follows the
    standard library's: a parser reads a prefix of its input and returns the
    rest, and a failed alternative consumes nothing. *)

From S2P Require Import Prelude.

Inductive IpAddr :=
| V4 (a b c d : Z)
| V6 (segments : list Z).
#[global] Arguments V6 segments%_Z_scope.

Record SocketAddr := { sa_ip : IpAddr; sa_port : Z }.

#[export] Instance IpAddr_eq_dec : EqDecision IpAddr.
Proof. solve_decision. Defined.
#[export] Instance SocketAddr_eq_dec : EqDecision SocketAddr.
Proof. solve_decision. Defined.

Definition parser (A : Type) : Type := string -> option (A * string).

(** [char::to_digit(radix)], for radix 10 and 16. *)
Definition to_digit (radix : Z) (c : ascii) : option Z :=
  let k := code c in
  let d := if is_ascii_digit c then Some (k - 48)%Z
           else if (97 <=? k)%Z && (k <=? 122)%Z then Some (k - 87)%Z
           else if is_ascii_uppercase c then Some (k - 55)%Z
           else None in
  match d with
  | Some v => if (v <? radix)%Z then Some v else None
  | None => None
  end.

Definition read_given_char (c : ascii) : parser unit := fun s =>
  match s with
  | String d rest => if Ascii.eqb c d then Some (tt, rest) else None
  | EmptyString => None
  end.

(** The digits at the head of the input, and the rest. *)
Fixpoint read_digits (radix : Z) (s : string) : list Z * string :=
  match s with
  | EmptyString => ([], EmptyString)
  | String c rest =>
      match to_digit radix c with
      | Some v => let '(ds, rest') := read_digits radix rest in (v :: ds, rest')
      | None => ([], s)
      end
  end.

Definition digits_value (radix : Z) (ds : list Z) : Z :=
  foldl (fun acc d => acc * radix + d)%Z 0%Z ds.

Definition has_leading_zero (s : string) : bool :=
  match s with String c _ => (code c =? 48)%Z | EmptyString => false end.

(** A number of at most [max] ([T::MAX]); [max_digits] bounds its length. *)
Definition read_number (radix max : Z) (max_digits : option nat)
    (allow_zero_prefix : bool) : parser Z := fun s =>
  let '(ds, rest) := read_digits radix s in
  if match max_digits with Some m => m <? length ds | None => false end then None
  else if length ds =? 0 then None
  else if negb allow_zero_prefix && has_leading_zero s && (1 <? length ds) then None
  else let v := digits_value radix ds in
       if (v <=? max)%Z then Some (v, rest) else None.

(** The separator is read before every item but the first. *)
Definition read_separator {A} (sep : ascii) (index : nat) (inner : parser A) : parser A := fun s =>
  if 0 <? index
  then let* (_, s) := read_given_char sep s in inner s
  else inner s.

Definition read_ipv4_addr : parser (Z * Z * Z * Z) := fun s =>
  let octet i := read_separator "." i (read_number 10 255 (Some 3) false) in
  let* (a, s) := octet 0 s in
  let* (b, s) := octet 1 s in
  let* (c, s) := octet 2 s in
  let* (d, s) := octet 3 s in
  Some ((a, b, c, d), s).

(** Up to [fuel] more groups after the [i] already read; the flag says an
    IPv4 address ended them. *)
Fixpoint read_groups (fuel i : nat) (s : string) : list Z * bool * string :=
  match fuel with
  | 0 => ([], false, s)
  | S fuel' =>
      let ipv4 := if 0 <? fuel' then read_separator ":" i read_ipv4_addr s else None in
      match ipv4 with
      | Some ((a, b, c, d), s') => ([a * 256 + b; c * 256 + d]%Z, true, s')
      | None =>
          match read_separator ":" i (read_number 16 u16_max (Some 4) true) s with
          | Some (g, s') =>
              let '(gs, v4, s'') := read_groups fuel' (S i) s' in (g :: gs, v4, s'')
          | None => ([], false, s)
          end
      end
  end.

Definition read_ipv6_addr : parser (list Z) := fun s =>
  let '(head, head_ipv4, s1) := read_groups 8 0 s in
  if length head =? 8 then Some (head, s1)
  else if head_ipv4 then None
  else
    let* (_, s2) := read_given_char ":" s1 in
    let* (_, s3) := read_given_char ":" s2 in
    let '(tail, _, s4) := read_groups (8 - (length head + 1)) 0 s3 in
    Some (head ++ replicate (8 - length head - length tail) 0%Z ++ tail, s4).

Definition read_port : parser Z := fun s =>
  let* (_, s) := read_given_char ":" s in
  read_number 10 u16_max None true s.

Definition read_scope_id : parser Z := fun s =>
  let* (_, s) := read_given_char "%" s in
  read_number 10 u32_max None true s.

Definition read_socket_addr_v4 : parser SocketAddr := fun s =>
  let* ((a, b, c, d), s) := read_ipv4_addr s in
  let* (port, s) := read_port s in
  Some ({| sa_ip := V4 a b c d; sa_port := port |}, s).

Definition read_socket_addr_v6 : parser SocketAddr := fun s =>
  let* (_, s) := read_given_char "[" s in
  let* (segs, s) := read_ipv6_addr s in
  let s := match read_scope_id s with Some (_, s') => s' | None => s end in
  let* (_, s) := read_given_char "]" s in
  let* (port, s) := read_port s in
  Some ({| sa_ip := V6 segs; sa_port := port |}, s).

(** [str::parse::<SocketAddr>()]: the whole input must be consumed. *)
Definition parse_socket_addr (s : string) : option SocketAddr :=
  let r := match read_socket_addr_v4 s with
           | Some r => Some r
           | None => read_socket_addr_v6 s
           end in
  match r with
  | Some (a, EmptyString) => Some a
  | _ => None
  end.

Definition is_loopback (ip : IpAddr) : bool :=
  match ip with
  | V4 a _ _ _ => (a =? 127)%Z
  | V6 segs => bool_decide (segs = [0; 0; 0; 0; 0; 0; 0; 1]%Z)
  end.

Definition is_unspecified (ip : IpAddr) : bool :=
  match ip with
  | V4 a b c d => bool_decide ((a, b, c, d) = (0, 0, 0, 0)%Z)
  | V6 segs => bool_decide (segs = [0; 0; 0; 0; 0; 0; 0; 0]%Z)
  end.

(** [str::parse::<u16>()]: an optional [+], then digits. *)
Definition parse_u16 (s : string) : option Z :=
  let digits := match strip_prefix "+" s with Some rest => rest | None => s end in
  match read_number 10 u16_max None true digits with
  | Some (v, EmptyString) => Some v
  | _ => None
  end.

(** ** Bounds *)

Lemma to_digit_range radix c v : to_digit radix c = Some v -> (0 <= v < radix)%Z.
Proof.
  unfold to_digit, is_ascii_digit, is_ascii_uppercase. intros Hv.
  repeat case_match; simplify_eq;
    repeat match goal with
    | H : _ && _ = true |- _ => apply andb_true_iff in H as [?%Z.leb_le ?%Z.leb_le]
    | H : (_ <? _)%Z = true |- _ => apply Z.ltb_lt in H
    end; lia.
Qed.

Lemma read_digits_range radix s :
  Forall (fun d => 0 <= d < radix)%Z (read_digits radix s).1.
Proof.
  induction s as [|c s IH]; simpl; [constructor|].
  destruct (to_digit radix c) as [v|] eqn:Hv; [|constructor].
  destruct (read_digits radix s). constructor; [by eapply to_digit_range|done].
Qed.

Lemma digits_value_nonneg radix ds :
  (0 <= radix)%Z -> Forall (fun d => 0 <= d < radix)%Z ds -> (0 <= digits_value radix ds)%Z.
Proof.
  intros Hr. unfold digits_value.
  assert (Hgen : forall acc, (0 <= acc)%Z -> Forall (fun d => 0 <= d < radix)%Z ds ->
    (0 <= foldl (fun acc d => acc * radix + d) acc ds)%Z).
  { induction ds as [|d ds IH]; simpl; intros acc Hacc Hds; [done|].
    apply Forall_cons in Hds as [Hd Hds]. apply IH; [nia|done]. }
  by apply Hgen.
Qed.

Lemma read_number_range radix max md az s v rest :
  (0 <= radix)%Z -> read_number radix max md az s = Some (v, rest) -> (0 <= v <= max)%Z.
Proof.
  unfold read_number. intros Hr Hs. pose proof (read_digits_range radix s) as Hds.
  destruct (read_digits radix s) as [ds rest']. repeat case_match; simplify_eq/=;
    (split; [by apply digits_value_nonneg|by apply Z.leb_le]).
Qed.

Lemma read_port_range s p rest : read_port s = Some (p, rest) -> (0 <= p <= u16_max)%Z.
Proof.
  unfold read_port. intros Hp. case_match; [|done]. case_match.
  by apply read_number_range in Hp.
Qed.

(** A parsed port is a [u16]. *)
Lemma parse_socket_addr_port s a :
  parse_socket_addr s = Some a -> (0 <= sa_port a <= u16_max)%Z.
Proof.
  unfold parse_socket_addr. intros Ha.
  assert (Hr : exists r, read_socket_addr_v4 s = Some (a, r)
    \/ read_socket_addr_v6 s = Some (a, r)).
  { destruct (read_socket_addr_v4 s) as [[? ?]|]; repeat case_match; simplify_eq; eauto. }
  destruct Hr as [r [Hr|Hr]];
    unfold read_socket_addr_v4, read_socket_addr_v6 in Hr; repeat case_match;
    simplify_eq; simpl; by eapply read_port_range.
Qed.

Lemma parse_u16_range s v : parse_u16 s = Some v -> (0 <= v <= u16_max)%Z.
Proof.
  unfold parse_u16. intros Hv. destruct (read_number _ _ _ _ _) as [[n [|]]|] eqn:Hn; simplify_eq.
  by apply read_number_range in Hn.
Qed.

Example parse_v4 : parse_socket_addr "127.0.0.1:15001" =
  Some {| sa_ip := V4 127 0 0 1; sa_port := 15001 |}.
Proof. vm_compute. reflexivity. Qed.
Example parse_v6 : parse_socket_addr "[::ffff:1.2.3.4%3]:80" =
  Some {| sa_ip := V6 [0; 0; 0; 0; 0; 65535; 258; 772]%Z; sa_port := 80 |}.
Proof. vm_compute. reflexivity. Qed.
Example parse_v6_any : (fun a => is_unspecified (sa_ip a)) <$> parse_socket_addr "[::]:8080" = Some true.
Proof. vm_compute. reflexivity. Qed.
Example parse_bad : parse_socket_addr "01.2.3.4:1" = None /\ parse_socket_addr "host:1" = None
  /\ parse_socket_addr "1.2.3.4:65536" = None.
Proof. vm_compute. auto. Qed.
