(* ===== verification/Json.v ===== *)
(** * serde's data model

    The values [serde_json] and [rmp_serde] read and write ([serde_json::Value]),
    and what [derive(Serialize, Deserialize)] makes of a type: a [Fmt] is its
    serializer, its deserializer and the values the Rust type has. [FmtOk] is what
    they promise each other. The formats of the program's own types are in
    ConfigFmt and Wire; the bytes of a value are the formats' own affair.

    A struct is a map of named fields or a sequence of them in order (the compact
    form of MessagePack); unknown fields are ignored, a repeated one is refused.
    An enum tagged from the inside has its tag among its fields. *)

From Stdlib Require Import SpecFloat.
From S2P Require Import Prelude.

#[local] Open Scope stouter_scope.

Create HintDb serde.

(** Values nest in lists, so that induction on them is by their fixpoints. *)
#[local] Unset Elimination Schemes.
Inductive Value :=
| VNull
| VBool (b : bool)
| VNum (n : Z)
| VFloat (f : spec_float)
| VStr (s : string)
| VArr (l : list Value)
| VObj (fields : list (string * Value)).
#[local] Set Elimination Schemes.

Definition is_finite (f : spec_float) : bool :=
  match f with S754_zero _ | S754_finite _ _ _ => true | _ => false end.

(** ** Fields *)

(** The field's value, if it is there; [None] when it is there twice. *)
Definition get (k : string) (fields : list (string * Value)) : option (option Value) :=
  match retain (fun kv => str_eqb kv.1 k) fields with
  | [] => Some None
  | [(_, v)] => Some (Some v)
  | _ => None
  end.

(** The entries of a struct's map, or of its sequence. *)
Definition as_fields (names : list string) (v : Value) : option (list (string * Value)) :=
  match v with
  | VObj fields => Some fields
  | VArr l => if length l <=? length names then Some (zip names l) else None
  | _ => None
  end.

(** What a struct writes: its fields in order, without the skipped ones. *)
Definition fields_of (l : list (string * option Value)) : list (string * Value) :=
  omap (fun '(k, o) => option_map (pair k) o) l.

Definition keys_ok (l : list (string * option Value)) : bool := bool_decide (NoDup l.*1).

(** The tag and the rest of an enum tagged with [#[serde(tag = ...)]]. *)
Definition untag (tag : string) (v : Value) : option (string * Value) :=
  match v with
  | VObj fields =>
      match get tag fields with
      | Some (Some (VStr t)) => Some (t, VObj (retain (fun kv => negb (str_eqb kv.1 tag)) fields))
      | _ => None
      end
  | VArr (VStr t :: rest) => Some (t, VArr rest)
  | _ => None
  end.

Definition tagged (tag t : string) (l : list (string * option Value)) : Value :=
  VObj ((tag, VStr t) :: fields_of l).

(** A variant without fields of an enum that is not tagged: its name. *)
Definition variant_name (v : Value) : option string :=
  match v with
  | VStr s | VObj [(s, VNull)] => Some s
  | _ => None
  end.

(** ** Formats *)

Record Fmt (A : Type) := {
  to_value : A -> Value;
  of_value : Value -> option A;
  valid : A -> Prop          (** the values of the Rust type *)
}.
Arguments to_value {A} _ _.
Arguments of_value {A} _ _.
Arguments valid {A} _ _.

(** Numbers and nothing else decide whether a value has a MessagePack form. *)
Fixpoint plain (v : Value) : Prop :=
  match v with
  | VNum n => (0 <= n <= u64_max)%Z
  | VArr l => (fix go l := match l with [] => True | v :: l => plain v /\ go l end) l
  | VObj l => (fix go (l : list (string * Value)) := match l with [] => True | (_, v) :: l => plain v /\ go l end) l
  | VFloat f => is_finite f = true
  | _ => True
  end.

(** What is written is read back; what is read is valid. *)
Class FmtWrite {A} (f : Fmt A) : Prop := {
  of_to : forall a, valid f a -> of_value f (to_value f a) = Some a;
  to_plain : forall a, valid f a -> plain (to_value f a)
}.
Class FmtRead {A} (f : Fmt A) : Prop := of_valid : forall v a, of_value f v = Some a -> valid f a.
Class FmtOk {A} (f : Fmt A) : Prop := { fmt_write :: FmtWrite f; fmt_read :: FmtRead f }.

Definition vbool : Fmt bool :=
  {| to_value := VBool; of_value v := match v with VBool b => Some b | _ => None end; valid _ := True |}.

Definition vstring : Fmt string :=
  {| to_value := VStr; of_value v := match v with VStr s => Some s | _ => None end; valid _ := True |}.

(** An unsigned integer of at most [max]. *)
Definition vuint (max : Z) : Fmt Z :=
  {| to_value := VNum;
     of_value v := match v with VNum n => if (0 <=? n)%Z && (n <=? max)%Z then Some n else None | _ => None end;
     valid n := (0 <= n <= max)%Z |}.

Abbreviation vu16 := (vuint u16_max).
Abbreviation vu32 := (vuint u32_max).
Abbreviation vu64 := (vuint u64_max).

(** [Option]: null or the value. *)
Definition voption {A} (f : Fmt A) : Fmt (option A) :=
  {| to_value o := match o with Some a => to_value f a | None => VNull end;
     of_value v := match v with VNull => Some None | v => option_map Some (of_value f v) end;
     valid o := match o with Some a => valid f a | None => True end |}.

Definition vlist {A} (f : Fmt A) : Fmt (list A) :=
  {| to_value l := VArr (to_value f <$> l);
     of_value v := match v with VArr l => mapM (of_value f) l | _ => None end;
     valid := Forall (valid f) |}.

(** [BTreeMap<String, String>]: written in key order; the last of equal keys is kept. *)
Definition vmap : Fmt (gmap string string) :=
  {| to_value m := VObj ((fun k => (k, VStr (default "" (m !! k)))) <$> btree_keys m);
     of_value v :=
       match v with
       | VObj fields =>
           foldl (fun o '(k, v) => let* m := o in let* s := of_value vstring v in Some (<[k := s]> m))
             (Some ∅) fields
       | _ => None
       end;
     valid _ := True |}.

(** A required field, and one with [#[serde(default)]]. *)
Definition field {A} (f : Fmt A) (k : string) (fields : list (string * Value)) : option A :=
  match get k fields with Some (Some v) => of_value f v | _ => None end.

Definition field_or {A} (f : Fmt A) (d : A) (k : string) (fields : list (string * Value)) : option A :=
  match get k fields with Some (Some v) => of_value f v | Some None => Some d | None => None end.

(** A field that is written, or skipped if it satisfies [skip_serializing_if]. *)
Definition req {A} (f : Fmt A) (k : string) (a : A) : string * option Value := (k, Some (to_value f a)).
Definition skip_if {A} (skip : A -> bool) (f : Fmt A) (k : string) (a : A) : string * option Value :=
  (k, if skip a then None else Some (to_value f a)).

Definition vstruct {A} (names : list string) (fields : A -> list (string * option Value))
    (read : list (string * Value) -> option A) (ok : A -> Prop) : Fmt A :=
  {| to_value a := VObj (fields_of (fields a));
     of_value v := let* fs := as_fields names v in read fs;
     valid := ok |}.

Definition is_nil {A} (l : list A) : bool := match l with [] => true | _ => false end.
Definition is_none {A} (o : option A) : bool := match o with None => true | _ => false end.
Definition map_is_empty (m : gmap string string) : bool := bool_decide (m = ∅).

(** ** Objects built and taken apart ([json!], [v[k]])

    A [serde_json::Map] is a [BTreeMap]: its keys are in order. *)

Fixpoint ordered_insert {V} (k : string) (v : V) (fs : list (string * V)) : list (string * V) :=
  match fs with
  | [] => [(k, v)]
  | (k', v') :: fs' =>
      match String.compare k k' with
      | Lt => (k, v) :: fs
      | _ => (k', v') :: ordered_insert k v fs'
      end
  end.

Definition has_key {V} (k : string) (fs : list (string * V)) : bool := any (fun kv => str_eqb kv.1 k) fs.

(** [Map::insert]: the key's value replaced, or a new entry in its place. *)
Definition obj_insert {V} (k : string) (v : V) (fs : list (string * V)) : list (string * V) :=
  if has_key k fs then (fun kv => if str_eqb kv.1 k then (k, v) else kv) <$> fs else ordered_insert k v fs.

(** [json!({...})], and the assignment [v[k] = x]. *)
Definition json_obj (l : list (string * Value)) : Value :=
  VObj (foldl (fun fs '(k, v) => obj_insert k v fs) [] l).
Definition json_set (k : string) (x : Value) (v : Value) : Value :=
  match v with VObj fs => VObj (obj_insert k x fs) | v => v end.

(** [v[k]]: null when there is no such field. *)
Definition json_index (v : Value) (k : string) : Value :=
  match v with
  | VObj fs => match last (retain (fun kv => str_eqb kv.1 k) fs) with Some (_, v) => v | None => VNull end
  | _ => VNull
  end.

(** What a parsed text is as a [serde_json::Value]: its objects are maps, in which
    the last of equal keys is kept. *)
Definition as_map {V} (fs : list (string * V)) : list (string * V) :=
  foldl (fun fs kv => obj_insert kv.1 kv.2 fs) [] fs.

Fixpoint as_value (v : Value) : Value :=
  match v with
  | VArr l => VArr (map as_value l)
  | VObj fs => VObj (as_map (map (fun kv => (kv.1, as_value kv.2)) fs))
  | v => v
  end.

(** ** Looking fields up *)

Lemma plain_arr l : plain (VArr l) <-> Forall plain l.
Proof. simpl. induction l as [|v l IH]; [by split|]. rewrite Forall_cons, <- IH. done. Qed.

Lemma plain_obj l : plain (VObj l) <-> Forall (fun kv => plain kv.2) l.
Proof. simpl. induction l as [|[k v] l IH]; [by split|]. rewrite Forall_cons, <- IH. done. Qed.

Lemma fields_of_keys l k v : (k, v) ∈ fields_of l -> (k, Some v) ∈ l.
Proof.
  unfold fields_of. rewrite list_elem_of_omap. intros ([k' [v'|]] & Hin & Hv); simpl in Hv; by simplify_eq.
Qed.

Lemma get_fields_of_none k l : k ∉ l.*1 -> get k (fields_of l) = Some None.
Proof.
  intros Hk. unfold get. rewrite retain_none; [done|]. apply Forall_forall. intros [k' v] Hin.
  apply str_eqb_false. simpl. intros ->. apply Hk. apply list_elem_of_fmap. exists (k, Some v).
  split; [done|by apply fields_of_keys].
Qed.

(** A field that was written is found, and one that was skipped is not. *)
Lemma get_fields_of k o l : keys_ok l = true -> (k, o) ∈ l -> get k (fields_of l) = Some o.
Proof.
  unfold keys_ok. rewrite bool_decide_eq_true. induction l as [|[k' o'] l IH].
  { by intros _ ?%not_elem_of_nil. }
  simpl. intros [Hk' Hl]%NoDup_cons [Heq|Hin]%elem_of_cons.
  - injection Heq as <- <-. pose proof (get_fields_of_none k l Hk') as Hg. unfold get, fields_of in *.
    destruct o as [v|]; [|exact Hg]. simpl. rewrite str_eqb_refl.
    by destruct (retain _ _) as [|[? ?] [|? ?]].
  - specialize (IH Hl Hin). unfold get, fields_of in *. destruct o' as [v|]; [|exact IH]. simpl.
    assert (str_eqb k' k = false) as ->; [|exact IH]. apply str_eqb_false. intros ->. apply Hk'.
    apply list_elem_of_fmap. by exists (k, o).
Qed.

(** Entries of other names do not matter. *)
Lemma get_extra k fs extra : k ∉ extra.*1 -> get k (fs ++ extra) = get k fs.
Proof.
  intros Hk. unfold get. rewrite retain_app, (retain_none _ extra), app_nil_r; [done|].
  apply Forall_forall. intros kv Hin. apply str_eqb_false. intros <-. apply Hk.
  apply list_elem_of_fmap. by exists kv.
Qed.

Definition unknown (names : list string) (extra : list (string * Value)) : Prop :=
  Forall (fun kv => kv.1 ∉ names) extra.

Lemma unknown_name names extra k : unknown names extra -> k ∈ names -> k ∉ extra.*1.
Proof.
  intros Hu Hk (kv & -> & Hin)%list_elem_of_fmap. unfold unknown in Hu. rewrite Forall_forall in Hu.
  exact (Hu kv Hin Hk).
Qed.

Section fields.
Context {A} (f : Fmt A).

Lemma field_extra k fs extra : k ∉ extra.*1 -> field f k (fs ++ extra) = field f k fs.
Proof. intros Hk. unfold field. by rewrite get_extra. Qed.

Lemma field_or_extra d k fs extra : k ∉ extra.*1 -> field_or f d k (fs ++ extra) = field_or f d k fs.
Proof. intros Hk. unfold field_or. by rewrite get_extra. Qed.

Lemma field_written `{!FmtWrite f} k a l :
  keys_ok l = true -> req f k a ∈ l -> valid f a -> field f k (fields_of l) = Some a.
Proof. intros Hl Hk Ha. unfold field. rewrite (get_fields_of k _ l Hl Hk). by apply of_to. Qed.

(** What may be skipped is what the reader puts in its place. *)
Lemma field_or_written `{!FmtWrite f} d k skip a l :
  keys_ok l = true -> skip_if skip f k a ∈ l -> (skip a = true -> a = d) -> valid f a ->
  field_or f d k (fields_of l) = Some a.
Proof.
  intros Hl Hk Hs Ha. unfold field_or. rewrite (get_fields_of k _ l Hl Hk). destruct (skip a).
  - by rewrite Hs.
  - by apply of_to.
Qed.

(** A field that is always written, but that older writers did not have. *)
Lemma field_or_required `{!FmtWrite f} d k a l :
  keys_ok l = true -> req f k a ∈ l -> valid f a -> field_or f d k (fields_of l) = Some a.
Proof. intros Hl Hk Ha. unfold field_or. rewrite (get_fields_of k _ l Hl Hk). by apply of_to. Qed.

Lemma field_valid `{!FmtRead f} k fs a : field f k fs = Some a -> valid f a.
Proof. unfold field. destruct (get k fs) as [[v|]|]; [apply of_valid|done..]. Qed.

Lemma field_or_valid `{!FmtRead f} d k fs a : valid f d -> field_or f d k fs = Some a -> valid f a.
Proof. unfold field_or. intros Hd. destruct (get k fs) as [[v|]|]; [apply of_valid|by intros [= <-]|done]. Qed.
End fields.

(** ** The formats keep their promises *)

(** The value of an option is told apart from the missing one. *)
Class NotNull {A} (f : Fmt A) : Prop := not_null : forall a, valid f a -> to_value f a <> VNull.

#[export] Instance vbool_ok : FmtOk vbool.
Proof. split; [split|]; done. Qed.
#[export] Instance vstring_ok : FmtOk vstring.
Proof. split; [split|]; done. Qed.
Lemma vuint_ok max : (max <= u64_max)%Z -> FmtOk (vuint max).
Proof.
  intros Hmax. split; [split; simpl|].
  - intros n Hn. by rewrite (proj2 (Z.leb_le _ _)), (proj2 (Z.leb_le _ _)) by lia.
  - lia.
  - intros v n. simpl. destruct v; try done. destruct (_ && _) eqn:Hb; [|done]. intros [= <-]. bool_hyps. lia.
Qed.
#[export] Instance vu16_ok : FmtOk vu16.
Proof. by apply vuint_ok. Qed.
#[export] Instance vu32_ok : FmtOk vu32.
Proof. by apply vuint_ok. Qed.
#[export] Instance vu64_ok : FmtOk vu64.
Proof. by apply vuint_ok. Qed.

#[export] Instance vstring_not_null : NotNull vstring.
Proof. done. Qed.
#[export] Instance vuint_not_null max : NotNull (vuint max).
Proof. done. Qed.

#[export] Instance voption_write {A} (f : Fmt A) `{!FmtWrite f} `{!NotNull f} : FmtWrite (voption f).
Proof.
  split; simpl.
  - intros [a|] Ha; [|done]. pose proof (not_null a Ha) as Hn.
    rewrite of_to by done. by destruct (to_value f a).
  - intros [a|] Ha; [by apply to_plain|done].
Qed.

#[export] Instance voption_read {A} (f : Fmt A) `{!FmtRead f} : FmtRead (voption f).
Proof.
  intros v o. simpl. assert (Hs : option_map Some (of_value f v) = Some o -> valid (voption f) o).
  { destruct (of_value f v) as [a|] eqn:Ha; [|done]. intros Hn. injection Hn as <-. exact (of_valid v a Ha). }
  destruct v; try exact Hs. by intros Hn; injection Hn as <-.
Qed.

#[export] Instance vlist_write {A} (f : Fmt A) `{!FmtWrite f} : FmtWrite (vlist f).
Proof.
  split; cbn [of_value to_value valid vlist].
  - intros l Hl. apply mapM_fmap_Forall_Some. eapply Forall_impl; [exact Hl|]. by apply of_to.
  - intros l Hl. apply plain_arr, Forall_fmap. eapply Forall_impl; [exact Hl|]. by apply to_plain.
Qed.

#[export] Instance vlist_read {A} (f : Fmt A) `{!FmtRead f} : FmtRead (vlist f).
Proof.
  intros v l. cbn [of_value valid vlist]. destruct v; try done. intros Hv%mapM_Some.
  induction Hv; constructor; [by eapply of_valid|done].
Qed.

Lemma NoDup_btree_keys {V} (m : gmap string V) : NoDup (btree_keys m).
Proof. unfold btree_keys. rewrite merge_sort_Permutation. apply NoDup_fst_map_to_list. Qed.

Definition map_insert (o : option (gmap string string)) (kv : string * Value) : option (gmap string string) :=
  let '(k, v) := kv in let* m := o in let* s := of_value vstring v in Some (<[k := s]> m).

Lemma vmap_fold (m : gmap string string) ks (acc : gmap string string) :
  Forall (fun k => is_Some (m !! k)) ks ->
  exists r, foldl map_insert (Some acc) ((fun k => (k, VStr (default "" (m !! k)))) <$> ks) = Some r
    /\ forall k, r !! k = if decide (k ∈ ks) then m !! k else acc !! k.
Proof.
  intros Hks. revert acc. induction Hks as [|k ks [s Hk] Hks IH]; intros acc; simpl; [by exists acc|].
  destruct (IH (<[k := default "" (m !! k)]> acc)) as (r & Hr & Hl). exists r. split; [exact Hr|].
  intros k'. rewrite Hl. destruct (decide (k' ∈ ks)) as [Hin|Hin].
  - by rewrite decide_True by by right.
  - destruct (decide (k' = k)) as [->|Hne].
    + rewrite lookup_insert_eq, Hk. by rewrite decide_True by by left.
    + rewrite lookup_insert_ne, decide_False by (rewrite ?elem_of_cons; naive_solver). done.
Qed.

#[export] Instance vmap_ok : FmtOk vmap.
Proof.
  split; [split; cbn [of_value to_value valid vmap]|done].
  - intros m _. destruct (vmap_fold m (btree_keys m) ∅) as (r & Hr & Hl).
    { apply Forall_forall. intros k. apply elem_of_btree_keys. }
    etransitivity; [exact Hr|]. f_equal. apply map_eq. intros k. rewrite Hl.
    case_decide as Hk; [done|]. rewrite lookup_empty. rewrite elem_of_btree_keys in Hk.
    by apply eq_None_not_Some in Hk as ->.
  - intros m _. apply plain_obj, Forall_fmap, Forall_forall. intros k _. done.
Qed.

(** ** Proving a struct's format *)

Lemma is_nil_true {A} (l : list A) : is_nil l = true -> l = [].
Proof. by destruct l. Qed.
Lemma is_none_true {A} (o : option A) : is_none o = true -> o = None.
Proof. by destruct o. Qed.
Lemma map_is_empty_true m : map_is_empty m = true -> m = ∅.
Proof. apply bool_decide_eq_true. Qed.

(** Formats whose type has no values that are not valid. *)
Class Total {A} (f : Fmt A) : Prop := total : forall a, valid f a.
#[export] Instance vbool_total : Total vbool.
Proof. done. Qed.
#[export] Instance vstring_total : Total vstring.
Proof. done. Qed.
#[export] Instance vmap_total : Total vmap.
Proof. done. Qed.
#[export] Instance vlist_total {A} (f : Fmt A) `{!Total f} : Total (vlist f).
Proof. intros l. apply Forall_forall. intros a _. apply total. Qed.
#[export] Instance voption_total {A} (f : Fmt A) `{!Total f} : Total (voption f).
Proof. intros [a|]; [exact (total a)|done]. Qed.

#[export] Hint Resolve is_nil_true is_none_true map_is_empty_true : serde.
#[export] Hint Extern 1 (valid _ _) => apply total : serde.

Ltac serde_in := first [apply list_elem_of_here | apply list_elem_of_further; serde_in].

(** Read back what a struct wrote, field by field. *)
Ltac serde_read :=
  repeat match goal with
    | |- context [field ?f ?k (fields_of ?l)] =>
        erewrite (field_written f k _ l); [|vm_compute; reflexivity|serde_in|by eauto with serde]
    | |- context [field_or ?f ?d ?k (fields_of ?l)] =>
        first
        [ erewrite (field_or_written f d k _ _ l);
            [|vm_compute; reflexivity|serde_in|by eauto with serde|by eauto with serde]
        | erewrite (field_or_required f d k _ l); [|vm_compute; reflexivity|serde_in|by eauto with serde] ]
    end.

(** The fields of a struct that was read. *)
Ltac serde_cases H :=
  repeat match type of H with
    | context [match ?x with Some _ => _ | None => _ end] =>
        let E := fresh "E" in destruct x eqn:E; [|discriminate H]
    end;
  injection H as H; subst.

Definition plain_entry (kv : string * option Value) : Prop :=
  match kv.2 with Some v => plain v | None => True end.

Lemma plain_req {A} (f : Fmt A) `{!FmtWrite f} k a : valid f a -> plain_entry (req f k a).
Proof. apply to_plain. Qed.

Lemma plain_skip_if {A} skip (f : Fmt A) `{!FmtWrite f} k a : valid f a -> plain_entry (skip_if skip f k a).
Proof. unfold plain_entry, skip_if. simpl. destruct (skip a); [done|apply to_plain]. Qed.

Lemma plain_fields_of l : Forall plain_entry l -> Forall (fun kv => plain kv.2) (fields_of l).
Proof.
  rewrite !Forall_forall. intros Hl [k v] Hin. apply fields_of_keys in Hin. exact (Hl _ Hin).
Qed.

Lemma vstruct_write {A} names fields read (ok : A -> Prop) :
  (forall a, ok a -> read (fields_of (fields a)) = Some a) ->
  (forall a, ok a -> Forall plain_entry (fields a)) ->
  FmtWrite (vstruct names fields read ok).
Proof. intros Hread Hplain. split; [exact Hread|]. intros a Ha. by apply plain_obj, plain_fields_of, Hplain. Qed.

Lemma vstruct_read {A} names fields read (ok : A -> Prop) :
  (forall fs a, read fs = Some a -> ok a) -> FmtRead (vstruct names fields read ok).
Proof.
  intros Hvalid v a Hv. simpl in Hv. destruct (as_fields names v) as [fs|]; [|done]. by eapply Hvalid.
Qed.

(** The validity of what was read, and the plainness of what is written. *)
Ltac serde_valid :=
  match goal with
  | |- _ /\ _ => split; [serde_valid|serde_valid]
  | |- True => exact I
  | |- _ => first [ eapply field_valid; [|eassumption]; apply _
                 | eapply field_or_valid; [| |eassumption]; [apply _|by eauto with serde] ]
  end.

Ltac serde_plain :=
  repeat first
    [ apply Forall_nil_2
    | apply Forall_cons_2; [first [apply plain_req | apply plain_skip_if]; first [typeclasses eauto | by eauto with serde]|] ].

(** A reader that looks only at its own names. *)
Definition ignores_unknown {A} (names : list string) (f : Fmt A) : Prop :=
  forall fs extra, unknown names extra -> of_value f (VObj (fs ++ extra)) = of_value f (VObj fs).

Ltac serde_extra :=
  intros fs extra Hu; cbn [of_value vstruct as_fields];
  repeat first
    [ rewrite field_extra by (eapply unknown_name; [exact Hu|serde_in])
    | rewrite field_or_extra by (eapply unknown_name; [exact Hu|serde_in]) ];
  reflexivity.

(** A struct, given its fields, its reader and its validity. *)
Ltac serde_write_fields := [> intros a Ha; destruct_and? Ha; serde_read; by destruct a | intros a Ha; destruct_and? Ha; serde_plain].
Ltac serde_sound_fields := intros fs a H; serde_cases H; serde_valid.

Tactic Notation "serde_write" reference(fields) reference(read) reference(ok) :=
  apply vstruct_write; unfold fields, read, ok; serde_write_fields.

Tactic Notation "serde_sound" reference(read) reference(ok) :=
  apply vstruct_read; unfold read, ok; serde_sound_fields.

Tactic Notation "serde_struct" reference(fields) reference(read) reference(ok) :=
  split; [apply vstruct_write; unfold fields, read, ok; serde_write_fields
         |apply vstruct_read; unfold read, ok; serde_sound_fields].

(** ** Reading through a [serde_json::Value] *)

Section as_map.
Context {V : Type}.
Implicit Types (fs : list (string * V)).

Lemma has_key_true k fs : has_key k fs = true <-> k ∈ fs.*1.
Proof.
  unfold has_key. rewrite any_true, list_elem_of_fmap. split.
  - intros (kv & Hin & <-%str_eqb_true). eauto.
  - intros (kv & -> & Hin). exists kv. by rewrite str_eqb_refl.
Qed.

Lemma ordered_insert_perm k v fs : ordered_insert k v fs ≡ₚ (k, v) :: fs.
Proof.
  induction fs as [|[k' v'] fs IH]; [done|]. simpl. destruct (String.compare k k'); [|done|]; rewrite IH; by rewrite Permutation_swap.
Qed.

(** Reading a list of entries as a map, later ones over earlier ones. *)
Definition insert_all (m : gmap string V) fs : gmap string V := foldl (fun m kv => <[kv.1 := kv.2]> m) m fs.

Lemma replace_keys k v fs : ((fun kv : string * V => if str_eqb kv.1 k then (k, v) else kv) <$> fs).*1 = fs.*1.
Proof.
  rewrite <- list_fmap_compose. apply list_fmap_ext. intros i [k' v'] _. simpl.
  destruct (str_eqb k' k) eqn:Hk; [by apply str_eqb_true in Hk|done].
Qed.

Lemma replace_absent k v fs : k ∉ fs.*1 -> (fun kv : string * V => if str_eqb kv.1 k then (k, v) else kv) <$> fs = fs.
Proof.
  intros Hk. rewrite <- (list_fmap_id fs) at 2. apply list_fmap_ext. intros i kv Hi.
  destruct (str_eqb kv.1 k) eqn:Heq; [|done]. apply str_eqb_true in Heq as <-. destruct Hk.
  apply list_elem_of_fmap. exists kv. split; [done|]. by eapply list_elem_of_lookup_2.
Qed.

Lemma obj_insert_map k v fs : NoDup fs.*1 ->
  NoDup (obj_insert k v fs).*1 /\ (list_to_map (obj_insert k v fs) : gmap string V) = <[k := v]> (list_to_map fs).
Proof.
  intros Hnd. unfold obj_insert. destruct (has_key k fs) eqn:Hk.
  - rewrite replace_keys. split; [done|]. apply has_key_true in Hk.
    induction fs as [|[k' v'] fs IH]; [by apply not_elem_of_nil in Hk|]. cbn [fmap list_fmap fst] in *.
    apply NoDup_cons in Hnd as [Hk' Hnd]. destruct (str_eqb k' k) eqn:Heq; bool_hyps; cbn [list_to_map foldr uncurry].
    + subst k'. rewrite replace_absent by done. simpl. by rewrite insert_insert_eq.
    + apply elem_of_cons in Hk as [->|Hk]; [done|]. simpl in *. rewrite IH by done. by rewrite insert_insert_ne.
  - assert (Hk' : k ∉ fs.*1) by (rewrite <- has_key_true, Hk; done).
    assert (Hnd' : NoDup (ordered_insert k v fs).*1).
    { rewrite ordered_insert_perm. simpl. by apply NoDup_cons. }
    split; [done|]. by rewrite (list_to_map_proper (M := gmap string) _ ((k, v) :: fs) Hnd') by apply ordered_insert_perm.
Qed.

Lemma as_map_insert fs : NoDup (as_map fs).*1 /\ (list_to_map (as_map fs) : gmap string V) = insert_all ∅ fs.
Proof.
  unfold as_map, insert_all. induction fs as [|[k v] fs IH] using rev_ind; [split; [apply NoDup_nil_2|done]|].
  rewrite !foldl_app. cbn [foldl fst snd]. destruct IH as [Hnd IH].
  destruct (obj_insert_map k v _ Hnd) as [Hnd' ->]. by rewrite IH.
Qed.

Lemma insert_all_lookup (m : gmap string V) fs k :
  insert_all m fs !! k = match last (retain (fun kv => str_eqb kv.1 k) fs) with Some kv => Some kv.2 | None => m !! k end.
Proof.
  unfold insert_all. induction fs as [|[k' v] fs IH] using rev_ind; [done|]. rewrite foldl_app, retain_app. cbn [foldl fst snd].
  cbn [retain fst]. destruct (str_eqb k' k) eqn:Hk; bool_hyps.
  - subst k'. by rewrite lookup_insert_eq, last_snoc.
  - by rewrite lookup_insert_ne, app_nil_r.
Qed.
End as_map.

(** A map reads as its entries do. *)
Lemma get_nodup k (fs : list (string * Value)) : NoDup fs.*1 -> get k fs = Some ((list_to_map fs : gmap string Value) !! k).
Proof.
  induction fs as [|[k' v] fs IH]; [done|]. rewrite fmap_cons, NoDup_cons. intros [Hk Hnd]. specialize (IH Hnd).
  unfold get in *. cbn [retain fst list_to_map foldr]. simpl. destruct (str_eqb k' k) eqn:Heq; bool_hyps.
  - subst k'. rewrite lookup_insert_eq. rewrite retain_none; [done|]. apply Forall_forall. intros [k' v'] Hin.
    apply str_eqb_false. simpl. intros ->. apply Hk, list_elem_of_fmap. by exists (k, v').
  - by rewrite lookup_insert_ne.
Qed.

Lemma get_as_map k fs o : get k fs = Some o -> get k (as_map fs) = Some o.
Proof.
  intros Hg. destruct (as_map_insert fs) as [Hnd Hm]. rewrite (get_nodup _ _ Hnd), Hm, insert_all_lookup. unfold get in Hg.
  destruct (retain _ fs) as [|[k' v] [|]]; [..|done]; by injection Hg as <-.
Qed.

Lemma obj_insert_fmap {V W} (g : V -> W) k v (fs : list (string * V)) :
  obj_insert k (g v) (prod_map id g <$> fs) = prod_map id g <$> obj_insert k v fs.
Proof.
  assert (Hk : has_key k (prod_map id g <$> fs) = has_key k fs).
  { unfold has_key. induction fs as [|kv fs IH]; [done|]. simpl. by f_equal. }
  unfold obj_insert. rewrite Hk. destruct (has_key k fs).
  - rewrite <- !list_fmap_compose. apply list_fmap_ext. intros i kv _. simpl. by destruct (str_eqb kv.1 k).
  - clear Hk. induction fs as [|[k' v'] fs IH]; [done|]. simpl. destruct (String.compare k k'); simpl; by f_equal.
Qed.

Lemma as_map_fmap {V W} (g : V -> W) (fs : list (string * V)) : as_map (prod_map id g <$> fs) = prod_map id g <$> as_map fs.
Proof.
  unfold as_map. induction fs as [|[k v] fs IH] using rev_ind; [done|].
  rewrite fmap_app, !foldl_app, IH. apply (obj_insert_fmap g k v).
Qed.

Lemma get_fmap (g : Value -> Value) k (fs : list (string * Value)) :
  get k (prod_map id g <$> fs) = option_map (option_map g) (get k fs).
Proof.
  assert (Hr : retain (fun kv => str_eqb kv.1 k) (prod_map id g <$> fs) = prod_map id g <$> retain (fun kv => str_eqb kv.1 k) fs).
  { induction fs as [|kv fs IH]; [done|]. simpl. destruct (str_eqb kv.1 k); simpl; by f_equal. }
  unfold get. rewrite Hr. by destruct (retain _ fs) as [|[k1 v1] [|]].
Qed.

(** A format whose values are read from a [Value] of the text as from the text. *)
Class Stable {A} (f : Fmt A) : Prop := stable : forall v a, of_value f v = Some a -> of_value f (as_value v) = Some a.

Definition refines (fs fs' : list (string * Value)) : Prop :=
  forall k o, get k fs = Some o -> get k fs' = Some (as_value <$> o).

Lemma refines_obj fs : refines fs (as_map (prod_map id as_value <$> fs)).
Proof. intros k o Hg. apply get_as_map. by rewrite get_fmap, Hg. Qed.

Lemma refines_arr (names : list string) l : refines (zip names l) (zip names (as_value <$> l)).
Proof.
  assert (Hz : zip names (as_value <$> l) = prod_map id as_value <$> zip names l).
  { revert l. induction names as [|n names IH]; intros [|v l]; try done. simpl. by rewrite IH. }
  intros k o Hg. by rewrite Hz, get_fmap, Hg.
Qed.

Lemma field_stable {A} (f : Fmt A) `{!Stable f} k fs fs' a :
  refines fs fs' -> field f k fs = Some a -> field f k fs' = Some a.
Proof.
  unfold field. intros Hr Hf. destruct (get k fs) as [[v|]|] eqn:Hg; try done. rewrite (Hr _ _ Hg). by apply stable.
Qed.

Lemma field_or_stable {A} (f : Fmt A) `{!Stable f} d k fs fs' a :
  refines fs fs' -> field_or f d k fs = Some a -> field_or f d k fs' = Some a.
Proof.
  unfold field_or. intros Hr Hf. destruct (get k fs) as [[v|]|] eqn:Hg; try done; rewrite (Hr _ _ Hg); [by apply stable|done].
Qed.

Lemma vstruct_stable {A} names fields read (ok : A -> Prop) :
  (forall fs fs' a, refines fs fs' -> read fs = Some a -> read fs' = Some a) -> Stable (vstruct names fields read ok).
Proof.
  intros Hread v a. cbn [of_value vstruct]. destruct v as [| | | | |l|fs]; try done; cbn [as_value as_fields].
  - change (map as_value l) with (as_value <$> l). rewrite length_fmap. destruct (_ <=? _); [|done].
    apply Hread, refines_arr.
  - apply Hread, refines_obj.
Qed.

#[export] Instance vbool_stable : Stable vbool.
Proof. by intros []. Qed.
#[export] Instance vstring_stable : Stable vstring.
Proof. by intros []. Qed.
#[export] Instance vuint_stable max : Stable (vuint max).
Proof. by intros []. Qed.
#[export] Instance voption_stable {A} (f : Fmt A) `{!Stable f} : Stable (voption f).
Proof.
  intros v a Hv. destruct v; try exact Hv; cbn [of_value voption] in *;
    destruct (of_value f _) as [x|] eqn:Hx; try done; by rewrite (stable _ _ Hx).
Qed.
#[export] Instance vlist_stable {A} (f : Fmt A) `{!Stable f} : Stable (vlist f).
Proof.
  intros v a Hv. destruct v as [| | | | |l|]; try done. cbn [of_value vlist as_value] in *.
  apply mapM_Some in Hv. apply mapM_Some. induction Hv as [|v a l la Hv _ IH]; [constructor|]. constructor; [by apply stable|done].
Qed.

(** Strings by key: what was read is the map of the entries. *)
Lemma vmap_entries fs m : of_value vmap (VObj fs) = Some m ->
  exists ss, fs = prod_map id VStr <$> ss /\ m = insert_all ∅ ss.
Proof.
  cbn [of_value vmap]. revert m. induction fs as [|[k v] fs IH] using rev_ind; intros m; [intros [= <-]; by exists []|].
  rewrite foldl_app. cbn [foldl]. destruct (foldl _ _ fs) as [m'|] eqn:Hm; [|done].
  destruct (IH m') as (ss & -> & ->); [by rewrite <- Hm|]. destruct v as [| | | |s| |]; try done. intros [= <-].
  exists (ss ++ [(k, s)]). unfold insert_all. by rewrite fmap_app, foldl_app.
Qed.

Lemma vmap_of_entries ss : of_value vmap (VObj (prod_map id VStr <$> ss)) = Some (insert_all ∅ ss).
Proof.
  cbn [of_value vmap]. induction ss as [|[k s] ss IH] using rev_ind; [done|].
  unfold insert_all in *. rewrite fmap_app, !foldl_app. cbn [fmap list_fmap foldl prod_map]. by rewrite IH.
Qed.

Lemma insert_all_as_map {V} (ss : list (string * V)) : insert_all ∅ (as_map ss) = insert_all ∅ ss.
Proof.
  destruct (as_map_insert ss) as [Hnd <-]. apply map_eq. intros k. rewrite insert_all_lookup, lookup_empty.
  destruct (retain (fun kv => str_eqb kv.1 k) (as_map ss)) as [|kv l] eqn:Hr.
  - symmetry. apply not_elem_of_list_to_map_1. intros (kv & -> & Hin)%list_elem_of_fmap.
    assert (Hk : kv ∈ retain (fun x => str_eqb x.1 kv.1) (as_map ss)) by (apply elem_of_retain; by rewrite str_eqb_refl).
    rewrite Hr in Hk. by apply not_elem_of_nil in Hk.
  - destruct (last (kv :: l)) as [[k' v]|] eqn:Hl; [|by destruct l using rev_ind; rewrite ?last_snoc, ?app_comm_cons, ?last_snoc in Hl].
    assert (Hin : (k', v) ∈ retain (fun x => str_eqb x.1 k) (as_map ss)).
    { rewrite Hr. apply last_Some in Hl as [l' ->]. set_solver. }
    apply elem_of_retain in Hin as [Hin Hk]. apply str_eqb_true in Hk. simpl in Hk. subst k'. symmetry.
    by apply elem_of_list_to_map_1.
Qed.

#[export] Instance vmap_stable : Stable vmap.
Proof.
  intros v m Hv. destruct v as [| | | | | |fs]; try done. apply vmap_entries in Hv as (ss & -> & ->).
  cbn [as_value]. change (map _ (prod_map id VStr <$> ss)) with (prod_map id as_value <$> (prod_map id VStr <$> ss)).
  rewrite <- list_fmap_compose. change (prod_map id as_value ∘ prod_map id VStr) with (prod_map (id : string -> string) VStr).
  by rewrite as_map_fmap, vmap_of_entries, insert_all_as_map.
Qed.

Ltac serde_stable :=
  intros fs fs' a Hr H; serde_cases H;
  repeat match goal with
    | E : field ?f ?k fs = Some ?x |- context [field ?f ?k fs'] => rewrite (field_stable f k fs fs' x Hr E)
    | E : field_or ?f ?d ?k fs = Some ?x |- context [field_or ?f ?d ?k fs'] => rewrite (field_or_stable f d k fs fs' x Hr E)
    end; reflexivity.

(** ** A concrete encoding

    Any injective encoding of values into strings serves for what the text and byte
    formats promise; this one writes the binary digits of the value's code. The
    witnesses use it. *)

Module Sample.

Definition leaf : Type := string + (nat * bool * Z * Z).

Definition float_leaf (f : spec_float) : leaf :=
  match f with
  | S754_zero s => inr (0, s, 0%Z, 0%Z)
  | S754_infinity s => inr (1, s, 0%Z, 0%Z)
  | S754_nan => inr (2, false, 0%Z, 0%Z)
  | S754_finite s m e => inr (3, s, Zpos m, e)
  end.

Definition leaf_value (l : leaf) : Value :=
  match l with
  | inl s => VStr s
  | inr (0, s, _, _) => VFloat (S754_zero s)
  | inr (1, s, _, _) => VFloat (S754_infinity s)
  | inr (2, _, _, _) => VFloat S754_nan
  | inr (3, s, m, e) => VFloat (S754_finite s (Z.to_pos m) e)
  | inr (4, b, _, _) => VBool b
  | inr (5, _, n, _) => VNum n
  | inr _ => VNull
  end.

Fixpoint to_tree (v : Value) : gen_tree leaf :=
  match v with
  | VNull => GenLeaf (inr (6, false, 0%Z, 0%Z))
  | VBool b => GenLeaf (inr (4, b, 0%Z, 0%Z))
  | VNum n => GenLeaf (inr (5, false, n, 0%Z))
  | VFloat f => GenLeaf (float_leaf f)
  | VStr s => GenLeaf (inl s)
  | VArr l => GenNode 0 (List.map to_tree l)
  | VObj l => GenNode 1 (List.map (fun kv => GenNode 2 [GenLeaf (inl kv.1); to_tree kv.2]) l)
  end.

Fixpoint of_tree (t : gen_tree leaf) : Value :=
  match t with
  | GenLeaf l => leaf_value l
  | GenNode 0 ts => VArr (List.map of_tree ts)
  | GenNode _ ts =>
      VObj (List.map (fun c => match c with GenNode _ [GenLeaf (inl k); t] => (k, of_tree t) | _ => ("", VNull) end) ts)
  end.

Fixpoint of_to_tree (v : Value) : of_tree (to_tree v) = v.
Proof.
  destruct v as [| | |f| |l|l]; try reflexivity.
  - by destruct f.
  - simpl. f_equal. induction l as [|v l IH]; [done|]. simpl. by rewrite (of_to_tree v), IH.
  - simpl. f_equal. induction l as [|[k v] l IH]; [done|]. simpl. by rewrite (of_to_tree v), IH.
Qed.

Fixpoint bits (p : positive) : string :=
  match p with
  | xH => "" | xO p => String "0" (bits p) | xI p => String "1" (bits p)
  end.

Fixpoint unbits (s : string) : positive :=
  match s with
  | String c s => if bool_decide (c = "0"%char) then xO (unbits s) else xI (unbits s)
  | EmptyString => xH
  end.

Lemma unbits_bits p : unbits (bits p) = p.
Proof. by induction p as [p IH|p IH|]; simpl; rewrite ?IH. Qed.

Definition write (v : Value) : string := bits (encode (to_tree v)).
Definition read (s : string) : option Value := of_tree <$> decode (unbits s).

Lemma read_write v : read (write v) = Some v.
Proof. unfold read, write. rewrite unbits_bits, decode_encode. simpl. by rewrite of_to_tree. Qed.

End Sample.
