(* ===== verification/Dynamic.v ===== *)
(** * The replicated dynamic configuration ([src/src/config.rs], lines 23-464)

    Services, routes, groups and the versioned [DynamicConfig], with the
    mutations the CLI and the admin RPC share. A mutation takes the
    configuration and returns the one it leaves behind, with its result, so
    that an error path that changed something would show. *)

From S2P Require Import Prelude.

(** ** Data *)

Inductive Protocol := Tcp | Http.
#[export] Instance Protocol_eq_dec : EqDecision Protocol.
Proof. solve_decision. Defined.

Definition is_tcp (p : Protocol) : bool := bool_decide (p = Tcp).

Definition DEFAULT_WEIGHT : Z := 1.
Definition default_weight : Z := DEFAULT_WEIGHT.
Definition is_default_weight (w : Z) : bool := (w =? DEFAULT_WEIGHT)%Z.

Record Service := {
  svc_name : string;
  svc_node_id : string;
  svc_node_port : Z;
  svc_domains : list string;
  svc_weight : Z;
  svc_max_connections : option Z;
  svc_protocol : Protocol;
  svc_request_timeout_ms : option Z;
  svc_health_path : option string;
  svc_labels : gmap string string;
  svc_meta : gmap string string;
  svc_local_port : option Z
}.
#[export] Instance Service_eq_dec : EqDecision Service.
Proof. solve_decision. Defined.

Record RouteMatch := {
  rm_path_prefix : option string;
  rm_method : option string;
  rm_headers : gmap string string
}.
#[export] Instance RouteMatch_eq_dec : EqDecision RouteMatch.
Proof. solve_decision. Defined.

Record RouteBackend := { rb_labels : gmap string string; rb_weight : Z }.
#[export] Instance RouteBackend_eq_dec : EqDecision RouteBackend.
Proof. solve_decision. Defined.

Record Route := {
  route_name : option string;
  route_service : string;
  route_matches : RouteMatch;
  route_backends : list RouteBackend
}.
#[export] Instance Route_eq_dec : EqDecision Route.
Proof. solve_decision. Defined.

Record ServiceGroup := { grp_name : string; grp_services : list Service }.
#[export] Instance ServiceGroup_eq_dec : EqDecision ServiceGroup.
Proof. solve_decision. Defined.

Record SubscribeFilter := { sf_service_groups : list string; sf_services : list string }.

Record DynamicConfig := {
  dc_version : Z;
  dc_service_groups : list ServiceGroup;
  dc_routes : list Route
}.
#[export] Instance DynamicConfig_eq_dec : EqDecision DynamicConfig.
Proof. solve_decision. Defined.

Definition default_dynamic_config : DynamicConfig :=
  {| dc_version := 0; dc_service_groups := []; dc_routes := [] |}.

Inductive MutateErr :=
| GroupNotFound (group : string)
| ServiceNotFound (group node name : string)
| DuplicateService (group node name : string)
| Invalid (msg : string).
#[export] Instance MutateErr_eq_dec : EqDecision MutateErr.
Proof. solve_decision. Defined.

(** [impl Display for MutateErr]. *)
Definition MutateErr_fmt (e : MutateErr) : string :=
  match e with
  | GroupNotFound group => "group '" +:+ group +:+ "' not found"
  | ServiceNotFound group node name =>
      "service '" +:+ name +:+ "' on node '" +:+ node +:+ "' not found in group '" +:+ group +:+ "'"
  | DuplicateService group node name =>
      "service '" +:+ name +:+ "' already exists on node '" +:+ node +:+ "' in group '" +:+ group +:+ "'"
  | Invalid msg => msg
  end.

(** The [http] crate's checks the configuration calls:
    [HeaderName::from_bytes(..).is_ok()], and [Uri]'s parser with the
    [scheme_str] and [host] of the result. *)
Class HttpCrate := {
  header_name_ok : string -> bool;
  uri_parse : string -> result (option string * option string) string
}.

(** ** Routes *)

Definition labels_match (labels selector : gmap string string) : bool :=
  all (fun '(k, v) => bool_decide (labels !! k = Some v)) (map_to_list selector).

Definition label (r : Route) (index : nat) : string :=
  match route_name r with Some n => n | None => "#" +:+ show (Z.of_nat index) end.

(** [/v2] matches [/v2] and [/v2/x], not [/v20]. *)
Definition path_has_prefix (path prefix : string) : bool :=
  match strip_prefix prefix path with
  | Some rest => str_is_empty rest || ends_with "/" prefix || starts_with "/" rest
  | None => false
  end.

Definition matches (m : RouteMatch) (method path : string)
    (header : string -> option string) : bool :=
  let path_ok := match rm_path_prefix m with
                 | Some prefix => path_has_prefix path prefix
                 | None => true
                 end in
  let method_ok := match rm_method m with
                   | Some m => str_eqb m method
                   | None => true
                   end in
  path_ok && method_ok
  && all (fun '(name, value) => bool_decide (header (to_ascii_lowercase name) = Some value))
       (map_to_list (rm_headers m)).

Section validate_routes.
  Context `{HttpCrate}.

Definition validate_route (service : string) (i : nat) (route : Route) : result unit string :=
    let at_ := "route " +:+ label route i +:+ " of service '" +:+ service +:+ "'" in
    if negb (str_eqb (route_service route) service) then
      Err (at_ +:+ " names service '" +:+ route_service route +:+ "'")
    else if bool_decide (route_backends route = []) then Err (at_ +:+ " has no backends")
    else if all (fun b => (rb_weight b =? 0)%Z) (route_backends route) then
      Err (at_ +:+ " has no backend with a non-zero weight")
    else
      let? _ := match rm_path_prefix (route_matches route) with
                | Some prefix =>
                    if negb (starts_with "/" prefix)
                    then Err (at_ +:+ ": pathPrefix '" +:+ prefix +:+ "' must start with '/'")
                    else Ok tt
                | None => Ok tt
                end in
      let? _ := match rm_method (route_matches route) with
                | Some method =>
                    if str_is_empty method || negb (all is_ascii_uppercase (str_to_list method))
                    then Err (at_ +:+ ": method '" +:+ method +:+ "' must be an uppercase token like GET")
                    else Ok tt
                | None => Ok tt
                end in
      try_each (fun name =>
        if negb (header_name_ok name)
        then Err (at_ +:+ ": '" +:+ name +:+ "' is not a valid header name") else Ok tt)
        (btree_keys (rm_headers (route_matches route))).

Definition validate_routes (service : string) (routes : list Route) : result unit string :=
    try_each (fun '(i, route) => validate_route service i route) (imap pair routes).
End validate_routes.

Definition validate_health_path (path : string) : result unit string :=
  if negb (starts_with "/" path) then Err ("healthPath '" +:+ path +:+ "' must start with '/'")
  else if any (fun b => is_ascii_whitespace b || is_ascii_control b || negb (is_ascii b))
            (str_to_list path)
  then Err ("healthPath '" +:+ path +:+ "' may not contain whitespace, control or non-ASCII characters")
  else Ok tt.

(** ** The subscribe filter *)

Definition sf_is_empty (f : SubscribeFilter) : bool :=
  bool_decide (sf_service_groups f = []) && bool_decide (sf_services f = []).

Definition allows (f : SubscribeFilter) (group_name service_name : string) : bool :=
  any (fun g => str_eqb g group_name) (sf_service_groups f)
  || any (fun s => str_eqb s service_name) (sf_services f).

(** ** Mutations *)

Definition is_instance (name node_id : string) (s : Service) : bool :=
  str_eqb (svc_name s) name && str_eqb (svc_node_id s) node_id.

Definition has_group_name (group : string) (g : ServiceGroup) : bool :=
  str_eqb (grp_name g) group.

Definition with_services (f : list Service -> list Service) (g : ServiceGroup) : ServiceGroup :=
  {| grp_name := grp_name g; grp_services := f (grp_services g) |}.

(** [self.version += 1], together with the new groups. *)
Definition bump (dc : DynamicConfig) (groups : list ServiceGroup) (routes : list Route) : DynamicConfig :=
  {| dc_version := wrap64 (dc_version dc + 1); dc_service_groups := groups; dc_routes := routes |}.

(** Replace the entry with [service]'s [(name, node_id)], or append it. *)
Definition upsert_in (service : Service) (services : list Service) : list Service :=
  match update_first (is_instance (svc_name service) (svc_node_id service))
          (fun _ => service) services with
  | Some services' => services'
  | None => services ++ [service]
  end.

Definition upsert_service (group : string) (service : Service) (dc : DynamicConfig)
    : DynamicConfig * Z :=
  let groups :=
    match update_first (has_group_name group) (with_services (upsert_in service))
            (dc_service_groups dc) with
    | Some groups => groups
    | None => dc_service_groups dc ++ [{| grp_name := group; grp_services := [service] |}]
    end in
  let dc' := bump dc groups (dc_routes dc) in
  (dc', dc_version dc').

Definition all_services (dc : DynamicConfig) : list Service :=
  dc_service_groups dc ≫= grp_services.

(** [Vec::dedup]: drop consecutive repeats. *)
Fixpoint dedup {A} `{EqDecision A} (l : list A) : list A :=
  match l with
  | [] => []
  | x :: l =>
      match dedup l with
      | y :: l' => if decide (x = y) then y :: l' else x :: y :: l'
      | [] => [x]
      end
  end.

(** [{:?}] of a slice of integers. *)
Definition show_list (l : list Z) : string := "[" +:+ String.concat ", " (show <$> l) +:+ "]".

Definition local_port_for (dc : DynamicConfig) (service : string) : result (option Z) string :=
  let ports :=
    dedup (merge_sort Z.le
      (omap svc_local_port (retain (fun s => str_eqb (svc_name s) service) (all_services dc)))) in
  match ports with
  | [] => Ok None
  | [port] => Ok (Some port)
  | many => Err ("instances of '" +:+ service +:+ "' set different localPorts: " +:+ show_list many)
  end.

Definition validate_route_target (dc : DynamicConfig) (service : string) : result unit string :=
  let instances := retain (fun s => str_eqb (svc_name s) service) (all_services dc) in
  if bool_decide (instances = []) then Err ("routes reference unknown service '" +:+ service +:+ "'")
  else if any (fun s => negb (bool_decide (svc_protocol s = Http))) instances
  then Err ("routes for '" +:+ service +:+ "' require every instance to have protocol: http")
  else Ok tt.

Definition routes_of (service : string) (r : Route) : bool := str_eqb (route_service r) service.

(** Replace [service]'s routes where its first one was (at the end when it had
    none); the other services' routes keep their order. *)
Definition splice_routes (service : string) (routes old : list Route) : list Route :=
  let insert_at := position (routes_of service) old in
  let kept := retain (fun r => negb (routes_of service r)) old in
  let at_ := Nat.min (default (length kept) insert_at) (length kept) in
  take at_ kept ++ routes ++ drop at_ kept.

Definition set_routes `{HttpCrate} (service : string) (routes : list Route) (dc : DynamicConfig)
    : DynamicConfig * result Z MutateErr :=
  let checked :=
    let? _ := if bool_decide (routes = []) then Ok tt
              else map_err Invalid (validate_route_target dc service) in
    map_err Invalid (validate_routes service routes) in
  match checked with
  | Err e => (dc, Err e)
  | Ok _ =>
      let dc' := bump dc (dc_service_groups dc) (splice_routes service routes (dc_routes dc)) in
      (dc', Ok (dc_version dc'))
  end.

Definition remove_service (group owner_node_id name : string) (dc : DynamicConfig)
    : DynamicConfig * result Z MutateErr :=
  let keep := fun s => negb (is_instance name owner_node_id s) in
  match find_first (has_group_name group) (dc_service_groups dc) with
  | None => (dc, Err (GroupNotFound group))
  | Some g =>
      (* [retain] ran before the length check: an unchanged length means an
         unchanged vector, but it is the retained one that stays. *)
      let groups := default (dc_service_groups dc)
        (update_first (has_group_name group) (with_services (retain keep)) (dc_service_groups dc)) in
      if length (retain keep (grp_services g)) =? length (grp_services g)
      then ({| dc_version := dc_version dc; dc_service_groups := groups; dc_routes := dc_routes dc |},
            Err (ServiceNotFound group owner_node_id name))
      else
        let dc' := bump dc groups (dc_routes dc) in
        (dc', Ok (dc_version dc'))
  end.

Definition with_name (name : string) (s : Service) : Service :=
  {| svc_name := name; svc_node_id := svc_node_id s; svc_node_port := svc_node_port s;
     svc_domains := svc_domains s; svc_weight := svc_weight s;
     svc_max_connections := svc_max_connections s; svc_protocol := svc_protocol s;
     svc_request_timeout_ms := svc_request_timeout_ms s; svc_health_path := svc_health_path s;
     svc_labels := svc_labels s; svc_meta := svc_meta s; svc_local_port := svc_local_port s |}.

Definition rename_service (group owner_node_id from to : string) (dc : DynamicConfig)
    : DynamicConfig * result Z MutateErr :=
  match find_first (has_group_name group) (dc_service_groups dc) with
  | None => (dc, Err (GroupNotFound group))
  | Some g =>
      if any (is_instance to owner_node_id) (grp_services g)
      then (dc, Err (DuplicateService group owner_node_id to))
      else match update_first (is_instance from owner_node_id) (with_name to) (grp_services g) with
           | None => (dc, Err (ServiceNotFound group owner_node_id from))
           | Some services =>
               let groups := default (dc_service_groups dc)
                 (update_first (has_group_name group) (with_services (fun _ => services))
                    (dc_service_groups dc)) in
               let dc' := bump dc groups (dc_routes dc) in
               (dc', Ok (dc_version dc'))
           end
  end.

(** ** What a configuration denotes

    A group is found by name and a service in it by [(name, node)]: the
    configuration is a map from (group, node, name) to services, and the
    mutations are that map's. *)

Definition svc_key (s : Service) : string * string := (svc_name s, svc_node_id s).

Definition lookup_group (dc : DynamicConfig) (group : string) : option ServiceGroup :=
  find_first (has_group_name group) (dc_service_groups dc).

Definition lookup_service (dc : DynamicConfig) (group node name : string) : option Service :=
  let* g := lookup_group dc group in find_first (is_instance name node) (grp_services g).

(** Group names are distinct, and so are the (name, node) of a group's services. *)
Definition dc_wf (dc : DynamicConfig) : Prop :=
  NoDup (grp_name <$> dc_service_groups dc) /\
  Forall (fun g => NoDup (svc_key <$> grp_services g)) (dc_service_groups dc).

Lemma is_instance_key name node s : is_instance name node s = true <-> svc_key s = (name, node).
Proof.
  unfold is_instance, svc_key. rewrite andb_true_iff, !str_eqb_true. split; [by intros [-> ->]|].
  by intros [= -> ->].
Qed.

Lemma is_instance_ne name node name' node' s :
  (name', node') <> (name, node) -> is_instance name node s = true -> is_instance name' node' s = false.
Proof.
  intros Hne Hs. apply is_instance_key in Hs. destruct (is_instance name' node' s) eqn:Hi; [|done].
  apply is_instance_key in Hi. congruence.
Qed.

Lemma has_group_name_true group g : has_group_name group g = true <-> grp_name g = group.
Proof. apply str_eqb_true. Qed.

Lemma has_group_name_ne group group' g :
  group' <> group -> has_group_name group g = true -> has_group_name group' g = false.
Proof. intros Hne <-%has_group_name_true. by apply str_eqb_false. Qed.

(** Updating the services of one group in place. *)
Lemma lookup_group_update group f dc groups group' :
  update_first (has_group_name group) (with_services f) (dc_service_groups dc) = Some groups ->
  find_first (has_group_name group') groups =
    if decide (group' = group) then with_services f <$> lookup_group dc group
    else lookup_group dc group'.
Proof.
  intros Hu. case_decide as Heq; subst.
  - by eapply find_update_same in Hu.
  - eapply find_update_other in Hu; [exact Hu|]. intros g Hg. split; [by eapply has_group_name_ne|].
    by apply (has_group_name_ne group group' (with_services f g)).
Qed.

Lemma update_group_Some group f dc g :
  lookup_group dc group = Some g ->
  exists groups, update_first (has_group_name group) (with_services f) (dc_service_groups dc) = Some groups.
Proof. intros Hg. by eapply update_first_is_Some in Hg as [groups ?]; eauto. Qed.

Lemma update_group_wf group f dc groups v routes :
  update_first (has_group_name group) (with_services f) (dc_service_groups dc) = Some groups ->
  dc_wf dc ->
  (forall g, lookup_group dc group = Some g -> NoDup (svc_key <$> grp_services g) ->
     NoDup (svc_key <$> f (grp_services g))) ->
  dc_wf {| dc_version := v; dc_service_groups := groups; dc_routes := routes |}.
Proof.
  intros Hu [Hn Hs] Hf. split; simpl.
  - by erewrite update_first_fmap by (done || by eauto).
  - eapply update_first_Forall; [exact Hu|exact Hs|]. intros g Hin Hg Hnd. apply Hf; [|done].
    eapply find_first_key with (key := grp_name); [apply has_group_name_true|done|].
    split; [done|]. by apply has_group_name_true.
Qed.

(** Finding in a group after an upsert. *)
Lemma find_upsert_in service services name node :
  find_first (is_instance name node) (upsert_in service services) =
    if decide ((name, node) = svc_key service) then Some service
    else find_first (is_instance name node) services.
Proof.
  unfold upsert_in. destruct (update_first _ _ services) as [l|] eqn:Hu; case_decide as Heq.
  - unfold svc_key in Heq; simplify_eq. pose proof Hu as Hu'.
    apply find_update_same in Hu; [|intros; by apply is_instance_key].
    rewrite Hu. destruct (find_first _ services) eqn:Hf; [done|].
    apply find_first_None, update_first_None with (f := fun _ => service) in Hf. congruence.
  - eapply find_update_other in Hu; [exact Hu|]. intros x Hx. split.
    + by eapply is_instance_ne.
    + eapply is_instance_ne; [exact Heq|]. by apply is_instance_key.
  - unfold svc_key in Heq; simplify_eq. rewrite find_first_app. apply update_first_None, find_first_None in Hu.
    rewrite Hu. simpl. by rewrite (proj2 (is_instance_key _ _ service) eq_refl).
  - rewrite find_first_app. destruct (find_first _ services); [done|]. simpl.
    by rewrite (is_instance_ne _ _ _ _ service Heq) by by apply is_instance_key.
Qed.

Lemma NoDup_upsert_in service services :
  NoDup (svc_key <$> services) -> NoDup (svc_key <$> upsert_in service services).
Proof.
  unfold upsert_in. intros Hnd. destruct (update_first _ _ services) as [l|] eqn:Hu.
  - erewrite update_first_fmap; [exact Hnd|exact Hu|]. intros x Hx%is_instance_key. by rewrite Hx.
  - rewrite fmap_app, NoDup_app. split; [done|]. split; [|apply NoDup_singleton].
    intros k (s & -> & Hs)%list_elem_of_fmap [Hk|[]%not_elem_of_nil]%elem_of_cons.
    apply update_first_None in Hu. rewrite Forall_forall in Hu. specialize (Hu s Hs).
    apply eq_true_false_abs in Hu; [done|]. by apply is_instance_key.
Qed.

(** ** The mutations refine the map's *)

(** [dc'] is [dc] with the entry at [(group, node, name)] replaced by [o]. *)
Definition maps_to (dc dc' : DynamicConfig) (group node name : string) (o : option Service) : Prop :=
  forall g n s, lookup_service dc' g n s =
    if decide ((g, n, s) = (group, node, name)) then o else lookup_service dc g n s.

Lemma maps_to_in_group group f dc groups g node name o v routes :
  lookup_group dc group = Some g ->
  update_first (has_group_name group) (with_services f) (dc_service_groups dc) = Some groups ->
  (forall n s, find_first (is_instance s n) (f (grp_services g)) =
     if decide ((s, n) = (name, node)) then o else find_first (is_instance s n) (grp_services g)) ->
  maps_to dc {| dc_version := v; dc_service_groups := groups; dc_routes := routes |} group node name o.
Proof.
  intros Hg Hu Hf g' n s. unfold lookup_service.
  replace (lookup_group _ g') with (find_first (has_group_name g') groups) by done.
  rewrite (lookup_group_update _ _ _ _ _ Hu). destruct (decide (g' = group)) as [->|Hne].
  - rewrite Hg. simpl. rewrite Hf. repeat case_decide; naive_solver.
  - rewrite decide_False by congruence. done.
Qed.

Lemma lookup_service_group dc group node name s :
  lookup_service dc group node name = Some s -> exists g, lookup_group dc group = Some g
    /\ find_first (is_instance name node) (grp_services g) = Some s.
Proof. unfold lookup_service. destruct (lookup_group dc group) as [g|]; eauto; done. Qed.

Lemma upsert_service_maps group svc dc :
  maps_to dc (upsert_service group svc dc).1 group (svc_node_id svc) (svc_name svc) (Some svc).
Proof.
  unfold upsert_service. destruct (update_first _ _ (dc_service_groups dc)) as [groups|] eqn:Hu.
  - destruct (lookup_group dc group) as [g|] eqn:Hg.
    + eapply maps_to_in_group; [exact Hg|exact Hu|]. intros n s. apply find_upsert_in.
    + apply find_first_None, update_first_None with (f := with_services (upsert_in svc)) in Hg. congruence.
  - apply update_first_None, find_first_None in Hu. intros g n s. unfold lookup_service, lookup_group. simpl.
    rewrite find_first_app. simpl. destruct (decide (g = group)) as [->|Hne].
    + rewrite Hu. rewrite (proj2 (has_group_name_true group _)) by done. simpl.
      destruct (decide _) as [Heq|Heq].
      * simplify_eq. by rewrite (proj2 (is_instance_key _ _ svc) eq_refl).
      * destruct (is_instance s n svc) eqn:Hi; [|done]. apply is_instance_key in Hi.
        unfold svc_key in Hi. congruence.
    + rewrite decide_False by congruence. destruct (find_first (has_group_name g) (dc_service_groups dc)); [done|].
      unfold has_group_name; simpl. by rewrite (proj2 (str_eqb_false group g)) by congruence.
Qed.

Lemma upsert_service_wf group svc dc : dc_wf dc -> dc_wf (upsert_service group svc dc).1.
Proof.
  unfold upsert_service. intros Hwf. destruct (update_first _ _ (dc_service_groups dc)) as [groups|] eqn:Hu.
  - eapply update_group_wf; [exact Hu|done|]. intros g _ Hnd. by apply NoDup_upsert_in.
  - destruct Hwf as [Hn Hs]. apply update_first_None in Hu. split; simpl.
    + rewrite fmap_app, NoDup_app. split; [done|]. split; [|apply NoDup_singleton].
      intros k (g & -> & Hg)%list_elem_of_fmap [Hk|[]%not_elem_of_nil]%elem_of_cons.
      rewrite Forall_forall in Hu. specialize (Hu g Hg). by apply str_eqb_false in Hu.
    + apply Forall_app. split; [done|]. constructor; [|constructor]. apply NoDup_singleton.
Qed.

(** Where a removal or a rename finds its group. *)
Lemma find_group_Some group dc g :
  find_first (has_group_name group) (dc_service_groups dc) = Some g -> lookup_group dc group = Some g.
Proof. done. Qed.

Lemma retain_instance_maps name node l s n :
  find_first (is_instance s n) (retain (fun x => negb (is_instance name node x)) l) =
    if decide ((s, n) = (name, node)) then None else find_first (is_instance s n) l.
Proof.
  case_decide as Heq.
  - simplify_eq. apply find_retain_none. by intros x ->.
  - apply find_retain_same. intros x _ Hx. apply negb_true_iff. by eapply is_instance_ne.
Qed.

Lemma retain_length_eq name node l :
  length (retain (fun x => negb (is_instance name node x)) l) = length l <->
  find_first (is_instance name node) l = None.
Proof.
  rewrite find_first_None. split.
  - intros Hl%retain_same_length. rewrite <- Hl, Forall_forall. intros x [_ Hx]%elem_of_retain.
    by apply negb_true_iff.
  - intros Hl. rewrite retain_all; [done|]. eapply Forall_impl; [exact Hl|]. by intros x ->.
Qed.

Lemma with_services_id g : with_services (fun l => l) g = g.
Proof. by destruct g. Qed.

Lemma update_first_id {A} (p : A -> bool) f l x :
  find_first p l = Some x -> f x = x -> update_first p f l = Some l.
Proof.
  induction l as [|y l IH]; simpl; [done|]. destruct (p y); intros; simplify_eq.
  - congruence.
  - by rewrite IH.
Qed.

(** On a missing service the retained vector is the old one: nothing changed. *)
Lemma remove_service_unchanged group node name dc e :
  (remove_service group node name dc).2 = Err e -> (remove_service group node name dc).1 = dc.
Proof.
  unfold remove_service. destruct (find_first _ _) as [g|] eqn:Hg; [|done].
  case_match eqn:Hlen; [|done]. intros _. simpl. apply Nat.eqb_eq, retain_same_length in Hlen.
  rewrite (update_first_id _ _ _ g); [by destruct dc|done|].
  unfold with_services. rewrite Hlen. by destruct g.
Qed.

Lemma remove_service_ok group node name dc v :
  (remove_service group node name dc).2 = Ok v ->
  exists g, lookup_group dc group = Some g /\ is_Some (lookup_service dc group node name) /\
    exists groups,
      update_first (has_group_name group)
        (with_services (retain (fun s => negb (is_instance name node s)))) (dc_service_groups dc) = Some groups
      /\ (remove_service group node name dc).1 = bump dc groups (dc_routes dc)
      /\ v = wrap64 (dc_version dc + 1).
Proof.
  unfold remove_service. destruct (find_first _ _) as [g|] eqn:Hg; [|done].
  destruct (update_group_Some group (retain (fun s => negb (is_instance name node s))) dc g Hg) as [groups Hu].
  rewrite Hu. simpl. case_match eqn:Hlen; simpl; [done|]. intros [= <-].
  exists g. split; [done|]. split; [|eauto].
  unfold lookup_service, lookup_group. rewrite Hg. destruct (find_first (is_instance name node) _) eqn:Hf; [by eexists|].
  apply retain_length_eq in Hf. by rewrite Hf, Nat.eqb_refl in Hlen.
Qed.

Lemma remove_service_err group node name dc e :
  (remove_service group node name dc).2 = Err e ->
  lookup_service dc group node name = None /\
  e = match lookup_group dc group with
      | None => GroupNotFound group
      | Some _ => ServiceNotFound group node name
      end.
Proof.
  unfold remove_service, lookup_service. fold (lookup_group dc group).
  destruct (lookup_group dc group) as [g|] eqn:Hg; [|by intros [= <-]].
  case_match eqn:Hlen; simpl; [|done]. intros [= <-]. split; [|done].
  by apply retain_length_eq, Nat.eqb_eq.
Qed.

Lemma remove_service_wf group node name dc :
  dc_wf dc -> dc_wf (remove_service group node name dc).1.
Proof.
  intros Hwf. destruct ((remove_service group node name dc).2) as [v|e] eqn:Hr.
  - apply remove_service_ok in Hr as (g & Hg & _ & groups & Hu & -> & _).
    eapply update_group_wf; [exact Hu|done|]. intros g' _ Hnd.
    eapply sublist_NoDup; [exact Hnd|]. apply fmap_sublist, retain_sublist.
  - by rewrite (remove_service_unchanged _ _ _ _ _ Hr).
Qed.

Lemma with_name_key to node s from :
  is_instance from node s = true -> svc_key (with_name to s) = (to, node).
Proof. intros Hs%is_instance_key. unfold svc_key in *. simpl. congruence. Qed.

Lemma find_rename from to node l l' s n :
  NoDup (svc_key <$> l) -> find_first (is_instance to node) l = None ->
  update_first (is_instance from node) (with_name to) l = Some l' ->
  find_first (is_instance s n) l' =
    if decide ((s, n) = (to, node)) then with_name to <$> find_first (is_instance from node) l
    else if decide ((s, n) = (from, node)) then None
    else find_first (is_instance s n) l.
Proof.
  intros Hnd Hto Hu. destruct (decide ((s, n) = (to, node))) as [Heq|Hne1];
    [|destruct (decide ((s, n) = (from, node))) as [Heq|Hne2]].
  - injection Heq as -> ->. apply update_first_Some in Hu as (l1 & x & l2 & -> & -> & Hx & Hl1).
    rewrite !find_first_app in *. rewrite (proj2 (find_first_None _ l1) Hl1).
    destruct (find_first _ l1); [done|]. simpl.
    by rewrite (proj2 (is_instance_key to node _) (with_name_key to node x from Hx)), Hx.
  - injection Heq as -> ->. apply update_first_Some in Hu as (l1 & x & l2 & -> & -> & Hx & Hl1).
    rewrite find_first_app. rewrite (proj2 (find_first_None _ l1) Hl1). simpl.
    destruct (is_instance from node (with_name to x)) eqn:Hw.
    + exfalso. apply Hne1. apply is_instance_key in Hw. by rewrite (with_name_key to node x from Hx) in Hw.
    + apply find_first_None, Forall_forall. intros y Hy.
      destruct (is_instance from node y) eqn:Hiy; [|done]. exfalso.
      rewrite fmap_app, fmap_cons, NoDup_app, NoDup_cons in Hnd. destruct Hnd as (_ & _ & Hnx & _).
      apply Hnx. apply is_instance_key in Hx, Hiy. rewrite Hx, <- Hiy.
      apply list_elem_of_fmap. eauto.
  - eapply find_update_other in Hu; [exact Hu|]. intros x Hx. split; [by eapply is_instance_ne|].
    eapply is_instance_ne; [exact Hne1|]. apply is_instance_key. by eapply with_name_key.
Qed.

Lemma NoDup_rename from to node l l' :
  NoDup (svc_key <$> l) -> find_first (is_instance to node) l = None ->
  update_first (is_instance from node) (with_name to) l = Some l' -> NoDup (svc_key <$> l').
Proof.
  intros Hnd Hto (l1 & x & l2 & -> & -> & Hx & Hl1)%update_first_Some.
  rewrite fmap_app, fmap_cons in *. rewrite (with_name_key to node x from Hx).
  rewrite find_first_None, Forall_forall in Hto.
  assert (Hnot : forall y, y ∈ l1 ++ x :: l2 -> svc_key y <> (to, node)).
  { intros y Hy Hk. apply is_instance_key in Hk. by rewrite (Hto y Hy) in Hk. }
  rewrite NoDup_app, NoDup_cons in *. destruct Hnd as (Hn1 & Hd & Hn2 & Hn3).
  split; [done|]. split; [|split; [|done]].
  - intros k Hk [->|Hk2]%elem_of_cons; [|by apply (Hd k Hk), elem_of_cons; right].
    apply list_elem_of_fmap in Hk as (y & Hyk & Hy). apply (Hnot y); [by apply elem_of_app; left|done].
  - intros (y & Hyk & Hy)%list_elem_of_fmap. apply (Hnot y); [apply elem_of_app, or_intror, elem_of_cons; by right|done].
Qed.

Lemma lookup_group_NoDup dc group g :
  dc_wf dc -> lookup_group dc group = Some g -> NoDup (svc_key <$> grp_services g).
Proof.
  intros [_ Hs] [Hin _]%find_first_elem_of. rewrite Forall_forall in Hs. auto.
Qed.

Lemma rename_service_ok group node from to dc v :
  (rename_service group node from to dc).2 = Ok v ->
  exists g l' groups, lookup_group dc group = Some g
    /\ find_first (is_instance to node) (grp_services g) = None
    /\ update_first (is_instance from node) (with_name to) (grp_services g) = Some l'
    /\ update_first (has_group_name group) (with_services (fun _ => l')) (dc_service_groups dc) = Some groups
    /\ (rename_service group node from to dc).1 = bump dc groups (dc_routes dc)
    /\ v = wrap64 (dc_version dc + 1).
Proof.
  unfold rename_service. fold (lookup_group dc group).
  destruct (lookup_group dc group) as [g|] eqn:Hg; [|done].
  destruct (any _ _) eqn:Ha; [done|]. apply any_false, find_first_None in Ha.
  destruct (update_first (is_instance from node) _ _) as [l'|] eqn:Hu; [|done].
  destruct (update_group_Some group (fun _ => l') dc g Hg) as [groups Hu']. rewrite Hu'. simpl.
  intros [= <-]. eauto 10.
Qed.

Lemma rename_service_wf group node from to dc :
  dc_wf dc -> dc_wf (rename_service group node from to dc).1.
Proof.
  intros Hwf. destruct ((rename_service group node from to dc).2) as [v|e] eqn:Hr.
  - apply rename_service_ok in Hr as (g & l' & groups & Hg & Hto & Hu & Hug & -> & _).
    eapply update_group_wf; [exact Hug|done|]. intros g' Hg' Hnd. simplify_eq.
    by eapply NoDup_rename.
  - replace (rename_service group node from to dc).1 with dc; [done|].
    unfold rename_service in *. repeat case_match; simplify_eq/=; done.
Qed.

(** ** Routes: what a valid list is, and what replacing one does *)

Definition route_ok `{HttpCrate} (service : string) (r : Route) : Prop :=
  route_service r = service
  /\ Exists (fun b => rb_weight b <> 0%Z) (route_backends r)
  /\ (forall prefix, rm_path_prefix (route_matches r) = Some prefix ->
        exists rest, prefix = String "/" rest)
  /\ (forall method, rm_method (route_matches r) = Some method ->
        method <> EmptyString /\ Forall (fun c => is_ascii_uppercase c = true) (str_to_list method))
  /\ (forall name, is_Some (rm_headers (route_matches r) !! name) -> header_name_ok name = true).

Lemma starts_with_slash s : starts_with "/" s = true <-> exists rest, s = String "/" rest.
Proof.
  unfold starts_with. split.
  - destruct (strip_prefix _ s) as [rest|] eqn:Hs; [|done]. apply strip_prefix_Some in Hs. eauto.
  - intros [rest ->]. by rewrite (proj2 (strip_prefix_Some "/" _ rest)).
Qed.

Lemma all_zero_weight bs :
  all (fun b => (rb_weight b =? 0)%Z) bs = false <-> Exists (fun b => rb_weight b <> 0%Z) bs.
Proof.
  induction bs as [|b bs IH]; simpl; [split; [done|inversion 1]|].
  rewrite andb_false_iff, Z.eqb_neq, IH, Exists_cons. done.
Qed.

Lemma validate_route_ok `{HttpCrate} service i r :
  validate_route service i r = Ok tt <-> route_ok service r.
Proof.
  unfold validate_route, route_ok.
  destruct (str_eqb (route_service r) service) eqn:Hs; simpl; bool_hyps; [|split; [done|tauto]].
  case_bool_decide as Hb; [split; [done|]; rewrite Hb; intros (_ & Hex & _); inversion Hex|].
  destruct (all _ (route_backends r)) eqn:Hz.
  { split; [done|]. intros (_ & Hex & _). apply all_zero_weight in Hex. congruence. }
  apply all_zero_weight in Hz.
  assert (Hp : forall (k : result unit string) e,
    match match rm_path_prefix (route_matches r) with
      | Some p => if negb (starts_with "/" p) then Err (e p) else Ok tt | None => Ok tt end with
      | Ok _ => k | Err e => Err e end = Ok tt <->
    (forall p, rm_path_prefix (route_matches r) = Some p -> exists rest, p = String "/" rest) /\ k = Ok tt).
  { intros k e. destruct (rm_path_prefix _) as [p|]; [|naive_solver].
    destruct (starts_with "/" p) eqn:Hsw; simpl.
    - apply starts_with_slash in Hsw. naive_solver.
    - split; [done|]. intros [Hall _]. specialize (Hall p eq_refl).
      apply starts_with_slash in Hall. congruence. }
  rewrite Hp. clear Hp.
  destruct (rm_method (route_matches r)) as [m|].
  - destruct (str_is_empty m || _) eqn:Hm.
    + split; [naive_solver|]. intros (_ & _ & _ & Hall & _).
      destruct (Hall m eq_refl) as [Hne Hup]. apply orb_true_iff in Hm as [Hm|Hm].
      * by destruct m.
      * apply all_true in Hup. rewrite Hup in Hm. done.
    + bool_hyps. rewrite try_each_ok, Forall_forall. setoid_rewrite elem_of_btree_keys.
      assert (m <> EmptyString) by by destruct m.
      match goal with H : all _ _ = true |- _ => apply all_true in H end.
      split.
      * intros [? Hh]. split; [done|]. split; [done|]. split; [done|]. split; [naive_solver|].
        intros n Hn. specialize (Hh n Hn). by destruct (header_name_ok n).
      * intros (_ & _ & ? & _ & Hh). split; [done|]. intros n Hn. by rewrite (Hh n Hn).
  - rewrite try_each_ok, Forall_forall. setoid_rewrite elem_of_btree_keys.
    split.
    + intros [? Hh]. split; [done|]. split; [done|]. split; [done|]. split; [done|].
      intros n Hn. specialize (Hh n Hn). by destruct (header_name_ok n).
    + intros (_ & _ & ? & _ & Hh). split; [done|]. intros n Hn. by rewrite (Hh n Hn).
Qed.

Lemma validate_routes_ok `{HttpCrate} service routes :
  validate_routes service routes = Ok tt <-> Forall (route_ok service) routes.
Proof.
  unfold validate_routes. rewrite try_each_ok.
  rewrite !Forall_lookup. split.
  - intros Hall i r Hr. specialize (Hall i (i, r)). rewrite list_lookup_imap, Hr in Hall.
    by eapply validate_route_ok, Hall.
  - intros Hall i [j r]. rewrite list_lookup_imap. destruct (routes !! i) as [r'|] eqn:Hr; [|done].
    intros [= <- <-]. by eapply validate_route_ok, Hall.
Qed.

Lemma routes_of_true service r : routes_of service r = true <-> route_service r = service.
Proof. apply str_eqb_true. Qed.

Lemma position_Some {A} (p : A -> bool) l i :
  position p l = Some i ->
  exists l1 x l2, l = l1 ++ x :: l2 /\ length l1 = i /\ p x = true /\ Forall (fun y => p y = false) l1.
Proof.
  revert i. induction l as [|x l IH]; simpl; intros i Hi; [done|].
  destruct (p x) eqn:Hp.
  - simplify_eq. exists [], x, l. auto.
  - destruct (position p l) as [j|]; simplify_eq/=.
    destruct (IH j eq_refl) as (l1 & y & l2 & -> & <- & ? & ?).
    exists (x :: l1), y, l2. repeat split; auto.
Qed.

Lemma position_None {A} (p : A -> bool) l :
  position p l = None <-> Forall (fun x => p x = false) l.
Proof.
  induction l as [|x l IH]; simpl; [by split|]. rewrite Forall_cons, <- IH.
  destruct (p x), (position p l); simpl; intuition congruence.
Qed.

(** The new routes sit where [service]'s first one was, or at the end. *)
Lemma splice_routes_eq service routes old :
  exists pre post,
    old = pre ++ post
    /\ Forall (fun r => routes_of service r = false) pre
    /\ (forall r rest, post = r :: rest -> routes_of service r = true)
    /\ splice_routes service routes old =
         pre ++ routes ++ retain (fun r => negb (routes_of service r)) post.
Proof.
  unfold splice_routes. destruct (position _ old) as [i|] eqn:Hpos.
  - apply position_Some in Hpos as (l1 & x & l2 & -> & <- & Hx & Hl1).
    exists l1, (x :: l2). split; [done|]. split; [done|]. split; [by intros ? ? [= <- _]|].
    assert (Hr : retain (fun r => negb (routes_of service r)) l1 = l1).
    { apply retain_all. eapply Forall_impl; [exact Hl1|]. by intros ? ->. }
    rewrite retain_app, Hr. simpl. rewrite length_app, Nat.min_l by lia.
    by rewrite take_app_length, drop_app_length.
  - apply position_None in Hpos. exists old, []. rewrite app_nil_r. split; [done|]. split; [done|].
    split; [done|]. simpl. rewrite retain_all by (eapply Forall_impl; [exact Hpos|]; by intros ? ->).
    rewrite Nat.min_id, app_nil_r, take_ge, drop_ge by lia. by rewrite app_nil_r.
Qed.

Lemma splice_routes_same service routes old :
  Forall (fun r => routes_of service r = true) routes ->
  retain (routes_of service) (splice_routes service routes old) = routes.
Proof.
  intros Hr. destruct (splice_routes_eq service routes old) as (pre & post & -> & Hpre & _ & ->).
  rewrite !retain_app, (retain_none _ pre), (retain_all _ routes) by done.
  rewrite retain_none, app_nil_r; [done|]. apply Forall_forall.
  intros r [_ Hn]%elem_of_retain. by apply negb_true_iff.
Qed.

Lemma splice_routes_other service routes old :
  Forall (fun r => routes_of service r = true) routes ->
  retain (fun r => negb (routes_of service r)) (splice_routes service routes old) =
  retain (fun r => negb (routes_of service r)) old.
Proof.
  intros Hr. destruct (splice_routes_eq service routes old) as (pre & post & -> & Hpre & _ & ->).
  rewrite !retain_app, (retain_none _ routes) by (eapply Forall_impl; [exact Hr|]; by intros ? ->).
  simpl. rewrite retain_retain. f_equal. apply retain_ext. intros r _. apply andb_diag.
Qed.

(** ** Fixed local ports *)

Lemma dedup_nil {A} `{EqDecision A} (l : list A) : dedup l = [] <-> l = [].
Proof. destruct l as [|x l]; simpl; [done|]. by repeat case_match. Qed.

Lemma dedup_cons {A} `{EqDecision A} (x : A) l : exists l', dedup (x :: l) = x :: l'.
Proof. simpl. repeat case_match; subst; eauto. Qed.

Lemma dedup_singleton {A} `{EqDecision A} (l : list A) x :
  dedup l = [x] <-> l <> [] /\ Forall (fun y => y = x) l.
Proof.
  revert x. induction l as [|y l IH]; intros x; [simpl; naive_solver|].
  rewrite Forall_cons. destruct l as [|z l].
  - simpl. split; [by intros [= ->]|by intros (_ & -> & _)].
  - destruct (dedup_cons z l) as [l' Hl']. specialize (IH x). cbn [dedup] in *.
    change (match dedup l with [] => [z] | y :: l' => if decide (z = y) then y :: l' else z :: y :: l' end)
      with (dedup (z :: l)) in *. rewrite Hl' in *. case_decide; naive_solver.
Qed.

Lemma elem_of_dedup {A} `{EqDecision A} (l : list A) x : x ∈ dedup l <-> x ∈ l.
Proof.
  induction l as [|y l IH]; simpl; [done|]. rewrite elem_of_cons, <- IH.
  destruct (dedup l) as [|z l']; [by rewrite elem_of_cons|].
  case_decide; subst; rewrite ?elem_of_cons; tauto.
Qed.

Lemma NoDup_dedup {A} `{EqDecision A} (R : relation A) `{!AntiSymm (=) R} (l : list A) :
  StronglySorted R l -> NoDup (dedup l).
Proof.
  intros Hs. induction Hs as [|x l Hs IH Hx]; simpl; [constructor|].
  destruct (dedup l) as [|z l'] eqn:Hd; [apply NoDup_singleton|].
  case_decide as Hxz; [done|]. apply NoDup_cons. split; [|done].
  assert (Hel : forall y, y ∈ z :: l' <-> y ∈ l) by (intros y; rewrite <- Hd; apply elem_of_dedup).
  intros Hin. apply Hxz. rewrite Forall_forall in Hx.
  assert (Hzl : R x z) by (apply Hx, Hel, elem_of_cons; by left).
  apply (anti_symm R); [done|]. apply Hel in Hin.
  destruct l as [|y l0]; [by apply not_elem_of_nil in Hin|].
  destruct (dedup_cons y l0) as [l'' Hl'']. rewrite Hl'' in Hd. injection Hd as -> <-.
  inversion Hs as [|? ? ? Hz]; subst. apply elem_of_cons in Hin as [->|Hin]; [apply Hx, elem_of_cons; by left|].
  rewrite Forall_forall in Hz. auto.
Qed.

(** [sort] then [dedup] on strings lists each once. *)
Definition sort_dedup (l : list string) : list string := dedup (merge_sort String.le l).

Lemma elem_of_sort_dedup l x : x ∈ sort_dedup l <-> x ∈ l.
Proof. unfold sort_dedup. by rewrite elem_of_dedup, merge_sort_Permutation. Qed.

Lemma NoDup_sort_dedup l : NoDup (sort_dedup l).
Proof.
  unfold sort_dedup. eapply (NoDup_dedup String.le). apply StronglySorted_merge_sort; apply _.
Qed.

Lemma merge_sort_nil (l : list Z) : merge_sort Z.le l = [] <-> l = [].
Proof.
  split; [|by intros ->]. intros Hl. pose proof (merge_sort_Permutation Z.le l) as HP.
  rewrite Hl in HP. by apply Permutation_nil_l in HP.
Qed.

Lemma dedup_sorted_singleton (l : list Z) x :
  dedup (merge_sort Z.le l) = [x] <-> l <> [] /\ Forall (fun y => y = x) l.
Proof.
  rewrite dedup_singleton, merge_sort_nil, !Forall_forall. by setoid_rewrite merge_sort_Permutation.
Qed.

Definition instances_of (dc : DynamicConfig) (service : string) : list Service :=
  retain (fun s => str_eqb (svc_name s) service) (all_services dc).

Lemma elem_of_all_services dc s :
  s ∈ all_services dc <-> exists g, g ∈ dc_service_groups dc /\ s ∈ grp_services g.
Proof. unfold all_services. rewrite list_elem_of_bind. naive_solver. Qed.

Lemma elem_of_instances_of dc service s :
  s ∈ instances_of dc service <-> s ∈ all_services dc /\ svc_name s = service.
Proof. unfold instances_of. by rewrite elem_of_retain, str_eqb_true. Qed.

Lemma local_port_for_some dc service port :
  local_port_for dc service = Ok (Some port) <->
  (exists s, s ∈ instances_of dc service /\ svc_local_port s = Some port)
  /\ (forall s p, s ∈ instances_of dc service -> svc_local_port s = Some p -> p = port).
Proof.
  unfold local_port_for. fold (instances_of dc service).
  set (ports := omap svc_local_port _).
  transitivity (dedup (merge_sort Z.le ports) = [port]).
  { destruct (dedup _) as [|? [|]]; naive_solver. }
  rewrite dedup_sorted_singleton, Forall_forall. unfold ports. setoid_rewrite list_elem_of_omap. split.
  - intros [Hne Hall]. split; [|naive_solver].
    destruct (omap svc_local_port _) as [|p ps] eqn:Ho; [done|].
    assert (Hp : p ∈ p :: ps) by by apply elem_of_cons; left.
    rewrite <- Ho, list_elem_of_omap in Hp. destruct Hp as (s & Hs & Hsp).
    exists s. split; [done|]. rewrite Hsp. f_equal. apply Hall. eauto.
  - intros [(s & Hs & Hsp) Hall]. split; [|naive_solver].
    intros Ho. assert (Hin : port ∈ omap svc_local_port (instances_of dc service)).
    { apply list_elem_of_omap. eauto. }
    rewrite Ho in Hin. by apply not_elem_of_nil in Hin.
Qed.

Lemma local_port_for_none dc service :
  local_port_for dc service = Ok None <->
  forall s, s ∈ instances_of dc service -> svc_local_port s = None.
Proof.
  unfold local_port_for. fold (instances_of dc service). set (ports := omap svc_local_port _).
  transitivity (ports = []).
  - transitivity (dedup (merge_sort Z.le ports) = []).
    { destruct (dedup _) as [|? [|]]; naive_solver. }
    by rewrite dedup_nil, merge_sort_nil.
  - unfold ports. split.
    + intros Ho s Hs. destruct (svc_local_port s) as [p|] eqn:Hp; [|done]. exfalso.
      assert (Hin : p ∈ omap svc_local_port (instances_of dc service)) by (apply list_elem_of_omap; eauto).
      rewrite Ho in Hin. by apply not_elem_of_nil in Hin.
    + intros Hall. destruct (omap svc_local_port _) as [|p ps] eqn:Ho; [done|].
      assert (Hp : p ∈ p :: ps) by by apply elem_of_cons; left.
      rewrite <- Ho, list_elem_of_omap in Hp. destruct Hp as (s & Hs & Hsp). rewrite Hall in Hsp; done.
Qed.

(** ** Path prefixes, by segments *)

Lemma str_split_nonempty c s : str_split c s <> [].
Proof. destruct s as [|d s]; simpl; repeat case_match; done. Qed.

Lemma str_split_app c a b :
  str_split c (a +:+ String c b) = str_split c a ++ str_split c b.
Proof.
  induction a as [|d a IH]; rewrite ?str_app_nil, ?str_app_cons; simpl.
  - by rewrite Ascii.eqb_refl.
  - rewrite IH. destruct (Ascii.eqb c d); [done|].
    destruct (str_split c a) as [|p ps] eqn:Hs; [by apply str_split_nonempty in Hs|done].
Qed.

Lemma str_split_join c s :
  exists p ps, str_split c s = p :: ps /\
    s = p +:+ foldr (fun q acc => String c (q +:+ acc)) EmptyString ps.
Proof.
  induction s as [|d s (p & ps & Hs & IH)]; simpl; [by exists EmptyString, []|].
  destruct (Ascii.eqb_spec c d) as [->|Hne]; rewrite Hs.
  - exists EmptyString, (p :: ps). split; [done|]. simpl. by rewrite str_app_nil, <- IH.
  - exists (String d p), ps. split; [done|]. by rewrite str_app_cons, <- IH.
Qed.

Lemma str_split_inj c a b : str_split c a = str_split c b -> a = b.
Proof.
  intros Hab. destruct (str_split_join c a) as (p & ps & Ha & ->), (str_split_join c b) as (q & qs & Hb & ->).
  rewrite Ha, Hb in Hab. by injection Hab as -> ->.
Qed.

Lemma segments_suffix c l : l <> [] ->
  exists s, forall p, p +:+ foldr (fun q acc => String c (q +:+ acc)) EmptyString l = p +:+ String c s.
Proof. destruct l as [|q l]; [done|]. intros _. simpl. eauto. Qed.

(** The segments of [prefix] are the first segments of [path]. *)
Lemma segments_prefix c a path :
  str_split c a `prefix_of` str_split c path <-> path = a \/ exists rest, path = a +:+ String c rest.
Proof.
  split.
  - intros [l Hl]. destruct l as [|q l].
    + left. rewrite app_nil_r in Hl. by apply str_split_inj in Hl.
    + right. destruct (str_split_join c path) as (p & ps & Hp & ->).
      destruct (str_split_join c a) as (p' & ps' & Ha & Hal).
      rewrite Ha, Hp in Hl. simpl in Hl. injection Hl as -> ->. rewrite Hal.
      exists (q +:+ foldr (fun q acc => String c (q +:+ acc)) EmptyString l).
      assert (Hf : forall x, foldr (fun q acc => String c (q +:+ acc)) EmptyString (ps' ++ x)
        = foldr (fun q acc => String c (q +:+ acc)) EmptyString ps'
          +:+ foldr (fun q acc => String c (q +:+ acc)) EmptyString x).
      { clear. intros x. induction ps' as [|r rs IH]; simpl; [done|].
        by rewrite IH, str_app_assoc, str_app_cons. }
      rewrite Hf. simpl. by rewrite str_app_assoc.
  - intros [->|[rest ->]]; [done|]. rewrite str_split_app. by eexists.
Qed.

(** ** Any sequence of mutations *)

Inductive mutation :=
| MUpsert (group : string) (service : Service)
| MRemove (group owner name : string)
| MRename (group owner from to : string)
| MSetRoutes (service : string) (routes : list Route).

Definition mutate `{HttpCrate} (m : mutation) (dc : DynamicConfig)
    : DynamicConfig * result Z MutateErr :=
  match m with
  | MUpsert g s => let '(dc', v) := upsert_service g s dc in (dc', Ok v)
  | MRemove g o n => remove_service g o n dc
  | MRename g o f t => rename_service g o f t dc
  | MSetRoutes s rs => set_routes s rs dc
  end.

Definition mutation_step `{HttpCrate} (dc dc' : DynamicConfig) : Prop :=
  exists m, dc' = (mutate m dc).1.

Lemma rename_service_unchanged group node from to dc e :
  (rename_service group node from to dc).2 = Err e -> (rename_service group node from to dc).1 = dc.
Proof. unfold rename_service. by repeat case_match. Qed.

Lemma set_routes_unchanged `{HttpCrate} service routes dc e :
  (set_routes service routes dc).2 = Err e -> (set_routes service routes dc).1 = dc.
Proof. unfold set_routes. by repeat case_match. Qed.

Lemma set_routes_ok `{HttpCrate} service routes dc v :
  (set_routes service routes dc).2 = Ok v ->
  (routes = [] \/ validate_route_target dc service = Ok tt)
  /\ Forall (route_ok service) routes
  /\ (set_routes service routes dc).1 =
       bump dc (dc_service_groups dc) (splice_routes service routes (dc_routes dc))
  /\ v = wrap64 (dc_version dc + 1).
Proof.
  rewrite <- validate_routes_ok. unfold set_routes. case_bool_decide as Hr.
  - destruct (validate_routes service routes) as [[]|] eqn:Hv; simpl; [|done]. intros [= <-]. auto.
  - destruct (validate_route_target dc service) as [[]|] eqn:Ht; simpl; [|done].
    destruct (validate_routes service routes) as [[]|] eqn:Hv; simpl; [|done]. intros [= <-]. auto.
Qed.

Lemma mutate_wf `{HttpCrate} m dc : dc_wf dc -> dc_wf (mutate m dc).1.
Proof.
  intros Hwf. destruct m; simpl.
  - by apply (upsert_service_wf group service).
  - by apply remove_service_wf.
  - by apply rename_service_wf.
  - destruct ((set_routes service routes dc).2) eqn:Hr.
    + apply set_routes_ok in Hr as (_ & _ & -> & _). exact Hwf.
    + by rewrite (set_routes_unchanged _ _ _ _ Hr).
Qed.

(** A mutation that reports a version bumped to it; one that fails changed nothing. *)
Lemma mutate_version `{HttpCrate} m dc :
  match mutate m dc with
  | (dc', Ok v) => dc_version dc' = v /\ v = wrap64 (dc_version dc + 1)
  | (dc', Err _) => dc' = dc
  end.
Proof.
  destruct (mutate m dc) as [dc' r] eqn:Hm. destruct m; simpl in Hm.
  - unfold upsert_service in Hm. by simplify_eq.
  - replace dc' with (remove_service group owner name dc).1 by by rewrite Hm.
    replace r with (remove_service group owner name dc).2 by by rewrite Hm.
    destruct ((remove_service _ _ _ _).2) eqn:Hr; [|by eapply remove_service_unchanged].
    by apply remove_service_ok in Hr as (g & _ & _ & gs & _ & -> & ->).
  - replace dc' with (rename_service group owner from to dc).1 by by rewrite Hm.
    replace r with (rename_service group owner from to dc).2 by by rewrite Hm.
    destruct ((rename_service _ _ _ _ _).2) eqn:Hr; [|by eapply rename_service_unchanged].
    by apply rename_service_ok in Hr as (g & l & gs & _ & _ & _ & _ & -> & ->).
  - replace dc' with (set_routes service routes dc).1 by by rewrite Hm.
    replace r with (set_routes service routes dc).2 by by rewrite Hm.
    destruct ((set_routes _ _ _).2) eqn:Hr; [|by eapply set_routes_unchanged].
    by apply set_routes_ok in Hr as (_ & _ & -> & ->).
Qed.

(** What [remove_service] does to the entries. *)
Lemma remove_service_maps group node name dc :
  match remove_service group node name dc with
  | (dc', Ok v) =>
      is_Some (lookup_service dc group node name)
      /\ maps_to dc dc' group node name None
      /\ dc_routes dc' = dc_routes dc
      /\ dc_version dc' = v /\ v = wrap64 (dc_version dc + 1)
  | (dc', Err e) =>
      lookup_service dc group node name = None /\ dc' = dc
      /\ e = match lookup_group dc group with
             | None => GroupNotFound group
             | Some _ => ServiceNotFound group node name
             end
  end.
Proof.
  destruct (remove_service group node name dc) as [dc' [v|e]] eqn:Hr.
  - assert (Hok : (remove_service group node name dc).2 = Ok v) by by rewrite Hr.
    apply remove_service_ok in Hok as (g & Hg & Hs & groups & Hu & Hdc & ->). rewrite Hr in Hdc.
    simpl in Hdc. subst dc'. split; [done|]. split; [|done].
    eapply maps_to_in_group; [exact Hg|exact Hu|]. intros n s. apply retain_instance_maps.
  - assert (Herr : (remove_service group node name dc).2 = Err e) by by rewrite Hr.
    pose proof (remove_service_err _ _ _ _ _ Herr) as [? ?].
    apply remove_service_unchanged in Herr. rewrite Hr in Herr. auto.
Qed.

(** ** Properties *)

(** C34: [upsert_service] is the map's insert at (group, node, name), and
    [remove_service] its delete. An insert always succeeds. A delete succeeds
    exactly when the entry exists; a failure reports whether the group or only the
    service is missing and leaves the configuration as it was. Neither touches the
    routes, and both add one to the version. *)
Theorem upsert_remove_refine group dc :
  (forall svc, let '(dc', v) := upsert_service group svc dc in
     maps_to dc dc' group (svc_node_id svc) (svc_name svc) (Some svc)
     /\ dc_routes dc' = dc_routes dc
     /\ dc_version dc' = v /\ v = wrap64 (dc_version dc + 1))
  /\ (forall node name, match remove_service group node name dc with
     | (dc', Ok v) =>
         is_Some (lookup_service dc group node name)
         /\ maps_to dc dc' group node name None
         /\ dc_routes dc' = dc_routes dc
         /\ dc_version dc' = v /\ v = wrap64 (dc_version dc + 1)
     | (dc', Err e) =>
         lookup_service dc group node name = None /\ dc' = dc
         /\ e = match lookup_group dc group with
                | None => GroupNotFound group
                | Some _ => ServiceNotFound group node name
                end
     end).
Proof. split; [|intros; apply remove_service_maps]. intros svc. split; [apply upsert_service_maps|done]. Qed.

(** C33: [rename_service] moves the entry at (group, node, from) to the name
    [to], keeping everything else about it. It succeeds exactly when the entry
    exists and no entry of that node is called [to]; a failure says which of
    the two failed and leaves the configuration as it was. *)
Theorem rename_service_refines group node from to dc (Hwf : dc_wf dc) :
  match rename_service group node from to dc with
  | (dc', Ok v) =>
      exists s, lookup_service dc group node from = Some s
      /\ lookup_service dc group node to = None
      /\ (forall g n x, lookup_service dc' g n x =
            if decide ((g, n, x) = (group, node, to)) then Some (with_name to s)
            else if decide ((g, n, x) = (group, node, from)) then None
            else lookup_service dc g n x)
      /\ dc_routes dc' = dc_routes dc
      /\ dc_version dc' = v /\ v = wrap64 (dc_version dc + 1)
  | (dc', Err e) =>
      dc' = dc /\
      match e with
      | GroupNotFound g => g = group /\ lookup_group dc group = None
      | DuplicateService g n x =>
          (g, n, x) = (group, node, to) /\ is_Some (lookup_service dc group node to)
      | ServiceNotFound g n x =>
          (g, n, x) = (group, node, from) /\ is_Some (lookup_group dc group)
          /\ lookup_service dc group node from = None
      | Invalid _ => False
      end
  end.
Proof.
  destruct (rename_service group node from to dc) as [dc' [v|e]] eqn:Hr.
  - assert (Hok : (rename_service group node from to dc).2 = Ok v) by by rewrite Hr.
    apply rename_service_ok in Hok as (g & l' & groups & Hg & Hto & Hu & Hug & Hdc & ->).
    rewrite Hr in Hdc. simpl in Hdc. subst dc'.
    assert (Hnd : NoDup (svc_key <$> grp_services g)) by by eapply lookup_group_NoDup.
    assert (Hfrom : exists s, find_first (is_instance from node) (grp_services g) = Some s).
    { destruct (find_first (is_instance from node) _) eqn:Hf; [by eexists|].
      apply find_first_None, update_first_None with (f := with_name to) in Hf. congruence. }
    destruct Hfrom as [s Hs]. exists s. unfold lookup_service at 1 2. rewrite Hg.
    split; [done|]. split; [done|]. split; [|done].
    intros g' n x. unfold lookup_service.
    replace (lookup_group _ g') with (find_first (has_group_name g') groups) by done.
    rewrite (lookup_group_update _ _ _ _ _ Hug). destruct (decide (g' = group)) as [->|Hne].
    + rewrite Hg. simpl. rewrite (find_rename _ _ _ _ _ x n Hnd Hto Hu), Hs. simpl.
      repeat case_decide; naive_solver.
    + rewrite !decide_False by congruence. done.
  - split.
    + replace dc' with (rename_service group node from to dc).1 by by rewrite Hr.
      apply (rename_service_unchanged group node from to dc e). by rewrite Hr.
    + unfold rename_service in Hr. fold (lookup_group dc group) in Hr. unfold lookup_service.
      destruct (lookup_group dc group) as [g|]; [|by simplify_eq].
      destruct (any _ _) eqn:Ha.
      * simplify_eq. split; [done|]. apply any_true in Ha as (s & Hs & Hi).
        destruct (find_first _ _) eqn:Hf; [done|]. apply find_first_None in Hf.
        rewrite Forall_forall in Hf. by rewrite (Hf s Hs) in Hi.
      * destruct (update_first _ _ (grp_services g)) eqn:Hu; [done|]. simplify_eq.
        split; [done|]. split; [by eexists|]. by eapply find_first_None, update_first_None.
Qed.

(** [set_routes]. On success the target carried routes legally, the new
    routes are well formed and are exactly the routes of the service, in the
    order given and standing where its first route stood; every other
    service's routes keep their order; groups are untouched. On failure nothing
    changed and one of the two checks had failed. *)
Theorem set_routes_spec `{HttpCrate} service routes dc :
  match set_routes service routes dc with
  | (dc', Ok v) =>
      (routes = [] \/ validate_route_target dc service = Ok tt)
      /\ Forall (route_ok service) routes
      /\ (exists pre post, dc_routes dc = pre ++ post
            /\ Forall (fun r => route_service r <> service) pre
            /\ (forall r rest, post = r :: rest -> route_service r = service)
            /\ dc_routes dc' = pre ++ routes ++ retain (fun r => negb (routes_of service r)) post)
      /\ retain (routes_of service) (dc_routes dc') = routes
      /\ retain (fun r => negb (routes_of service r)) (dc_routes dc') =
           retain (fun r => negb (routes_of service r)) (dc_routes dc)
      /\ dc_service_groups dc' = dc_service_groups dc
      /\ dc_version dc' = v /\ v = wrap64 (dc_version dc + 1)
  | (dc', Err e) =>
      dc' = dc /\ exists msg, e = Invalid msg
      /\ (routes <> [] /\ validate_route_target dc service = Err msg
          \/ validate_routes service routes = Err msg)
  end.
Proof.
  destruct (set_routes service routes dc) as [dc' [v|e]] eqn:Hr.
  - assert (Hok : (set_routes service routes dc).2 = Ok v) by by rewrite Hr.
    apply set_routes_ok in Hok as (Ht & Hv & Hdc & ->). rewrite Hr in Hdc. simpl in Hdc. subst dc'.
    assert (Hall : Forall (fun r => routes_of service r = true) routes).
    { eapply Forall_impl; [exact Hv|]. intros r [Hs _]. by apply routes_of_true. }
    split; [done|]. split; [done|]. split; [|split; [by apply splice_routes_same|]].
    + destruct (splice_routes_eq service routes (dc_routes dc)) as (pre & post & ? & Hpre & Hpost & ?).
      exists pre, post. split; [done|]. split; [|split; [|done]].
      * eapply Forall_impl; [exact Hpre|]. intros r Hs%str_eqb_false. done.
      * intros r rest Heq. by eapply routes_of_true, Hpost.
    + split; [by apply splice_routes_other|done].
  - assert (Herr : (set_routes service routes dc).2 = Err e) by by rewrite Hr.
    pose proof Herr as Herr'. apply set_routes_unchanged in Herr'. rewrite Hr in Herr'.
    split; [done|]. unfold set_routes in Hr. case_bool_decide.
    + destruct (validate_routes service routes); simplify_eq/=; eauto.
    + destruct (validate_route_target dc service); simplify_eq/=; [|by eauto].
      destruct (validate_routes service routes); simplify_eq/=; eauto.
Qed.

(** C32: Group names stay distinct, and so do the (name, node) pairs within each
    group, under any sequence of mutations, successful or not, from a
    configuration where they are. *)
Theorem mutations_preserve_wf `{HttpCrate} dc dc' (Hwf : dc_wf dc)
    (Hsteps : steps mutation_step dc dc') : dc_wf dc'.
Proof.
  eapply (steps_invariant mutation_step dc_wf); [|exact Hwf|exact Hsteps].
  intros s1 s2 H1 [m ->]. by apply mutate_wf.
Qed.

(** A path prefix matches on segment boundaries: without a trailing slash,
    exactly when the prefix's segments are the path's first segments ([/v2]
    matches [/v2] and [/v2/x], never [/v20]); with one, exactly when it is a
    prefix of the path. *)
Lemma path_has_prefix_segments path prefix :
  path_has_prefix path prefix = true <->
  if ends_with "/" prefix then exists rest, path = prefix +:+ rest
  else str_split "/" prefix `prefix_of` str_split "/" path.
Proof.
  unfold path_has_prefix. destruct (ends_with "/" prefix).
  - destruct (strip_prefix prefix path) as [rest|] eqn:Hs.
    + apply strip_prefix_Some in Hs. rewrite orb_true_r. simpl. split; eauto.
    + split; [done|]. intros [rest Hr]. apply strip_prefix_Some in Hr. congruence.
  - rewrite segments_prefix. destruct (strip_prefix prefix path) as [rest|] eqn:Hs.
    + apply strip_prefix_Some in Hs as ->. rewrite orb_false_r, orb_true_iff. split.
      * intros [Hr|[r ->]%starts_with_slash]; [left|by right; exists r].
        destruct rest; [|done]. by rewrite str_app_nil_r.
      * intros [Hr|[r Hr]].
        -- left. rewrite <- (str_app_nil_r prefix) in Hr at 2.
           apply (inj (String.app prefix)) in Hr. by rewrite Hr.
        -- right. apply (inj (String.app prefix)) in Hr. apply starts_with_slash. eauto.
    + split; [done|]. intros Hp. exfalso. destruct Hp as [->|[r ->]].
      * by rewrite (proj2 (strip_prefix_Some prefix prefix "")) in Hs by by rewrite str_app_nil_r.
      * by rewrite (proj2 (strip_prefix_Some prefix _ (String "/" r))) in Hs.
Qed.

(** ** Witnesses *)

Module Examples.

Definition http_crate : HttpCrate :=
  {| header_name_ok n := negb (str_is_empty n) && all (fun c => negb (is_ascii_whitespace c)) (str_to_list n);
     uri_parse s := match split_once ":" s with
                    | Some (scheme, rest) => Ok (Some scheme, strip_prefix "//" rest)
                    | None => Err "no scheme"
                    end |}.

Definition service (name node : string) (protocol : Protocol) : Service :=
  {| svc_name := name; svc_node_id := node; svc_node_port := 8080; svc_domains := [];
     svc_weight := DEFAULT_WEIGHT; svc_max_connections := None; svc_protocol := protocol;
     svc_request_timeout_ms := None; svc_health_path := None; svc_labels := ∅; svc_meta := ∅;
     svc_local_port := None |}.

Definition route (svc prefix : string) : Route :=
  {| route_name := None; route_service := svc;
     route_matches := {| rm_path_prefix := Some prefix; rm_method := Some "GET"; rm_headers := ∅ |};
     route_backends := [{| rb_labels := ∅; rb_weight := 1 |}] |}.

Definition dc : DynamicConfig :=
  {| dc_version := 7;
     dc_service_groups := [{| grp_name := "web"; grp_services := [service "api" "a" Http; service "api" "b" Http] |}];
     dc_routes := [route "api" "/v1"] |}.

Lemma dc_is_wf : dc_wf dc.
Proof.
  split; [apply (bool_decide_unpack _); vm_compute; exact I|].
  constructor; [|constructor]. apply (bool_decide_unpack _); vm_compute; exact I.
Qed.

Lemma rename_service_witness :
  exists s, lookup_service dc "web" "a" "api" = Some s
    /\ lookup_service (rename_service "web" "a" "api" "site" dc).1 "web" "a" "site" = Some (with_name "site" s).
Proof.
  pose proof (rename_service_refines "web" "a" "api" "site" dc dc_is_wf) as Hr.
  vm_compute in Hr. destruct Hr as (s & Hs & _ & Hall & _). exists s.
  split; [exact Hs|exact (Hall "web" "a" "site")].
Defined.

Lemma mutations_preserve_wf_witness :
  dc_wf (mutate (H := http_crate) (MSetRoutes "api" [])
    (mutate (H := http_crate) (MUpsert "new" (service "db" "b" Tcp)) dc).1).1.
Proof.
  eapply (mutations_preserve_wf (H := http_crate) dc).
  - exact dc_is_wf.
  - eapply steps_step; [eapply steps_step; [apply steps_refl|]|]; eexists; reflexivity.
Defined.

End Examples.
