(* ===== verification/Config.v ===== *)
(** * The on-disk configuration ([src/src/config.rs], lines 9-21 and 467-905)

    Node identities and self-reported health, the [Config] record, its
    validation, the addresses derived from it, and the atomic replacement of
    the file it is stored in. *)

From Stdlib Require Import SpecFloat.
From S2P Require Import Prelude NetAddr Dynamic.

(** ** Data *)

Inductive Mode := Node | Subscribe | NodeSubscribe.
#[export] Instance Mode_eq_dec : EqDecision Mode.
Proof. solve_decision. Defined.

Record ServiceHealth := { sh_version : Z; sh_unhealthy : list string }.
#[export] Instance ServiceHealth_eq_dec : EqDecision ServiceHealth.
Proof. solve_decision. Defined.

Definition default_health : ServiceHealth := {| sh_version := 0; sh_unhealthy := [] |}.

Definition sh_is_unset (h : ServiceHealth) : bool := (sh_version h =? 0)%Z.

Definition is_unhealthy (h : ServiceHealth) (service_name : string) : bool :=
  any (fun s => str_eqb s service_name) (sh_unhealthy h).

(** [last_seen] is an [Instant] in nanoseconds on this process's clock. *)
Record NodeInfo := {
  ni_id : string;
  ni_addr : string;
  ni_relay : option string;
  ni_last_seen : option Z;
  ni_health : ServiceHealth
}.
#[export] Instance NodeInfo_eq_dec : EqDecision NodeInfo.
Proof. solve_decision. Defined.

(** [sample_ratio] is an IEEE 754 double. *)
Record TracingConfig := {
  tc_otlp_endpoint : string;
  tc_sample_ratio : spec_float;
  tc_service_name : string
}.

Record Config := {
  mode : Mode;
  bind : string;
  advertise_addr : option string;
  node_id : string;
  outbound_only : bool;
  reverse_pool_size : option Z;
  known_nodes : list string;
  dynamic_config : DynamicConfig;
  subscribe_filter : option SubscribeFilter;
  tls_dir : option string;
  admin_cns : list string;
  api_port_opt : option Z;
  tracing : option TracingConfig;
  http_listen : option string
}.

(** [impl Default for Config]. *)
Definition default_config : Config :=
  {| mode := Node; bind := "0.0.0.0:8080"; advertise_addr := None; node_id := ""; outbound_only := false;
     reverse_pool_size := None; known_nodes := []; dynamic_config := default_dynamic_config;
     subscribe_filter := None; tls_dir := None; admin_cns := []; api_port_opt := None;
     tracing := None; http_listen := None |}.

(** The doubles [1.0] (the default ratio) and [0.0]. *)
Definition f64_one : spec_float := S754_finite false 4503599627370496 (-52).
Definition f64_zero : spec_float := S754_zero false.
Definition default_sample_ratio : spec_float := f64_one.
Definition default_tracing_service_name : string := "stouter".

(** [{}] of an [f64]; it occurs in one error message only. *)
Class ShowF64 := show_f64 : spec_float -> string.

Definition peer_addr (c : Config) : string := default (bind c) (advertise_addr c).
Definition pool_size (c : Config) : Z := default 64%Z (reverse_pool_size c).
Definition api_port (c : Config) : Z := default 5381%Z (api_port_opt c).

(** A wildcard bind address becomes the loopback of its family. *)
Definition local_target (c : Config) : string :=
  match parse_socket_addr (bind c) with
  | Some addr =>
      if is_unspecified (sa_ip addr) then
        match sa_ip addr with
        | V4 _ _ _ _ => "127.0.0.1:" +:+ show (sa_port addr)
        | V6 _ => "[::1]:" +:+ show (sa_port addr)
        end
      else bind c
  | None => bind c
  end.

Definition subscribes (m : Mode) : bool :=
  match m with Subscribe | NodeSubscribe => true | Node => false end.

(** ** Validation *)

Section validate.
Context `{HttpCrate} `{ShowF64}.

Definition validate_tracing (t : TracingConfig) : result unit string :=
  let at_ := "tracing.otlpEndpoint '" +:+ tc_otlp_endpoint t +:+ "'" in
  let? (scheme, host) :=
    map_err (fun e => at_ +:+ " is not a URL: " +:+ e) (uri_parse (tc_otlp_endpoint t)) in
  let? _ :=
    match scheme with
    | Some s =>
        if str_eqb s "http" then Ok tt
        else if str_eqb s "https" then
          Err (at_ +:+ ": https is not supported; send to a local OpenTelemetry Collector over http and let it forward over TLS")
        else Err (at_ +:+ " must start with http://")
    | None => Err (at_ +:+ " must start with http://")
    end in
  if bool_decide (host = None) then Err (at_ +:+ " has no host")
  else if negb (SFleb f64_zero (tc_sample_ratio t) && SFleb (tc_sample_ratio t) f64_one) then
    Err ("tracing.sampleRatio " +:+ show_f64 (tc_sample_ratio t) +:+ " must be between 0.0 and 1.0")
  else Ok tt.

(** The domains of one service, against the owners seen so far. *)
Fixpoint check_domains (group name : string) (domain_owner : gmap string string)
    (domains : list string) : result (gmap string string) string :=
  match domains with
  | [] => Ok domain_owner
  | domain :: domains =>
      match domain_owner !! domain with
      | Some owner =>
          if negb (str_eqb owner name) then
            Err ("domain '" +:+ domain +:+ "' is claimed by both '" +:+ owner +:+ "' and '"
                 +:+ group +:+ "/" +:+ name +:+ "'")
          else check_domains group name (<[domain := name]> domain_owner) domains
      | None => check_domains group name (<[domain := name]> domain_owner) domains
      end
  end.

Fixpoint check_services (group : string) (instances : gset (string * string))
    (domain_owner : gmap string string) (services : list Service)
    : result (gmap string string) string :=
  match services with
  | [] => Ok domain_owner
  | svc :: services =>
      let key := (svc_node_id svc, svc_name svc) in
      if decide (key ∈ instances) then
        Err ("duplicate service '" +:+ svc_name svc +:+ "' on node '" +:+ svc_node_id svc
             +:+ "' in group '" +:+ group +:+ "'")
      else
        let? _ := match svc_health_path svc with
                  | Some path =>
                      map_err (fun e => "service '" +:+ group +:+ "/" +:+ svc_name svc +:+ "' on node '"
                                        +:+ svc_node_id svc +:+ "': " +:+ e)
                        (validate_health_path path)
                  | None => Ok tt
                  end in
        let? owner := check_domains group (svc_name svc) domain_owner (svc_domains svc) in
        check_services group ({[key]} ∪ instances) owner services
  end.

Fixpoint check_groups (group_names : gset string) (domain_owner : gmap string string)
    (groups : list ServiceGroup) : result unit string :=
  match groups with
  | [] => Ok tt
  | group :: groups =>
      if decide (grp_name group ∈ group_names) then
        Err ("duplicate service group name: '" +:+ grp_name group +:+ "'")
      else
        let? owner := check_services (grp_name group) ∅ domain_owner (grp_services group) in
        check_groups ({[grp_name group]} ∪ group_names) owner groups
  end.

Definition check_routes (dc : DynamicConfig) : result unit string :=
  try_each (fun service =>
    let? _ := validate_route_target dc service in
    validate_routes service (retain (routes_of service) (dc_routes dc)))
    (sort_dedup (route_service <$> dc_routes dc)).

(** The ports of the daemon's own listeners, which fixed ports must avoid. *)
Definition reserved_ports (c : Config) : result (gmap Z string) string :=
  let ports : gmap Z string :=
    if subscribes (mode c) then {[api_port c := "the REST API (apiPort)"]} else ∅ in
  match http_listen c with
  | None => Ok ports
  | Some listen =>
      match parse_socket_addr listen with
      | None => Err ("httpListen '" +:+ listen
                     +:+ "' is not an address like 127.0.0.1:15001: invalid socket address syntax")
      | Some addr =>
          if negb (subscribes (mode c))
          then Err "`httpListen` is only valid in subscribe or nodeSubscribe mode"
          else if is_loopback (sa_ip addr) || is_unspecified (sa_ip addr)
          then Ok (<[sa_port addr := "httpListen"]> ports)
          else Ok ports
      end
  end.

Fixpoint check_ports (dc : DynamicConfig) (port_owner : gmap Z string) (names : list string)
    : result unit string :=
  match names with
  | [] => Ok tt
  | name :: names =>
      let? port := local_port_for dc name in
      match port with
      | None => check_ports dc port_owner names
      | Some port =>
          if (port =? 0)%Z then Err ("localPort of '" +:+ name +:+ "' must not be 0")
          else match port_owner !! port with
               | Some other => Err ("localPort " +:+ show port +:+ " of '" +:+ name
                                    +:+ "' is already used by " +:+ other)
               | None => check_ports dc (<[port := name]> port_owner) names
               end
      end
  end.

Definition service_names (dc : DynamicConfig) : list string :=
  sort_dedup (svc_name <$> all_services dc).

Definition validate (c : Config) : result unit string :=
  let dc := dynamic_config c in
  let? _ := check_groups ∅ ∅ (dc_service_groups dc) in
  let? _ := check_routes dc in
  let? ports := reserved_ports c in
  let? _ := check_ports dc ports (service_names dc) in
  let? _ := match tracing c with Some t => validate_tracing t | None => Ok tt end in
  match subscribe_filter c with
  | Some _ =>
      if negb (subscribes (mode c))
      then Err "`subscribeFilter` is only valid in subscribe or nodeSubscribe mode"
      else Ok tt
  | None => Ok tt
  end.
End validate.

(** ** Loading, checking and saving

    [serde_json] (the text's parser and printer) and reading a file are
    parameters; [None] is a failure of either. *)

Record ConfigIo := {
  read_to_string : string -> option string;
  from_str : string -> option Config
}.

Definition load (io : ConfigIo) (path : string) : result Config string :=
  match read_to_string io path with
  | None => Err "read"
  | Some data => match from_str io data with None => Err "json" | Some c => Ok c end
  end.

Definition check `{HttpCrate} `{ShowF64} (io : ConfigIo) (path : string) : result Config string :=
  match read_to_string io path with
  | None => Err ("failed to read config file '" +:+ path +:+ "'")
  | Some data =>
      match from_str io data with
      | None => Err ("invalid JSON in '" +:+ path +:+ "'")
      | Some c => let? _ := validate c in Ok c
      end
  end.

(** *** Replacing a file

    The files by path, with their permissions and owner (user and group); what the
    kernel answers to each call is the environment's choice. A write that fails may
    leave a prefix behind. *)

Inductive ErrorKind := ResourceBusy | CrossesDevices | PermissionDenied | OtherKind.

Record FsFile := { fl_data : string; fl_mode : Z; fl_owner : Z * Z }.

Abbreviation Fs := (gmap string FsFile).

Record IoEnv := {
  canonicalize : string -> option string;
  random_hex : string;
  new_mode : Z;                      (** a new file's permissions and owner *)
  process_owner : Z * Z;
  open_write : option ErrorKind;      (** opening the existing target for writing *)
  create_new : option ErrorKind;      (** creating the temporary file *)
  set_permissions : option ErrorKind;
  fchown_ok : bool;
  write_all : option (ErrorKind * nat); (** the error, and the bytes written before it *)
  sync_all : option ErrorKind;
  rename : option ErrorKind;
  remove_ok : bool;                   (** whether the temporary file can be removed *)
  open_truncate : option ErrorKind;   (** opening the target to write it in place *)
  write_in_place : option (ErrorKind * nat)
}.

(** [path.parent()] as a directory to join to, and [path.file_name()]. *)
Definition dir_prefix (path : string) : string :=
  match rsplit_once "/" path with Some (d, _) => d +:+ "/" | None => "./" end.
Definition file_name (path : string) : string :=
  match rsplit_once "/" path with Some (_, n) => n | None => path end.

Definition tmp_path (env : IoEnv) (target : string) : string :=
  dir_prefix target +:+ "." +:+ file_name target +:+ "." +:+ random_hex env +:+ ".tmp".

(** Each operation adds the states it goes through, oldest first. *)
Definition trace : Type := list Fs.

Definition created (env : IoEnv) (data : string) : FsFile :=
  {| fl_data := data; fl_mode := new_mode env; fl_owner := process_owner env |}.
Definition with_data (data : string) (f : FsFile) : FsFile :=
  {| fl_data := data; fl_mode := fl_mode f; fl_owner := fl_owner f |}.
Definition with_permissions (mode : Z) (f : FsFile) : FsFile :=
  {| fl_data := fl_data f; fl_mode := mode; fl_owner := fl_owner f |}.
Definition with_owner (owner : Z * Z) (f : FsFile) : FsFile :=
  {| fl_data := fl_data f; fl_mode := fl_mode f; fl_owner := owner |}.

(** The file at [path] with these contents, created if there is none. *)
Definition put (env : IoEnv) (path data : string) (fs : Fs) : Fs :=
  <[path := match fs !! path with Some f => with_data data f | None => created env data end]> fs.

(** [std::fs::write]: truncate, then write. *)
Definition fs_write (env : IoEnv) (target data : string) (fs : Fs) : trace * result unit ErrorKind :=
  match open_truncate env with
  | Some e => ([], Err e)
  | None =>
      match write_in_place env with
      | None => ([put env target "" fs; put env target data fs], Ok tt)
      | Some (e, n) => ([put env target "" fs; put env target (String.substring 0 n data) fs], Err e)
      end
  end.

(** The temporary file is given the target's permissions, and its owner if that is
    allowed; a new target leaves it as it is. *)
Definition take_after (env : IoEnv) (tmp : string) (old : option FsFile) (fs : Fs) : Fs * Fs :=
  match old with
  | None => (fs, fs)
  | Some f =>
      let fs1 := alter (with_permissions (fl_mode f)) tmp fs in
      (fs1, if fchown_ok env then alter (with_owner (fl_owner f)) tmp fs1 else fs1)
  end.

(** [std::fs::rename]. *)
Definition rename_file (tmp target : string) (fs : Fs) : Fs :=
  match fs !! tmp with Some f => delete tmp (<[target := f]> fs) | None => fs end.

Definition write_then_rename (env : IoEnv) (tmp target data : string) (fs : Fs)
    : trace * result unit ErrorKind :=
  match (if decide (is_Some (fs !! target)) then set_permissions env else None) with
  | Some e => ([fs], Err e)
  | None =>
      let '(fs1, fs2) := take_after env tmp (fs !! target) fs in
      match write_all env with
      | Some (e, n) => ([fs1; fs2; alter (with_data (String.substring 0 n data)) tmp fs2], Err e)
      | None =>
          let fs3 := alter (with_data data) tmp fs2 in
          match sync_all env with
          | Some e => ([fs1; fs2; fs3], Err e)
          | None =>
              match rename env with
              | Some e => ([fs1; fs2; fs3], Err e)
              | None => ([fs1; fs2; fs3; rename_file tmp target fs3], Ok tt)
              end
          end
      end
  end.

(** Whether an error of the atomic path falls back to writing in place. *)
Definition falls_back (e : ErrorKind) : bool :=
  match e with ResourceBusy | CrossesDevices | PermissionDenied => true | OtherKind => false end.

Definition write_target (env : IoEnv) (path : string) : string := default path (canonicalize env path).

Definition write_atomic (env : IoEnv) (path data : string) (fs : Fs) : trace * result unit ErrorKind :=
  let target := write_target env path in
  match (if decide (is_Some (fs !! target)) then open_write env else None) with
  | Some e => ([], Err e)
  | None =>
      let tmp := tmp_path env target in
      match (if decide (is_Some (fs !! tmp)) then Some OtherKind else create_new env) with
      | Some _ => fs_write env target data fs
      | None =>
          let fs0 := <[tmp := created env ""]> fs in
          let '(tr, r) := write_then_rename env tmp target data fs0 in
          match r with
          | Ok _ => (fs0 :: tr, Ok tt)
          | Err e =>
              let fs1 := if remove_ok env then delete tmp (default fs0 (last tr)) else default fs0 (last tr) in
              if falls_back e then
                let '(tr', r') := fs_write env target data fs1 in
                (fs0 :: tr ++ fs1 :: tr', r')
              else (fs0 :: tr ++ [fs1], Err e)
          end
      end
  end.

(** [Config::save]: [to_string_pretty] renders the configuration. *)
Definition save (to_string_pretty : Config -> string) (env : IoEnv) (path : string) (c : Config) (fs : Fs)
    : trace * result unit ErrorKind :=
  write_atomic env path (to_string_pretty c) fs.

(** [get_hostname]: the system's answer when it is a non-empty UTF-8 string. *)
Definition get_hostname (hostname : option string) : string :=
  match hostname with
  | Some s => if str_is_empty s then "unknown" else s
  | None => "unknown"
  end.

(** ** Validation accepts exactly the well-formed configurations *)

(** [v] is claimed for [k] by at most one value, in [claims] and [seen]. *)
Definition functional {K V} (claims : list (K * V)) : Prop :=
  forall k v v', (k, v) ∈ claims -> (k, v') ∈ claims -> v = v'.

(** The health path starts with a slash and has only visible ASCII characters. *)
Definition health_ok (svc : Service) : Prop :=
  forall p, svc_health_path svc = Some p ->
    (exists rest, p = String "/" rest) /\ Forall (fun c => 33 <= code c <= 126)%Z (str_to_list p).

Lemma validate_health_path_ok p :
  validate_health_path p = Ok tt <->
  (exists rest, p = String "/" rest) /\ Forall (fun c => 33 <= code c <= 126)%Z (str_to_list p).
Proof.
  unfold validate_health_path. rewrite <- starts_with_slash. destruct (starts_with "/" p); simpl; [|split; [done|by intros []]].
  destruct (any _ (str_to_list p)) eqn:Ha.
  - split; [done|]. intros [_ Hall]. apply any_true in Ha as (c & Hc & Hb). rewrite Forall_forall in Hall.
    specialize (Hall c Hc). unfold is_ascii_whitespace, is_ascii_control, is_ascii in Hb. simpl in Hb. lia.
  - split; [|done]. intros _. split; [done|]. apply any_false in Ha. eapply Forall_impl; [exact Ha|]. intros c Hb.
    assert (0 <= code c)%Z by (unfold code; lia).
    unfold is_ascii_whitespace, is_ascii_control, is_ascii in Hb. simpl in Hb. lia.
Qed.

(** The service exists, and every instance of it is HTTP. *)
Definition target_ok (dc : DynamicConfig) (service : string) : Prop :=
  (exists s, s ∈ all_services dc /\ svc_name s = service)
  /\ forall s, s ∈ all_services dc -> svc_name s = service -> svc_protocol s = Http.

Lemma validate_route_target_ok dc service : validate_route_target dc service = Ok tt <-> target_ok dc service.
Proof.
  unfold validate_route_target, target_ok.
  assert (Hin : forall s, s ∈ retain (fun s => str_eqb (svc_name s) service) (all_services dc)
    <-> s ∈ all_services dc /\ svc_name s = service).
  { intros s. by rewrite elem_of_retain, str_eqb_true. }
  set (l := retain _ _) in *. case_bool_decide as Hl.
  { split; [done|]. intros [(s & Hs) _]. apply Hin in Hs. rewrite Hl in Hs. by apply not_elem_of_nil in Hs. }
  destruct (any _ l) eqn:Ha.
  - split; [done|]. intros [_ Hall]. apply any_true in Ha as (s & Hs & Hb). apply Hin in Hs as [? ?].
    apply negb_true_iff, bool_decide_eq_false in Hb. by destruct Hb; apply Hall.
  - split; [|done]. intros _. apply any_false in Ha. rewrite Forall_forall in Ha. split.
    + destruct l as [|s l']; [done|]. exists s. apply Hin. left.
    + intros s Hs Hn. specialize (Ha s (proj2 (Hin s) (conj Hs Hn))). apply negb_false_iff, bool_decide_eq_true in Ha. done.
Qed.

Definition svc_instance (s : Service) : string * string := (svc_node_id s, svc_name s).

Definition domain_claims (svcs : list Service) : list (string * string) :=
  svcs ≫= (fun s => (fun d => (d, svc_name s)) <$> svc_domains s).

(** [owner] records exactly what was claimed. *)
Definition records (owner : gmap string string) (seen : list (string * string)) : Prop :=
  functional seen /\ forall k v, owner !! k = Some v <-> (k, v) ∈ seen.

Lemma records_empty : records ∅ [].
Proof. split; [intros ? ? ? []%not_elem_of_nil|]. intros k v. rewrite lookup_empty. by split; [|intros []%not_elem_of_nil]. Qed.

Lemma records_snoc owner seen k v :
  records owner seen -> (forall v', owner !! k = Some v' -> v' = v) ->
  records (<[k := v]> owner) (seen ++ [(k, v)]).
Proof.
  intros [Hf Hr] Hk.
  assert (Hseen : forall v', (k, v') ∈ seen -> v' = v) by (intros v' Hv; apply Hk; by apply Hr).
  split.
  - intros k' v1 v2. rewrite !elem_of_app, !list_elem_of_singleton.
    intros [H1|H1] [H2|H2]; simplify_eq; eauto. symmetry. eauto.
  - intros k' v'. rewrite elem_of_app, list_elem_of_singleton.
    destruct (decide (k' = k)) as [->|Hne].
    + rewrite lookup_insert_eq. split; [intros [= ->]; by right|].
      intros [Hv|[= ->]]; [by rewrite (Hseen v' Hv)|done].
    + rewrite lookup_insert_ne, Hr by done. split; [by left|]. by intros [?|[= -> ->]].
Qed.

Lemma check_domains_ok group name owner seen domains :
  records owner seen ->
  match check_domains group name owner domains with
  | Ok owner' => records owner' (seen ++ ((fun d => (d, name)) <$> domains))
  | Err _ => ~ functional (seen ++ ((fun d => (d, name)) <$> domains))
  end.
Proof.
  revert owner seen. induction domains as [|d ds IH]; intros owner seen Hrec; simpl.
  - by rewrite app_nil_r.
  - assert (Hstep : forall v, owner !! d = Some v -> v = name ->
      records (<[d := name]> owner) (seen ++ [(d, name)])).
    { intros v Hv ->. apply records_snoc; [done|]. naive_solver. }
    rewrite cons_middle, (assoc_L (++)).
    destruct (owner !! d) as [o|] eqn:Ho.
    + destruct (str_eqb o name) eqn:Heq; simpl; bool_hyps.
      * apply IH. by eapply Hstep.
      * intros Hf. apply Heq, (Hf d); [|set_solver].
        apply elem_of_app; left. apply elem_of_app; left. by apply Hrec.
    + apply IH, records_snoc; [done|]. congruence.
Qed.

Lemma functional_app_l {K V} (l l' : list (K * V)) : functional (l ++ l') -> functional l.
Proof. intros Hf k v v' H1 H2. apply (Hf k); apply elem_of_app; by left. Qed.

Definition services_ok (instances : gset (string * string)) (svcs : list Service) : Prop :=
  fresh svc_instance instances svcs /\ Forall health_ok svcs.

Lemma services_ok_cons instances s svcs :
  services_ok instances (s :: svcs) <->
  (svc_instance s ∉ instances) /\ health_ok s /\ services_ok ({[svc_instance s]} ∪ instances) svcs.
Proof. unfold services_ok. rewrite fresh_cons, Forall_cons. tauto. Qed.

Lemma check_services_ok group instances owner seen svcs :
  records owner seen ->
  match check_services group instances owner svcs with
  | Ok owner' => services_ok instances svcs /\ records owner' (seen ++ domain_claims svcs)
  | Err _ => ~ (services_ok instances svcs /\ functional (seen ++ domain_claims svcs))
  end.
Proof.
  revert instances owner seen. induction svcs as [|s svcs IH]; intros instances owner seen Hrec; simpl.
  { rewrite app_nil_r. split; [|done]. split; [apply fresh_nil|constructor]. }
  pose proof (services_ok_cons instances s svcs) as Hcons.
  change (domain_claims (s :: svcs)) with (((fun d => (d, svc_name s)) <$> svc_domains s) ++ domain_claims svcs).
  rewrite (assoc_L (++)). fold (svc_instance s). case_decide as Hd; [tauto|].
  destruct (match svc_health_path s with Some _ => _ | None => _ end) as [[]|] eqn:Hh; cycle 1.
  { intros [(_ & Hok & _)%Hcons _]. unfold health_ok in Hok. destruct (svc_health_path s) as [p|]; [|done].
    by rewrite (proj2 (validate_health_path_ok p) (Hok p eq_refl)) in Hh. }
  assert (Hhealth : health_ok s).
  { intros p Hp. rewrite Hp in Hh. apply validate_health_path_ok. by destruct (validate_health_path p) as [[]|]. }
  pose proof (check_domains_ok group (svc_name s) owner seen (svc_domains s) Hrec) as Hdom.
  destruct (check_domains _ _ _ _) as [owner'|].
  - specialize (IH ({[svc_instance s]} ∪ instances) owner' _ Hdom).
    destruct (check_services _ _ _ _); tauto.
  - intros [_ Hf]. by apply functional_app_l in Hf.
Qed.

Definition groups_ok (names : gset string) (groups : list ServiceGroup) : Prop :=
  fresh grp_name names groups /\ Forall (fun g => services_ok ∅ (grp_services g)) groups.

Lemma groups_ok_cons names g groups :
  groups_ok names (g :: groups) <->
  (grp_name g ∉ names) /\ services_ok ∅ (grp_services g) /\ groups_ok ({[grp_name g]} ∪ names) groups.
Proof. unfold groups_ok. rewrite fresh_cons, Forall_cons. tauto. Qed.

Lemma check_groups_ok names owner seen groups :
  records owner seen ->
  check_groups names owner groups = Ok tt <->
  groups_ok names groups /\ functional (seen ++ (groups ≫= (fun g => domain_claims (grp_services g)))).
Proof.
  revert names owner seen. induction groups as [|g groups IH]; intros names owner seen Hrec; simpl.
  { rewrite app_nil_r. split; [|done]. intros _. split; [|apply Hrec]. split; [apply fresh_nil|constructor]. }
  rewrite groups_ok_cons. case_decide as Hd; [split; [done|tauto]|]. rewrite (assoc_L (++)).
  pose proof (check_services_ok (grp_name g) ∅ owner seen (grp_services g) Hrec) as Hs.
  destruct (check_services _ _ _ _) as [owner'|].
  - destruct Hs as [Hs Hrec']. rewrite (IH _ _ _ Hrec'). tauto.
  - split; [done|]. intros [(_ & ? & _) Hf%functional_app_l]. tauto.
Qed.

Lemma check_routes_ok `{HttpCrate} dc :
  check_routes dc = Ok tt <->
  forall r, r ∈ dc_routes dc ->
    target_ok dc (route_service r) /\ route_ok (route_service r) r.
Proof.
  setoid_rewrite <- validate_route_target_ok. unfold check_routes. rewrite try_each_ok, Forall_forall. split.
  - intros Hall r Hr. specialize (Hall (route_service r)).
    rewrite elem_of_sort_dedup, list_elem_of_fmap in Hall. specialize (Hall (ex_intro _ r (conj eq_refl Hr))).
    destruct (validate_route_target _ _) as [[]|]; [|done]. split; [done|].
    rewrite validate_routes_ok, Forall_forall in Hall. apply Hall, elem_of_retain.
    split; [done|]. by apply routes_of_true.
  - intros Hall svc. rewrite elem_of_sort_dedup, list_elem_of_fmap. intros (r & -> & Hr).
    destruct (Hall r Hr) as [-> _]. apply validate_routes_ok, Forall_forall.
    intros r' [Hr' Hs]%elem_of_retain. apply routes_of_true in Hs. rewrite <- Hs. by apply Hall.
Qed.

(** The fixed ports of a name's instances agree. *)
Lemma local_port_for_ok dc name :
  is_ok (local_port_for dc name) = true <->
  forall s1 s2 p1 p2, s1 ∈ instances_of dc name -> s2 ∈ instances_of dc name ->
    svc_local_port s1 = Some p1 -> svc_local_port s2 = Some p2 -> p1 = p2.
Proof.
  split.
  - destruct (local_port_for dc name) as [[p|]|] eqn:Hl; [| |done]; intros _ s1 s2 p1 p2 H1 H2 Hp1 Hp2.
    + apply local_port_for_some in Hl as [_ Hl]. by rewrite (Hl s1 p1), (Hl s2 p2).
    + rewrite local_port_for_none in Hl. by rewrite (Hl s1 H1) in Hp1.
  - intros Hag. destruct (decide (Exists (fun s => is_Some (svc_local_port s)) (instances_of dc name))) as [Hex|Hno].
    + apply Exists_exists in Hex as (s & Hs & p & Hp).
      by rewrite (proj2 (local_port_for_some dc name p)) by eauto.
    + rewrite (proj2 (local_port_for_none dc name)); [done|]. intros s Hs.
      destruct (svc_local_port s) eqn:Hp; [|done]. exfalso. apply Hno, Exists_exists. eauto.
Qed.

Definition port_of (dc : DynamicConfig) (name : string) : option Z :=
  match local_port_for dc name with Ok o => o | Err _ => None end.

Lemma check_ports_ok dc owner names :
  check_ports dc owner names = Ok tt <->
  Forall (fun n => is_ok (local_port_for dc n) = true) names
  /\ NoDup (omap (port_of dc) names)
  /\ (forall p, p ∈ omap (port_of dc) names -> p <> 0%Z /\ owner !! p = None).
Proof.
  revert owner. induction names as [|n names IH]; intros owner; simpl.
  { split; [|done]. intros _. split; [constructor|]. split; [constructor|].
    by intros p ?%not_elem_of_nil. }
  rewrite Forall_cons.
  assert (Hpo : port_of dc n = match local_port_for dc n with Ok o => o | Err _ => None end) by done.
  destruct (local_port_for dc n) as [[p|]|]; rewrite Hpo; simpl.
  - rewrite NoDup_cons. destruct (Z.eqb_spec p 0) as [->|Hp0].
    { split; [done|]. intros (_ & _ & Hall). destruct (Hall 0%Z) as [? _]; [by apply elem_of_cons; left|done]. }
    destruct (owner !! p) eqn:Ho.
    { split; [done|]. intros (_ & _ & Hall). destruct (Hall p) as [_ ?]; [by apply elem_of_cons; left|congruence]. }
    rewrite IH. split.
    + intros (Hok & Hnd & Hall). split; [done|]. split.
      * split; [|done]. intros Hp. destruct (Hall p Hp) as [_ Hn]. by rewrite lookup_insert_eq in Hn.
      * intros q [->|Hq]%elem_of_cons; [done|]. destruct (Hall q Hq) as [? Hn].
        by apply lookup_insert_None in Hn as [? _].
    + intros ((_ & Hok) & (Hnp & Hnd) & Hall). split; [done|]. split; [done|]. intros q Hq.
      destruct (Hall q) as [? Hn]; [by apply elem_of_cons; right|]. split; [done|].
      rewrite lookup_insert_ne; [done|]. by intros ->.
  - rewrite IH. naive_solver.
  - split; [done|]. intros ((? & _) & _). done.
Qed.

(** A port of the daemon's own loopback listeners. *)
Definition reserved_port (c : Config) (p : Z) : Prop :=
  subscribes (mode c) = true /\ p = api_port c
  \/ exists listen addr, http_listen c = Some listen /\ parse_socket_addr listen = Some addr
       /\ is_loopback (sa_ip addr) || is_unspecified (sa_ip addr) = true /\ p = sa_port addr.

Definition http_listen_ok (c : Config) : Prop :=
  forall listen, http_listen c = Some listen ->
    is_Some (parse_socket_addr listen) /\ subscribes (mode c) = true.

Lemma reserved_ports_ok c :
  match reserved_ports c with
  | Ok ports => http_listen_ok c /\ forall p, is_Some (ports !! p) <-> reserved_port c p
  | Err _ => ~ http_listen_ok c
  end.
Proof.
  unfold reserved_ports, http_listen_ok, reserved_port.
  assert (Hapi : forall p, is_Some
    ((if subscribes (mode c) then {[api_port c := "the REST API (apiPort)"]} else ∅ : gmap Z string) !! p) <->
    subscribes (mode c) = true /\ p = api_port c).
  { intros p. destruct (subscribes (mode c)).
    - rewrite lookup_singleton_is_Some. naive_solver.
    - rewrite lookup_empty. split; [by intros []|by intros []]. }
  destruct (http_listen c) as [listen|]; cycle 1.
  { split; [done|]. intros p. rewrite Hapi. split; [by left|].
    intros [?|(? & ? & ? & _)]; [done|discriminate]. }
  destruct (parse_socket_addr listen) as [addr|] eqn:Ha.
  - destruct (subscribes (mode c)) eqn:Hsub; simpl; [|intros Hall; by destruct (Hall listen eq_refl)].
    destruct (is_loopback _ || is_unspecified _) eqn:Hl.
    + split; [intros l [= <-]; by rewrite Ha|]. intros p. rewrite lookup_insert_is_Some', Hapi. split.
      * intros [<-|?]; [right; by exists listen, addr|by left].
      * intros [?|(l & a & [= <-] & Ha' & _ & ->)]; [by right|left; congruence].
    + split; [intros l [= <-]; by rewrite Ha|]. intros p. rewrite Hapi. split; [by left|].
      intros [?|(l & a & [= <-] & Ha' & Hl' & _)]; [done|congruence].
  - intros Hall. destruct (Hall listen eq_refl) as [Hs _]. rewrite Ha in Hs. by destruct Hs.
Qed.

(** What [validate] promises of the configurations it accepts. *)
Record config_ok `{HttpCrate} (c : Config) : Prop := {
  ok_groups : NoDup (grp_name <$> dc_service_groups (dynamic_config c));
  ok_instances : Forall (fun g => NoDup (svc_instance <$> grp_services g)) (dc_service_groups (dynamic_config c));
  ok_health : forall s, s ∈ all_services (dynamic_config c) -> health_ok s;
  ok_domains : forall s1 s2 d, s1 ∈ all_services (dynamic_config c) -> s2 ∈ all_services (dynamic_config c) ->
    d ∈ svc_domains s1 -> d ∈ svc_domains s2 -> svc_name s1 = svc_name s2;
  ok_routes : forall r, r ∈ dc_routes (dynamic_config c) ->
    target_ok (dynamic_config c) (route_service r) /\ route_ok (route_service r) r;
  ok_ports : forall s1 s2 p1 p2, s1 ∈ all_services (dynamic_config c) -> s2 ∈ all_services (dynamic_config c) ->
    svc_local_port s1 = Some p1 -> svc_local_port s2 = Some p2 ->
    (svc_name s1 = svc_name s2 <-> p1 = p2);
  ok_port : forall s p, s ∈ all_services (dynamic_config c) -> svc_local_port s = Some p ->
    p <> 0%Z /\ ~ reserved_port c p;
  ok_http_listen : http_listen_ok c;
  ok_tracing : forall t, tracing c = Some t ->
    (exists host, uri_parse (tc_otlp_endpoint t) = Ok (Some "http", Some host))
    /\ SFleb f64_zero (tc_sample_ratio t) = true /\ SFleb (tc_sample_ratio t) f64_one = true;
  ok_filter : is_Some (subscribe_filter c) -> subscribes (mode c) = true
}.

Lemma validate_tracing_ok `{HttpCrate} `{ShowF64} t :
  validate_tracing t = Ok tt <->
  (exists host, uri_parse (tc_otlp_endpoint t) = Ok (Some "http", Some host))
  /\ SFleb f64_zero (tc_sample_ratio t) = true /\ SFleb (tc_sample_ratio t) f64_one = true.
Proof.
  unfold validate_tracing. destruct (uri_parse _) as [[[scheme|] host]|]; simpl; [|naive_solver..].
  destruct (str_eqb scheme "http") eqn:Hs; bool_hyps.
  - subst. destruct host as [host|]; simpl; [|naive_solver].
    destruct (SFleb f64_zero _), (SFleb _ f64_one); simpl; naive_solver.
  - destruct (str_eqb scheme "https"); naive_solver.
Qed.

Lemma elem_of_service_names dc n :
  n ∈ service_names dc <-> exists s, s ∈ all_services dc /\ svc_name s = n.
Proof. unfold service_names. rewrite elem_of_sort_dedup, list_elem_of_fmap. naive_solver. Qed.

Lemma port_of_Some dc name p :
  is_ok (local_port_for dc name) = true ->
  port_of dc name = Some p <-> exists s, s ∈ instances_of dc name /\ svc_local_port s = Some p.
Proof.
  intros Hok. pose proof (proj1 (local_port_for_ok dc name) Hok) as Hag.
  unfold port_of. destruct (local_port_for dc name) as [[q|]|] eqn:Hl; [| |done].
  - apply local_port_for_some in Hl as [(s & Hs & Hp) Hall]. split; [intros [= <-]; eauto|].
    intros (s' & Hs' & Hp'). by rewrite (Hall s' p).
  - rewrite local_port_for_none in Hl. split; [done|]. intros (s & Hs & Hp). by rewrite Hl in Hp.
Qed.

Lemma NoDup_omap_functional {A B} (f : A -> option B) l :
  NoDup l -> NoDup (omap f l) <->
  forall x y b, x ∈ l -> y ∈ l -> f x = Some b -> f y = Some b -> x = y.
Proof.
  induction 1 as [|x l Hx Hnd IH]; simpl.
  { split; [by intros _ ? ? ? ?%not_elem_of_nil|constructor]. }
  destruct (f x) as [b|] eqn:Hfx.
  - rewrite NoDup_cons, IH, list_elem_of_omap. split.
    + intros [Hb Hf] y z c [->|Hy]%elem_of_cons [->|Hz]%elem_of_cons ? ?; simplify_eq; eauto;
        exfalso; apply Hb; eauto.
    + intros Hf. split; [|intros; eapply Hf; eauto; by apply elem_of_cons; right].
      intros (y & Hy & Hfy). apply Hx. rewrite (Hf x y b); [done| | |done..].
      * by apply elem_of_cons; left.
      * by apply elem_of_cons; right.
  - rewrite IH. split; [|intros Hf y z c Hy Hz; apply Hf; by apply elem_of_cons; right].
    intros Hf y z c [->|Hy]%elem_of_cons [->|Hz]%elem_of_cons ? ?; simplify_eq; eauto.
Qed.

Lemma check_ports_all_ok dc owner :
  check_ports dc owner (service_names dc) = Ok tt <->
  (forall s1 s2 p1 p2, s1 ∈ all_services dc -> s2 ∈ all_services dc ->
     svc_local_port s1 = Some p1 -> svc_local_port s2 = Some p2 ->
     (svc_name s1 = svc_name s2 <-> p1 = p2))
  /\ (forall s p, s ∈ all_services dc -> svc_local_port s = Some p -> p <> 0%Z /\ owner !! p = None).
Proof.
  rewrite check_ports_ok, NoDup_omap_functional by apply NoDup_sort_dedup.
  rewrite Forall_forall. setoid_rewrite elem_of_service_names. split.
  - intros (Hok & Hinj & Hp).
    assert (Hpo : forall s p, s ∈ all_services dc -> svc_local_port s = Some p -> port_of dc (svc_name s) = Some p).
    { intros s p Hs Hsp. apply port_of_Some; [eauto|]. exists s. by rewrite elem_of_instances_of. }
    split.
    + intros s1 s2 p1 p2 H1 H2 Hp1 Hp2. apply Hpo in Hp1, Hp2; [|done..]. split; [congruence|].
      intros ->. eapply Hinj; [..|exact Hp1|exact Hp2]; eauto.
    + intros s p Hs Hsp. apply Hp, list_elem_of_omap. exists (svc_name s).
      rewrite elem_of_service_names. split; eauto.
  - intros [Hpair Hp].
    assert (Hok : forall n, is_ok (local_port_for dc n) = true).
    { intros n. apply local_port_for_ok. intros s1 s2 p1 p2 [H1 Hn1]%elem_of_instances_of [H2 Hn2]%elem_of_instances_of Hp1 Hp2.
      apply (Hpair s1 s2); congruence. }
    split; [done|]. split.
    + intros n1 n2 p _ _ (s1 & [Hs1 <-]%elem_of_instances_of & Hp1)%port_of_Some
        (s2 & [Hs2 <-]%elem_of_instances_of & Hp2)%port_of_Some; [|done..].
      by apply (Hpair s1 s2 p p).
    + intros p (n & _ & Hn)%list_elem_of_omap.
      apply port_of_Some in Hn as (s & [Hs _]%elem_of_instances_of & Hsp); eauto.
Qed.

Lemma elem_of_domain_claims groups d n :
  (d, n) ∈ (groups ≫= (fun g => domain_claims (grp_services g))) <->
  exists s, s ∈ (groups ≫= grp_services) /\ d ∈ svc_domains s /\ svc_name s = n.
Proof.
  rewrite list_elem_of_bind. split.
  - intros (g & (s & (d' & [= -> ->] & Hd)%list_elem_of_fmap & Hs)%list_elem_of_bind & Hg).
    exists s. rewrite list_elem_of_bind. eauto.
  - intros (s & (g & Hs & Hg)%list_elem_of_bind & Hd & <-). exists g. split; [|done].
    unfold domain_claims. apply list_elem_of_bind. exists s. split; [|done].
    apply list_elem_of_fmap. eauto.
Qed.

Lemma check_groups_dc_ok dc :
  check_groups ∅ ∅ (dc_service_groups dc) = Ok tt <->
  NoDup (grp_name <$> dc_service_groups dc)
  /\ Forall (fun g => NoDup (svc_instance <$> grp_services g)) (dc_service_groups dc)
  /\ (forall s, s ∈ all_services dc -> health_ok s)
  /\ (forall s1 s2 d, s1 ∈ all_services dc -> s2 ∈ all_services dc ->
        d ∈ svc_domains s1 -> d ∈ svc_domains s2 -> svc_name s1 = svc_name s2).
Proof.
  rewrite (check_groups_ok _ _ []) by apply records_empty. simpl. unfold groups_ok.
  rewrite fresh_empty. unfold services_ok. rewrite Forall_and.
  setoid_rewrite fresh_empty. rewrite !Forall_forall. split.
  - intros ((Hn & Hi & Hh) & Hf). split; [done|]. split; [done|]. split.
    + intros s (g & Hg & Hs)%elem_of_all_services. specialize (Hh g Hg). rewrite Forall_forall in Hh. auto.
    + intros s1 s2 d H1 H2 Hd1 Hd2. apply (Hf d); apply elem_of_domain_claims; eauto.
  - intros (Hn & Hi & Hh & Hf). split; [split; [done|split; [done|]]|].
    + intros g Hg. apply Forall_forall. intros s Hs. apply Hh, elem_of_all_services. eauto.
    + intros d n1 n2 (s1 & H1 & Hd1 & <-)%elem_of_domain_claims (s2 & H2 & Hd2 & <-)%elem_of_domain_claims.
      by apply (Hf s1 s2 d).
Qed.

(** ** Replacing a file keeps the old contents or the new *)

Lemma append_length (a b : string) : String.length (a +:+ b) = String.length a + String.length b.
Proof. induction a as [|c a IH]; [done|]. rewrite str_app_cons. simpl. by rewrite IH. Qed.

Lemma rsplit_once_eq c s a b : rsplit_once c s = Some (a, b) -> s = a +:+ String c b.
Proof.
  revert a b. induction s as [|d s IH]; simpl; intros a b Hs; [done|].
  destruct (rsplit_once c s) as [[a' b']|].
  - simplify_eq. rewrite str_app_cons. f_equal. by apply IH.
  - destruct (Ascii.eqb_spec c d); simplify_eq. done.
Qed.

(** The temporary file is another file: its path is longer. *)
Lemma tmp_path_ne env target : tmp_path env target <> target.
Proof.
  intros Heq. apply (f_equal String.length) in Heq. revert Heq.
  unfold tmp_path, dir_prefix, file_name. rewrite !append_length.
  destruct (rsplit_once "/" target) as [[d n]|] eqn:Hs; simpl.
  - apply rsplit_once_eq in Hs as ->. rewrite !append_length. simpl. lia.
  - lia.
Qed.

(** What replaces [old]: the data with the old file's permissions, and its owner where
    the process may give files away. *)
Definition replacement (env : IoEnv) (old : option FsFile) (data : string) : FsFile :=
  match old with
  | Some f => {| fl_data := data; fl_mode := fl_mode f;
                 fl_owner := if fchown_ok env then fl_owner f else process_owner env |}
  | None => created env data
  end.

(** The target is as before, or replaced. *)
Definition old_or_new (env : IoEnv) (target data : string) (fs fs' : Fs) : Prop :=
  fs' !! target = fs !! target \/ fs' !! target = Some (replacement env (fs !! target) data).

(** What the temporary file goes through changes no other. *)
Lemma take_after_states env tmp f0 old fs :
  exists f1 f2, take_after env tmp old (<[tmp := f0]> fs) = (<[tmp := f1]> fs, <[tmp := f2]> fs)
    /\ (f0 = created env "" -> forall data, with_data data f2 = replacement env old data).
Proof.
  unfold take_after. destruct old as [f|]; [|by exists f0, f0; split; [|intros ->]].
  destruct (fchown_ok env) eqn:Hc; rewrite !alter_insert_eq; eexists _, _; (split; [done|]); intros -> data;
    unfold replacement; by rewrite Hc.
Qed.

(** Only the target and the temporary file may differ. *)
Definition others_untouched (target tmp : string) (fs fs' : Fs) : Prop :=
  forall p, p <> target -> p <> tmp -> fs' !! p = fs !! p.

Lemma write_then_rename_states env tmp target data fs tr r :
  tmp <> target -> write_then_rename env tmp target data (<[tmp := created env ""]> fs) = (tr, r) ->
  Forall (old_or_new env target data fs) tr /\ Forall (others_untouched target tmp fs) tr
  /\ match r with
     | Ok _ => last tr = Some (delete tmp (<[target := replacement env (fs !! target) data]> fs))
     | Err _ => exists fs', last tr = Some fs' /\ delete tmp fs' = delete tmp fs
     end.
Proof.
  intros Hne. unfold write_then_rename. rewrite lookup_insert_ne by done.
  destruct (take_after_states env tmp (created env "") (fs !! target) fs) as (f1 & f2 & -> & Hf). specialize (Hf eq_refl).
  assert (Hold : forall f, old_or_new env target data fs (<[tmp := f]> fs)) by (intros f; left; by rewrite lookup_insert_ne).
  assert (Hoth : forall f, others_untouched target tmp fs (<[tmp := f]> fs)) by (intros f p _ Hp; by rewrite lookup_insert_ne).
  assert (Hdel : forall f, delete tmp (<[tmp := f]> fs) = delete tmp fs) by (intros f; by rewrite delete_insert_eq).
  cbv beta iota zeta. rewrite !alter_insert_eq.
  destruct (if decide _ then _ else _) as [e|]; [|destruct (write_all env) as [[e n]|];
    [|destruct (sync_all env) as [e|]; [|destruct (rename env) as [e|]]]]; intros [= <- <-]; rewrite ?alter_insert_eq;
    try (split; [|split]; [by repeat first [apply Forall_nil_2|apply Forall_cons_2; [apply Hold|]]
                          |by repeat first [apply Forall_nil_2|apply Forall_cons_2; [apply Hoth|]]
                          |by eexists; split; [done|apply Hdel]]).
  unfold rename_file. rewrite lookup_insert_eq, Hf, insert_insert_ne, delete_insert_eq by done.
  split; [|split; [|done]]; repeat first [apply Forall_nil_2|apply Forall_cons_2; [by first [apply Hold|apply Hoth]|]];
    apply Forall_cons_2; try apply Forall_nil_2.
  - right. by rewrite lookup_delete_ne, lookup_insert_eq.
  - intros p Ht Hp. by rewrite lookup_delete_ne, lookup_insert_ne.
Qed.

(** The environment never sends [write_atomic] to its in-place fallback: the
    temporary file can be created, and what fails later fails for good. *)
Definition no_fallback (env : IoEnv) (target : string) (fs : Fs) : Prop :=
  fs !! tmp_path env target = None /\ create_new env = None
  /\ (forall e, set_permissions env = Some e -> falls_back e = false)
  /\ (forall e n, write_all env = Some (e, n) -> falls_back e = false)
  /\ (forall e, sync_all env = Some e -> falls_back e = false)
  /\ (forall e, rename env = Some e -> falls_back e = false).

Lemma write_then_rename_error env tmp target data fs fs0 tr e :
  no_fallback env target fs0 -> write_then_rename env tmp target data fs = (tr, Err e) ->
  falls_back e = false.
Proof.
  intros (_ & _ & H1 & H2 & H3 & H4). unfold write_then_rename. destruct (take_after _ _ _ _) as [fs1 fs2].
  case_decide; [destruct (set_permissions env) eqn:?|]; intros; simplify_eq; eauto;
    (destruct (write_all env) as [[]|] eqn:?; simplify_eq; eauto;
     destruct (sync_all env) eqn:?; simplify_eq; eauto;
     destruct (rename env) eqn:?; simplify_eq; eauto).
Qed.

Lemma fs_write_ok env target data fs tr :
  fs_write env target data fs = (tr, Ok tt) -> last tr = Some (put env target data fs).
Proof. unfold fs_write. destruct (open_truncate env); [done|]. destruct (write_in_place env) as [[]|]; intros; simplify_eq. done. Qed.

(** Written in place: the old file, with a prefix of the new contents. *)
Definition in_part (env : IoEnv) (target data : string) (fs fs' : Fs) : Prop :=
  exists n, fs' = put env target (String.substring 0 n data) fs.

Lemma fs_write_parts env target data fs tr r :
  fs_write env target data fs = (tr, r) -> Forall (in_part env target data fs) tr.
Proof.
  unfold fs_write. assert (H0 : in_part env target data fs (put env target "" fs)) by (exists 0; by destruct data).
  destruct (open_truncate env); [intros [= <- _]; constructor|].
  destruct (write_in_place env) as [[e n]|]; intros [= <- _]; repeat first [apply Forall_nil_2|apply Forall_cons_2; [done|]];
    apply Forall_cons_2; try apply Forall_nil_2; [by exists n|].
  exists (String.length data). by rewrite substring_all.
Qed.

(** ** Properties *)

(** One direction, for the files that rely on it. *)
Lemma validate_accepts `{HttpCrate} `{ShowF64} c : validate c = Ok tt -> config_ok c.
Proof.
  pose proof (check_groups_dc_ok (dynamic_config c)) as Hg.
  pose proof (check_routes_ok (dynamic_config c)) as Hr.
  pose proof (reserved_ports_ok c) as Hres.
  pose proof (fun owner => check_ports_all_ok (dynamic_config c) owner) as Hp.
  unfold validate. destruct (check_groups _ _ _) as [[]|]; [|done]. destruct (check_routes _) as [[]|]; [|done].
  destruct (reserved_ports c) as [ports|]; [|done]. destruct Hres as [Hl Hres].
  specialize (Hp ports). destruct (check_ports _ _ _) as [[]|]; [|done].
  destruct Hg as [Hg _]. specialize (Hg eq_refl) as (? & ? & ? & ?).
  destruct Hr as [Hr _]. specialize (Hr eq_refl). destruct Hp as [Hp _]. specialize (Hp eq_refl) as [? Hp].
  destruct (match tracing c with Some _ => _ | None => _ end) as [[]|] eqn:Ht; [|done]. intros Hf.
  constructor; try done.
  - intros s p Hs Hsp. destruct (Hp s p Hs Hsp) as [? Hn]. split; [done|].
    rewrite <- Hres, Hn. by intros [].
  - intros t Hc. rewrite Hc in Ht. by apply validate_tracing_ok.
  - intros [f Hsf]. rewrite Hsf in Hf. by destruct (subscribes (mode c)).
Qed.

(** C15: [Config::validate] accepts a configuration exactly when it is
    well formed: groups and (node, name) instances are distinct, health paths
    can be sent verbatim, a domain belongs to one service name, every route's
    service exists, is HTTP throughout and its route is well formed, fixed
    local ports are non-zero, one per service name, shared by no two names and
    clear of the daemon's own loopback listeners, and the tracing, HTTP-listener
    and filter settings are legal. *)
Theorem validate_ok `{HttpCrate} `{ShowF64} c : validate c = Ok tt <-> config_ok c.
Proof.
  split; [apply validate_accepts|]. intros [].
  pose proof (check_groups_dc_ok (dynamic_config c)) as Hg.
  pose proof (check_routes_ok (dynamic_config c)) as Hr.
  pose proof (reserved_ports_ok c) as Hres.
  unfold validate. rewrite (proj2 Hg) by done. rewrite (proj2 Hr) by done.
  destruct (reserved_ports c) as [ports|]; [|done]. destruct Hres as [_ Hres].
  rewrite (proj2 (check_ports_all_ok (dynamic_config c) ports)); cycle 1.
  { split; [done|]. intros s p Hs Hsp. destruct (ok_port0 s p Hs Hsp) as [? Hn].
    rewrite <- Hres in Hn. split; [done|]. destruct (ports !! p); [|done]. exfalso. eauto. }
  destruct (tracing c) as [t|].
  - rewrite (proj2 (validate_tracing_ok t)) by eauto.
    destruct (subscribe_filter c); [|done]. by rewrite ok_filter0.
  - destruct (subscribe_filter c); [|done]. by rewrite ok_filter0.
Qed.

(** Through the fallback too, a reader finds the old file, the new one, or the old one
    with a prefix of the new contents; and only the temporary file may differ besides. *)
Definition reads (env : IoEnv) (target data : string) (fs fs' : Fs) : Prop :=
  old_or_new env target data fs fs'
  \/ exists n, fs' !! target = put env target (String.substring 0 n data) fs !! target.

(** A failed attempt leaves the target, and at most the temporary file. *)
Lemma failed_attempt env tmp target fs fs' fs1 :
  tmp <> target -> delete tmp fs' = delete tmp fs -> fs1 = (if remove_ok env then delete tmp fs' else fs') ->
  delete tmp fs1 = delete tmp fs /\ fs1 !! target = fs !! target /\ others_untouched target tmp fs fs1.
Proof.
  intros Hne Hd ->.
  assert (Hd1 : delete tmp (if remove_ok env then delete tmp fs' else fs') = delete tmp fs).
  { destruct (remove_ok env); [by rewrite delete_delete_eq, Hd|done]. }
  assert (Hp : forall p, p <> tmp -> (if remove_ok env then delete tmp fs' else fs') !! p = fs !! p).
  { intros p Hp. rewrite <- (lookup_delete_ne _ tmp p), Hd1, lookup_delete_ne by done. done. }
  split; [done|]. split; [by apply Hp, not_eq_sym|]. intros p _ Hpt. by apply Hp.
Qed.

Lemma write_atomic_reads env path data fs tr r :
  write_atomic env path data fs = (tr, r) ->
  let target := write_target env path in
  Forall (fun fs' => reads env target data fs fs' /\ others_untouched target (tmp_path env target) fs fs') tr.
Proof.
  unfold write_atomic. set (target := write_target env path). pose proof (tmp_path_ne env target) as Hne.
  set (tmp := tmp_path env target) in *. cbv zeta.
  assert (Hw : forall fs1 tr1 r1, fs1 !! target = fs !! target -> others_untouched target tmp fs fs1 ->
    fs_write env target data fs1 = (tr1, r1) ->
    Forall (fun fs' => reads env target data fs fs' /\ others_untouched target tmp fs fs') tr1).
  { intros fs1 tr1 r1 Ht Ho Hw%fs_write_parts. eapply Forall_impl; [exact Hw|]. intros fs' [n ->]. split.
    - right. exists n. unfold put. by rewrite !lookup_insert_eq, Ht.
    - intros p Hpt Hp. unfold put. rewrite lookup_insert_ne by done. by apply Ho. }
  destruct (if decide _ then open_write env else None); [by intros [= <- _]|].
  destruct (if decide _ then _ else create_new env); [by apply Hw|].
  assert (H0 : reads env target data fs (<[tmp := created env ""]> fs)
    /\ others_untouched target tmp fs (<[tmp := created env ""]> fs)).
  { split; [left; left; by rewrite lookup_insert_ne|]. intros p _ Hp. by rewrite lookup_insert_ne. }
  destruct (write_then_rename _ _ _ _ _) as [tr1 r1] eqn:Hr.
  apply (write_then_rename_states _ _ _ _ _ _ _ Hne) in Hr as (Hold & Hoth & Hlast).
  assert (Hall : Forall (fun fs' => reads env target data fs fs' /\ others_untouched target tmp fs fs') tr1).
  { apply Forall_and. split; [|done]. eapply Forall_impl; [exact Hold|]. by left. }
  destruct r1 as [[]|e]; [intros [= <- _]; by constructor|]. destruct Hlast as (fs' & Hl & Hd). rewrite Hl. cbn [default].
  destruct (failed_attempt env tmp target fs fs' _ Hne Hd eq_refl) as (_ & Ht & Ho).
  set (fs1 := if remove_ok env then _ else _) in *.
  destruct (falls_back e).
  - destruct (fs_write env target data fs1) as [tr2 r2] eqn:Hf. intros [= <- _]. constructor; [done|].
    apply Forall_app. split; [done|]. constructor; [split; [by left; left|done]|]. by eapply Hw.
  - intros [= <- _]. constructor; [done|]. apply Forall_app. split; [done|]. constructor; [|constructor]. split; [by left; left|done].
Qed.

(** Whichever way a write succeeds, the file holds the new contents at the end, with
    the permissions it had. *)
Lemma write_atomic_ok env path data fs tr :
  write_atomic env path data fs = (tr, Ok tt) ->
  exists fs' f, last tr = Some fs' /\ fs' !! write_target env path = Some f /\ fl_data f = data
    /\ forall old, fs !! write_target env path = Some old -> fl_mode f = fl_mode old.
Proof.
  unfold write_atomic. set (target := write_target env path). pose proof (tmp_path_ne env target) as Hne.
  assert (Hw : forall fs1 tr1, fs1 !! target = fs !! target -> fs_write env target data fs1 = (tr1, Ok tt) ->
    exists fs' f, last tr1 = Some fs' /\ fs' !! target = Some f /\ fl_data f = data
      /\ forall old, fs !! target = Some old -> fl_mode f = fl_mode old).
  { intros fs1 tr1 Ht Hw%fs_write_ok. eexists _, _. split; [exact Hw|]. unfold put. split; [apply lookup_insert_eq|].
    rewrite Ht. destruct (fs !! target); [|done]. split; [done|]. by intros ? [= <-]. }
  destruct (if decide _ then open_write env else None); [done|].
  destruct (if decide _ then _ else create_new env); [by apply Hw|].
  destruct (write_then_rename _ _ _ _ _) as [tr1 r1] eqn:Hr.
  apply (write_then_rename_states _ _ _ _ _ _ _ Hne) in Hr as (_ & _ & Hl). destruct r1 as [[]|e].
  - intros [= <-]. rewrite last_cons, Hl. eexists _, _. split; [done|]. rewrite lookup_delete_ne by done.
    split; [apply lookup_insert_eq|]. destruct (fs !! target); [|done]. split; [done|]. by intros ? [= <-].
  - destruct Hl as (fs' & Hl & Hd). rewrite Hl. cbn [default].
    destruct (failed_attempt env _ target fs fs' _ Hne Hd eq_refl) as (_ & Ht & _).
    destruct (falls_back e); [|done]. destruct (fs_write _ _ _ _) as [tr2 r2] eqn:Hf. intros [= <- ->].
    apply Hw in Hf as (fs2 & f & Hl2 & Hrest); [|done]. exists fs2, f. split; [|done].
    by rewrite app_comm_cons, last_app, last_cons, Hl2.
Qed.

Lemma write_atomic_no_fallback env path data fs tr r :
  write_atomic env path data fs = (tr, r) ->
  let target := write_target env path in
  no_fallback env target fs ->
  Forall (old_or_new env target data fs) tr
  /\ match r with
     | Ok _ => last tr = Some (<[target := replacement env (fs !! target) data]> fs)
     | Err _ => tr = [] \/ exists fs', last tr = Some fs' /\ delete (tmp_path env target) fs' = fs
                           /\ (remove_ok env = true -> fs' = fs)
     end.
Proof.
  intros Hrun. unfold write_atomic in Hrun. set (target := write_target env path) in *. cbv zeta.
  pose proof (tmp_path_ne env target) as Hne. set (tmp := tmp_path env target) in *. intros Henv.
  destruct (if decide _ then open_write env else None); [simplify_eq; by auto|].
  pose proof Henv as (Htmp & Hcreate & _). fold tmp in Htmp.
  rewrite decide_False, Hcreate in Hrun by (rewrite Htmp; by intros []).
  assert (H0 : old_or_new env target data fs (<[tmp := created env ""]> fs)) by (left; by rewrite lookup_insert_ne).
  destruct (write_then_rename _ _ _ _ _) as [tr1 r1] eqn:Hw.
  pose proof (write_then_rename_states _ _ _ _ _ _ _ Hne Hw) as (Hall & _ & Hlast). destruct r1 as [[]|e].
  - simplify_eq. split; [by constructor|].
    rewrite last_cons, Hlast. f_equal. by rewrite delete_insert_ne, delete_id by done.
  - destruct Hlast as (fs' & Hl & Hd). rewrite (write_then_rename_error _ _ _ _ _ _ _ _ Henv Hw), Hl in Hrun.
    cbn [default] in Hrun. destruct (failed_attempt env tmp target fs fs' _ Hne Hd eq_refl) as (Hd1 & Ht & _).
    set (fs1 := if remove_ok env then _ else _) in *. injection Hrun as <- <-. split.
    + constructor; [done|]. apply Forall_app. split; [done|]. constructor; [by left|constructor].
    + right. exists fs1. split; [by rewrite app_comm_cons, last_snoc|]. rewrite Hd1, delete_id by done. split; [done|].
      intros Hrm. assert (Hf1 : fs1 = delete tmp fs') by (unfold fs1; by rewrite Hrm). by rewrite Hf1, Hd, delete_id.
Qed.

(** C26: Saving replaces the file atomically unless it has to be written in place. When
    the temporary file can be made and nothing fails in a way that asks for the
    fallback, a reader (or a restart after a crash) finds the old file or the new one
    at every intermediate state: the old one's contents, permissions and owner, or the
    new contents with the old permissions and, where the process may give files away,
    the old owner; a success leaves exactly the new file, and a failure leaves every
    file as it was, but for the temporary file when it cannot be removed. In the
    fallback a reader may find a prefix of the new contents in the old file. Either
    way a success leaves the new contents with the old permissions, and no file but
    the target and the temporary file is ever touched. *)
Theorem write_atomic_old_or_new env path data fs tr r
    (Hrun : write_atomic env path data fs = (tr, r)) :
  let target := write_target env path in
  let tmp := tmp_path env target in
  (no_fallback env target fs ->
     Forall (old_or_new env target data fs) tr
     /\ match r with
        | Ok _ => last tr = Some (<[target := replacement env (fs !! target) data]> fs)
        | Err _ => tr = [] \/ exists fs', last tr = Some fs' /\ delete tmp fs' = fs /\ (remove_ok env = true -> fs' = fs)
        end)
  /\ Forall (fun fs' => reads env target data fs fs' /\ others_untouched target tmp fs fs') tr
  /\ (r = Ok tt -> exists fs' f, last tr = Some fs' /\ fs' !! target = Some f /\ fl_data f = data
        /\ forall old, fs !! target = Some old -> fl_mode f = fl_mode old).
Proof.
  split; [|split].
  - by apply write_atomic_no_fallback.
  - by apply (write_atomic_reads env path data fs tr r).
  - intros ->. by apply write_atomic_ok.
Qed.

(** ** Witnesses *)

Module Examples.

Definition env : IoEnv :=
  {| canonicalize p := Some ("/etc/" +:+ p); random_hex := "00000000000000ff"; new_mode := 420; process_owner := (0%Z, 0%Z);
     open_write := None; create_new := None; set_permissions := None; fchown_ok := true; write_all := None;
     sync_all := None; rename := None; remove_ok := true; open_truncate := None; write_in_place := None |}.

(** A file of a user's, readable by the group, that root's daemon replaces. *)
Definition old_file : FsFile := {| fl_data := "old"; fl_mode := 416; fl_owner := (1000%Z, 1000%Z) |}.
Definition fs : Fs := {["/etc/stouter.json" := old_file]}.

Lemma write_atomic_witness :
  last (write_atomic env "stouter.json" "new" fs).1
  = Some (<["/etc/stouter.json" := {| fl_data := "new"; fl_mode := 416; fl_owner := (1000%Z, 1000%Z) |}]> fs).
Proof.
  pose proof (write_atomic_old_or_new env "stouter.json" "new" fs
    (write_atomic env "stouter.json" "new" fs).1 (write_atomic env "stouter.json" "new" fs).2) as Hw.
  apply Hw.
  - reflexivity.
  - split; [reflexivity|]. split; [reflexivity|]. repeat split; discriminate.
Defined.

(** A rename that the kernel refuses (a mount point) is written over in place, and so is
    a file whose directory cannot be written; both keep the file's permissions. *)
Example busy_written_in_place :
  let busy := {| canonicalize := canonicalize env; random_hex := random_hex env; new_mode := 420; process_owner := (0%Z, 0%Z);
                 open_write := None; create_new := None; set_permissions := None; fchown_ok := true; write_all := None;
                 sync_all := None; rename := Some ResourceBusy; remove_ok := true; open_truncate := None; write_in_place := None |} in
  last (write_atomic busy "stouter.json" "new" fs).1 = Some {["/etc/stouter.json" := with_data "new" old_file]}.
Proof. vm_compute. reflexivity. Qed.

(** The default configuration is accepted, and so is one with routes. *)
Definition config : Config :=
  {| mode := NodeSubscribe; bind := "0.0.0.0:8080"; advertise_addr := None; node_id := "a";
     outbound_only := false; reverse_pool_size := None; known_nodes := [];
     dynamic_config := Dynamic.Examples.dc; subscribe_filter := None; tls_dir := None; admin_cns := [];
     api_port_opt := None; tracing := None; http_listen := Some "127.0.0.1:15001" |}.

#[local] Instance show_f64_none : ShowF64 := fun _ => "".
#[local] Existing Instance Dynamic.Examples.http_crate.

Example validate_example : validate config = Ok tt /\ validate default_config = Ok tt.
Proof. vm_compute. auto. Qed.

Example local_target_example : local_target config = "127.0.0.1:8080".
Proof. vm_compute. reflexivity. Qed.

(** A rename or a removal can leave a route behind that the next check of the
    configuration rejects: neither looks at the routes. *)
Definition with_dc (dc : DynamicConfig) : Config :=
  {| mode := Node; bind := "0.0.0.0:8080"; advertise_addr := None; node_id := "a";
     outbound_only := false; reverse_pool_size := None; known_nodes := []; dynamic_config := dc;
     subscribe_filter := None; tls_dir := None; admin_cns := []; api_port_opt := None;
     tracing := None; http_listen := None |}.

Definition routed : DynamicConfig :=
  {| dc_version := 1;
     dc_service_groups := [{| grp_name := "web"; grp_services := [Dynamic.Examples.service "api" "a" Http] |}];
     dc_routes := [Dynamic.Examples.route "api" "/"] |}.

Example mutations_can_dangle_routes :
  validate (with_dc routed) = Ok tt
  /\ validate (with_dc (remove_service "web" "a" "api" routed).1)
     = Err "routes reference unknown service 'api'"
  /\ validate (with_dc (rename_service "web" "a" "api" "site" routed).1)
     = Err "routes reference unknown service 'api'"
  /\ validate (with_dc (upsert_service "web" (Dynamic.Examples.service "api" "b" Tcp) routed).1)
     = Err "routes for 'api' require every instance to have protocol: http".
Proof. vm_compute. auto. Qed.

End Examples.
