(* ===== verification/ConfigFmt.v ===== *)
(** * The configuration's serialized form ([src/src/config.rs], the serde attributes)

    One format per type that derives [Serialize] and [Deserialize]: [to_value]
    follows the fields in their order with [rename], [skip_serializing_if] and
    [skip]; [of_value] reads them back with their [default]s; [valid] says that the
    integers have their width. A required field has no [default]. *)

From Stdlib Require Import SpecFloat.
From S2P Require Import Prelude NetAddr Dynamic Config Json.

#[local] Open Scope stouter_scope.

(** An enum of unit variants is written as its variant's name. *)
Definition vvariant {A} (name : A -> string) (all : list A) : Fmt A :=
  {| to_value a := VStr (name a);
     of_value v := let* s := variant_name v in find_first (fun a => str_eqb (name a) s) all;
     valid _ := True |}.

(** ** The dynamic configuration *)

Definition protocol_name (p : Protocol) : string := match p with Tcp => "tcp" | Http => "http" end.
Definition vprotocol : Fmt Protocol := vvariant protocol_name [Tcp; Http].

Definition service_field_names : list string :=
  ["name"; "nodeId"; "nodePort"; "domains"; "weight"; "maxConnections"; "protocol"; "requestTimeoutMs";
   "healthPath"; "labels"; "meta"; "localPort"].

Definition service_fields (s : Service) : list (string * option Value) :=
  [req vstring "name" (svc_name s);
   req vstring "nodeId" (svc_node_id s);
   req vu16 "nodePort" (svc_node_port s);
   skip_if is_nil (vlist vstring) "domains" (svc_domains s);
   skip_if is_default_weight vu32 "weight" (svc_weight s);
   skip_if is_none (voption vu32) "maxConnections" (svc_max_connections s);
   skip_if is_tcp vprotocol "protocol" (svc_protocol s);
   skip_if is_none (voption vu64) "requestTimeoutMs" (svc_request_timeout_ms s);
   skip_if is_none (voption vstring) "healthPath" (svc_health_path s);
   skip_if map_is_empty vmap "labels" (svc_labels s);
   skip_if map_is_empty vmap "meta" (svc_meta s);
   skip_if is_none (voption vu16) "localPort" (svc_local_port s)].

Definition read_service (fs : list (string * Value)) : option Service :=
  let* name := field vstring "name" fs in
  let* node_id := field vstring "nodeId" fs in
  let* node_port := field vu16 "nodePort" fs in
  let* domains := field_or (vlist vstring) [] "domains" fs in
  let* weight := field_or vu32 default_weight "weight" fs in
  let* max_connections := field_or (voption vu32) None "maxConnections" fs in
  let* protocol := field_or vprotocol Tcp "protocol" fs in
  let* request_timeout_ms := field_or (voption vu64) None "requestTimeoutMs" fs in
  let* health_path := field_or (voption vstring) None "healthPath" fs in
  let* labels := field_or vmap ∅ "labels" fs in
  let* meta := field_or vmap ∅ "meta" fs in
  let* local_port := field_or (voption vu16) None "localPort" fs in
  Some {| svc_name := name; svc_node_id := node_id; svc_node_port := node_port; svc_domains := domains;
          svc_weight := weight; svc_max_connections := max_connections; svc_protocol := protocol;
          svc_request_timeout_ms := request_timeout_ms; svc_health_path := health_path; svc_labels := labels;
          svc_meta := meta; svc_local_port := local_port |}.

Definition service_valid (s : Service) : Prop :=
  valid vu16 (svc_node_port s) /\ valid vu32 (svc_weight s) /\ valid (voption vu32) (svc_max_connections s)
  /\ valid (voption vu64) (svc_request_timeout_ms s) /\ valid (voption vu16) (svc_local_port s).

Definition vservice : Fmt Service := vstruct service_field_names service_fields read_service service_valid.

Lemma vvariant_ok {A} (name : A -> string) all :
  (forall a, find_first (fun a' => str_eqb (name a') (name a)) all = Some a) -> FmtOk (vvariant name all).
Proof. intros Hall. split; [split; [intros a _; apply Hall|done]|done]. Qed.

#[export] Instance vvariant_total {A} (name : A -> string) all : Total (vvariant name all).
Proof. done. Qed.
#[export] Instance vprotocol_ok : FmtOk vprotocol.
Proof. apply vvariant_ok. by intros []. Qed.

Lemma is_default_weight_true w : is_default_weight w = true -> w = default_weight.
Proof. apply Z.eqb_eq. Qed.
Lemma is_tcp_true p : is_tcp p = true -> p = Tcp.
Proof. apply bool_decide_eq_true. Qed.

#[export] Hint Resolve is_default_weight_true is_tcp_true : serde.

#[export] Instance vservice_ok : FmtOk vservice.
Proof.
  serde_struct service_fields read_service service_valid.
Qed.

Definition route_match_names : list string := ["pathPrefix"; "method"; "headers"].

Definition route_match_fields (m : RouteMatch) : list (string * option Value) :=
  [skip_if is_none (voption vstring) "pathPrefix" (rm_path_prefix m);
   skip_if is_none (voption vstring) "method" (rm_method m);
   skip_if map_is_empty vmap "headers" (rm_headers m)].

Definition read_route_match (fs : list (string * Value)) : option RouteMatch :=
  let* path_prefix := field_or (voption vstring) None "pathPrefix" fs in
  let* method := field_or (voption vstring) None "method" fs in
  let* headers := field_or vmap ∅ "headers" fs in
  Some {| rm_path_prefix := path_prefix; rm_method := method; rm_headers := headers |}.

Definition route_match_valid (m : RouteMatch) : Prop := True.

Definition vroute_match : Fmt RouteMatch :=
  vstruct route_match_names route_match_fields read_route_match route_match_valid.

#[export] Instance vroute_match_ok : FmtOk vroute_match.
Proof. serde_struct route_match_fields read_route_match route_match_valid. Qed.
#[export] Instance vroute_match_total : Total vroute_match.
Proof. done. Qed.

Definition default_route_match : RouteMatch := {| rm_path_prefix := None; rm_method := None; rm_headers := ∅ |}.

Definition route_backend_names : list string := ["labels"; "weight"].

Definition route_backend_fields (b : RouteBackend) : list (string * option Value) :=
  [skip_if map_is_empty vmap "labels" (rb_labels b);
   skip_if is_default_weight vu32 "weight" (rb_weight b)].

Definition read_route_backend (fs : list (string * Value)) : option RouteBackend :=
  let* labels := field_or vmap ∅ "labels" fs in
  let* weight := field_or vu32 default_weight "weight" fs in
  Some {| rb_labels := labels; rb_weight := weight |}.

Definition route_backend_valid (b : RouteBackend) : Prop := valid vu32 (rb_weight b).

Definition vroute_backend : Fmt RouteBackend :=
  vstruct route_backend_names route_backend_fields read_route_backend route_backend_valid.

#[export] Instance vroute_backend_ok : FmtOk vroute_backend.
Proof. serde_struct route_backend_fields read_route_backend route_backend_valid. Qed.

Definition route_names : list string := ["name"; "service"; "match"; "backends"].

Definition route_fields (r : Route) : list (string * option Value) :=
  [skip_if is_none (voption vstring) "name" (route_name r);
   req vstring "service" (route_service r);
   req vroute_match "match" (route_matches r);
   req (vlist vroute_backend) "backends" (route_backends r)].

Definition read_route (fs : list (string * Value)) : option Route :=
  let* name := field_or (voption vstring) None "name" fs in
  let* service := field vstring "service" fs in
  let* matches := field_or vroute_match default_route_match "match" fs in
  let* backends := field (vlist vroute_backend) "backends" fs in
  Some {| route_name := name; route_service := service; route_matches := matches; route_backends := backends |}.

Definition route_valid (r : Route) : Prop := valid (vlist vroute_backend) (route_backends r).

Definition vroute : Fmt Route := vstruct route_names route_fields read_route route_valid.

#[export] Instance vroute_ok : FmtOk vroute.
Proof. serde_struct route_fields read_route route_valid. Qed.

(** Routes given on the command line are read by way of a [serde_json::Value]. *)
#[export] Instance vroute_match_stable : Stable vroute_match.
Proof. apply vstruct_stable. unfold read_route_match. serde_stable. Qed.

#[export] Instance vroute_backend_stable : Stable vroute_backend.
Proof. apply vstruct_stable. unfold read_route_backend. serde_stable. Qed.

Lemma read_route_refines fs fs' r : refines fs fs' -> read_route fs = Some r -> read_route fs' = Some r.
Proof. revert fs fs' r. unfold read_route. serde_stable. Qed.

#[export] Instance vroute_stable : Stable vroute.
Proof. apply vstruct_stable, read_route_refines. Qed.

Definition group_names : list string := ["name"; "services"].

Definition group_fields (g : ServiceGroup) : list (string * option Value) :=
  [req vstring "name" (grp_name g); req (vlist vservice) "services" (grp_services g)].

Definition read_group (fs : list (string * Value)) : option ServiceGroup :=
  let* name := field vstring "name" fs in
  let* services := field (vlist vservice) "services" fs in
  Some {| grp_name := name; grp_services := services |}.

Definition group_valid (g : ServiceGroup) : Prop := valid (vlist vservice) (grp_services g).

Definition vgroup : Fmt ServiceGroup := vstruct group_names group_fields read_group group_valid.

#[export] Instance vgroup_ok : FmtOk vgroup.
Proof. serde_struct group_fields read_group group_valid. Qed.

Definition dynamic_names : list string := ["version"; "serviceGroups"; "routes"].

Definition dynamic_fields (dc : DynamicConfig) : list (string * option Value) :=
  [req vu64 "version" (dc_version dc);
   req (vlist vgroup) "serviceGroups" (dc_service_groups dc);
   skip_if is_nil (vlist vroute) "routes" (dc_routes dc)].

Definition read_dynamic (fs : list (string * Value)) : option DynamicConfig :=
  let* version := field vu64 "version" fs in
  let* service_groups := field (vlist vgroup) "serviceGroups" fs in
  let* routes := field_or (vlist vroute) [] "routes" fs in
  Some {| dc_version := version; dc_service_groups := service_groups; dc_routes := routes |}.

Definition dynamic_valid (dc : DynamicConfig) : Prop :=
  valid vu64 (dc_version dc) /\ valid (vlist vgroup) (dc_service_groups dc) /\ valid (vlist vroute) (dc_routes dc).

Definition vdynamic : Fmt DynamicConfig := vstruct dynamic_names dynamic_fields read_dynamic dynamic_valid.

Lemma vlist_nil_valid {A} (f : Fmt A) : valid (vlist f) [].
Proof. apply Forall_nil_2. Qed.
Lemma voption_none_valid {A} (f : Fmt A) : valid (voption f) None.
Proof. exact I. Qed.
Lemma default_weight_valid : valid vu32 default_weight.
Proof. split; done. Qed.
#[export] Hint Resolve vlist_nil_valid voption_none_valid default_weight_valid : serde.

#[export] Instance vdynamic_ok : FmtOk vdynamic.
Proof. serde_struct dynamic_fields read_dynamic dynamic_valid. Qed.

(** ** Nodes *)

Definition health_names : list string := ["version"; "unhealthy"].

Definition health_fields (h : ServiceHealth) : list (string * option Value) :=
  [req vu64 "version" (sh_version h);
   skip_if is_nil (vlist vstring) "unhealthy" (sh_unhealthy h)].

Definition read_health (fs : list (string * Value)) : option ServiceHealth :=
  let* version := field vu64 "version" fs in
  let* unhealthy := field_or (vlist vstring) [] "unhealthy" fs in
  Some {| sh_version := version; sh_unhealthy := unhealthy |}.

Definition health_valid (h : ServiceHealth) : Prop := valid vu64 (sh_version h).

Definition vhealth : Fmt ServiceHealth := vstruct health_names health_fields read_health health_valid.

#[export] Instance vhealth_ok : FmtOk vhealth.
Proof. serde_struct health_fields read_health health_valid. Qed.

(** A report of version 0 is skipped, and read back as the default one: there is
    nothing in it ([Health] never publishes such a version). [last_seen] is
    [serde(skip)]. *)
Definition node_names : list string := ["id"; "addr"; "relay"; "health"].

Definition node_fields (n : NodeInfo) : list (string * option Value) :=
  [req vstring "id" (ni_id n);
   req vstring "addr" (ni_addr n);
   skip_if is_none (voption vstring) "relay" (ni_relay n);
   skip_if sh_is_unset vhealth "health" (ni_health n)].

Definition read_node (fs : list (string * Value)) : option NodeInfo :=
  let* id := field vstring "id" fs in
  let* addr := field vstring "addr" fs in
  let* relay := field_or (voption vstring) None "relay" fs in
  let* health := field_or vhealth default_health "health" fs in
  Some {| ni_id := id; ni_addr := addr; ni_relay := relay; ni_last_seen := None; ni_health := health |}.

Definition node_valid (n : NodeInfo) : Prop := valid vhealth (ni_health n) /\ ni_last_seen n = None.

Definition vnode : Fmt NodeInfo := vstruct node_names node_fields read_node node_valid.

Lemma default_health_valid : valid vhealth default_health.
Proof. split; done. Qed.
#[export] Hint Resolve default_health_valid : serde.

#[export] Instance vnode_read : FmtRead vnode.
Proof.
  apply vstruct_read. unfold read_node. intros fs a H. serde_cases H. split; [|done].
  eapply field_or_valid; [apply _|apply default_health_valid|eassumption].
Qed.

(** The nodes that are read back as they were written: with nothing local to this
    daemon in them. [vnode] writes and reads as [vnode_clean] does. *)
Definition node_clean (n : NodeInfo) : Prop :=
  valid vhealth (ni_health n) /\ ni_last_seen n = None
  /\ (sh_is_unset (ni_health n) = true -> ni_health n = default_health).

Definition vnode_clean : Fmt NodeInfo := vstruct node_names node_fields read_node node_clean.

#[export] Instance vnode_clean_write : FmtWrite vnode_clean.
Proof.
  apply vstruct_write; unfold node_fields, read_node, node_clean.
  - intros a (Hv & Hl & Hh). serde_read. destruct a; simpl in *. by subst.
  - intros a (Hv & Hl & Hh). serde_plain.
Qed.

(** ** The configuration file *)

Definition mode_names (m : Mode) : string :=
  match m with Node => "node" | Subscribe => "subscribe" | NodeSubscribe => "nodeSubscribe" end.
Definition vmode : Fmt Mode := vvariant mode_names [Node; Subscribe; NodeSubscribe].

#[export] Instance vmode_ok : FmtOk vmode.
Proof. apply vvariant_ok. by intros []. Qed.

Definition filter_names : list string := ["serviceGroups"; "services"].

Definition filter_fields (f : SubscribeFilter) : list (string * option Value) :=
  [skip_if is_nil (vlist vstring) "serviceGroups" (sf_service_groups f);
   skip_if is_nil (vlist vstring) "services" (sf_services f)].

Definition read_filter (fs : list (string * Value)) : option SubscribeFilter :=
  let* service_groups := field_or (vlist vstring) [] "serviceGroups" fs in
  let* services := field_or (vlist vstring) [] "services" fs in
  Some {| sf_service_groups := service_groups; sf_services := services |}.

Definition filter_valid (f : SubscribeFilter) : Prop := True.

Definition vfilter : Fmt SubscribeFilter := vstruct filter_names filter_fields read_filter filter_valid.

#[export] Instance vfilter_ok : FmtOk vfilter.
Proof. serde_struct filter_fields read_filter filter_valid. Qed.
#[export] Instance vfilter_total : Total vfilter.
Proof. done. Qed.

(** [f64]: JSON has finite numbers only, and writes null for the others; an
    integer is read as the nearest double. *)
Definition f64_of_Z (n : Z) : spec_float := binary_normalize 53 1024 n 0 false.

Definition vf64 : Fmt spec_float :=
  {| to_value f := if is_finite f then VFloat f else VNull;
     of_value v := match v with
                   | VFloat f => if is_finite f then Some f else None
                   | VNum n => let f := f64_of_Z n in if is_finite f then Some f else None
                   | _ => None
                   end;
     valid f := is_finite f = true |}.

#[export] Instance vf64_ok : FmtOk vf64.
Proof.
  split; [split; simpl|].
  - intros f Hf. rewrite Hf. by rewrite Hf.
  - intros f Hf. by rewrite Hf.
  - intros v f. simpl. destruct v; try done.
    + destruct (is_finite _) eqn:Hf; [|done]. by intros [= <-].
    + destruct (is_finite _) eqn:Hf; [|done]. by intros [= <-].
Qed.

Definition tracing_names : list string := ["otlpEndpoint"; "sampleRatio"; "serviceName"].

Definition tracing_fields (t : TracingConfig) : list (string * option Value) :=
  [req vstring "otlpEndpoint" (tc_otlp_endpoint t);
   req vf64 "sampleRatio" (tc_sample_ratio t);
   req vstring "serviceName" (tc_service_name t)].

Definition read_tracing (fs : list (string * Value)) : option TracingConfig :=
  let* otlp_endpoint := field vstring "otlpEndpoint" fs in
  let* sample_ratio := field_or vf64 default_sample_ratio "sampleRatio" fs in
  let* service_name := field_or vstring default_tracing_service_name "serviceName" fs in
  Some {| tc_otlp_endpoint := otlp_endpoint; tc_sample_ratio := sample_ratio; tc_service_name := service_name |}.

Definition tracing_valid (t : TracingConfig) : Prop := valid vf64 (tc_sample_ratio t).

Definition vtracing : Fmt TracingConfig := vstruct tracing_names tracing_fields read_tracing tracing_valid.

Lemma default_ratio_valid : valid vf64 default_sample_ratio.
Proof. done. Qed.
#[export] Hint Resolve default_ratio_valid : serde.

#[export] Instance vtracing_ok : FmtOk vtracing.
Proof. serde_struct tracing_fields read_tracing tracing_valid. Qed.

#[export] Instance vstruct_not_null {A} names fields read (ok : A -> Prop) : NotNull (vstruct names fields read ok).
Proof. done. Qed.

Definition config_names : list string :=
  ["mode"; "bind"; "advertiseAddr"; "nodeId"; "outboundOnly"; "reversePoolSize"; "knownNodes"; "dynamicConfig";
   "subscribeFilter"; "tlsDir"; "adminCns"; "apiPort"; "tracing"; "httpListen"].

Definition config_fields (c : Config) : list (string * option Value) :=
  [req vmode "mode" (mode c);
   req vstring "bind" (bind c);
   skip_if is_none (voption vstring) "advertiseAddr" (advertise_addr c);
   req vstring "nodeId" (node_id c);
   req vbool "outboundOnly" (outbound_only c);
   skip_if is_none (voption vu16) "reversePoolSize" (reverse_pool_size c);
   req (vlist vstring) "knownNodes" (known_nodes c);
   req vdynamic "dynamicConfig" (dynamic_config c);
   skip_if is_none (voption vfilter) "subscribeFilter" (subscribe_filter c);
   skip_if is_none (voption vstring) "tlsDir" (tls_dir c);
   skip_if is_nil (vlist vstring) "adminCns" (admin_cns c);
   skip_if is_none (voption vu16) "apiPort" (api_port_opt c);
   skip_if is_none (voption vtracing) "tracing" (tracing c);
   skip_if is_none (voption vstring) "httpListen" (http_listen c)].

Definition read_config (fs : list (string * Value)) : option Config :=
  let* mode := field vmode "mode" fs in
  let* bind := field vstring "bind" fs in
  let* advertise_addr := field_or (voption vstring) None "advertiseAddr" fs in
  let* node_id := field vstring "nodeId" fs in
  let* outbound_only := field_or vbool false "outboundOnly" fs in
  let* reverse_pool_size := field_or (voption vu16) None "reversePoolSize" fs in
  let* known_nodes := field (vlist vstring) "knownNodes" fs in
  let* dynamic_config := field vdynamic "dynamicConfig" fs in
  let* subscribe_filter := field_or (voption vfilter) None "subscribeFilter" fs in
  let* tls_dir := field_or (voption vstring) None "tlsDir" fs in
  let* admin_cns := field_or (vlist vstring) [] "adminCns" fs in
  let* api_port := field_or (voption vu16) None "apiPort" fs in
  let* tracing := field_or (voption vtracing) None "tracing" fs in
  let* http_listen := field_or (voption vstring) None "httpListen" fs in
  Some {| mode := mode; bind := bind; advertise_addr := advertise_addr; node_id := node_id;
          outbound_only := outbound_only; reverse_pool_size := reverse_pool_size; known_nodes := known_nodes;
          dynamic_config := dynamic_config; subscribe_filter := subscribe_filter; tls_dir := tls_dir;
          admin_cns := admin_cns; api_port_opt := api_port; tracing := tracing; http_listen := http_listen |}.

Definition config_valid (c : Config) : Prop :=
  valid (voption vu16) (reverse_pool_size c) /\ valid vdynamic (dynamic_config c)
  /\ valid (voption vu16) (api_port_opt c) /\ valid (voption vtracing) (tracing c).

Definition vconfig : Fmt Config := vstruct config_names config_fields read_config config_valid.

#[export] Instance vconfig_ok : FmtOk vconfig.
Proof. serde_struct config_fields read_config config_valid. Qed.

(** ** The file's text

    The JSON text of a value is the interface [JsonText]; what is relied on is that
    a value that can be written without loss ([printable]: numbers in range, doubles
    that survive their decimal form) is read back. *)

Class JsonText := {
  json_parse : string -> option Value;
  json_print : Value -> string;         (** [to_string] *)
  json_print_pretty : Value -> string;  (** [to_string_pretty] *)
  printable : Value -> Prop
}.
Class JsonTextLaws (J : JsonText) : Prop := {
  json_roundtrip : forall v, printable v -> json_parse (json_print v) = Some v;
  json_roundtrip_pretty : forall v, printable v -> json_parse (json_print_pretty v) = Some v
}.

Section text.
Context `{JsonText}.

(** [serde_json::to_string_pretty] and [from_str] of a [Config]. *)
Definition config_to_string (c : Config) : string := json_print_pretty (to_value vconfig c).
Definition config_from_str (s : string) : option Config := let* v := json_parse s in of_value vconfig v.

Definition config_io (read : string -> option string) : ConfigIo :=
  {| read_to_string := read; from_str := config_from_str |}.
End text.

(** ** Properties *)

(** C31: What [save] writes, [load] reads: after a save that reports success, however
    the file was replaced, the file it wrote to loads as the same configuration. *)
Theorem save_load_roundtrip `{JsonTextLaws} env path c fs tr
    (Hvalid : valid vconfig c) (Hprint : printable (to_value vconfig c))
    (Hsave : save config_to_string env path c fs = (tr, Ok tt)) :
  exists fs', last tr = Some fs' /\ load (config_io (fun p => fl_data <$> fs' !! write_target env p)) path = Ok c.
Proof.
  apply write_atomic_ok in Hsave as (fs' & f & Hl & Ht & Hd & _). exists fs'. split; [done|].
  unfold load. simpl. rewrite Ht. simpl. rewrite Hd. unfold config_from_str, config_to_string.
  by rewrite json_roundtrip_pretty, of_to.
Qed.

(** Versions of the program understand each other's files and messages: every
    struct of the configuration ignores fields it does not know, and a service
    written before the optional fields existed reads as one with their defaults. *)
Theorem schema_evolution :
  (ignores_unknown config_names vconfig /\ ignores_unknown tracing_names vtracing
   /\ ignores_unknown filter_names vfilter /\ ignores_unknown dynamic_names vdynamic
   /\ ignores_unknown group_names vgroup /\ ignores_unknown service_field_names vservice
   /\ ignores_unknown route_names vroute /\ ignores_unknown route_match_names vroute_match
   /\ ignores_unknown route_backend_names vroute_backend /\ ignores_unknown node_names vnode
   /\ ignores_unknown health_names vhealth)
  /\ (forall name node port, (0 <= port <= u16_max)%Z ->
        of_value vservice (VObj [("name", VStr name); ("nodeId", VStr node); ("nodePort", VNum port)])
        = Some {| svc_name := name; svc_node_id := node; svc_node_port := port; svc_domains := [];
                  svc_weight := 1; svc_max_connections := None; svc_protocol := Tcp;
                  svc_request_timeout_ms := None; svc_health_path := None; svc_labels := ∅; svc_meta := ∅;
                  svc_local_port := None |}).
Proof.
  split.
  - unfold vconfig, vtracing, vfilter, vdynamic, vgroup, vservice, vroute, vroute_match, vroute_backend, vnode, vhealth.
    unfold read_config, read_tracing, read_filter, read_dynamic, read_group, read_service, read_route,
      read_route_match, read_route_backend, read_node, read_health.
    split_and!; serde_extra.
  - intros name node port Hp. cbn [of_value vservice vstruct as_fields]. unfold read_service.
    change (field vu16 "nodePort" _) with (of_value vu16 (to_value vu16 port)).
    by rewrite (of_to (f := vu16) port Hp).
Qed.

(** ** Witnesses *)

Module Examples.

#[local] Instance json_text : JsonText :=
  {| json_parse := Sample.read; json_print := Sample.write; json_print_pretty := Sample.write;
     printable _ := True |}.
#[local] Instance json_text_laws : JsonTextLaws json_text.
Proof. split; intros v _; apply Sample.read_write. Qed.

Lemma save_load_witness :
  exists fs', last (save config_to_string Config.Examples.env "stouter.json" Config.Examples.config Config.Examples.fs).1
    = Some fs'
  /\ load (config_io (fun p => fl_data <$> fs' !! write_target Config.Examples.env p)) "stouter.json" = Ok Config.Examples.config.
Proof.
  apply (save_load_roundtrip Config.Examples.env "stouter.json" Config.Examples.config Config.Examples.fs).
  - split; [exact I|]. split; [|split; exact I].
    apply (of_valid (f := vdynamic) (to_value vdynamic (dynamic_config Config.Examples.config))). vm_compute. reflexivity.
  - exact I.
  - reflexivity.
Defined.

(** The default configuration as it is written: what has a default is left out,
    except [outboundOnly]. *)
Example default_written :
  to_value vconfig default_config =
    VObj [("mode", VStr "node"); ("bind", VStr "0.0.0.0:8080"); ("nodeId", VStr "");
          ("outboundOnly", VBool false); ("knownNodes", VArr []);
          ("dynamicConfig", VObj [("version", VNum 0); ("serviceGroups", VArr [])])].
Proof. reflexivity. Qed.

(** A repeated field is refused, and so is a port that is too large. *)
Example refused :
  of_value vroute_backend (VObj [("weight", VNum 1); ("weight", VNum 2)]) = None
  /\ of_value vservice (VObj [("name", VStr "a"); ("nodeId", VStr "n"); ("nodePort", VNum 65536)]) = None.
Proof. split; reflexivity. Qed.

End Examples.
