(* ===== verification/State.v ===== *)
(** * Shared state of a daemon ([src/src/state.rs])

    The pools of idle connections, the in-flight counter behind the graceful
    drain, and the state the tasks of one process share, with the indexes
    derived from the dynamic configuration. *)

From S2P Require Import Prelude NetAddr Dynamic Config.

(** ** [StreamPool]

    The idle connections by key, oldest first. A push also wakes one waiter; a
    waiter that is woken looks again, so what it then finds is an input of
    [take]. *)

Abbreviation StreamPool T := (gmap string (list T)).

Section stream_pool.
Context {T : Type}.

Definition push (key : string) (stream : T) (pool : StreamPool T) : StreamPool T :=
  <[key := default [] (pool !! key) ++ [stream]]> pool.

Definition try_take (key : string) (pool : StreamPool T) : option T * StreamPool T :=
  match pool !! key with
  | None => (None, pool)
  | Some v =>
      match vec_pop v with
      | Some (stream, v') => (Some stream, <[key := v']> pool)
      | None => (None, pool)
      end
  end.

Definition count (key : string) (pool : StreamPool T) : nat :=
  match pool !! key with Some v => length v | None => 0 end.

(** How one wait ends: woken, with the pool as it is then and the time left of
    the deadline, or timed out. *)
Inductive wait_outcome :=
| Woken (pool : StreamPool T) (remaining : Z)
| TimedOut (pool : StreamPool T).

(** [take]: one look at the pool per wake-up, until a connection, the deadline
    or a timeout. *)
Fixpoint take_loop (key : string) (pool : StreamPool T) (remaining : Z) (waits : list wait_outcome)
    : option T * StreamPool T :=
  match try_take key pool with
  | (Some stream, pool') => (Some stream, pool')
  | (None, pool') =>
      if (remaining =? 0)%Z then (None, pool')
      else match waits with
           | [] => (None, pool')
           | TimedOut pool'' :: _ => (None, pool'')
           | Woken pool'' remaining' :: waits' => take_loop key pool'' remaining' waits'
           end
  end.

(** All idle connections of a pool. *)
Definition idle (key : string) (pool : StreamPool T) : list T := default [] (pool !! key).

Lemma try_take_spec key pool :
  match try_take key pool with
  | (Some x, pool') => idle key pool = idle key pool' ++ [x]
      /\ (forall k, k <> key -> pool' !! k = pool !! k)
  | (None, pool') => pool' = pool /\ idle key pool = []
  end.
Proof.
  unfold try_take, idle. destruct (pool !! key) as [v|] eqn:Hv; [|done].
  destruct (vec_pop v) as [[x v']|] eqn:Hp; simpl.
  - apply vec_pop_Some in Hp as ->. rewrite lookup_insert_eq. split; [done|].
    intros k Hk. by rewrite lookup_insert_ne.
  - apply vec_pop_None in Hp. done.
Qed.

(** One pool operation, with the connection it adds or hands out. *)
Inductive pool_op :=
| Push (key : string) (stream : T)
| TryTake (key : string).

(** Run operations; the connections handed out, by key, latest last. *)
Fixpoint run_ops (ops : list pool_op) (pool : StreamPool T) : list (string * T) * StreamPool T :=
  match ops with
  | [] => ([], pool)
  | Push key x :: ops => run_ops ops (push key x pool)
  | TryTake key :: ops =>
      match try_take key pool with
      | (Some x, pool') => let '(out, pool'') := run_ops ops pool' in ((key, x) :: out, pool'')
      | (None, pool') => run_ops ops pool'
      end
  end.

Definition pushed (ops : list pool_op) (key : string) : list T :=
  omap (fun op => match op with
                  | Push k x => if decide (k = key) then Some x else None
                  | TryTake _ => None
                  end) ops.

Definition taken (out : list (string * T)) (key : string) : list T :=
  omap (fun '(k, x) => if decide (k = key) then Some x else None) out.

Lemma idle_push key key' x pool :
  idle key (push key' x pool) = idle key pool ++ (if decide (key' = key) then [x] else []).
Proof.
  unfold idle, push. destruct (decide (key' = key)) as [->|Hne].
  - by rewrite lookup_insert_eq.
  - by rewrite lookup_insert_ne, app_nil_r.
Qed.

Lemma run_ops_conserve key ops pool :
  let '(out, pool') := run_ops ops pool in
  idle key pool ++ pushed ops key ≡ₚ taken out key ++ idle key pool'.
Proof.
  revert pool. induction ops as [|[k x|k] ops IH]; intros pool; simpl.
  - by rewrite app_nil_r.
  - specialize (IH (push k x pool)). destruct (run_ops ops _) as [out pool'].
    rewrite <- IH, idle_push. rewrite <- (assoc_L (++)). by destruct (decide (k = key)).
  - pose proof (try_take_spec k pool) as Ht. destruct (try_take k pool) as [[x|] pool1].
    + specialize (IH pool1). destruct (run_ops ops pool1) as [out pool']. simpl.
      destruct Ht as [Hx Hne]. destruct (decide (k = key)) as [->|Hk].
      * rewrite Hx. simpl. rewrite <- IH. solve_Permutation.
      * rewrite <- IH. unfold idle. by rewrite Hne by done.
    + destruct Ht as [-> _]. apply IH.
Qed.
End stream_pool.

(** ** [InFlightTracker] *)

Definition track (count : Z) : Z := wrap64 (count + 1).

(** Dropping a guard; the flag says the waiters are woken. *)
Definition drop_guard (count : Z) : Z * bool := (wrap64 (count - 1), (count =? 1)%Z).

(** [wait_zero] looks at the counter once per wake-up until it reads zero; the
    counts it will read before the timeout are the argument. *)
Fixpoint wait_zero (reads : list Z) : bool :=
  match reads with
  | [] => false
  | c :: reads => if (c =? 0)%Z then true else wait_zero reads
  end.

(** Guards taken ([true]) and dropped ([false]), in order. *)
Fixpoint guards (evs : list bool) (count : Z) : Z :=
  match evs with
  | [] => count
  | true :: evs => guards evs (track count)
  | false :: evs => guards evs (drop_guard count).1
  end.

(** ** [SharedState]

    The fields the handlers of this development read and write; a pooled
    connection is an identifier. The locks order whole handler steps and have
    no content of their own. *)

Definition conn : Type := nat.

Record SharedState := {
  st_config : Config;
  st_dynamic_config : DynamicConfig;
  st_known_nodes : gmap string NodeInfo;
  st_service_index : gmap (string * string) Service;
  st_routes : gmap string (list Route);
  st_local_health : ServiceHealth;
  st_bootstrap_peers : list string;
  st_config_path : string;
  st_reverse_pool : StreamPool conn;
  st_tunnel_pool : StreamPool conn;
  st_tls : bool;
  st_shutdown : bool;
  st_in_flight : Z
}.

Definition build_service_index (dc : DynamicConfig) : gmap (string * string) Service :=
  foldl (fun idx group =>
    foldl (fun idx svc => <[(svc_node_id svc, svc_name svc) := svc]> idx) idx (grp_services group))
    ∅ (dc_service_groups dc).

Definition build_route_index (dc : DynamicConfig) : gmap string (list Route) :=
  foldl (fun idx route =>
    <[route_service route := default [] (idx !! route_service route) ++ [route]]> idx)
    ∅ (dc_routes dc).

(** [SharedState::new]. *)
Definition new_state (config : Config) (config_path : string) (tls : bool) : SharedState :=
  {| st_config := config;
     st_dynamic_config := dynamic_config config;
     st_known_nodes := ∅;
     st_service_index := build_service_index (dynamic_config config);
     st_routes := build_route_index (dynamic_config config);
     st_local_health := default_health;
     st_bootstrap_peers := known_nodes config;
     st_config_path := config_path;
     st_reverse_pool := ∅;
     st_tunnel_pool := ∅;
     st_tls := tls;
     st_shutdown := false;
     st_in_flight := 0 |}.

(** [tls_accept] and [tls_connect] refuse without a TLS context; the
    handshake itself is [f]. *)
Definition tls_wrap {A B} (s : SharedState) (f : A -> result B string) (stream : A) : result B string :=
  if st_tls s then f stream else Err "mTLS is required but tlsDir is not configured".

(** Field updates. *)
Definition set_dynamic_config (dc : DynamicConfig) (s : SharedState) : SharedState :=
  {| st_config := st_config s; st_dynamic_config := dc; st_known_nodes := st_known_nodes s;
     st_service_index := st_service_index s; st_routes := st_routes s;
     st_local_health := st_local_health s; st_bootstrap_peers := st_bootstrap_peers s;
     st_config_path := st_config_path s; st_reverse_pool := st_reverse_pool s;
     st_tunnel_pool := st_tunnel_pool s; st_tls := st_tls s; st_shutdown := st_shutdown s;
     st_in_flight := st_in_flight s |}.

Definition rebuild_service_index (s : SharedState) : SharedState :=
  {| st_config := st_config s; st_dynamic_config := st_dynamic_config s;
     st_known_nodes := st_known_nodes s;
     st_service_index := build_service_index (st_dynamic_config s);
     st_routes := build_route_index (st_dynamic_config s);
     st_local_health := st_local_health s; st_bootstrap_peers := st_bootstrap_peers s;
     st_config_path := st_config_path s; st_reverse_pool := st_reverse_pool s;
     st_tunnel_pool := st_tunnel_pool s; st_tls := st_tls s; st_shutdown := st_shutdown s;
     st_in_flight := st_in_flight s |}.

(** [update_known_nodes(f)]. *)
Definition update_known_nodes {R} (f : gmap string NodeInfo -> R * gmap string NodeInfo)
    (s : SharedState) : R * SharedState :=
  let '(r, map) := f (st_known_nodes s) in
  (r, {| st_config := st_config s; st_dynamic_config := st_dynamic_config s;
         st_known_nodes := map; st_service_index := st_service_index s; st_routes := st_routes s;
         st_local_health := st_local_health s; st_bootstrap_peers := st_bootstrap_peers s;
         st_config_path := st_config_path s; st_reverse_pool := st_reverse_pool s;
         st_tunnel_pool := st_tunnel_pool s; st_tls := st_tls s; st_shutdown := st_shutdown s;
         st_in_flight := st_in_flight s |}).

Definition set_local_health (h : ServiceHealth) (s : SharedState) : SharedState :=
  {| st_config := st_config s; st_dynamic_config := st_dynamic_config s;
     st_known_nodes := st_known_nodes s; st_service_index := st_service_index s;
     st_routes := st_routes s; st_local_health := h; st_bootstrap_peers := st_bootstrap_peers s;
     st_config_path := st_config_path s; st_reverse_pool := st_reverse_pool s;
     st_tunnel_pool := st_tunnel_pool s; st_tls := st_tls s; st_shutdown := st_shutdown s;
     st_in_flight := st_in_flight s |}.

Definition set_pools (reverse tunnel : StreamPool conn) (s : SharedState) : SharedState :=
  {| st_config := st_config s; st_dynamic_config := st_dynamic_config s;
     st_known_nodes := st_known_nodes s; st_service_index := st_service_index s;
     st_routes := st_routes s; st_local_health := st_local_health s;
     st_bootstrap_peers := st_bootstrap_peers s; st_config_path := st_config_path s;
     st_reverse_pool := reverse; st_tunnel_pool := tunnel; st_tls := st_tls s;
     st_shutdown := st_shutdown s; st_in_flight := st_in_flight s |}.

(** Whether [node_id] reports the service as failing its health check; our own
    services are answered from the local checker. *)
Definition service_unhealthy (s : SharedState) (node service_name : string) : bool :=
  if str_eqb node (node_id (st_config s)) then is_unhealthy (st_local_health s) service_name
  else match st_known_nodes s !! node with
       | Some n => is_unhealthy (ni_health n) service_name
       | None => false
       end.

(** The indexes answer as the dynamic configuration does. *)
Definition index_ok (s : SharedState) : Prop :=
  st_service_index s = build_service_index (st_dynamic_config s)
  /\ st_routes s = build_route_index (st_dynamic_config s).

Lemma index_ok_new config path tls : index_ok (new_state config path tls).
Proof. done. Qed.

Lemma index_ok_rebuild s : index_ok (rebuild_service_index s).
Proof. done. Qed.

#[export] Hint Resolve index_ok_new index_ok_rebuild : stouter.

(** ** What the indexes hold *)

Definition index_services (svcs : list Service) (idx : gmap (string * string) Service) :=
  foldl (fun idx svc => <[(svc_node_id svc, svc_name svc) := svc]> idx) idx svcs.

Lemma build_service_index_eq dc : build_service_index dc = index_services (all_services dc) ∅.
Proof.
  unfold build_service_index, all_services, index_services. generalize (∅ : gmap (string * string) Service).
  induction (dc_service_groups dc) as [|g gs IH]; intros idx; simpl; [done|].
  rewrite IH. by rewrite foldl_app.
Qed.

Lemma index_services_lookup svcs idx k :
  index_services svcs idx !! k =
    match find_first (fun s => bool_decide (svc_instance s = k)) (reverse svcs) with
    | Some s => Some s
    | None => idx !! k
    end.
Proof.
  unfold index_services. revert idx. induction svcs as [|s svcs IH] using rev_ind; intros idx; [done|].
  rewrite foldl_app, reverse_snoc. simpl. fold (svc_instance s).
  case_bool_decide as Hk; [by rewrite Hk, lookup_insert_eq|]. by rewrite lookup_insert_ne, IH.
Qed.

Lemma build_route_index_lookup dc service :
  default [] (build_route_index dc !! service) = retain (routes_of service) (dc_routes dc)
  /\ build_route_index dc !! service <> Some [].
Proof.
  unfold build_route_index. induction (dc_routes dc) as [|r rs IH] using rev_ind; [done|].
  rewrite foldl_app. simpl. set (idx := foldl _ ∅ rs) in *.
  rewrite retain_app. simpl. unfold routes_of at 2, str_eqb. case_bool_decide as Heq.
  - subst. rewrite lookup_insert_eq. destruct IH as [<- _]. simpl. split; [done|].
    intros [= Hn]. by destruct (default [] (idx !! route_service r)).
  - rewrite lookup_insert_ne, app_nil_r by done. done.
Qed.

Lemma guards_count (evs : list bool) n :
  (0 <= n)%Z -> (n + Z.of_nat (length evs) <= u64_max)%Z ->
  (forall k, (0 <= n + Z.of_nat (length (retain id (take k evs)))
                - Z.of_nat (length (retain negb (take k evs))))%Z) ->
  guards evs n = (n + Z.of_nat (length (retain id evs)) - Z.of_nat (length (retain negb evs)))%Z.
Proof.
  revert n. induction evs as [|e evs IH]; intros n Hn Hmax Hk; simpl; [lia|].
  pose proof (Hk 1) as Hk1. destruct e; simpl in *.
  - unfold track. rewrite wrap64_small by lia. rewrite IH; [lia..|].
    intros k. specialize (Hk (S k)). simpl in Hk. lia.
  - rewrite wrap64_small by (rewrite ?take_0 in Hk1; simpl in Hk1; lia).
    rewrite IH; [lia|rewrite ?take_0 in Hk1; simpl in Hk1; lia|lia|].
    intros k. specialize (Hk (S k)). simpl in Hk. lia.
Qed.

(** ** Properties *)

(** A [StreamPool] neither loses nor duplicates a connection: after any
    sequence of pushes and takes, the connections idle for a key at the start
    and those pushed for it are, as a multiset, those handed out for that key
    and those still idle. *)
Theorem pool_conserves {T} key (ops : list (pool_op (T := T))) pool :
  let '(out, pool') := run_ops ops pool in
  idle key pool ++ pushed ops key ≡ₚ taken out key ++ idle key pool'.
Proof. apply run_ops_conserve. Qed.

(** The service index answers a (node, name) with the last such entry of
    the configuration and nothing else; the route index holds, for each service
    that has routes, exactly its routes in evaluation order. *)
Theorem indexes_spec dc :
  (forall node name, build_service_index dc !! (node, name) =
     find_first (fun s => bool_decide (svc_instance s = (node, name))) (reverse (all_services dc)))
  /\ (forall service, build_route_index dc !! service =
        match retain (routes_of service) (dc_routes dc) with
        | [] => None
        | routes => Some routes
        end).
Proof.
  split.
  - intros node name. rewrite build_service_index_eq, index_services_lookup, lookup_empty.
    by destruct (find_first _ _).
  - intros service. destruct (build_route_index_lookup dc service) as [<- Hne].
    destruct (build_route_index dc !! service) as [[|]|]; done.
Qed.
