(* ===== verification/Waiting.v ===== *)
(** * Waiting for a connection, and for the drain ([StreamPool::take] and
    [InFlightTracker::wait_zero] in [src/src/state.rs])

    Both register for a wake-up before they look, so that what changes in between is
    not missed. Here every access to what tasks share is a step of its own, and the
    steps of any number of tasks interleave freely, and [take_refines] relates them to
    the pool and the [take_loop] of State. [tokio::sync::Notify] is the
    interface [Notify], with what its documentation promises. *)

From S2P Require Import Prelude NetAddr Dynamic Config State.

(** ** [tokio::sync::Notify]

    What became of a future of [notified()] that was enabled: it waits, [notify_one]
    chose it, or it is ready otherwise (a stored permit, or [notify_waiters]). *)
Inductive Fut := Waiting | Notified | Ready.

#[export] Instance Fut_eq_dec : EqDecision Fut.
Proof. solve_decision. Defined.

Definition is_notified (f : Fut) : bool := match f with Notified => true | _ => false end.
Definition make_ready (f : Fut) : Fut := match f with Waiting => Ready | _ => f end.

(** One waiting future is chosen, if there is one. *)
Definition passed_on (f f' : gmap nat Fut) : Prop :=
  (f' = f /\ forall i, f !! i <> Some Waiting) \/ exists i, f !! i = Some Waiting /\ f' = <[i := Notified]> f.

(** A future is known by its task. [permit] is the permit that [notify_one] stores when
    no one waits, and that the next future enabled takes; [notify_waiters] stores none. [forget] is dropping one: the notification it got
    from [notify_one] and did not receive goes to another. *)
Class Notify := {
  notify : Type;
  notify_new : notify;
  futures : notify -> gmap nat Fut;
  permit : notify -> bool;
  enable : nat -> notify -> notify;
  receive : nat -> notify -> notify;
  forget : nat -> notify -> notify;
  notify_one : notify -> notify;
  notify_waiters : notify -> notify;
  futures_new : futures notify_new = ∅;
  permit_new : permit notify_new = false;
  futures_enable : forall i n, futures n !! i = None ->
    futures (enable i n) = <[i := if permit n then Ready else Waiting]> (futures n);
  permit_enable : forall i n, permit (enable i n) = false;
  futures_receive : forall i n, futures (receive i n) = delete i (futures n);
  permit_receive : forall i n, permit (receive i n) = permit n;
  futures_forget : forall i n,
    if bool_decide (futures n !! i = Some Notified) then passed_on (delete i (futures n)) (futures (forget i n))
    else futures (forget i n) = delete i (futures n);
  futures_notify_one : forall n, passed_on (futures n) (futures (notify_one n));
  futures_notify_waiters : forall n, futures (notify_waiters n) = make_ready <$> futures n;
  permit_notify_waiters : forall n, permit (notify_waiters n) = permit n
}.

Lemma enable_fresh `{Notify} i n : futures n !! i = None ->
  exists f, is_notified f = false /\ futures (enable i n) = <[i := f]> (futures n).
Proof. intros Hi. rewrite futures_enable by done. eexists. split; [|done]. by destruct (permit n). Qed.

(** ** Counting in a map *)

Definition cnt {A} (f : A -> bool) (m : gmap nat A) : nat := size (filter (fun kv => f kv.2 = true) m).

Section cnt.
Context {A : Type} (f : A -> bool).

Lemma cnt_insert_new m i x : m !! i = None -> cnt f (<[i := x]> m) = (if f x then 1 else 0) + cnt f m.
Proof.
  intros Hi. unfold cnt. destruct (f x) eqn:Hx.
  - rewrite map_filter_insert_True by done. rewrite map_size_insert_None; [done|].
    apply map_lookup_filter_None. by left.
  - rewrite map_filter_insert_False by (simpl; congruence). by rewrite delete_id.
Qed.

Lemma cnt_delete m i x : m !! i = Some x -> cnt f m = (if f x then 1 else 0) + cnt f (delete i m).
Proof. intros Hi. rewrite <- (insert_delete_id m i x) at 1 by done. apply cnt_insert_new, lookup_delete_eq. Qed.

Lemma cnt_insert m i x y : m !! i = Some y ->
  (if f y then 1 else 0) + cnt f (<[i := x]> m) = (if f x then 1 else 0) + cnt f m.
Proof.
  intros Hi. rewrite (cnt_delete m i y), <- insert_delete_eq, cnt_insert_new by (done || apply lookup_delete_eq). lia.
Qed.

Lemma cnt_same m m' : (forall i x, f x = true -> m !! i = Some x <-> m' !! i = Some x) -> cnt f m = cnt f m'.
Proof.
  intros Hm. unfold cnt. f_equal. apply map_eq. intros i. apply option_eq. intros x.
  rewrite !map_lookup_filter_Some. simpl. naive_solver.
Qed.

Lemma cnt_pos m : 0 < cnt f m -> exists i x, m !! i = Some x /\ f x = true.
Proof.
  unfold cnt. intros Hp. destruct (map_choose (filter (fun kv => f kv.2 = true) m)) as (i & x & Hx).
  { intros He. rewrite He, map_size_empty in Hp. lia. }
  apply map_lookup_filter_Some in Hx as [Hx Hf]. eauto.
Qed.
End cnt.

(** ** [StreamPool] *)

(** Where a call of [take] is: about to get the notifier, about to enable its future,
    about to look, waiting (or giving up, once out of time or cancelled), or
    returning with a connection. *)
Inductive Phase := Starting | Registered | Looking | Asleep | Leaving.

(** The call looks at the pool before it waits. *)
Definition will_look (p : Phase) : bool :=
  match p with Starting | Registered | Looking => true | Asleep | Leaving => false end.

Section takers.
Context `{Notify} {T : Type}.

(** [wt_pushing] has the keys of the pushes that have yet to wake a waiter, and
    [wt_takers] the calls of [take] with their keys. *)
Record Waits := {
  wt_pool : StreamPool T;
  wt_notifiers : gmap string notify;
  wt_pushing : list string;
  wt_takers : gmap nat (string * Phase)
}.

Definition no_waits : Waits := {| wt_pool := ∅; wt_notifiers := ∅; wt_pushing := []; wt_takers := ∅ |}.

Inductive Act :=
| APush (key : string) (stream : T)
| AWakeOne (before after : list string) (key : string)
| ATryTake (key : string)
| ATake (i : nat) (key : string)
| ARegister (i : nat)
| AEnable (i : nat)
| ALook (i : nat)
| AReturn (i : nat)
| AWake (i : nat)
| AGiveUp (i : nat).

Definition at_phase (i : nat) (key : string) (p : Phase) (w : Waits) : Waits :=
  {| wt_pool := wt_pool w; wt_notifiers := wt_notifiers w; wt_pushing := wt_pushing w;
     wt_takers := <[i := (key, p)]> (wt_takers w) |}.
Definition gone (i : nat) (w : Waits) : Waits :=
  {| wt_pool := wt_pool w; wt_notifiers := wt_notifiers w; wt_pushing := wt_pushing w;
     wt_takers := delete i (wt_takers w) |}.
Definition set_notifier (key : string) (n : notify) (w : Waits) : Waits :=
  {| wt_pool := wt_pool w; wt_notifiers := <[key := n]> (wt_notifiers w); wt_pushing := wt_pushing w;
     wt_takers := wt_takers w |}.
Definition set_pool (pool : StreamPool T) (w : Waits) : Waits :=
  {| wt_pool := pool; wt_notifiers := wt_notifiers w; wt_pushing := wt_pushing w; wt_takers := wt_takers w |}.
Definition set_pushing (keys : list string) (w : Waits) : Waits :=
  {| wt_pool := wt_pool w; wt_notifiers := wt_notifiers w; wt_pushing := keys; wt_takers := wt_takers w |}.

(** [push]: the connection goes into the pool under the lock, ... *)
Definition push_stream (key : string) (stream : T) (w : Waits) : Waits :=
  set_pushing (wt_pushing w ++ [key]) (set_pool (push key stream (wt_pool w)) w).

(** ... and then one waiter is woken, if anyone ever waited for the key. *)
Definition push_wakes (key : string) (w : Waits) : Waits :=
  match wt_notifiers w !! key with
  | Some n => set_notifier key (notify_one n) w
  | None => w
  end.

(** The steps of a call of [take]. *)
Definition take_register (i : nat) (key : string) (w : Waits) : Waits :=
  at_phase i key Registered
    (match wt_notifiers w !! key with Some _ => w | None => set_notifier key notify_new w end).

Definition take_enable (i : nat) (key : string) (n : notify) (w : Waits) : Waits :=
  at_phase i key Looking (set_notifier key (enable i n) w).

Definition take_look (i : nat) (key : string) (w : Waits) : Waits :=
  match try_take key (wt_pool w) with
  | (Some _, pool) => at_phase i key Leaving (set_pool pool w)
  | (None, pool) => at_phase i key Asleep (set_pool pool w)
  end.

Definition take_wake (i : nat) (key : string) (n : notify) (w : Waits) : Waits :=
  at_phase i key Starting (set_notifier key (receive i n) w).

(** Returning, with a connection or without one, drops the future. *)
Definition take_return (i : nat) (key : string) (n : notify) (w : Waits) : Waits :=
  gone i (set_notifier key (forget i n) w).

Definition act (a : Act) (w : Waits) : option Waits :=
  match a with
  | APush key stream => Some (push_stream key stream w)
  | AWakeOne before after key =>
      if bool_decide (wt_pushing w = before ++ key :: after)
      then Some (push_wakes key (set_pushing (before ++ after) w)) else None
  | ATryTake key => Some (set_pool (try_take key (wt_pool w)).2 w)
  | ATake i key => match wt_takers w !! i with None => Some (at_phase i key Starting w) | Some _ => None end
  | ARegister i =>
      match wt_takers w !! i with Some (key, Starting) => Some (take_register i key w) | _ => None end
  | AEnable i =>
      match wt_takers w !! i with
      | Some (key, Registered) => n ← wt_notifiers w !! key; Some (take_enable i key n w)
      | _ => None
      end
  | ALook i => match wt_takers w !! i with Some (key, Looking) => Some (take_look i key w) | _ => None end
  | AReturn i =>
      match wt_takers w !! i with
      | Some (key, Leaving) => n ← wt_notifiers w !! key; Some (take_return i key n w)
      | _ => None
      end
  | AWake i =>
      match wt_takers w !! i with
      | Some (key, Asleep) => n ← wt_notifiers w !! key;
          if bool_decide (futures n !! i = Some Waiting) then None else Some (take_wake i key n w)
      | _ => None
      end
  | AGiveUp i =>
      match wt_takers w !! i with
      | Some (key, Asleep) => n ← wt_notifiers w !! key; Some (take_return i key n w)
      | _ => None
      end
  end.

Definition wstep (w w' : Waits) : Prop := exists a, act a w = Some w'.

(** ** The invariant *)

Definition futures_of (key : string) (w : Waits) : gmap nat Fut :=
  match wt_notifiers w !! key with Some n => futures n | None => ∅ end.

Definition looks (key : string) (t : string * Phase) : bool := bool_decide (t.1 = key) && will_look t.2.

(** The wake-ups and looks that are on their way for a key. *)
Definition coming (key : string) (w : Waits) : nat :=
  length (retain (fun k => bool_decide (k = key)) (wt_pushing w)) + cnt (looks key) (wt_takers w)
  + cnt is_notified (futures_of key w).

Definition enabled (p : Phase) : bool := match p with Looking | Asleep | Leaving => true | _ => false end.

(** A call waits and nothing has woken it. *)
Definition sleeps (key : string) (i : nat) (w : Waits) : Prop :=
  wt_takers w !! i = Some (key, Asleep) /\ futures_of key w !! i = Some Waiting.

(** The futures of a key are those of its calls that have enabled one; and as long as
    one sleeps, every idle connection has a wake-up or a look coming. *)
Record waits_ok (key : string) (w : Waits) : Prop := {
  wo_futures : forall i, is_Some (futures_of key w !! i) <->
    exists p, wt_takers w !! i = Some (key, p) /\ enabled p = true;
  wo_registered : forall i, wt_takers w !! i = Some (key, Registered) -> is_Some (wt_notifiers w !! key);
  wo_coming : forall i, sleeps key i w -> length (idle key (wt_pool w)) <= coming key w
}.

Lemma futures_of_other key key' n w : key' <> key -> futures_of key (set_notifier key' n w) = futures_of key w.
Proof. intros Hne. unfold futures_of. simpl. by rewrite lookup_insert_ne. Qed.

Lemma futures_of_same key n w : futures_of key (set_notifier key n w) = futures n.
Proof. unfold futures_of. simpl. by rewrite lookup_insert_eq. Qed.

(** What concerns one key does not depend on the others. *)
Lemma waits_ok_frame key w w' :
  waits_ok key w -> futures_of key w' = futures_of key w ->
  (is_Some (wt_notifiers w !! key) -> is_Some (wt_notifiers w' !! key)) ->
  (forall i p, wt_takers w' !! i = Some (key, p) <-> wt_takers w !! i = Some (key, p)) ->
  length (idle key (wt_pool w')) <= length (idle key (wt_pool w)) ->
  retain (fun k => bool_decide (k = key)) (wt_pushing w') = retain (fun k => bool_decide (k = key)) (wt_pushing w) ->
  waits_ok key w'.
Proof.
  intros [Hf Hr Hc] Hfut Hreg Ht Hidle Hpush.
  assert (Hcoming : coming key w' = coming key w).
  { unfold coming. rewrite Hfut, Hpush. do 2 f_equal. apply cnt_same. intros i [k p] Hl. unfold looks in Hl. simpl in Hl.
    apply andb_true_iff in Hl as [Hk%bool_decide_eq_true _]. subst k. apply Ht. }
  split.
  - intros i. rewrite Hfut, Hf. by setoid_rewrite Ht.
  - intros i Hi. apply Hreg, (Hr i). by apply Ht.
  - intros i [Hi Hw]. rewrite Hcoming. etrans; [apply Hidle|]. apply (Hc i). split; [by apply Ht|by rewrite <- Hfut].
Qed.

Lemma passed_on_dom f f' i : passed_on f f' -> is_Some (f' !! i) <-> is_Some (f !! i).
Proof.
  intros [[-> _]|(j & Hj & ->)]; [done|]. destruct (decide (j = i)) as [->|Hne].
  - rewrite lookup_insert_eq, Hj. by split; eexists.
  - by rewrite lookup_insert_ne.
Qed.

(** Either someone was waiting and has been chosen, or no one waits. *)
Lemma passed_on_cnt f f' : passed_on f f' ->
  cnt is_notified f' = S (cnt is_notified f) /\ (forall i, f' !! i = Some Waiting -> f !! i = Some Waiting)
  \/ f' = f /\ forall i, f' !! i <> Some Waiting.
Proof.
  intros [[-> Hno]|(j & Hj & ->)]; [by right|left]. split.
  - pose proof (cnt_insert is_notified f j Notified Waiting Hj). simpl in *. lia.
  - intros i. destruct (decide (j = i)) as [->|Hne]; [by rewrite lookup_insert_eq|by rewrite lookup_insert_ne].
Qed.

(** ** Each step keeps it *)

Lemma looks_self key p : looks key (key, p) = will_look p.
Proof. unfold looks. simpl. by rewrite bool_decide_true. Qed.

(** A call moves between phases that leave its future as it is. *)
Lemma move_ok key i p q w :
  waits_ok key w -> wt_takers w !! i = Some (key, p) -> enabled p = enabled q -> will_look p = will_look q -> q <> Asleep ->
  (q = Registered -> is_Some (wt_notifiers w !! key)) -> waits_ok key (at_phase i key q w).
Proof.
  intros [Hf Hr Hc] Hi Hen Hlook Hq Hreg.
  assert (Hcoming : coming key (at_phase i key q w) = coming key w).
  { unfold coming. change (futures_of key (at_phase i key q w)) with (futures_of key w). simpl.
    pose proof (cnt_insert (looks key) (wt_takers w) i (key, q) (key, p) Hi) as Hc'. rewrite !looks_self, Hlook in Hc'. lia. }
  split.
  - intros j. change (futures_of key (at_phase i key q w)) with (futures_of key w). rewrite Hf. simpl.
    destruct (decide (i = j)) as [->|Hne]; [|by rewrite lookup_insert_ne].
    rewrite lookup_insert_eq, Hi. split; intros (r & [= <-] & He); eexists; (split; [done|congruence]).
  - intros j. simpl. destruct (decide (i = j)) as [->|Hne]; [rewrite lookup_insert_eq; naive_solver|].
    rewrite lookup_insert_ne by done. apply Hr.
  - intros j [Hj Hw]. rewrite Hcoming. apply (Hc j). simpl in Hj. split; [|done].
    destruct (decide (i = j)) as [->|Hne]; [rewrite lookup_insert_eq in Hj; naive_solver|by rewrite lookup_insert_ne in Hj].
Qed.

Lemma take_start_ok key i w : waits_ok key w -> wt_takers w !! i = None -> waits_ok key (at_phase i key Starting w).
Proof.
  intros [Hf Hr Hc] Hi. split; simpl.
  - intros j. change (futures_of key (at_phase i key Starting w)) with (futures_of key w). rewrite Hf.
    destruct (decide (i = j)) as [->|Hne]; [|by rewrite lookup_insert_ne].
    rewrite lookup_insert_eq, Hi. split; [by intros (? & ? & _)|by intros (p & [= <-] & ?)].
  - intros j. destruct (decide (i = j)) as [->|Hne]; [by rewrite lookup_insert_eq|]. rewrite lookup_insert_ne by done. apply Hr.
  - intros j [Hj Hw]. simpl in Hj. destruct (decide (i = j)) as [->|Hne]; [by rewrite lookup_insert_eq in Hj|].
    rewrite lookup_insert_ne in Hj by done. specialize (Hc j (conj Hj Hw)). unfold coming in *.
    change (futures_of key (at_phase i key Starting w)) with (futures_of key w). simpl.
    rewrite cnt_insert_new by done. lia.
Qed.

Lemma register_ok key i w :
  waits_ok key w -> wt_takers w !! i = Some (key, Starting) -> waits_ok key (take_register i key w).
Proof.
  intros Hw Hi. unfold take_register. destruct (wt_notifiers w !! key) as [n|] eqn:Hn.
  { by apply (move_ok key i Starting). }
  assert (Hsame : futures_of key (set_notifier key notify_new w) = futures_of key w).
  { rewrite futures_of_same, futures_new. unfold futures_of. by rewrite Hn. }
  apply (move_ok key i Starting); [|done..|].
  - apply (waits_ok_frame key w); try done. simpl. by rewrite lookup_insert_eq.
  - intros _. simpl. by rewrite lookup_insert_eq.
Qed.

Lemma enable_ok key i n w :
  waits_ok key w -> wt_takers w !! i = Some (key, Registered) -> wt_notifiers w !! key = Some n ->
  waits_ok key (take_enable i key n w).
Proof.
  intros [Hf Hr Hc] Hi Hn. assert (Hfut : futures_of key w = futures n) by (unfold futures_of; by rewrite Hn).
  assert (Hnone : futures n !! i = None).
  { apply eq_None_not_Some. rewrite <- Hfut, Hf, Hi. intros (p & [= <-] & Hp). discriminate. }
  destruct (enable_fresh i n Hnone) as (f & Hnot & Hen).
  assert (Hfut' : futures_of key (take_enable i key n w) = <[i := f]> (futures n)).
  { unfold take_enable. change (futures_of key (at_phase i key Looking ?w)) with (futures_of key w).
    by rewrite futures_of_same. }
  split.
  - intros j. rewrite Hfut'. simpl. destruct (decide (i = j)) as [->|Hne].
    + rewrite !lookup_insert_eq. split; [intros _; by eexists|by eexists].
    + rewrite !lookup_insert_ne by done. by rewrite <- Hfut.
  - intros j _. simpl. by rewrite lookup_insert_eq.
  - intros j [Hj Hwt]. rewrite Hfut' in Hwt. simpl in Hj. destruct (decide (i = j)) as [->|Hne].
    { by rewrite lookup_insert_eq in Hj. }
    rewrite lookup_insert_ne in Hj by done. rewrite lookup_insert_ne in Hwt by done.
    enough (coming key (take_enable i key n w) = coming key w) as -> by (apply (Hc j); split; [done|by rewrite Hfut]).
    unfold coming. rewrite Hfut', Hfut, cnt_insert_new by done. rewrite Hnot. simpl.
    pose proof (cnt_insert (looks key) (wt_takers w) i (key, Looking) (key, Registered) Hi) as Hl.
    rewrite !looks_self in Hl. simpl in Hl. lia.
Qed.

Lemma look_ok key i w :
  waits_ok key w -> wt_takers w !! i = Some (key, Looking) -> waits_ok key (take_look i key w).
Proof.
  intros Hw Hi. pose proof Hw as [Hf Hr Hc]. unfold take_look. pose proof (try_take_spec key (wt_pool w)) as Ht.
  destruct (try_take key (wt_pool w)) as [[x|] pool].
  - destruct Ht as [Hidle _].
    pose proof (cnt_insert (looks key) (wt_takers w) i (key, Leaving) (key, Looking) Hi) as Hl.
    rewrite !looks_self in Hl. simpl in Hl. split.
    + intros j. change (futures_of key (at_phase i key Leaving (set_pool pool w))) with (futures_of key w). rewrite Hf. simpl.
      destruct (decide (i = j)) as [->|Hne]; [|by rewrite lookup_insert_ne].
      rewrite lookup_insert_eq, Hi. split; intros _; by eexists.
    + intros j. simpl. destruct (decide (i = j)) as [->|Hne]; [by rewrite lookup_insert_eq|].
      rewrite lookup_insert_ne by done. apply Hr.
    + intros j [Hj Hwt]. change (futures_of key (at_phase i key Leaving (set_pool pool w))) with (futures_of key w) in Hwt.
      simpl in Hj. destruct (decide (i = j)) as [->|Hne]; [by rewrite lookup_insert_eq in Hj|].
      rewrite lookup_insert_ne in Hj by done. specialize (Hc j (conj Hj Hwt)).
      rewrite Hidle, length_app in Hc. simpl in Hc. unfold coming in *.
      change (futures_of key (at_phase i key Leaving (set_pool pool w))) with (futures_of key w). simpl. lia.
  - destruct Ht as [-> Hnone]. split.
    + intros j. change (futures_of key (at_phase i key Asleep (set_pool (wt_pool w) w))) with (futures_of key w). rewrite Hf. simpl.
      destruct (decide (i = j)) as [->|Hne]; [|by rewrite lookup_insert_ne].
      rewrite lookup_insert_eq, Hi. split; intros _; by eexists.
    + intros j. simpl. destruct (decide (i = j)) as [->|Hne]; [by rewrite lookup_insert_eq|].
      rewrite lookup_insert_ne by done. apply Hr.
    + intros j _. simpl. rewrite Hnone. simpl. lia.
Qed.

(** Removing a call that has a future, with what its future passes on. *)
Lemma return_ok key i p n w :
  waits_ok key w -> wt_takers w !! i = Some (key, p) -> p = Leaving \/ p = Asleep -> wt_notifiers w !! key = Some n ->
  waits_ok key (take_return i key n w).
Proof.
  intros [Hf Hr Hc] Hi Hp Hn. assert (Hfut : futures_of key w = futures n) by (unfold futures_of; by rewrite Hn).
  assert (Hfut' : futures_of key (take_return i key n w) = futures (forget i n)).
  { unfold take_return. change (futures_of key (gone i ?w)) with (futures_of key w). by rewrite futures_of_same. }
  assert (Hlook : cnt (looks key) (delete i (wt_takers w)) = cnt (looks key) (wt_takers w)).
  { rewrite (cnt_delete (looks key) (wt_takers w) i (key, p)) by done. rewrite looks_self. by destruct Hp as [->| ->]. }
  assert (Hdom : forall j, is_Some (futures (forget i n) !! j) <-> is_Some (delete i (futures n) !! j)).
  { intros j. pose proof (futures_forget i n) as Hfg. case_bool_decide; [by apply passed_on_dom|by rewrite Hfg]. }
  split.
  - intros j. rewrite Hfut', Hdom, <- Hfut. simpl. destruct (decide (i = j)) as [->|Hne].
    + rewrite !lookup_delete_eq. split; [by intros []|by intros (? & ? & _)].
    + by rewrite !lookup_delete_ne.
  - intros j. simpl. by rewrite lookup_insert_eq.
  - intros j [Hj Hwt]. simpl in Hj. assert (Hne : i <> j) by (intros ->; by rewrite lookup_delete_eq in Hj).
    rewrite lookup_delete_ne in Hj by done. rewrite Hfut' in Hwt.
    assert (Hold : sleeps key j w /\ cnt is_notified (futures n) <= cnt is_notified (futures (forget i n))).
    { unfold sleeps. rewrite Hfut. pose proof (futures_forget i n) as Hfg. case_bool_decide as Hno.
      - rewrite (cnt_delete _ _ _ _ Hno). simpl. destruct (passed_on_cnt _ _ Hfg) as [[-> Hw]|[_ Hno']]; [|by destruct (Hno' j)].
        apply Hw in Hwt. rewrite lookup_delete_ne in Hwt by done. done.
      - rewrite Hfg in Hwt |- *. rewrite lookup_delete_ne in Hwt by done. split; [done|].
        destruct (futures n !! i) as [fi|] eqn:Hfi; [|by rewrite delete_id].
        rewrite (cnt_delete _ _ _ _ Hfi). destruct fi; simpl; [done|congruence|done]. }
    destruct Hold as [Hs Hle]. specialize (Hc j Hs). unfold coming in *. rewrite Hfut'. rewrite Hfut in Hc. simpl.
    rewrite Hlook. lia.
Qed.

Lemma wake_ok key i n w :
  waits_ok key w -> wt_takers w !! i = Some (key, Asleep) -> wt_notifiers w !! key = Some n ->
  waits_ok key (take_wake i key n w).
Proof.
  intros [Hf Hr Hc] Hi Hn. assert (Hfut : futures_of key w = futures n) by (unfold futures_of; by rewrite Hn).
  assert (Hfut' : futures_of key (take_wake i key n w) = delete i (futures n)).
  { unfold take_wake. change (futures_of key (at_phase i key Starting ?w)) with (futures_of key w).
    by rewrite futures_of_same, futures_receive. }
  pose proof (cnt_insert (looks key) (wt_takers w) i (key, Starting) (key, Asleep) Hi) as Hl.
  rewrite !looks_self in Hl. simpl in Hl.
  destruct (proj2 (Hf i) (ex_intro _ Asleep (conj Hi eq_refl))) as [fi Hfi]. rewrite Hfut in Hfi.
  split.
  - intros j. rewrite Hfut'. simpl. destruct (decide (i = j)) as [->|Hne].
    + rewrite lookup_delete_eq, lookup_insert_eq. split; [by intros []|]. by intros (p & [= <-] & ?).
    + rewrite lookup_delete_ne, lookup_insert_ne by done. by rewrite <- Hfut.
  - intros j _. simpl. by rewrite lookup_insert_eq.
  - intros j [Hj Hwt]. rewrite Hfut' in Hwt. simpl in Hj. assert (Hne : i <> j) by (intros ->; by rewrite lookup_delete_eq in Hwt).
    rewrite lookup_insert_ne in Hj by done. rewrite lookup_delete_ne in Hwt by done.
    assert (Hs : sleeps key j w) by (split; [done|by rewrite Hfut]). specialize (Hc j Hs).
    unfold coming in *. rewrite Hfut'. rewrite Hfut, (cnt_delete _ _ _ _ Hfi) in Hc. simpl. destruct (is_notified fi); lia.
Qed.

Lemma push_stream_ok key key' x w : waits_ok key w -> waits_ok key (push_stream key' x w).
Proof.
  intros [Hf Hr Hc]. split; [done|done|]. intros j Hs. specialize (Hc j Hs). unfold coming in *. simpl.
  change (futures_of key (push_stream key' x w)) with (futures_of key w). rewrite idle_push, retain_app, !length_app. simpl.
  destruct (decide (key' = key)) as [->|Hne]; [rewrite bool_decide_true by done|rewrite bool_decide_false by done]; simpl; lia.
Qed.

Lemma push_wakes_ok key before after w :
  waits_ok key w -> wt_pushing w = before ++ key :: after ->
  waits_ok key (push_wakes key (set_pushing (before ++ after) w)).
Proof.
  intros [Hf Hr Hc] Hp. unfold push_wakes. simpl.
  assert (Hlen : length (retain (fun k => bool_decide (k = key)) (wt_pushing w))
    = S (length (retain (fun k => bool_decide (k = key)) (before ++ after)))).
  { rewrite Hp, !retain_app, !length_app. simpl. rewrite bool_decide_true by done. simpl. lia. }
  destruct (wt_notifiers w !! key) as [n|] eqn:Hn.
  - assert (Hfut : futures_of key w = futures n) by (unfold futures_of; by rewrite Hn).
    pose proof (futures_notify_one n) as Hone.
    assert (Hfut' : futures_of key (set_notifier key (notify_one n) (set_pushing (before ++ after) w)) = futures (notify_one n))
      by apply futures_of_same.
    split.
    + intros j. rewrite Hfut', (passed_on_dom _ _ j Hone), <- Hfut. apply Hf.
    + intros j _. simpl. by rewrite lookup_insert_eq.
    + intros j [Hj Hwt]. rewrite Hfut' in Hwt. destruct (passed_on_cnt _ _ Hone) as [[Hcnt Hw]|[_ Hno]]; [|by destruct (Hno j)].
      assert (Hs : sleeps key j w) by (split; [done|rewrite Hfut; by apply Hw]). specialize (Hc j Hs).
      unfold coming in *. rewrite Hfut', Hcnt. rewrite Hfut in Hc. simpl. lia.
  - assert (Hfut : futures_of key w = ∅) by (unfold futures_of; by rewrite Hn).
    split; [done|intros j Hj; simpl in *; rewrite Hn; by apply (Hr j)|]. intros j [_ Hwt].
    change (futures_of key (set_pushing (before ++ after) w)) with (futures_of key w) in Hwt. by rewrite Hfut, lookup_empty in Hwt.
Qed.

Lemma try_take_le key key' (pool : StreamPool T) :
  length (idle key (try_take key' pool).2) <= length (idle key pool).
Proof.
  pose proof (try_take_spec key' pool) as Ht. destruct (try_take key' pool) as [[x|] p]; simpl.
  - destruct Ht as [Hidle Hne]. destruct (decide (key = key')) as [->|Hk]; [rewrite Hidle, length_app; lia|].
    unfold idle. by rewrite Hne.
  - by destruct Ht as [-> _].
Qed.

Lemma no_waits_ok key : waits_ok key no_waits.
Proof.
  split; simpl.
  - intros i. unfold futures_of. simpl. rewrite !lookup_empty. split; [by intros []|by intros (? & ? & _)].
  - intros i. by rewrite lookup_empty.
  - intros i [Hi _]. simpl in Hi. by rewrite lookup_empty in Hi.
Qed.

(** The steps of a call of another key. *)
Lemma take_other key k i (q : option Phase) n pool w :
  waits_ok key w -> k <> key -> (forall p, wt_takers w !! i <> Some (key, p)) ->
  length (idle key pool) <= length (idle key (wt_pool w)) ->
  waits_ok key {| wt_pool := pool;
                  wt_notifiers := match n with Some n => <[k := n]> (wt_notifiers w) | None => wt_notifiers w end;
                  wt_pushing := wt_pushing w;
                  wt_takers := match q with Some q => <[i := (k, q)]> (wt_takers w) | None => delete i (wt_takers w) end |}.
Proof.
  intros Hw Hne Hi Hle. apply (waits_ok_frame key w); try done; simpl.
  - unfold futures_of. simpl. destruct n; [by rewrite lookup_insert_ne|done].
  - destruct n; [by rewrite lookup_insert_ne|done].
  - intros j p. destruct q as [q|], (decide (i = j)) as [->|Hij].
    + rewrite lookup_insert_eq. split; [by intros [= -> _]|by intros Hj%Hi].
    + by rewrite lookup_insert_ne.
    + rewrite lookup_delete_eq. split; [done|by intros Hj%Hi].
    + by rewrite lookup_delete_ne.
Qed.

Lemma act_ok key a w w' : waits_ok key w -> act a w = Some w' -> waits_ok key w'.
Proof.
  intros Hw Ha. destruct a as [k x|before after k|k|i k|i|i|i|i|i|i]; simpl in Ha.
  1: { injection Ha as <-. by apply push_stream_ok. }
  1: { case_bool_decide as Hp; [|done]. injection Ha as <-. destruct (decide (k = key)) as [->|Hne]; [by apply push_wakes_ok|].
    unfold push_wakes. simpl. destruct (wt_notifiers w !! k); apply (waits_ok_frame key w); try done; simpl;
      rewrite ?Hp, ?retain_app; simpl; rewrite ?bool_decide_false by done; try done.
    - etrans; [by apply futures_of_other|done].
    - by rewrite lookup_insert_ne. }
  1: { injection Ha as <-. apply (waits_ok_frame key w); try done. apply try_take_le. }
  1: { destruct (wt_takers w !! i) eqn:Hi; [done|]. injection Ha as <-.
       destruct (decide (k = key)) as [->|Hne]; [by apply take_start_ok|].
       apply (take_other key k i (Some Starting) None); [done|done|by rewrite Hi|done]. }
  all: destruct (wt_takers w !! i) as [[k []]|] eqn:Hi; try done.
  all: try (destruct (wt_notifiers w !! k) as [n|] eqn:Hn; [|done]; simpl in Ha).
  all: try (case_bool_decide; [done|]).
  all: injection Ha as <-; destruct (decide (k = key)) as [->|Hne];
    [eauto using register_ok, enable_ok, look_ok, return_ok, wake_ok|].
  - unfold take_register. destruct (wt_notifiers w !! k).
    + apply (take_other key k i (Some Registered) None (wt_pool w) w); [done..|by rewrite Hi; intros p [= ? _]|done].
    + apply (take_other key k i (Some Registered) (Some notify_new) (wt_pool w) w); [done..|by rewrite Hi; intros p [= ? _]|done].
  - apply (take_other key k i (Some Looking) (Some (enable i n)) (wt_pool w) w); [done..|by rewrite Hi; intros p [= ? _]|done].
  - unfold take_look. pose proof (try_take_le key k (wt_pool w)) as Hle.
    destruct (try_take k (wt_pool w)) as [[x|] pool].
    + apply (take_other key k i (Some Leaving) None pool w); [done..|by rewrite Hi; intros p [= ? _]|done].
    + apply (take_other key k i (Some Asleep) None pool w); [done..|by rewrite Hi; intros p [= ? _]|done].
  - apply (take_other key k i None (Some (forget i n)) (wt_pool w) w); [done..|by rewrite Hi; intros p [= ? _]|done].
  - apply (take_other key k i (Some Starting) (Some (receive i n)) (wt_pool w) w); [done..|by rewrite Hi; intros p [= ? _]|done].
  - apply (take_other key k i None (Some (forget i n)) (wt_pool w) w); [done..|by rewrite Hi; intros p [= ? _]|done].
Qed.

Lemma reachable_ok key w : steps wstep no_waits w -> waits_ok key w.
Proof.
  intros Hs. eapply (steps_invariant wstep (waits_ok key)); [|apply no_waits_ok|exact Hs].
  intros w1 w2 Hw [a Ha]. by eapply act_ok.
Qed.

(** A step some task takes for a key without waiting for anything: a push waking a
    waiter, or a call of [take] that is not asleep or was woken. *)
Definition goes_on (key : string) (w w' : Waits) : Prop :=
  exists a, act a w = Some w' /\
  match a with
  | AWakeOne _ _ k => k = key
  | ARegister i | AEnable i | ALook i | AReturn i | AWake i => exists p, wt_takers w !! i = Some (key, p)
  | APush _ _ | ATryTake _ | ATake _ _ | AGiveUp _ => False
  end.

Lemma goes_on_looks key i p w :
  waits_ok key w -> wt_takers w !! i = Some (key, p) -> will_look p = true -> exists w', goes_on key w w'.
Proof.
  intros Hw Hi Hp. destruct p; try done.
  - eexists. exists (ARegister i). simpl. rewrite Hi. eauto.
  - destruct (wo_registered _ _ Hw i Hi) as [n Hn]. eexists. exists (AEnable i). simpl. rewrite Hi. simpl. rewrite Hn. eauto.
  - eexists. exists (ALook i). simpl. rewrite Hi. eauto.
Qed.

Lemma goes_on_notified key i w :
  waits_ok key w -> futures_of key w !! i = Some Notified -> exists w', goes_on key w w'.
Proof.
  intros Hw Hi. destruct (proj1 (wo_futures _ _ Hw i) (mk_is_Some _ _ Hi)) as (p & Hp & Hen).
  unfold futures_of in Hi. destruct (wt_notifiers w !! key) as [n|] eqn:Hn; [|by rewrite lookup_empty in Hi].
  destruct p; try done.
  - by eapply goes_on_looks.
  - eexists. exists (AWake i). simpl. rewrite Hp. simpl. rewrite Hn. simpl. rewrite bool_decide_false by congruence. eauto.
  - eexists. exists (AReturn i). simpl. rewrite Hp. simpl. rewrite Hn. eauto.
Qed.

Lemma coming_goes_on key w : waits_ok key w -> 0 < coming key w -> exists w', goes_on key w w'.
Proof.
  intros Hw Hpos. unfold coming in Hpos.
  destruct (decide (0 < cnt (looks key) (wt_takers w))) as [Hl|Hl].
  { apply cnt_pos in Hl as (i & [k p] & Hi & Hk). unfold looks in Hk. simpl in Hk.
    apply andb_true_iff in Hk as [Hk%bool_decide_eq_true Hp]. subst k. by eapply goes_on_looks. }
  destruct (decide (0 < cnt is_notified (futures_of key w))) as [Hn|Hn].
  { apply cnt_pos in Hn as (i & f & Hi & Hf). destruct f; try done. by eapply goes_on_notified. }
  destruct (retain (fun k => bool_decide (k = key)) (wt_pushing w)) as [|k l] eqn:Hr; [simpl in Hpos; lia|].
  assert (Hin : k ∈ retain (fun k => bool_decide (k = key)) (wt_pushing w)) by (rewrite Hr; left).
  apply elem_of_retain in Hin as [Hin Hk%bool_decide_eq_true]. subst k. apply list_elem_of_split in Hin as (before & after & Hp).
  eexists. exists (AWakeOne before after key). simpl. rewrite bool_decide_true by done. eauto.
Qed.

(** ** Property *)

(** C9: No call of [take] sleeps beside a connection it could have. Whatever pushes,
    takes, time-outs and cancellations interleave, and however the wake-ups are
    handed on: while a call sleeps for a key, there are at least as many wake-ups and
    looks on their way for that key as it has idle connections; so if there is one,
    some task can go on at once, and the pool is at rest only when the key has none. *)
Theorem take_never_misses key i w (Hreach : steps wstep no_waits w) (Hsleeps : sleeps key i w) :
  length (idle key (wt_pool w)) <= coming key w
  /\ (idle key (wt_pool w) <> [] -> exists w', goes_on key w w').
Proof.
  pose proof (reachable_ok key w Hreach) as Hw. pose proof (wo_coming _ _ Hw i Hsleeps) as Hle. split; [done|].
  intros Hne. apply coming_goes_on; [done|]. destruct (idle key (wt_pool w)); [done|simpl in Hle; lia].
Qed.
(** ** What a call sees

    An interleaving, from a state on; the accesses it makes to the pool, in their
    order, as operations on the pool alone; and, of one call, how each wait ends as
    [take_loop] has it (with time left at each wake-up) and what its looks take. *)
Fixpoint runs (acts : list Act) (w : Waits) : option Waits :=
  match acts with [] => Some w | a :: acts => w' ← act a w; runs acts w' end.

Definition op_of (a : Act) (w : Waits) : list (pool_op (T := T)) :=
  match a with
  | APush key stream => [Push key stream]
  | ATryTake key => [TryTake key]
  | ALook i => match wt_takers w !! i with Some (key, _) => [TryTake key] | None => [] end
  | _ => []
  end.

Definition wait_of (i : nat) (a : Act) (w : Waits) : list (wait_outcome (T := T)) :=
  match a with
  | ALook j => if decide (j = i) then [Woken (wt_pool w) 1] else []
  | AGiveUp j => if decide (j = i) then [TimedOut (wt_pool w)] else []
  | _ => []
  end.

Definition got_of (i : nat) (key : string) (a : Act) (w : Waits) : list T :=
  match a with
  | ALook j => if decide (j = i) then option_list (try_take key (wt_pool w)).1 else []
  | _ => []
  end.

Fixpoint seen {B} (f : Act -> Waits -> list B) (acts : list Act) (w : Waits) : list B :=
  match acts with
  | [] => []
  | a :: acts => f a w ++ match act a w with Some w' => seen f acts w' | None => [] end
  end.

Definition starts (i : nat) (a : Act) : bool :=
  match a with ATake j _ => bool_decide (j = i) | _ => false end.

(** A call goes on from a wait. *)
Definition resume (key : string) (waits : list (wait_outcome (T := T))) : option T :=
  match waits with Woken pool remaining :: waits => (take_loop key pool remaining waits).1 | _ => None end.

(** What a call has yet to see, by its phase. *)
Definition yet_to_see (p : option (string * Phase)) (waits : list (wait_outcome (T := T))) (got : list T) : Prop :=
  match p with
  | None | Some (_, Leaving) => waits = [] /\ got = []
  | Some (key, p) =>
      (if will_look p then exists pool rest, waits = Woken pool 1 :: rest else waits <> [])
      /\ got = option_list (resume key waits)
  end.

Lemma take_loop_look key pool waits :
  (take_loop key pool 1 waits).1 =
  match (try_take key pool).1 with Some stream => Some stream | None => resume key waits end.
Proof. by destruct waits as [|[] waits]; simpl; destruct (try_take key pool) as [[]]. Qed.

Lemma act_pool a w w' : act a w = Some w' -> wt_pool w' = (run_ops (op_of a w) (wt_pool w)).2.
Proof.
  intros Ha. destruct a; simpl in Ha |- *.
  1: by injection Ha as <-.
  1: { case_bool_decide; [|done]. injection Ha as <-. unfold push_wakes. by case_match. }
  1: { injection Ha as <-. simpl. by destruct (try_take key (wt_pool w)) as [[]]. }
  1: { destruct (wt_takers w !! i); [done|]. by injection Ha as <-. }
  all: destruct (wt_takers w !! i) as [[k []]|]; try done.
  all: try (destruct (wt_notifiers w !! k); [|done]; simpl in Ha).
  all: try (case_bool_decide; [done|]).
  all: injection Ha as <-; try done; simpl.
  - unfold take_register. by case_match.
  - unfold take_look. by destruct (try_take k (wt_pool w)) as [[]].
Qed.

Lemma run_ops_app ops ops' (pool : StreamPool T) :
  run_ops (ops ++ ops') pool =
  ((run_ops ops pool).1 ++ (run_ops ops' (run_ops ops pool).2).1, (run_ops ops' (run_ops ops pool).2).2).
Proof.
  revert pool. induction ops as [|[k x|k] ops IH]; intros pool; simpl; [by destruct (run_ops ops' pool)|apply IH|].
  destruct (try_take k pool) as [[x|] pool1]; [|apply IH]. rewrite IH. by destruct (run_ops ops pool1).
Qed.

Lemma runs_pool acts w w' : runs acts w = Some w' -> wt_pool w' = (run_ops (seen op_of acts w) (wt_pool w)).2.
Proof.
  revert w. induction acts as [|a acts IH]; simpl; intros w Hr; [by injection Hr as <-|].
  destruct (act a w) as [w1|] eqn:Ha; [|done]. rewrite run_ops_app. simpl. rewrite <- (act_pool _ _ _ Ha). by apply IH.
Qed.

(** The call a step belongs to. *)
Definition about (a : Act) : option nat :=
  match a with
  | APush _ _ | AWakeOne _ _ _ | ATryTake _ => None
  | ATake i _ | ARegister i | AEnable i | ALook i | AReturn i | AWake i | AGiveUp i => Some i
  end.

(** A step of anything else. *)
Lemma act_other i key a w w' :
  about a <> Some i -> act a w = Some w' ->
  wt_takers w' !! i = wt_takers w !! i /\ wait_of i a w = [] /\ got_of i key a w = [].
Proof.
  intros Hi Ha. destruct a as [k x|before after k|k|j k|j|j|j|j|j|j]; simpl in Hi, Ha |- *.
  1: by injection Ha as <-.
  1: { case_bool_decide; [|done]. injection Ha as <-. unfold push_wakes. by case_match. }
  1: by injection Ha as <-.
  all: assert (Hne : j <> i) by congruence; rewrite ?decide_False by done; split; [|done].
  1: { destruct (wt_takers w !! j); [done|]. injection Ha as <-. simpl. by rewrite lookup_insert_ne. }
  all: destruct (wt_takers w !! j) as [[k []]|]; try done.
  all: try (destruct (wt_notifiers w !! k); [|done]; simpl in Ha).
  all: try (case_bool_decide; [done|]).
  all: injection Ha as <-; unfold take_register, take_look; repeat case_match; simpl;
    by rewrite ?lookup_insert_ne, ?lookup_delete_ne by done.
Qed.

(** A step of the call: it keeps its key, and what it has seen before comes first. *)
Lemma act_self i a w w' key p waits got :
  about a = Some i -> wt_takers w !! i = Some (key, p) -> act a w = Some w' ->
  (forall k q, wt_takers w' !! i = Some (k, q) -> k = key)
  /\ (yet_to_see (wt_takers w' !! i) waits got ->
      yet_to_see (Some (key, p)) (wait_of i a w ++ waits) (got_of i key a w ++ got)).
Proof.
  intros Hab Hi Ha. destruct a as [k x|before after k|k|j k|j|j|j|j|j|j]; try done; simpl in Hab; injection Hab as ->;
    simpl in Ha; rewrite Hi in Ha; try done; destruct p; try done.
  all: try (destruct (wt_notifiers w !! key) as [n|] eqn:Hn; [|done]; simpl in Ha).
  all: try (case_bool_decide; [done|]).
  all: injection Ha as <-; unfold take_look; try (destruct (try_take key (wt_pool w)) as [[x|] pool] eqn:Ht).
  all: simpl; rewrite ?lookup_insert_eq, ?lookup_delete_eq, ?decide_True by done; simpl;
    split; [naive_solver|rewrite ?take_loop_look, ?Ht; simpl; naive_solver].
Qed.

Lemma act_absent i a w : about a = Some i -> wt_takers w !! i = None -> starts i a = true \/ act a w = None.
Proof.
  intros Hab Hi. destruct a; try done; simpl in Hab; injection Hab as ->; simpl; rewrite ?Hi; [left|by right..].
  by rewrite bool_decide_true.
Qed.

Lemma seen_ok i key acts w w' :
  runs acts w = Some w' -> existsb (starts i) acts = false -> wt_takers w' !! i = None ->
  (forall k q, wt_takers w !! i = Some (k, q) -> k = key) ->
  yet_to_see (wt_takers w !! i) (seen (wait_of i) acts w) (seen (got_of i key) acts w).
Proof.
  intros Hr Hs Hd. revert w Hr Hs. induction acts as [|a acts IH]; simpl; intros w Hr Hs Hk.
  { injection Hr as <-. by rewrite Hd. }
  apply orb_false_iff in Hs as [Hs Hss]. destruct (act a w) as [w1|] eqn:Ha; [|done]. simpl in Hr.
  destruct (decide (about a = Some i)) as [Hab|Hab].
  - destruct (wt_takers w !! i) as [[k p]|] eqn:Hi.
    + rewrite (Hk k p eq_refl) in Hi |- *.
      destruct (act_self i a w w1 key p (seen (wait_of i) acts w1) (seen (got_of i key) acts w1) Hab Hi Ha) as [Hk' Hy].
      by apply Hy, IH.
    + by destruct (act_absent i a w Hab Hi) as [|Hno]; congruence.
  - destruct (act_other i key a w w1 Hab Ha) as (Hi & -> & ->). rewrite <- Hi. apply IH; [done..|]. by rewrite Hi.
Qed.

Lemma got_op i key a w w' :
  act a w = Some w' -> (forall k q, wt_takers w !! i = Some (k, q) -> k = key) ->
  got_of i key a w `sublist_of` taken (run_ops (op_of a w) (wt_pool w)).1 key.
Proof.
  intros Ha Hk. destruct a as [| | | | | |j| | |]; try apply sublist_nil_l. simpl in Ha |- *.
  case_decide as Hj; [subst j|apply sublist_nil_l]. destruct (wt_takers w !! i) as [[k p]|] eqn:Hi; [|done].
  rewrite (Hk k p eq_refl). simpl. destruct (try_take key (wt_pool w)) as [[x|] pool]; simpl; [|done]. by rewrite decide_True.
Qed.

Lemma key_kept i key a w w' :
  act a w = Some w' -> starts i a = false -> (forall k q, wt_takers w !! i = Some (k, q) -> k = key) ->
  forall k q, wt_takers w' !! i = Some (k, q) -> k = key.
Proof.
  intros Ha Hs Hk. destruct (decide (about a = Some i)) as [Hab|Hab].
  - destruct (wt_takers w !! i) as [[k p]|] eqn:Hi.
    + rewrite (Hk k p eq_refl) in Hi. by apply (act_self i a w w' key p [] []).
    + by destruct (act_absent i a w Hab Hi) as [|Hno]; congruence.
  - destruct (act_other i key a w w' Hab Ha) as (-> & _). exact Hk.
Qed.

Lemma got_taken i key acts w w' :
  runs acts w = Some w' -> existsb (starts i) acts = false -> (forall k q, wt_takers w !! i = Some (k, q) -> k = key) ->
  seen (got_of i key) acts w `sublist_of` taken (run_ops (seen op_of acts w) (wt_pool w)).1 key.
Proof.
  revert w. induction acts as [|a acts IH]; simpl; intros w Hr Hs Hk; [done|].
  apply orb_false_iff in Hs as [Hs Hss]. destruct (act a w) as [w1|] eqn:Ha; [|done]. simpl in Hr.
  rewrite run_ops_app. simpl. unfold taken. rewrite omap_app. apply sublist_app; [by eapply got_op|].
  rewrite <- (act_pool _ _ _ Ha). apply IH; [done..|]. by eapply key_kept.
Qed.

(** C12: [take] does what the sequential pool does. However the steps of pushes, of any
    number of calls and of their wake-ups interleave, the pool ends up as its operations
    make it one after another, each at the moment it has the lock;
    so nothing is lost or handed out twice. A call that has ended has looked at least
    once and has taken exactly what [take_loop] takes on the pools it found at its
    looks, up to the one where it found a connection or the wait that ended in vain;
    what it returns is among the connections the sequential pool hands out. *)
Theorem take_refines key i acts w w'
    (Hrun : runs (ATake i key :: acts) w = Some w') (Honce : existsb (starts i) acts = false)
    (Hdone : wt_takers w' !! i = None) :
  let acts := ATake i key :: acts in
  let '(out, pool) := run_ops (seen op_of acts w) (wt_pool w) in
  wt_pool w' = pool
  /\ idle key (wt_pool w) ++ pushed (seen op_of acts w) key ≡ₚ taken out key ++ idle key pool
  /\ (exists pool0 waits, seen (wait_of i) acts w = Woken pool0 1 :: waits
      /\ seen (got_of i key) acts w = option_list (take_loop key pool0 1 waits).1)
  /\ seen (got_of i key) acts w `sublist_of` taken out key.
Proof.
  intros all. pose proof (runs_pool _ _ _ Hrun) as Hpool. fold all in Hpool.
  pose proof (run_ops_conserve key (seen op_of all w) (wt_pool w)) as Hcons.
  unfold all in *. simpl in Hrun. simpl in Hpool, Hcons |- *.
  destruct (wt_takers w !! i) eqn:Hi; [done|]. simpl in Hrun.
  assert (Hk : forall k q, wt_takers (at_phase i key Starting w) !! i = Some (k, q) -> k = key).
  { intros k q. simpl. rewrite lookup_insert_eq. congruence. }
  pose proof (seen_ok i key acts _ _ Hrun Honce Hdone Hk) as Hy. simpl in Hy. rewrite lookup_insert_eq in Hy.
  pose proof (got_taken i key acts _ _ Hrun Honce Hk) as Hg. simpl in Hg.
  destruct (run_ops _ _) as [out pool]. simpl in *. destruct Hy as [(pool0 & rest & ->) Hgot].
  split; [exact Hpool|]. split; [exact Hcons|]. split; [by exists pool0, rest|exact Hg].
Qed.
End takers.

(** ** [InFlightTracker::wait_zero] *)

(** Where the call of [wait_zero] is: about to register, about to look, waiting, or
    done: drained, or out of time. *)
Inductive DrainPhase := DStarting | DLooking | DAsleep | DDone (drained : bool).

Section drain.
Context `{Notify}.

(** [dr_guards] are the guards alive, and [dr_dropping] those that have left the count
    at zero and have yet to wake the waiters. The call is future 0. *)
Record Drain := {
  dr_count : Z;
  dr_notify : notify;
  dr_guards : nat;
  dr_dropping : nat;
  dr_phase : DrainPhase
}.

Definition new_drain : Drain :=
  {| dr_count := 0; dr_notify := notify_new; dr_guards := 0; dr_dropping := 0; dr_phase := DStarting |}.

Inductive DrainAct := DTrack | DDrop | DNotify | DRegister | DLook | DWake | DTimeout.

#[export] Instance DrainAct_eq_dec : EqDecision DrainAct.
Proof. solve_decision. Defined.

Definition drain_phase (p : DrainPhase) (n : notify) (d : Drain) : Drain :=
  {| dr_count := dr_count d; dr_notify := n; dr_guards := dr_guards d; dr_dropping := dr_dropping d; dr_phase := p |}.

(** A guard is dropped: the count first, and the wake-up after it. *)
Definition drop_count (d : Drain) : Drain :=
  let '(count, wakes) := drop_guard (dr_count d) in
  {| dr_count := count; dr_notify := dr_notify d; dr_guards := pred (dr_guards d);
     dr_dropping := if wakes then S (dr_dropping d) else dr_dropping d; dr_phase := dr_phase d |}.

Definition drain_act (a : DrainAct) (d : Drain) : option Drain :=
  match a, dr_phase d with
  | DTrack, p =>
      if (dr_count d <? u64_max)%Z
      then Some {| dr_count := track (dr_count d); dr_notify := dr_notify d; dr_guards := S (dr_guards d);
                   dr_dropping := dr_dropping d; dr_phase := p |}
      else None
  | DDrop, _ => match dr_guards d with O => None | S _ => Some (drop_count d) end
  | DNotify, p =>
      match dr_dropping d with
      | O => None
      | S k => Some {| dr_count := dr_count d; dr_notify := notify_waiters (dr_notify d); dr_guards := dr_guards d;
                       dr_dropping := k; dr_phase := p |}
      end
  | DRegister, DStarting => Some (drain_phase DLooking (enable 0 (dr_notify d)) d)
  | DLook, DLooking =>
      Some (if (dr_count d =? 0)%Z then drain_phase (DDone true) (forget 0 (dr_notify d)) d
            else drain_phase DAsleep (dr_notify d) d)
  | DWake, DAsleep =>
      if bool_decide (futures (dr_notify d) !! 0 = Some Waiting) then None
      else Some (drain_phase DStarting (receive 0 (dr_notify d)) d)
  | DTimeout, DAsleep => Some (drain_phase (DDone false) (forget 0 (dr_notify d)) d)
  | _, _ => None
  end.

Definition dstep (d d' : Drain) : Prop := exists a, drain_act a d = Some d'.

(** The call's own steps, one after another, until it sleeps or is done. *)
Fixpoint drain_runs (fuel : nat) (d : Drain) : Drain :=
  match fuel with
  | O => d
  | S fuel =>
      match drain_act (match dr_phase d with DStarting => DRegister | DLooking => DLook | _ => DWake end) d with
      | Some d' => drain_runs fuel d'
      | None => d
      end
  end.

Record drain_ok (d : Drain) : Prop := {
  do_count : dr_count d = Z.of_nat (dr_guards d) /\ (Z.of_nat (dr_guards d) <= u64_max)%Z;
  do_future : match dr_phase d with
              | DStarting => futures (dr_notify d) = ∅
              | DLooking | DAsleep => exists f, futures (dr_notify d) = {[0 := f]}
              | DDone _ => True
              end;
  do_permit : match dr_phase d with DDone _ => True | _ => permit (dr_notify d) = false end;
  do_awake : dr_phase d = DAsleep -> futures (dr_notify d) !! 0 = Some Waiting -> 0 < dr_guards d + dr_dropping d
}.

Lemma new_drain_ok : drain_ok new_drain.
Proof. split; simpl; [unfold u64_max; lia|apply futures_new|apply permit_new|done]. Qed.

Lemma drop_count_ok d k : drain_ok d -> dr_guards d = S k -> drain_ok (drop_count d).
Proof.
  intros [[Hc Hb] Hf Hp Ha] Hg. unfold drop_count, drop_guard. split; simpl.
  - rewrite Hc, Hg in *. rewrite wrap64_small by lia. simpl. lia.
  - exact Hf.
  - exact Hp.
  - intros Has Hw. rewrite Hg in *. rewrite Hc. destruct (Z.eqb_spec (Z.of_nat (S k)) 1); simpl; lia.
Qed.

Lemma dstep_ok d d' : drain_ok d -> dstep d d' -> drain_ok d'.
Proof.
  intros Hd [a Ha]. pose proof Hd as [[Hc Hb] Hf Hpm Hw]. destruct a; simpl in Ha.
  - destruct (Z.ltb_spec (dr_count d) u64_max) as [Hlt|]; [|done]. injection Ha as <-. split; simpl; [|done|done|lia].
    unfold track. rewrite wrap64_small by lia. lia.
  - destruct (dr_guards d) eqn:Hg; [done|]. injection Ha as <-. by eapply drop_count_ok.
  - destruct (dr_dropping d) eqn:Hg; [done|]. injection Ha as <-. split; simpl; [done| | |].
    + rewrite futures_notify_waiters. destruct (dr_phase d); [by rewrite Hf, fmap_empty|..|done];
        destruct Hf as [f ->]; exists (make_ready f); by rewrite map_fmap_singleton.
    + by rewrite permit_notify_waiters.
    + intros Hp. rewrite futures_notify_waiters, lookup_fmap. destruct (futures (dr_notify d) !! 0) as [[]|]; by simpl.
  - destruct (dr_phase d) eqn:Hp; try done. injection Ha as <-. split; simpl; [done| |apply permit_enable|done].
    destruct (enable_fresh 0 (dr_notify d)) as (f & _ & ->); rewrite Hf; [by rewrite lookup_empty|by exists f].
  - destruct (dr_phase d) eqn:Hp; try done. injection Ha as <-.
    destruct (Z.eqb_spec (dr_count d) 0); split; simpl; try done. lia.
  - destruct (dr_phase d) eqn:Hp; try done. case_bool_decide; [done|]. injection Ha as <-.
    split; simpl; [done| |by rewrite permit_receive|done].
    destruct Hf as [f Hf]. rewrite futures_receive, Hf. by rewrite delete_singleton_eq.
  - destruct (dr_phase d) eqn:Hp; try done. injection Ha as <-. by split.
Qed.

Lemma drain_reachable d : steps dstep new_drain d -> drain_ok d.
Proof. intros Hs. eapply (steps_invariant dstep drain_ok); [apply dstep_ok|apply new_drain_ok|exact Hs]. Qed.

(** With no guard left, the call needs no one else to end. *)
Lemma drain_ends d : drain_ok d -> dr_guards d = 0 -> dr_dropping d = 0 -> dr_phase d <> DDone false ->
  dr_phase (drain_runs 3 d) = DDone true.
Proof.
  intros [[Hc _] Hf _ Hw] Hg Hdr Hp. destruct d as [count n guards dropping phase]. simpl in *. subst guards dropping count.
  destruct phase as [| | |[]]; simpl in *; try done. case_bool_decide as Hwait; [specialize (Hw eq_refl Hwait); lia|done].
Qed.

(** The graceful drain sees the end of the last connection, and reports nothing
    else: the count is that of the guards alive whatever interleaves, so
    [wait_zero] returns true only at a moment with none; it sleeps only while there is
    a guard left or one being dropped that has yet to wake it; and once there is none,
    it returns true by itself in at most three steps, unless it had timed out. *)
Theorem drain_sees_the_end d (Hreach : steps dstep new_drain d) :
  dr_count d = Z.of_nat (dr_guards d)
  /\ (forall d', dstep d d' -> dr_phase d <> DDone true -> dr_phase d' = DDone true -> dr_guards d = 0)
  /\ (dr_phase d = DAsleep -> futures (dr_notify d) !! 0 = Some Waiting -> 0 < dr_guards d + dr_dropping d)
  /\ (dr_guards d = 0 -> dr_dropping d = 0 -> dr_phase d <> DDone false -> dr_phase (drain_runs 3 d) = DDone true).
Proof.
  pose proof (drain_reachable d Hreach) as Hd. split; [apply Hd|]. split; [|split; [apply Hd|by apply drain_ends]].
  intros d' [a Ha] Hno Hyes. destruct (do_count _ Hd) as [Hc _].
  destruct a; simpl in Ha; repeat case_match; try done; injection Ha as <-; simpl in Hyes; try congruence.
  lia.
Qed.

(** ** The drain ends *)

Fixpoint drain_acts (acts : list DrainAct) (d : Drain) : option Drain :=
  match acts with [] => Some d | a :: acts => d' ← drain_act a d; drain_acts acts d' end.

(** How far the call is from its end, with no one left to wake it; a call that was
    woken looks once more. *)
Definition drain_rank (d : Drain) : nat :=
  let waits := bool_decide (futures (dr_notify d) !! 0 = Some Waiting) in
  match dr_phase d with
  | DDone _ => 0
  | DAsleep => if waits then 1 else 4
  | DLooking => if waits then 2 else 5
  | DStarting => 3
  end.

Definition drain_bound (d : Drain) : nat := 5 * dr_guards d + 4 * dr_dropping d + drain_rank d.

Lemma drain_act_bound a d d' :
  drain_ok d -> a <> DTrack -> drain_act a d = Some d' -> drain_bound d' < drain_bound d.
Proof.
  intros [_ Hf Hp _] Hno Ha. unfold drain_bound, drain_rank. destruct a; simpl in Ha; [done|..].
  - destruct (dr_guards d) eqn:Hg; [done|]. injection Ha as <-. unfold drop_count, drop_guard. simpl. rewrite Hg.
    destruct (dr_count d =? 1)%Z; simpl; lia.
  - destruct (dr_dropping d); [done|]. injection Ha as <-. simpl. destruct (dr_phase d); repeat case_bool_decide; lia.
  - destruct (dr_phase d); try done. injection Ha as <-. simpl.
    rewrite futures_enable, Hp, lookup_insert_eq, bool_decide_true by (rewrite ?Hf; done). lia.
  - destruct (dr_phase d) eqn:Hph; try done. injection Ha as <-. destruct (dr_count d =? 0)%Z; simpl; repeat case_bool_decide; lia.
  - destruct (dr_phase d); try done. case_bool_decide; [done|]. injection Ha as <-. simpl. lia.
  - destruct (dr_phase d); try done. injection Ha as <-. simpl. case_bool_decide; lia.
Qed.

Lemma drain_run_bound acts d d' :
  drain_ok d -> DTrack ∉ acts -> drain_acts acts d = Some d' -> drain_ok d' /\ length acts + drain_bound d' <= drain_bound d.
Proof.
  revert d. induction acts as [|a acts IH]; simpl; intros d Hd Hno Hr; [by injection Hr as <-|].
  apply not_elem_of_cons in Hno as [Ha Hno]. destruct (drain_act a d) as [d1|] eqn:Hact; [simpl in Hr|done].
  destruct (IH d1) as [Hd' Hle]; [by eapply dstep_ok; [|exists a]|done|done|]. split; [done|].
  pose proof (drain_act_bound a d d1 Hd (not_eq_sym Ha) Hact). lia.
Qed.

(** The call fails by its time-out alone. *)
Lemma drain_run_true acts d d' :
  drain_acts acts d = Some d' -> DTimeout ∉ acts -> dr_phase d <> DDone false -> dr_phase d' <> DDone false.
Proof.
  revert d. induction acts as [|a acts IH]; simpl; intros d Hr Hno Hd; [by injection Hr as <-|].
  apply not_elem_of_cons in Hno as [Ha Hno]. destruct (drain_act a d) as [d1|] eqn:Hact; [simpl in Hr|done].
  apply (IH d1); [done..|]. destruct a; try done; simpl in Hact; repeat case_match; simplify_eq/=; congruence.
Qed.

(** A state with nothing left to do but new work and the time-out. *)
Definition at_rest (d : Drain) : Prop := forall a, drain_act a d <> None -> a = DTrack \/ a = DTimeout.

Lemma at_rest_done d : drain_ok d -> at_rest d -> exists drained, dr_phase d = DDone drained.
Proof.
  intros [_ _ _ Hw] Hrest. destruct (dr_phase d) as [| | |b] eqn:Hp; [..|by exists b]; exfalso.
  - destruct (Hrest DRegister); [simpl; by rewrite Hp|done..].
  - destruct (Hrest DLook); [simpl; by rewrite Hp|done..].
  - destruct (dr_guards d) eqn:Hg; [|destruct (Hrest DDrop); [simpl; by rewrite Hg|done..]].
    destruct (dr_dropping d) eqn:Hdr; [|destruct (Hrest DNotify); [simpl; by rewrite Hdr|done..]].
    destruct (decide (futures (dr_notify d) !! 0 = Some Waiting)) as [He|He]; [specialize (Hw eq_refl He); lia|].
    destruct (Hrest DWake); [simpl; rewrite Hp; by rewrite bool_decide_false|done..].
Qed.

(** C8: The drain terminates. Once no new work starts, whatever happens in whatever
    order is at most five steps for each guard left, four for each wake-up due and
    five of the call itself; however it goes, it can only come to rest with the call
    over, the loop of [wait_zero] not being able to miss its last wake-up; and unless
    it timed out it has then reported that all connections are drained. *)
Theorem drain_terminates d acts d' (Hreach : steps dstep new_drain d)
    (Hrun : drain_acts acts d = Some d') (Hnew : DTrack ∉ acts) :
  length acts <= 5 * dr_guards d + 4 * dr_dropping d + 5
  /\ (at_rest d' -> exists drained, dr_phase d' = DDone drained
       /\ (DTimeout ∉ acts -> dr_phase d <> DDone false -> drained = true)).
Proof.
  destruct (drain_run_bound acts d d' (drain_reachable d Hreach) Hnew Hrun) as [Hd' Hle]. split.
  - unfold drain_bound in Hle. assert (drain_rank d <= 5) by (unfold drain_rank; repeat case_match; lia). lia.
  - intros Hrest. destruct (at_rest_done d' Hd' Hrest) as [b Hb]. exists b. split; [done|]. intros Ht Hp.
    pose proof (drain_run_true acts d d' Hrun Ht Hp) as Hno. rewrite Hb in Hno. by destruct b.
Qed.
End drain.

(** ** Witnesses *)

Module Examples.

(** Futures with the stored permit: [notify_one] chooses the first that waits, or
    stores the permit, and enabling a future takes a stored one. *)
Definition choose (f : gmap nat Fut) : option nat :=
  fst <$> find_first (fun kv : nat * Fut => bool_decide (kv.2 = Waiting)) (map_to_list f).

Definition pass (n : gmap nat Fut * bool) : gmap nat Fut * bool :=
  match choose n.1 with Some i => (<[i := Notified]> n.1, n.2) | None => (n.1, true) end.

Lemma choose_spec f :
  match choose f with Some i => f !! i = Some Waiting | None => forall i, f !! i <> Some Waiting end.
Proof.
  unfold choose. destruct (find_first _ (map_to_list f)) as [[i x]|] eqn:Hc; simpl.
  - apply find_first_elem_of in Hc as [Hin Hx%bool_decide_eq_true]. simpl in Hx. subst x. by apply elem_of_map_to_list in Hin.
  - apply find_first_None in Hc. rewrite Forall_forall in Hc. intros i Hi. specialize (Hc (i, Waiting)).
    rewrite elem_of_map_to_list in Hc. specialize (Hc Hi). by rewrite bool_decide_true in Hc.
Qed.

Lemma pass_spec n : passed_on n.1 (pass n).1.
Proof.
  unfold pass. pose proof (choose_spec n.1) as Hc. destruct (choose n.1) as [i|]; [right; by exists i|by left].
Qed.

#[local] Program Instance tokio_notify : Notify := {|
  notify := gmap nat Fut * bool;
  notify_new := (∅, false);
  futures := fst;
  permit := snd;
  enable i n := (<[i := if n.2 then Ready else Waiting]> n.1, false);
  receive i n := (delete i n.1, n.2);
  forget i n := if bool_decide (n.1 !! i = Some Notified) then pass (delete i n.1, n.2) else (delete i n.1, n.2);
  notify_one := pass;
  notify_waiters n := (make_ready <$> n.1, n.2)
|}.
Next Obligation. done. Qed.
Next Obligation. done. Qed.
Next Obligation. by intros i [f b]. Qed.
Next Obligation. done. Qed.
Next Obligation. done. Qed.
Next Obligation. done. Qed.
Next Obligation. intros i [f b]. simpl. case_bool_decide; [exact (pass_spec (delete i f, b))|done]. Qed.
Next Obligation. intros n. apply pass_spec. Qed.
Next Obligation. done. Qed.
Next Obligation. done. Qed.

(** Two calls for node [a]: the second sleeps while the first, woken for a connection,
    has yet to look. *)
Definition run_acts (acts : list (Act (T := nat))) : option (Waits (T := nat)) :=
  foldl (fun (o : option Waits) a => w ← o; act a w) (Some no_waits) acts.

Lemma run_acts_steps acts w w' :
  foldl (fun (o : option (Waits (T := nat))) a => w ← o; act a w) (Some w) acts = Some w' -> steps wstep w w'.
Proof.
  revert w. induction acts as [|a acts IH]; simpl; intros w Hw; [injection Hw as <-; apply steps_refl|].
  destruct (act a w) as [w1|] eqn:Ha; simpl in Hw.
  - eapply steps_trans; [|by apply IH]. eapply steps_step; [apply steps_refl|by exists a].
  - exfalso. clear -Hw. induction acts as [|b acts IH]; simpl in Hw; [done|auto].
Qed.

Definition two_calls : list (Act (T := nat)) :=
  [ATake 1 "a"; ARegister 1; AEnable 1; ALook 1; ATake 2 "a"; ARegister 2; AEnable 2; ALook 2; APush "a" 7].

(** Call 1 is woken for a connection that another takes first; it waits again and has
    the next one. *)
Definition second_time : list (Act (T := nat)) :=
  [ARegister 1; AEnable 1; ALook 1; APush "a" 7; AWakeOne [] [] "a"; ATryTake "a"; AWake 1; ARegister 1; AEnable 1;
   ALook 1; APush "a" 8; AWakeOne [] [] "a"; AWake 1; ARegister 1; AEnable 1; ALook 1; AReturn 1].

Definition no_dummy : Waits (T := nat) := no_waits.
Definition waiting_calls : Waits (T := nat) := default no_dummy (run_acts two_calls).

Lemma take_witness : sleeps "a" 2 waiting_calls /\ idle "a" (wt_pool waiting_calls) = [7]
  /\ exists w', goes_on "a" waiting_calls w'.
Proof.
  assert (Hs : sleeps "a" 2 waiting_calls) by (split; vm_compute; reflexivity).
  split; [exact Hs|]. split; [vm_compute; reflexivity|].
  destruct (take_never_misses "a" 2 waiting_calls) as [_ Hgo];
    [apply (run_acts_steps two_calls no_waits waiting_calls); vm_compute; reflexivity|exact Hs|].
  apply Hgo. vm_compute. discriminate.
Defined.

Lemma refines_witness :
  seen (got_of 1 "a") (ATake 1 "a" :: second_time) no_waits = [8]
  /\ exists pool0 waits, seen (wait_of 1) (ATake 1 "a" :: second_time) no_waits = Woken pool0 1 :: waits
     /\ length waits = 2 /\ (take_loop "a" pool0 1 waits).1 = Some 8.
Proof.
  split; [vm_compute; reflexivity|].
  assert (He : (fun w => wt_takers w !! 1) <$> runs (ATake 1 "a" :: second_time) no_waits = Some None)
    by (vm_compute; reflexivity).
  apply fmap_Some in He as (w' & Hrun & Hdone%eq_sym).
  pose proof (take_refines "a" 1 second_time no_waits w' Hrun eq_refl Hdone) as Hr. cbv zeta in Hr.
  destruct (run_ops _ _) as [out pool]. destruct Hr as (_ & _ & (pool0 & waits & Hw & Hg) & _). exists pool0, waits.
  split; [exact Hw|]. split; [apply (f_equal length) in Hw; vm_compute in Hw; injection Hw as Hw; exact (eq_sym Hw)|].
  assert (Hgot : [8] = option_list (take_loop "a" pool0 1 waits).1) by (rewrite <- Hg; vm_compute; reflexivity).
  destruct (take_loop "a" pool0 1 waits) as [[x|] p]; simpl in Hgot |- *; congruence.
Defined.

(** One guard is taken, the drain starts and sleeps, and the guard is dropped. *)
Definition d1 : Drain := default new_drain (drain_act DTrack new_drain).
Definition d2 : Drain := default new_drain (drain_act DRegister d1).
Definition d3 : Drain := default new_drain (drain_act DLook d2).
Definition d4 : Drain := default new_drain (drain_act DDrop d3).
Definition d5 : Drain := default new_drain (drain_act DNotify d4).

Lemma drain_witness : dr_phase d3 = DAsleep /\ dr_phase (drain_runs 3 d5) = DDone true.
Proof.
  split; [vm_compute; reflexivity|].
  destruct (drain_sees_the_end d5) as (_ & _ & _ & Hend).
  { apply (steps_step _ _ d4); [apply (steps_step _ _ d3); [apply (steps_step _ _ d2); [apply (steps_step _ _ d1);
      [apply (steps_step _ _ new_drain); [apply steps_refl|]|]|]|]|];
    [exists DTrack|exists DRegister|exists DLook|exists DDrop|exists DNotify]; vm_compute; reflexivity. }
  apply Hend; [vm_compute; reflexivity|vm_compute; reflexivity|vm_compute; discriminate].
Defined.

(** From there on: the guard is dropped, and the call is woken and looks. *)
Definition last_turn : list DrainAct := [DDrop; DNotify; DWake; DRegister; DLook].
Definition d_end : Drain := default new_drain (drain_acts last_turn d3).

Lemma terminates_witness : dr_phase d3 = DAsleep /\ dr_phase d_end = DDone true.
Proof.
  split; [vm_compute; reflexivity|].
  destruct (drain_terminates d3 last_turn d_end) as [_ Hend].
  { apply (steps_step _ _ d2); [apply (steps_step _ _ d1); [apply (steps_step _ _ new_drain); [apply steps_refl|]|]|];
      [exists DTrack|exists DRegister|exists DLook]; vm_compute; reflexivity. }
  { vm_compute. reflexivity. }
  { apply (bool_decide_unpack _). vm_compute. exact I. }
  destruct Hend as (b & Hb & Ht).
  { intros a Ha. destruct a; auto; exfalso; apply Ha; vm_compute; reflexivity. }
  rewrite Hb, Ht; [reflexivity|apply (bool_decide_unpack _); vm_compute; exact I|vm_compute; discriminate].
Defined.

End Examples.
