(* ===== verification/Balancer.v ===== *)
(** * Backend selection ([src/src/subscribe/balancer.rs])

    Smooth weighted round-robin, passive outlier ejection and per-backend
    connection limits. The mutex makes each operation atomic, so an operation
    is a function of the state under the lock; times are nanoseconds on the
    process's clock and durations nanoseconds. *)

From S2P Require Import Prelude NetAddr Dynamic Config.

Local Open Scope Z_scope.

(** ** Data *)

Definition EJECT_AFTER_FAILURES : Z := 3.
Definition second : Z := 1000000000.
Definition BASE_EJECTION : Z := 10 * second.
Definition MAX_EJECTION : Z := 120 * second.

(** [i64] arithmetic of a release build. *)
Definition wrap_i64 (z : Z) : Z := (z + 2 ^ 63) mod 2 ^ 64 - 2 ^ 63.

Record Backend := {
  b_node : NodeInfo;
  b_weight : Z;
  b_max_connections : option Z;
  b_request_timeout : option Z;
  b_labels : gmap string string
}.

Definition b_id (b : Backend) : string := ni_id (b_node b).

#[export] Instance Backend_inhabited : Inhabited Backend :=
  populate {| b_node := {| ni_id := ""; ni_addr := ""; ni_relay := None; ni_last_seen := None;
                           ni_health := default_health |};
              b_weight := 0; b_max_connections := None; b_request_timeout := None; b_labels := ∅ |}.

(** A [Slot] is the node id it holds a connection of. *)
Inductive Pick :=
| Chosen (index : nat) (slot : string)
| AllTried
| AtCapacity.

Record OutlierState := {
  consecutive_failures : Z;
  ejections : Z;
  ejected_until : option Z
}.

Definition default_outlier : OutlierState :=
  {| consecutive_failures := 0; ejections := 0; ejected_until := None |}.

Definition is_ejected (o : OutlierState) (now : Z) : bool :=
  match ejected_until o with Some until => now <? until | None => false end.

Record Inner := {
  current : gmap string Z;
  outliers : gmap string OutlierState;
  active : gmap string Z
}.

Definition default_inner : Inner := {| current := ∅; outliers := ∅; active := ∅ |}.

(** ** Operations *)

(** The indices of [set] satisfying [keep], or all of them if none do. *)
Definition fail_open (set : list nat) (keep : nat -> bool) : list nat :=
  match retain keep set with [] => set | kept => kept end.

Definition weight_of (candidates : list Backend) (i : nat) : Z :=
  Z.max (b_weight (candidates !!! i)) 1.

(** The scan over the eligible nodes: each gains its weight, and the first with
    the highest running weight is kept. *)
Fixpoint scan (candidates : list Backend) (eligible : list nat) (cur : gmap string Z)
    (best : option (nat * Z)) : gmap string Z * option (nat * Z) :=
  match eligible with
  | [] => (cur, best)
  | i :: eligible =>
      let id := b_id (candidates !!! i) in
      let c := wrap_i64 (default 0 (cur !! id) + weight_of candidates i) in
      let best := match best with
                  | None => Some (i, c)
                  | Some (_, b) => if b <? c then Some (i, c) else best
                  end in
      scan candidates eligible (<[id := c]> cur) best
  end.

Definition untried_of (candidates : list Backend) (tried : list string) : list nat :=
  retain (fun i => negb (any (str_eqb (b_id (candidates !!! i))) tried)) (seq 0 (length candidates)).

(** Under its connection limit. *)
Definition is_open (active : gmap string Z) (b : Backend) : bool :=
  match b_max_connections b with
  | None => true
  | Some max => default 0 (active !! b_id b) <? max
  end.

Definition node_ejected (outliers : gmap string OutlierState) (now : Z) (b : Backend) : bool :=
  match outliers !! b_id b with Some o => is_ejected o now | None => false end.

Definition open_of (candidates : list Backend) (tried : list string) (inner : Inner) : list nat :=
  retain (fun i => is_open (active inner) (candidates !!! i)) (untried_of candidates tried).

Definition eligible_of (candidates : list Backend) (now : Z) (inner : Inner) (open : list nat) : list nat :=
  let undrained := fail_open open (fun i => 0 <? b_weight (candidates !!! i)) in
  fail_open undrained (fun i => negb (node_ejected (outliers inner) now (candidates !!! i))).

Definition pick (candidates : list Backend) (tried : list string) (now : Z) (inner : Inner)
    : Pick * Inner :=
  let untried := untried_of candidates tried in
  if bool_decide (untried = []) then (AllTried, inner)
  else
    let open := open_of candidates tried inner in
    if bool_decide (open = []) then (AtCapacity, inner)
    else
      let eligible := eligible_of candidates now inner open in
      let total := foldl (fun acc i => wrap_i64 (acc + weight_of candidates i)) 0 eligible in
      let '(cur, best) := scan candidates eligible (current inner) None in
      match best with
      | None => (AtCapacity, inner) (* [expect]: the eligible set is not empty *)
      | Some (chosen, _) =>
          let id := b_id (candidates !!! chosen) in
          (Chosen chosen id,
           {| current := <[id := wrap_i64 (default 0 (cur !! id) - total)]> cur;
              outliers := outliers inner;
              active := <[id := wrap32 (default 0 (active inner !! id) + 1)]> (active inner) |})
      end.

(** [impl Drop for Slot]. *)
Definition drop_slot (id : string) (inner : Inner) : Inner :=
  match active inner !! id with
  | None => inner
  | Some count =>
      let count := saturating_sub count 1 in
      {| current := current inner; outliers := outliers inner;
         active := if count =? 0 then delete id (active inner) else <[id := count]> (active inner) |}
  end.

Definition retain_nodes (all_ : list Backend) (inner : Inner) : Inner :=
  let keep {V} (m : gmap string V) : gmap string V :=
    filter (fun kv => any (fun b => str_eqb (b_id b) kv.1) all_ = true) m in
  {| current := keep (current inner); outliers := keep (outliers inner); active := active inner |}.

Definition record_success (id : string) (inner : Inner) : Inner :=
  match outliers inner !! id with
  | None => inner
  | Some _ => {| current := current inner; outliers := <[id := default_outlier]> (outliers inner);
                 active := active inner |}
  end.

(** [record_failure] on one node's entry. *)
Definition outlier_failure (state : OutlierState) (now : Z) : option Z * OutlierState :=
  if is_ejected state now then (None, state)
  else
    let failures := wrap32 (consecutive_failures state + 1) in
    if failures <? EJECT_AFTER_FAILURES then
      (None, {| consecutive_failures := failures; ejections := ejections state;
                ejected_until := ejected_until state |})
    else
      let n := wrap32 (ejections state + 1) in
      let factor := Z.shiftl 1 (Z.min (wrap32 (n - 1)) 16) in
      let duration := Z.min (BASE_EJECTION * factor) MAX_EJECTION in
      (Some duration, {| consecutive_failures := 0; ejections := n;
                         ejected_until := Some (now + duration) |}).

Definition record_failure (id : string) (now : Z) (inner : Inner) : option Z * Inner :=
  let '(d, state) := outlier_failure (default default_outlier (outliers inner !! id)) now in
  (d, {| current := current inner; outliers := <[id := state]> (outliers inner);
         active := active inner |}).

(** ** What a pick chooses among *)

Lemma elem_of_fail_open set keep i :
  i ∈ fail_open set keep <->
  i ∈ set /\ (keep i = true \/ forall j, j ∈ set -> keep j = false).
Proof.
  unfold fail_open. destruct (retain keep set) as [|k ks] eqn:Hr.
  - apply retain_nil_inv in Hr. rewrite Forall_forall in Hr. naive_solver.
  - rewrite <- Hr, elem_of_retain. split; [naive_solver|]. intros [Hi [?|Hn]]; [done|].
    assert (Hk : k ∈ retain keep set) by (rewrite Hr; apply elem_of_cons; by left).
    apply elem_of_retain in Hk as [Hk Hkeep]. by rewrite (Hn k Hk) in Hkeep.
Qed.

Lemma fail_open_nonempty set keep : set <> [] -> fail_open set keep <> [].
Proof. unfold fail_open. by destruct (retain keep set). Qed.

Lemma elem_of_untried cs tried i :
  i ∈ untried_of cs tried <-> (i < length cs)%nat /\ (b_id (cs !!! i) ∉ tried).
Proof.
  unfold untried_of. rewrite elem_of_retain, elem_of_seq, negb_true_iff, any_false, Forall_forall.
  split.
  - intros [[_ Hi] Hall]. split; [done|]. intros Hin. specialize (Hall _ Hin).
    by rewrite str_eqb_refl in Hall.
  - intros [Hi Hn]. split; [lia|]. intros t Ht. apply str_eqb_false. by intros <-.
Qed.

Lemma elem_of_open cs tried inner i :
  i ∈ open_of cs tried inner <->
  i ∈ untried_of cs tried /\ is_open (active inner) (cs !!! i) = true.
Proof. unfold open_of. by rewrite elem_of_retain. Qed.

Definition undrained_of (cs : list Backend) (open : list nat) : list nat :=
  fail_open open (fun i => 0 <? b_weight (cs !!! i)).

Lemma elem_of_eligible cs now inner open i :
  i ∈ eligible_of cs now inner open <->
  i ∈ undrained_of cs open /\
  (node_ejected (outliers inner) now (cs !!! i) = false \/
   forall j, j ∈ undrained_of cs open -> node_ejected (outliers inner) now (cs !!! j) = true).
Proof.
  unfold eligible_of. rewrite elem_of_fail_open, negb_true_iff. setoid_rewrite negb_false_iff. done.
Qed.

Lemma scan_best cs eligible cur best :
  (best <> None \/ eligible <> []) ->
  exists i c, (scan cs eligible cur best).2 = Some (i, c)
    /\ (i ∈ eligible \/ exists b, best = Some (i, b)).
Proof.
  revert cur best. induction eligible as [|j js IH]; intros cur best Hne; simpl.
  - destruct best as [[i c]|]; [|by destruct Hne]. exists i, c. split; [done|]. right. by exists c.
  - set (c := wrap_i64 _).
    destruct (IH (<[b_id (cs !!! j) := c]> cur)
      (match best with None => Some (j, c) | Some (_, b) => if b <? c then Some (j, c) else best end))
      as (i & c' & Hs & Hi).
    { left. destruct best as [[]|]; [by case_match|done]. }
    exists i, c'. split; [done|]. rewrite elem_of_cons. destruct Hi as [?|[b Hb]]; [by left; right|].
    destruct best as [[k bk]|]; [case_match|]; simplify_eq; eauto.
Qed.

(** A pick with somewhere to go chooses an eligible node and reserves a slot on it. *)
Lemma pick_chosen cs tried now inner :
  untried_of cs tried <> [] -> open_of cs tried inner <> [] ->
  exists i inner', pick cs tried now inner = (Chosen i (b_id (cs !!! i)), inner')
    /\ i ∈ eligible_of cs now inner (open_of cs tried inner)
    /\ active inner' = <[b_id (cs !!! i) :=
         wrap32 (default 0 (active inner !! b_id (cs !!! i)) + 1)]> (active inner)
    /\ outliers inner' = outliers inner.
Proof.
  intros Hu Ho. unfold pick. rewrite !bool_decide_false by done.
  set (eligible := eligible_of cs now inner _).
  assert (He : eligible <> []) by by apply fail_open_nonempty, fail_open_nonempty.
  destruct (scan_best cs eligible (current inner) None (or_intror He)) as (i & c & Hs & Hi).
  destruct (scan cs eligible (current inner) None) as [cur best]. simpl in Hs. subst best.
  exists i. eexists. split; [done|]. split; [|done]. by destruct Hi as [?|[]].
Qed.

(** ** Outlier ejection *)

Definition outlier_ok (o : OutlierState) : Prop :=
  0 <= consecutive_failures o < EJECT_AFTER_FAILURES /\ 0 <= ejections o <= u32_max.

Lemma outlier_failure_ok o now :
  outlier_ok o -> outlier_ok (outlier_failure o now).2.
Proof.
  unfold outlier_ok, outlier_failure, EJECT_AFTER_FAILURES. intros [Hc He].
  destruct (is_ejected o now); simpl; [done|].
  rewrite (wrap32_small (consecutive_failures o + 1)) by (unfold u32_max; lia).
  case_match; simpl; bool_hyps; [lia|]. split; [lia|apply wrap32_range].
Qed.

(** [n] ejections since the last success last [10 s * 2^(n-1)], at most two minutes. *)
Definition backoff (n : Z) : Z := Z.min (BASE_EJECTION * 2 ^ Z.min (n - 1) 16) MAX_EJECTION.

Lemma backoff_range n : 1 <= n -> BASE_EJECTION <= backoff n <= MAX_EJECTION.
Proof.
  intros Hn. unfold backoff, BASE_EJECTION, MAX_EJECTION, second.
  assert (1 <= 2 ^ Z.min (n - 1) 16).
  { change 1 with (2 ^ 0) at 1. apply Z.pow_le_mono_r; lia. }
  lia.
Qed.

Lemma outlier_failure_spec o now :
  outlier_ok o -> ejections o < u32_max ->
  outlier_failure o now =
    if is_ejected o now then (None, o)
    else if consecutive_failures o + 1 <? EJECT_AFTER_FAILURES
    then (None, {| consecutive_failures := consecutive_failures o + 1; ejections := ejections o;
                   ejected_until := ejected_until o |})
    else (Some (backoff (ejections o + 1)),
          {| consecutive_failures := 0; ejections := ejections o + 1;
             ejected_until := Some (now + backoff (ejections o + 1)) |}).
Proof.
  intros [Hc He] Hmax. unfold outlier_failure, EJECT_AFTER_FAILURES in *.
  rewrite (wrap32_small (consecutive_failures o + 1)) by (unfold u32_max; lia).
  rewrite (wrap32_small (ejections o + 1)) by lia.
  replace (ejections o + 1 - 1) with (ejections o) by lia. rewrite wrap32_small by lia.
  unfold backoff. replace (ejections o + 1 - 1) with (ejections o) by lia.
  rewrite Z.shiftl_mul_pow2, Z.mul_1_l by lia. done.
Qed.

(** ** Slots: the balancer under interleaved users

    A world is the balancer's state and the node ids of the slots still held.
    Users pick, drop slots and report outcomes in any order. [limit] is each
    node's configured limit; a slot belongs to a live connection or request,
    so fewer than [2^32] are held at once. *)

Inductive bstep (limit : string -> option Z) : Inner * list string -> Inner * list string -> Prop :=
| BPick inner out cs tried now i id inner' :
    Forall (fun b => b_max_connections b = limit (b_id b)) cs ->
    Z.of_nat (length out) < u32_max ->
    pick cs tried now inner = (Chosen i id, inner') ->
    bstep limit (inner, out) (inner', id :: out)
| BPickNone inner out cs tried now p inner' :
    pick cs tried now inner = (p, inner') -> p = AllTried \/ p = AtCapacity ->
    bstep limit (inner, out) (inner', out)
| BDrop inner out1 id out2 :
    bstep limit (inner, out1 ++ id :: out2) (drop_slot id inner, out1 ++ out2)
| BRetain inner out cs : bstep limit (inner, out) (retain_nodes cs inner, out)
| BSuccess inner out id : bstep limit (inner, out) (record_success id inner, out)
| BFailure inner out id now : bstep limit (inner, out) ((record_failure id now inner).2, out).

Definition held (id : string) (out : list string) : Z :=
  Z.of_nat (length (retain (str_eqb id) out)).

(** The [active] map counts the held slots, and lists only nodes with any. *)
Definition slots_ok (w : Inner * list string) : Prop :=
  forall id, active w.1 !! id = if held id w.2 =? 0 then None else Some (held id w.2).

Definition under_limit (limit : string -> option Z) (w : Inner * list string) : Prop :=
  forall id max, limit id = Some max -> 0 <= max -> held id w.2 <= max.

Lemma held_cons id id' out :
  held id (id' :: out) = held id out + (if decide (id = id') then 1 else 0).
Proof.
  unfold held. simpl. unfold str_eqb. case_bool_decide; case_decide; simplify_eq; simpl; lia.
Qed.

Lemma held_app id out1 out2 : held id (out1 ++ out2) = held id out1 + held id out2.
Proof. unfold held. rewrite retain_app, length_app. lia. Qed.

Lemma held_nonneg id out : 0 <= held id out.
Proof. unfold held. lia. Qed.

Lemma held_le_length id out : held id out <= Z.of_nat (length out).
Proof. unfold held. pose proof (retain_length (str_eqb id) out). lia. Qed.

Lemma slots_ok_default id w : slots_ok w -> default 0 (active w.1 !! id) = held id w.2.
Proof.
  intros Hs. rewrite (Hs id). destruct (Z.eqb_spec (held id w.2) 0) as [->|]; done.
Qed.

Lemma pick_not_chosen cs tried now inner p inner' :
  pick cs tried now inner = (p, inner') -> p = AllTried \/ p = AtCapacity -> inner' = inner.
Proof.
  intros Hp Hor. destruct (decide (untried_of cs tried = [])) as [Hu|Hu].
  - unfold pick in Hp. rewrite bool_decide_true in Hp by done. by simplify_eq.
  - destruct (decide (open_of cs tried inner = [])) as [Ho|Ho].
    + unfold pick in Hp. rewrite bool_decide_false, bool_decide_true in Hp by done. by simplify_eq.
    + destruct (pick_chosen cs tried now inner Hu Ho) as (i & inner1 & Hp' & _).
      rewrite Hp in Hp'. by destruct Hor; simplify_eq.
Qed.

Lemma pick_chosen_inv cs tried now inner i id inner' :
  pick cs tried now inner = (Chosen i id, inner') ->
  id = b_id (cs !!! i) /\ i ∈ eligible_of cs now inner (open_of cs tried inner)
  /\ i ∈ open_of cs tried inner
  /\ active inner' = <[id := wrap32 (default 0 (active inner !! id) + 1)]> (active inner).
Proof.
  intros Hp. destruct (decide (untried_of cs tried = [])) as [Hu|Hu].
  { unfold pick in Hp. by rewrite bool_decide_true in Hp. }
  destruct (decide (open_of cs tried inner = [])) as [Ho|Ho].
  { unfold pick in Hp. by rewrite bool_decide_false, bool_decide_true in Hp. }
  destruct (pick_chosen cs tried now inner Hu Ho) as (i' & inner1 & Hp' & Hi & Ha & _).
  rewrite Hp in Hp'. simplify_eq. split; [done|]. split; [done|]. split; [|done].
  apply elem_of_eligible in Hi as [Hi _]. by apply elem_of_fail_open in Hi as [Hi _].
Qed.

Lemma lookup_total_elem {A} `{Inhabited A} (l : list A) i : (i < length l)%nat -> l !!! i ∈ l.
Proof. intros Hi. apply list_elem_of_lookup. exists i. by apply list_lookup_lookup_total_lt. Qed.

Lemma bstep_ok limit w w' :
  slots_ok w -> under_limit limit w -> bstep limit w w' -> slots_ok w' /\ under_limit limit w'.
Proof.
  intros Hs Hl Hstep. destruct Hstep as [inner out cs tried now i id inner' Hmax Hlen Hp
    |inner out cs tried now p inner' Hp Hor|inner out1 id out2| | |].
  - apply pick_chosen_inv in Hp as (Hid & _ & Ho & Ha).
    pose proof (slots_ok_default id _ Hs) as Hd. simpl in Hd.
    pose proof (held_le_length id out). pose proof (held_nonneg id out).
    rewrite Hd, wrap32_small in Ha by lia.
    apply elem_of_open in Ho as [[Hi _]%elem_of_untried Hopen]. split.
    + intros id'. simpl. rewrite Ha, held_cons. case_decide as Heq; simplify_eq.
      * rewrite lookup_insert_eq. by rewrite (proj2 (Z.eqb_neq _ 0)) by lia.
      * rewrite lookup_insert_ne, Z.add_0_r by done. apply Hs.
    + intros id' max Hlim Hm. simpl. rewrite held_cons. specialize (Hl id' max Hlim Hm). simpl in Hl.
      case_decide as Heq; [|lia]. subst id' id. unfold is_open in Hopen.
      rewrite Forall_forall in Hmax. rewrite (Hmax _ (lookup_total_elem cs i Hi)), Hlim in Hopen.
      bool_hyps. simpl in *. lia.
  - by rewrite (pick_not_chosen _ _ _ _ _ _ Hp Hor).
  - assert (Hheld : forall x, held x (out1 ++ id :: out2) = held x (out1 ++ out2) + (if decide (x = id) then 1 else 0)).
    { intros x. rewrite !held_app, held_cons. lia. }
    assert (Hsub : saturating_sub (held id (out1 ++ out2) + 1) 1 = held id (out1 ++ out2)).
    { pose proof (held_nonneg id (out1 ++ out2)). unfold saturating_sub. lia. }
    split.
    + intros x. unfold drop_slot. pose proof (Hs id) as Hid. pose proof (Hs x) as Hx. simpl in *.
      rewrite Hheld in Hid, Hx. rewrite decide_True in Hid by done.
      pose proof (held_nonneg id (out1 ++ out2)).
      rewrite (proj2 (Z.eqb_neq _ 0)) in Hid by lia. rewrite Hid, Hsub.
      case_decide as Heq; subst; simpl.
      * destruct (Z.eqb_spec (held id (out1 ++ out2)) 0); [by rewrite lookup_delete_eq|by rewrite lookup_insert_eq].
      * rewrite Z.add_0_r in Hx. destruct (held id (out1 ++ out2) =? 0);
          [by rewrite lookup_delete_ne|by rewrite lookup_insert_ne].
    + intros x max Hlim Hm. specialize (Hl x max Hlim Hm). simpl in *. rewrite Hheld in Hl.
      case_decide; lia.
  - done.
  - unfold record_success. by destruct (outliers inner !! id).
  - unfold record_failure. by destruct (outlier_failure _ now).
Qed.

(** ** Smooth weighted round-robin over a steady set

    Every candidate is eligible throughout: untried, unlimited, undrained and
    not ejected. [cv] is a candidate's running weight. *)

Definition total_weight (cs : list Backend) : Z := sumZ (weight_of cs) (seq 0 (length cs)).

Definition cv (cs : list Backend) (inner : Inner) (i : nat) : Z :=
  default 0 (current inner !! b_id (cs !!! i)).

Lemma wrap_i64_small z : - 2 ^ 62 <= z <= 2 ^ 62 -> wrap_i64 z = z.
Proof.
  intros Hz. unfold wrap_i64. change (2 ^ 62) with 4611686018427387904 in Hz.
  change (2 ^ 63) with 9223372036854775808. change (2 ^ 64) with 18446744073709551616.
  rewrite Z.mod_small by lia. lia.
Qed.

Lemma weight_of_pos cs i : 1 <= weight_of cs i.
Proof. unfold weight_of. lia. Qed.

Lemma foldl_total cs l acc :
  0 <= acc -> acc + sumZ (weight_of cs) l <= 2 ^ 62 ->
  foldl (fun acc i => wrap_i64 (acc + weight_of cs i)) acc l = acc + sumZ (weight_of cs) l.
Proof.
  revert acc. induction l as [|i l IH]; simpl; intros acc Ha Hb; [lia|].
  pose proof (weight_of_pos cs i).
  assert (0 <= sumZ (weight_of cs) l) by (apply sumZ_nonneg; intros j _; pose proof (weight_of_pos cs j); lia).
  rewrite wrap_i64_small by lia. rewrite IH; lia.
Qed.

(** The scan, when no sum wraps: every node gains its weight and the result is
    a maximum. *)
Lemma scan_spec cs l cur best :
  NoDup ((fun i => b_id (cs !!! i)) <$> l) ->
  (forall i, i ∈ l -> - 2 ^ 62 <= default 0 (cur !! b_id (cs !!! i)) + weight_of cs i <= 2 ^ 62) ->
  let new i := default 0 (cur !! b_id (cs !!! i)) + weight_of cs i in
  let '(cur', best') := scan cs l cur best in
  (forall i, i ∈ l -> cur' !! b_id (cs !!! i) = Some (new i))
  /\ (forall id, id ∉ ((fun i => b_id (cs !!! i)) <$> l) -> cur' !! id = cur !! id)
  /\ (forall k b, best = Some (k, b) -> exists k' b', best' = Some (k', b') /\ b <= b')
  /\ (forall k b, best' = Some (k, b) -> (k ∈ l /\ b = new k) \/ best = Some (k, b))
  /\ (forall i, i ∈ l -> exists k b, best' = Some (k, b) /\ new i <= b).
Proof.
  cbv zeta. revert cur best. induction l as [|j l IH]; intros cur best Hnd Hb; simpl.
  { split; [by intros i ?%not_elem_of_nil|]. split; [done|]. split; [eauto using Z.le_refl|].
    split; [eauto|]. by intros i ?%not_elem_of_nil. }
  rewrite fmap_cons, NoDup_cons in Hnd. destruct Hnd as [Hj Hnd].
  rewrite wrap_i64_small by (apply Hb, elem_of_cons; by left).
  set (c := default 0 (cur !! b_id (cs !!! j)) + weight_of cs j).
  set (best1 := match best with None => Some (j, c) | Some (_, b) => if b <? c then Some (j, c) else best end).
  set (cur1 := <[b_id (cs !!! j) := c]> cur).
  assert (Hsame : forall i, i ∈ l -> cur1 !! b_id (cs !!! i) = cur !! b_id (cs !!! i)).
  { intros i Hi. unfold cur1. rewrite lookup_insert_ne; [done|]. intros Heq. apply Hj.
    rewrite Heq. apply list_elem_of_fmap. eauto. }
  specialize (IH cur1 best1 Hnd).
  destruct (scan cs l cur1 best1) as [cur' best'].
  destruct IH as (H1 & H2 & H3 & H4 & H5).
  { intros i Hi. rewrite Hsame by done. apply Hb, elem_of_cons. by right. }
  assert (Hbest1 : exists k b, best1 = Some (k, b) /\ c <= b
    /\ (best1 = Some (j, c) \/ best1 = best) /\ forall k' b', best = Some (k', b') -> b' <= b).
  { unfold best1. destruct best as [[k b]|]; [destruct (Z.ltb_spec b c)|].
    - exists j, c. split; [done|]. split; [lia|]. split; [by left|]. intros ? ? [= <- <-]. lia.
    - exists k, b. split; [done|]. split; [lia|]. split; [by right|]. intros ? ? [= <- <-]. lia.
    - exists j, c. split; [done|]. split; [lia|]. split; [by left|done]. }
  destruct Hbest1 as (k1 & b1 & Hb1 & Hc & Hor & Hold).
  split; [|split; [|split; [|split]]].
  - intros i [->|Hi]%elem_of_cons; [|by rewrite H1, Hsame].
    rewrite H2; [by unfold cur1; rewrite lookup_insert_eq|done].
  - intros id Hid. apply not_elem_of_cons in Hid as [Hne Hid].
    rewrite H2 by done. unfold cur1. by rewrite lookup_insert_ne.
  - intros k b Hkb. destruct (H3 k1 b1 Hb1) as (k' & b' & Hb' & Hle).
    exists k', b'. split; [done|]. specialize (Hold k b Hkb). lia.
  - intros k b Hkb. destruct (H4 k b Hkb) as [[Hk ->]|Hk].
    + left. split; [apply elem_of_cons; by right|]. by rewrite Hsame.
    + destruct Hor as [Hj1|Hj1]; rewrite Hj1 in Hk; [|by right].
      simplify_eq. left. split; [apply elem_of_cons; by left|done].
  - intros i [->|Hi]%elem_of_cons.
    + destruct (H3 k1 b1 Hb1) as (k' & b' & Hb' & Hle). exists k', b'. split; [done|]. fold c. lia.
    + destruct (H5 i Hi) as (k & b & Hkb & Hle). exists k, b. split; [done|]. by rewrite Hsame in Hle.
Qed.

Record steady (cs : list Backend) (inner : Inner) : Prop := {
  steady_ids : NoDup (b_id <$> cs);
  steady_nonempty : cs <> [];
  steady_weight : Forall (fun b => 0 < b_weight b) cs;
  steady_unlimited : Forall (fun b => b_max_connections b = None) cs;
  steady_outliers : outliers inner = ∅;
  steady_bound : (Z.of_nat (length cs) + 1) * total_weight cs <= 2 ^ 62
}.

Definition indices (cs : list Backend) : list nat := seq 0 (length cs).

Lemma indices_lookup cs i : i ∈ indices cs <-> (i < length cs)%nat.
Proof. unfold indices. rewrite elem_of_seq. lia. Qed.

Lemma length_indices cs : length (indices cs) = length cs.
Proof. apply length_seq. Qed.

Lemma indices_ids cs : (fun i => b_id (cs !!! i)) <$> indices cs = b_id <$> cs.
Proof.
  apply list_eq. intros i. unfold indices. rewrite !list_lookup_fmap.
  destruct (decide (i < length cs)%nat) as [Hi|Hi].
  - rewrite lookup_seq_lt by done. simpl. by rewrite (list_lookup_lookup_total_lt cs i Hi).
  - rewrite lookup_seq_ge by lia. rewrite (lookup_ge_None_2 cs) by lia. done.
Qed.

Lemma fail_open_all set keep : Forall (fun i => keep i = true) set -> fail_open set keep = set.
Proof. intros Hall. unfold fail_open. rewrite retain_all by done. by destruct set. Qed.

Lemma steady_eligible cs now inner :
  steady cs inner ->
  untried_of cs [] = indices cs /\ open_of cs [] inner = indices cs
  /\ eligible_of cs now inner (open_of cs [] inner) = indices cs.
Proof.
  intros Hst. destruct Hst as [_ _ Hw Hm Ho _]. rewrite !Forall_forall in Hw, Hm.
  assert (Hu : untried_of cs [] = indices cs) by (apply retain_all, Forall_forall; done).
  assert (Hop : open_of cs [] inner = indices cs).
  { unfold open_of. rewrite Hu. apply retain_all, Forall_forall. intros i Hi%indices_lookup.
    unfold is_open. by rewrite (Hm _ (lookup_total_elem cs i Hi)). }
  split; [done|]. split; [done|]. rewrite Hop. unfold eligible_of. rewrite (fail_open_all (indices cs)).
  - apply fail_open_all, Forall_forall. intros i _. unfold node_ejected. by rewrite Ho, lookup_empty.
  - apply Forall_forall. intros i Hi%indices_lookup. apply Z.ltb_lt, Hw, lookup_total_elem, Hi.
Qed.

(** After [t] picks of which [n j] chose [j]. *)
Record swrr (cs : list Backend) (inner : Inner) (t : Z) (n : nat -> Z) : Prop := {
  swrr_cv : forall j, j ∈ indices cs -> cv cs inner j = t * weight_of cs j - total_weight cs * n j;
  swrr_low : forall j, j ∈ indices cs -> 1 - total_weight cs <= cv cs inner j;
  swrr_sum : sumZ n (indices cs) = t
}.

Lemma swrr_zero_sum cs inner t n :
  swrr cs inner t n -> sumZ (cv cs inner) (indices cs) = 0.
Proof.
  intros [Hcv _ Hs]. rewrite (sumZ_ext _ (fun j => t * weight_of cs j + (- total_weight cs) * n j)).
  - rewrite sumZ_add, !sumZ_scale, Hs. change (sumZ (weight_of cs) (indices cs)) with (total_weight cs). lia.
  - intros j Hj. rewrite Hcv by done. lia.
Qed.

Lemma sumZ_split f (l : list nat) j :
  j ∈ l -> (forall i, i ∈ l -> 0 <= f i) -> f j <= sumZ f l.
Proof.
  induction l as [|i l IH]; intros Hj Hf; [by apply not_elem_of_nil in Hj|]. simpl.
  assert (0 <= f i) by (apply Hf, elem_of_cons; by left).
  assert (Hl : forall k, k ∈ l -> 0 <= f k) by (intros; apply Hf, elem_of_cons; by right).
  pose proof (sumZ_nonneg f l Hl). apply elem_of_cons in Hj as [->|Hj]; [lia|].
  specialize (IH Hj Hl). lia.
Qed.

Lemma sumZ_const (c : Z) (l : list nat) : sumZ (fun _ => c) l = Z.of_nat (length l) * c.
Proof. induction l as [|i l IH]; simpl; [done|]. lia. Qed.

Lemma swrr_high cs inner t n j :
  swrr cs inner t n -> j ∈ indices cs -> cv cs inner j <= Z.of_nat (length cs) * total_weight cs.
Proof.
  intros Hs Hj. pose proof (swrr_zero_sum _ _ _ _ Hs) as Hz. destruct Hs as [_ Hlow _].
  pose proof (sumZ_split (fun i => cv cs inner i + (total_weight cs - 1)) (indices cs) j Hj) as Hle.
  rewrite sumZ_add, Hz, sumZ_const in Hle. rewrite length_indices in Hle.
  assert (Hpos : forall i, i ∈ indices cs -> 0 <= cv cs inner i + (total_weight cs - 1)).
  { intros i Hi. specialize (Hlow i Hi). lia. }
  specialize (Hle Hpos). assert (1 <= total_weight cs).
  { unfold total_weight. etrans; [|apply (sumZ_split _ _ j Hj)].
    - apply weight_of_pos.
    - intros i _. pose proof (weight_of_pos cs i). lia. }
  lia.
Qed.

Lemma weight_le_total cs j : j ∈ indices cs -> 1 <= weight_of cs j <= total_weight cs.
Proof.
  intros Hj. split; [apply weight_of_pos|]. apply (sumZ_split (weight_of cs)); [done|].
  intros i _. pose proof (weight_of_pos cs i). lia.
Qed.

(** One pick pays the total back to the chosen node, one with a maximal running weight. *)
Lemma steady_pick cs now inner t n :
  steady cs inner -> swrr cs inner t n ->
  exists i inner', pick cs [] now inner = (Chosen i (b_id (cs !!! i)), inner')
    /\ i ∈ indices cs /\ outliers inner' = ∅
    /\ (forall j, j ∈ indices cs -> cv cs inner j + weight_of cs j <= cv cs inner i + weight_of cs i)
    /\ (forall j, j ∈ indices cs -> cv cs inner' j =
          cv cs inner j + weight_of cs j - (if decide (j = i) then total_weight cs else 0)).
Proof.
  intros Hst Hsw. destruct (steady_eligible cs now inner Hst) as (Hu & Ho & He).
  destruct Hst as [Hids Hne _ _ Hout Hbound].
  assert (Hine : indices cs <> []) by by destruct cs.
  assert (Hrange : forall j, j ∈ indices cs -> - 2 ^ 62 <= cv cs inner j + weight_of cs j <= 2 ^ 62
    /\ - 2 ^ 62 <= cv cs inner j + weight_of cs j - total_weight cs <= 2 ^ 62).
  { intros j Hj. pose proof (swrr_high _ _ _ _ _ Hsw Hj). pose proof (swrr_low _ _ _ _ Hsw j Hj).
    pose proof (weight_le_total cs j Hj). assert (1 <= Z.of_nat (length cs)) by (destruct cs; simpl in *; [done|lia]).
    nia. }
  unfold pick. rewrite bool_decide_false by by rewrite Hu.
  rewrite bool_decide_false by by rewrite Ho. rewrite He.
  pose proof (scan_spec cs (indices cs) (current inner) None) as Hscan. cbv zeta in Hscan.
  rewrite indices_ids in Hscan. specialize (Hscan Hids (fun j Hj => proj1 (Hrange j Hj))).
  destruct (scan cs (indices cs) (current inner) None) as [cur best].
  destruct Hscan as (H1 & _ & _ & H4 & H5).
  destruct (indices cs) as [|j0 js] eqn:Hidx; [done|]. rewrite <- Hidx in *.
  assert (Hj0 : j0 ∈ indices cs) by (rewrite Hidx; apply elem_of_cons; by left).
  destruct (H5 j0 Hj0) as (i & b & Hbest & _).
  destruct (H4 i b Hbest) as [[Hi Hb]|Hn]; [|done]. rewrite Hbest. exists i. eexists. split; [done|].
  split; [done|]. split; [done|]. split.
  - intros j Hj. destruct (H5 j Hj) as (k & c & Hk & Hle). rewrite Hbest in Hk. simplify_eq. done.
  - assert (Htot : foldl (fun acc i => wrap_i64 (acc + weight_of cs i)) 0 (indices cs) = total_weight cs).
    { rewrite foldl_total; [done|lia|]. change (sumZ _ _) with (total_weight cs).
      pose proof (weight_le_total cs i Hi). nia. }
    rewrite Htot. intros j Hj. unfold cv at 1. simpl. rewrite (H1 i Hi). simpl.
    fold (cv cs inner i). rewrite wrap_i64_small by apply (Hrange i Hi).
    case_decide as Hji; [subst; by rewrite lookup_insert_eq|].
    rewrite lookup_insert_ne, (H1 j Hj); [simpl; unfold cv; lia|].
    intros Heq. apply Hji. rewrite <- indices_ids in Hids. by eapply NoDup_fmap_eq.
Qed.

Lemma swrr_step cs now inner t n :
  steady cs inner -> swrr cs inner t n ->
  exists i inner', pick cs [] now inner = (Chosen i (b_id (cs !!! i)), inner')
    /\ i ∈ indices cs /\ steady cs inner'
    /\ swrr cs inner' (t + 1) (fun j => n j + (if decide (j = i) then 1 else 0)).
Proof.
  intros Hst Hsw. destruct (steady_pick cs now inner t n Hst Hsw)
    as (i & inner' & Hp & Hi & Hout & Hmax & Hcv).
  exists i, inner'. split; [done|]. split; [done|].
  pose proof (swrr_zero_sum _ _ _ _ Hsw) as Hz. destruct Hsw as [Heq Hlow Hsum].
  split; [by destruct Hst|]. split.
  - intros j Hj. rewrite Hcv, Heq by done. case_decide; lia.
  - intros j Hj. rewrite Hcv by done. specialize (Hlow j Hj). pose proof (weight_of_pos cs j).
    case_decide as Hji; [subst j|lia].
    assert (1 <= cv cs inner i + weight_of cs i); [|lia].
    (* all maximal terms non-positive would make their sum, the total weight, so too *)
    destruct (Z.le_gt_cases 1 (cv cs inner i + weight_of cs i)); [done|]. exfalso.
    assert (Hsle : sumZ (fun j => cv cs inner j + weight_of cs j) (indices cs) <= sumZ (fun _ => 0) (indices cs)).
    { apply sumZ_le. intros j Hj'. specialize (Hmax j Hj'). lia. }
    rewrite sumZ_add, Hz, sumZ_const in Hsle. change (sumZ (weight_of cs) (indices cs)) with (total_weight cs) in Hsle.
    pose proof (weight_le_total cs i Hi). lia.
  - rewrite sumZ_add, Hsum. rewrite sumZ_indicator; [done|apply NoDup_seq|done].
Qed.

(** Picks in a row, with nothing tried; the indices chosen, in order. *)
Fixpoint picks (cs : list Backend) (nows : list Z) (inner : Inner) : list nat * Inner :=
  match nows with
  | [] => ([], inner)
  | now :: nows =>
      match pick cs [] now inner with
      | (Chosen i _, inner) => let '(is_, inner) := picks cs nows inner in (i :: is_, inner)
      | (_, inner) => picks cs nows inner
      end
  end.

Definition times_chosen (i : nat) (is_ : list nat) : Z :=
  Z.of_nat (length (retain (fun j => bool_decide (j = i)) is_)).

Lemma picks_swrr cs nows inner t n :
  steady cs inner -> swrr cs inner t n ->
  let '(is_, inner') := picks cs nows inner in
  length is_ = length nows /\ steady cs inner'
  /\ swrr cs inner' (t + Z.of_nat (length nows)) (fun j => n j + times_chosen j is_).
Proof.
  revert inner t n. induction nows as [|now nows IH]; intros inner t n Hst Hsw.
  - simpl. split; [done|]. split; [done|]. destruct Hsw as [Hcv Hlow Hsum]. split.
    + intros j Hj. rewrite Hcv by done. unfold times_chosen. simpl. f_equal; f_equal; lia.
    + done.
    + rewrite (sumZ_ext _ n); [lia|]. intros j _. unfold times_chosen. simpl. lia.
  - destruct (swrr_step cs now inner t n Hst Hsw) as (i & inner1 & Hp & Hi & Hst1 & Hsw1).
    simpl. rewrite Hp. specialize (IH inner1 _ _ Hst1 Hsw1).
    destruct (picks cs nows inner1) as [is_ inner']. destruct IH as (Hlen & Hst' & [Hcv Hlow Hsum]).
    assert (Hn : forall j, n j + (if decide (j = i) then 1 else 0) + times_chosen j is_ =
                 n j + times_chosen j (i :: is_)).
    { intros j. unfold times_chosen. simpl. case_bool_decide; case_decide; subst; simpl; try lia; done. }
    split; [simpl; by rewrite Hlen|]. split; [done|]. split.
    + intros j Hj. rewrite Hcv by done. rewrite Hn. simpl length. f_equal; f_equal; lia.
    + done.
    + rewrite <- (sumZ_ext _ _ _ (fun j _ => Hn j)), Hsum. simpl length. lia.
Qed.

(** ** Properties *)

(** What a pick returns. [AllTried] exactly when every candidate was
    tried; [AtCapacity] exactly when some were not but all of those are at
    their limit. Otherwise it chooses an untried candidate under its limit, a
    drained one only if every such candidate is drained, an ejected one only if
    all those left are ejected, and reserves the slot. *)
Theorem pick_spec cs tried now inner :
  match pick cs tried now inner with
  | (AllTried, inner') =>
      inner' = inner /\ forall i, (i < length cs)%nat -> b_id (cs !!! i) ∈ tried
  | (AtCapacity, inner') =>
      inner' = inner
      /\ (exists i, (i < length cs)%nat /\ b_id (cs !!! i) ∉ tried)
      /\ forall i, (i < length cs)%nat -> (b_id (cs !!! i) ∉ tried) ->
           is_open (active inner) (cs !!! i) = false
  | (Chosen i id, inner') =>
      let candidate j := (j < length cs)%nat /\ (b_id (cs !!! j) ∉ tried)
                         /\ is_open (active inner) (cs !!! j) = true in
      let undrained j := candidate j /\ 0 < b_weight (cs !!! j) in
      let ejected j := node_ejected (outliers inner) now (cs !!! j) = true in
      id = b_id (cs !!! i) /\ candidate i
      /\ ((exists j, undrained j) -> undrained i)
      /\ ((exists j, undrained j /\ ~ ejected j) -> ~ ejected i)
      /\ active inner' !! id = Some (wrap32 (default 0 (active inner !! id) + 1))
      /\ outliers inner' = outliers inner
  end.
Proof.
  destruct (decide (untried_of cs tried = [])) as [Hu|Hu].
  { unfold pick. rewrite bool_decide_true by done. split; [done|]. intros i Hi.
    destruct (decide (b_id (cs !!! i) ∈ tried)) as [|Hn]; [done|]. exfalso.
    assert (Hin : i ∈ untried_of cs tried) by by apply elem_of_untried.
    rewrite Hu in Hin. by apply not_elem_of_nil in Hin. }
  destruct (decide (open_of cs tried inner = [])) as [Ho|Ho].
  { unfold pick. rewrite bool_decide_false, bool_decide_true by done. split; [done|]. split.
    - destruct (untried_of cs tried) as [|i l] eqn:Hl; [done|]. exists i.
      apply elem_of_untried. rewrite Hl. apply elem_of_cons. by left.
    - intros i Hi Hn. apply not_true_iff_false. intros Hopen.
      assert (Hin : i ∈ open_of cs tried inner) by (apply elem_of_open; rewrite elem_of_untried; done).
      rewrite Ho in Hin. by apply not_elem_of_nil in Hin. }
  destruct (pick_chosen cs tried now inner Hu Ho) as (i & inner' & -> & Hi & Ha & Hout).
  cbv zeta. apply elem_of_eligible in Hi as [Hi He]. unfold undrained_of in *.
  apply elem_of_fail_open in Hi as [Hi Hw].
  assert (Hopen : forall j, j ∈ open_of cs tried inner <-> (j < length cs)%nat /\ (b_id (cs !!! j) ∉ tried)
    /\ is_open (active inner) (cs !!! j) = true).
  { intros j. rewrite elem_of_open, elem_of_untried. tauto. }
  split; [done|]. split; [by apply Hopen|].
  assert (Hund : (exists j, j ∈ open_of cs tried inner /\ 0 < b_weight (cs !!! j)) -> 0 < b_weight (cs !!! i)).
  { intros (j & Hj & Hwj). destruct Hw as [Hw|Hw]; [by apply Z.ltb_lt|].
    specialize (Hw j Hj). by apply Z.ltb_ge in Hw; lia. }
  split; [|split; [|split; [by rewrite Ha, lookup_insert_eq|done]]].
  - intros (j & Hj & Hwj). split; [by apply Hopen|]. apply Hund. exists j. by rewrite Hopen.
  - intros (j & [Hj Hwj] & Hej). destruct He as [He|He]; [by rewrite He|]. exfalso. apply Hej, He.
    apply elem_of_fail_open. split; [by apply Hopen|]. left. by apply Z.ltb_lt.
Qed.

(** C13: Over a steady set of candidates (distinct nodes, none tried, drained,
    limited or ejected), starting fresh, smooth weighted round-robin is exact:
    as many picks as the total weight choose each candidate exactly as often as
    its weight says and leave every running weight at zero. No [i64] wraps. *)
Theorem swrr_exact_share cs inner nows
    (Hst : steady cs inner) (Hfresh : current inner = ∅)
    (Hlen : Z.of_nat (length nows) = total_weight cs) :
  let '(is_, inner') := picks cs nows inner in
  length is_ = length nows
  /\ forall i, (i < length cs)%nat ->
       times_chosen i is_ = b_weight (cs !!! i) /\ cv cs inner' i = 0.
Proof.
  assert (Hz : forall j, cv cs inner j = 0) by (intros j; unfold cv; by rewrite Hfresh, lookup_empty).
  assert (Hne : exists j, j ∈ indices cs).
  { destruct Hst as [_ Hne _ _ _ _]. exists 0%nat. apply indices_lookup. destruct cs; simpl; [done|lia]. }
  destruct Hne as [j0 Hj0]. pose proof (weight_le_total cs j0 Hj0).
  assert (H0 : swrr cs inner 0 (fun _ => 0)).
  { split; [intros j _; rewrite Hz; lia|intros j _; rewrite Hz; lia|]. rewrite sumZ_const. lia. }
  pose proof (picks_swrr cs nows inner 0 _ Hst H0) as Hp.
  destruct (picks cs nows inner) as [is_ inner']. destruct Hp as (Hl & Hst' & [Hcv Hlow Hsum]).
  split; [done|]. rewrite Z.add_0_l, Hlen in *.
  assert (Hle : forall j, j ∈ indices cs -> 0 + times_chosen j is_ <= weight_of cs j).
  { intros j Hj. specialize (Hlow j Hj). rewrite (Hcv j Hj) in Hlow. nia. }
  intros i Hi%indices_lookup.
  assert (Heq : 0 + times_chosen i is_ = weight_of cs i).
  { apply (sumZ_le_eq (fun j => 0 + times_chosen j is_) (weight_of cs) (indices cs)); [done|by rewrite Hsum|done]. }
  split; [|rewrite (Hcv i Hi), Heq; lia]. rewrite <- (Z.add_0_l (times_chosen i is_)), Heq.
  unfold weight_of. destruct Hst as [_ _ Hw _ _ _]. rewrite Forall_forall in Hw.
  apply indices_lookup in Hi. specialize (Hw _ (lookup_total_elem cs i Hi)). lia.
Qed.

(** C14: The connection limit is a hard cap: however users interleave picks,
    slot drops, outcome reports and clean-ups, each node's count is the number
    of slots held on it, and a node with limit [max] never has more than [max]. *)
Theorem slots_never_exceed_limit limit inner out
    (Hsteps : steps (bstep limit) (default_inner, []) (inner, out)) :
  (forall id, default 0 (active inner !! id) = held id out)
  /\ forall id max, limit id = Some max -> 0 <= max -> held id out <= max.
Proof.
  assert (Hinv : slots_ok (inner, out) /\ under_limit limit (inner, out)).
  { eapply (steps_invariant (bstep limit) (fun w => slots_ok w /\ under_limit limit w)); [| |exact Hsteps].
    - intros w1 w2 [H1 H2] Hs. by eapply bstep_ok.
    - split; [intros id; simpl; by rewrite lookup_empty|]. intros id max _ Hm. done. }
  destruct Hinv as [Hs Hl]. split; [|exact Hl]. intros id. by apply (slots_ok_default id (inner, out)).
Qed.

(** C40: Ejection. Three setup failures in a row eject a node, for ten seconds
    the first time and twice as long each further time without a success in
    between, at most two minutes; fewer do not; a failure of a node already
    out changes nothing; a success forgets the history. *)
Theorem ejection_spec id now inner
    (Hok : forall o, outliers inner !! id = Some o -> outlier_ok o /\ ejections o < u32_max) :
  let o := default default_outlier (outliers inner !! id) in
  let '(d, inner') := record_failure id now inner in
  (exists o', outliers inner' !! id = Some o' /\ outlier_ok o' /\
     if is_ejected o now then d = None /\ o' = o
     else if consecutive_failures o + 1 <? 3
     then d = None /\ consecutive_failures o' = consecutive_failures o + 1 /\ is_ejected o' now = false
     else d = Some (backoff (ejections o + 1)) /\ ejections o' = ejections o + 1
          /\ BASE_EJECTION <= backoff (ejections o + 1) <= MAX_EJECTION
          /\ forall t, is_ejected o' t = (t <? now + backoff (ejections o + 1)))
  /\ (forall id', id' <> id -> outliers inner' !! id' = outliers inner !! id')
  /\ (forall t, match outliers (record_success id inner') !! id with
                | Some o => o = default_outlier /\ is_ejected o t = false
                | None => False
                end).
Proof.
  cbv zeta. set (o := default default_outlier (outliers inner !! id)).
  assert (Ho : outlier_ok o /\ ejections o < u32_max).
  { unfold o. destruct (outliers inner !! id) as [x|]; [by apply Hok|].
    unfold outlier_ok, default_outlier, EJECT_AFTER_FAILURES, u32_max. simpl. lia. }
  destruct Ho as [Ho He]. unfold record_failure. fold o.
  pose proof (outlier_failure_ok o now Ho) as Hok'. pose proof (outlier_failure_spec o now Ho He) as Hs.
  destruct (outlier_failure o now) as [d o'].
  split; [|split; [intros id' Hne; simpl; by rewrite lookup_insert_ne|]].
  - exists o'. simpl. rewrite lookup_insert_eq. split; [done|]. split; [done|].
    unfold EJECT_AFTER_FAILURES in *. destruct (is_ejected o now) eqn:Hej; [by simplify_eq|].
    destruct (consecutive_failures o + 1 <? 3) eqn:Hf; simplify_eq; [done|].
    split; [done|]. split; [done|]. split; [|done]. apply backoff_range. destruct Ho as [_ ?]. lia.
  - intros t. unfold record_success. simpl. rewrite lookup_insert_eq. simpl. by rewrite lookup_insert_eq.
Qed.

(** ** Witnesses *)

Module Examples.

Definition node (id : string) : NodeInfo :=
  {| ni_id := id; ni_addr := id +:+ ":8080"; ni_relay := None; ni_last_seen := None; ni_health := default_health |}.

Definition backend (id : string) (weight : Z) (max : option Z) : Backend :=
  {| b_node := node id; b_weight := weight; b_max_connections := max; b_request_timeout := None; b_labels := ∅ |}.

Definition cs : list Backend := [backend "a" 3 None; backend "b" 1 None].

Lemma cs_steady : steady cs default_inner.
Proof.
  split; [|done| | |done|].
  - apply (bool_decide_unpack _); vm_compute; exact I.
  - repeat constructor.
  - repeat constructor.
  - vm_compute. discriminate.
Qed.

(** The picks interleave: a, a, b, a. *)
Lemma swrr_witness :
  (picks cs [0; 1; 2; 3] default_inner).1 = [0; 0; 1; 0]%nat
  /\ times_chosen 0 (picks cs [0; 1; 2; 3] default_inner).1 = 3.
Proof.
  pose proof (swrr_exact_share cs default_inner [0; 1; 2; 3] cs_steady eq_refl eq_refl) as Hs.
  split; [reflexivity|]. destruct (picks cs [0; 1; 2; 3] default_inner) as [l i].
  apply (proj2 Hs 0%nat). vm_compute. lia.
Defined.

Definition limited : list Backend := [backend "a" 1 (Some 1)].
Definition limit (id : string) : option Z := if decide (id = "a") then Some 1 else None.

Lemma slots_witness :
  let i1 := (pick limited [] 0 default_inner).2 in
  let i2 := (pick limited [] 1 i1).2 in
  (pick limited [] 1 i1).1 = AtCapacity /\ held "a" ["a"] <= 1.
Proof.
  cbv zeta. split; [reflexivity|].
  apply (slots_never_exceed_limit limit (pick limited [] 1 (pick limited [] 0 default_inner).2).2 ["a"])
    with (max := 1); [|reflexivity|lia].
  eapply steps_step; [eapply steps_step; [apply steps_refl|]|].
  - eapply (BPick limit default_inner [] limited [] 0 0%nat "a"); [repeat constructor|reflexivity|reflexivity].
  - eapply (BPickNone limit _ ["a"] limited [] 1 AtCapacity); [reflexivity|by right].
Defined.

(** The third failure ejects for ten seconds. *)
Lemma ejection_witness :
  let i1 := (record_failure "a" 0 default_inner).2 in
  let i2 := (record_failure "a" 1 i1).2 in
  exists o', outliers (record_failure "a" 2 i2).2 !! "a" = Some o'
    /\ (record_failure "a" 2 i2).1 = Some BASE_EJECTION /\ outlier_ok o'.
Proof.
  cbv zeta.
  pose proof (ejection_spec "a" 2 (record_failure "a" 1 (record_failure "a" 0 default_inner).2).2) as He.
  destruct He as [(o' & Ho & Hok & _) _].
  - intros o Ho. vm_compute in Ho. injection Ho as <-. vm_compute. intuition discriminate.
  - exists o'. split; [exact Ho|]. split; [reflexivity|exact Hok].
Defined.

End Examples.
