(* ===== verification/Health.v ===== *)
(** * Active health checks ([src/src/health.rs])

    The tracker of consecutive probe failures, one round of the background
    task, and the probe with its status-line parser. The clock, the order in
    which probes finish and the probed backend are inputs. *)

From S2P Require Import Prelude NetAddr Dynamic Config State.

(** ** [HealthTracker] *)

Definition UNHEALTHY_AFTER : Z := 2.

(** Durations, in nanoseconds. *)
Definition CHECK_INTERVAL : Z := 5000000000.
Definition PROBE_TIMEOUT : Z := 2000000000.

Abbreviation HealthTracker := (gmap string Z).

Definition failing (failures : Z) : bool := (UNHEALTHY_AFTER <=? failures)%Z.

Definition record (service : string) (ok : bool) (t : HealthTracker) : bool * HealthTracker :=
  let failures := default 0%Z (t !! service) in
  let failures' := if ok then 0%Z else saturating_add32 failures 1 in
  (negb (Bool.eqb (failing failures) (failing failures')), <[service := failures']> t).

(** Sorted names of the services considered unhealthy. *)
Definition unhealthy (t : HealthTracker) : list string :=
  btree_keys (filter (fun kv => failing kv.2 = true) t).

Definition retain_hosted (hosted : list string) (t : HealthTracker) : bool * HealthTracker :=
  let t' := filter (fun kv => kv.1 ∈ hosted) t in
  (negb (bool_decide (unhealthy t = unhealthy t')), t').

(** Wall-clock milliseconds, forced above the previous version. *)
Definition next_version (now_ms prev : Z) : Z := Z.max now_ms (wrap64 (prev + 1)).

(** ** One round of [run_health_checks] *)

Section round.
Context `{MapIter}.

(** The services this node hosts, from the index. *)
Definition hosted (s : SharedState) : list (string * Z * option string) :=
  omap (fun '((node, name), svc) =>
    if str_eqb node (node_id (st_config s))
    then Some (name, svc_node_port svc, svc_health_path svc) else None)
    (map_iter (st_service_index s)).

Definition record_all (results : list (string * bool)) (t : HealthTracker) : bool * HealthTracker :=
  foldl (fun '(changed, t) '(name, ok) =>
    let '(flipped, t) := record name ok t in (changed || flipped, t)) (false, t) results.

(** The task's own state: the tracker and whether nothing was published yet. *)
Record HealthTask := { ht_tracker : HealthTracker; ht_first_round : bool }.

(** [results] are the probes' outcomes in the order they finish; the last
    component says whether a report was published and pushed to peers. *)
Definition health_round (now_ms : Z) (results : list (string * bool)) (h : HealthTask) (s : SharedState)
    : HealthTask * SharedState * bool :=
  let names := (fun '(n, _, _) => n) <$> hosted s in
  let '(dropped, t) := retain_hosted names (ht_tracker h) in
  (* [||] takes the flag only when nothing was dropped *)
  let '(changed, first_round) :=
    if dropped then (true, ht_first_round h) else (ht_first_round h, false) in
  let '(flipped, t) := record_all results t in
  let h' := {| ht_tracker := t; ht_first_round := first_round |} in
  if changed || flipped then
    (h', set_local_health {| sh_version := next_version now_ms (sh_version (st_local_health s));
                             sh_unhealthy := unhealthy t |} s, true)
  else (h', s, false).
End round.

(** ** Probing *)

Definition parse_status_code (line : string) : option Z :=
  if negb (starts_with "HTTP/1." line) || negb (bool_decide (String.get 8 line = Some " "%char)) then None
  else if String.length line <? 12 then None
  else parse_u16 (String.substring 9 3 line).

(** The bytes each read returns, in order; an empty read is the end of the
    stream and the list's end an error. *)
Fixpoint read_status_from (buf : string) (reads : list string) : option Z :=
  if 12 <=? String.length buf then parse_status_code (String.substring 0 12 buf)
  else match reads with
       | [] => None
       | chunk :: reads =>
           if str_is_empty chunk then None else read_status_from (buf +:+ chunk) reads
       end.

Definition read_status_code (reads : list string) : option Z := read_status_from "" reads.

Definition CRLF : string := String (of_code 13) (String (of_code 10) EmptyString).

Definition probe_request (path : string) (port : Z) : string :=
  "GET " +:+ path +:+ " HTTP/1.1" +:+ CRLF +:+ "Host: 127.0.0.1:" +:+ show port +:+ CRLF
  +:+ "User-Agent: stouter-health" +:+ CRLF +:+ "Connection: close" +:+ CRLF +:+ CRLF.

(** What the backend and the clock do during a probe. *)
Record ProbeEnv := {
  pe_connects : bool;
  pe_respond : string -> option (list string); (** the reads after this request; [None]: the write fails *)
  pe_in_time : bool
}.

Definition probe (env : ProbeEnv) (port : Z) (path : option string) : bool :=
  let check :=
    if negb (pe_connects env) then None
    else match path with
         | None => Some true
         | Some path =>
             let* _ := ok (validate_health_path path) in
             let* reads := pe_respond env (probe_request path port) in
             let* status := read_status_code reads in
             Some ((200 <=? status)%Z && (status <? 300)%Z)
         end in
  if pe_in_time env then default false check else false.

(** ** The tracker *)

Lemma btree_keys_ext {V W} (m : gmap string V) (m' : gmap string W) :
  (forall k, is_Some (m !! k) <-> is_Some (m' !! k)) -> btree_keys m = btree_keys m'.
Proof.
  intros Hdom. unfold btree_keys.
  apply (Sorted_unique String.le); [apply Sorted_merge_sort; apply _..|].
  rewrite !merge_sort_Permutation. apply NoDup_Permutation; [apply NoDup_fst_map_to_list..|].
  intros k. specialize (Hdom k). rewrite <- !elem_of_btree_keys in Hdom.
  unfold btree_keys in Hdom. by rewrite !merge_sort_Permutation in Hdom.
Qed.

Lemma elem_of_unhealthy t name :
  name ∈ unhealthy t <-> exists n, t !! name = Some n /\ failing n = true.
Proof.
  unfold unhealthy. rewrite elem_of_btree_keys. split.
  - intros [n Hn]. apply map_lookup_filter_Some in Hn. eauto.
  - intros (n & Hn & Hf). exists n. by apply map_lookup_filter_Some.
Qed.

Lemma unhealthy_ext t t' :
  (forall k, failing (default 0%Z (t !! k)) = failing (default 0%Z (t' !! k))) ->
  unhealthy t = unhealthy t'.
Proof.
  intros Hf. apply btree_keys_ext.
  assert (Haux : forall (m m' : HealthTracker), (forall k, failing (default 0%Z (m !! k)) = failing (default 0%Z (m' !! k))) ->
    forall k, is_Some (filter (fun kv => failing kv.2 = true) m !! k) ->
              is_Some (filter (fun kv => failing kv.2 = true) m' !! k)).
  { intros m m' Hm k [n [Hn Hn']%map_lookup_filter_Some]. specialize (Hm k). rewrite Hn in Hm. simpl in *.
    rewrite Hn' in Hm. destruct (m' !! k) as [n'|] eqn:Hk; [|done].
    exists n'. apply map_lookup_filter_Some. done. }
  intros k. split; apply Haux; [done|]. intros k'. by rewrite Hf.
Qed.

Lemma record_no_flip service ok t :
  (record service ok t).1 = false -> unhealthy (record service ok t).2 = unhealthy t.
Proof.
  unfold record. simpl. intros Hn%negb_false_iff%eqb_prop. apply unhealthy_ext. intros k.
  destruct (decide (k = service)) as [->|Hne]; [by rewrite lookup_insert_eq|by rewrite lookup_insert_ne].
Qed.

Lemma record_all_snoc results name ok t :
  record_all (results ++ [(name, ok)]) t =
    ((record_all results t).1 || (record name ok (record_all results t).2).1,
     (record name ok (record_all results t).2).2).
Proof. unfold record_all. rewrite foldl_snoc. by destruct (foldl _ (false, t) results). Qed.

Lemma record_all_no_flip results t :
  (record_all results t).1 = false -> unhealthy (record_all results t).2 = unhealthy t.
Proof.
  induction results as [|[name ok] rs IH] using rev_ind; [done|]. rewrite record_all_snoc.
  intros [Hc Hf]%orb_false_iff. rewrite <- IH by done. by apply record_no_flip.
Qed.

(** Failures of [service] since its last success, in a history, latest last. *)
Definition trailing_failures (service : string) (results : list (string * bool)) : Z :=
  foldl (fun n '(name, ok) => if str_eqb name service then (if ok : bool then 0 else n + 1)%Z else n) 0%Z results.

Lemma trailing_snoc service results name ok :
  trailing_failures service (results ++ [(name, ok)]) =
    if str_eqb name service then (if ok then 0 else trailing_failures service results + 1)%Z
    else trailing_failures service results.
Proof. unfold trailing_failures. by rewrite foldl_snoc. Qed.

Lemma trailing_nonneg service results : (0 <= trailing_failures service results)%Z.
Proof.
  induction results as [|[name ok] rs IH] using rev_ind; [done|]. rewrite trailing_snoc.
  repeat case_match; lia.
Qed.

Lemma record_all_count results service :
  default 0%Z ((record_all results ∅).2 !! service) = Z.min (trailing_failures service results) u32_max.
Proof.
  induction results as [|[name ok] rs IH] using rev_ind; [done|].
  rewrite trailing_snoc, record_all_snoc. unfold record. simpl.
  pose proof (trailing_nonneg service rs). unfold str_eqb, saturating_add32. case_bool_decide as Hk.
  - subst. rewrite lookup_insert_eq. simpl. destruct ok; unfold u32_max in *; [done|]. rewrite IH. lia.
  - rewrite lookup_insert_ne by done. exact IH.
Qed.

(** How the response is cut into reads does not matter. *)
Lemma read_status_from_concat buf reads :
  Forall (fun c => str_is_empty c = false) reads ->
  read_status_from buf reads =
    let all_ := foldl String.app buf reads in
    if 12 <=? String.length all_ then parse_status_code (String.substring 0 12 all_) else None.
Proof.
  assert (Hsub : forall n a b, n <= String.length a -> String.substring 0 n (a +:+ b) = String.substring 0 n a).
  { intros n a. revert n. induction a as [|c a IH]; intros n b Hn.
    - simpl in Hn. replace n with 0 by lia. by destruct b.
    - rewrite str_app_cons. destruct n as [|n]; [done|]. simpl in *. rewrite IH; [done|lia]. }
  assert (Hlen : forall l a, String.length a <= String.length (foldl String.app a l)
    /\ forall n, n <= String.length a -> String.substring 0 n (foldl String.app a l) = String.substring 0 n a).
  { induction l as [|c l IH]; intros a; simpl; [split; [lia|done]|].
    destruct (IH (a +:+ c)) as [H1 H2]. rewrite append_length in *. split; [lia|].
    intros n Hn. rewrite H2 by lia. by apply Hsub. }
  intros Hne. revert buf. induction Hne as [|c l Hc Hne IH]; intros buf; cbv zeta; cbn [read_status_from foldl].
  - by destruct (12 <=? String.length buf).
  - destruct (Nat.leb_spec 12 (String.length buf)) as [H12|H12].
    + destruct (Hlen (c :: l) buf) as [H1 H2]. cbn [foldl] in H1, H2.
      rewrite (proj2 (Nat.leb_le _ _)) by lia. by rewrite H2.
    + rewrite Hc. apply IH.
Qed.

Lemma record_all_keys results t name :
  is_Some ((record_all results t).2 !! name) -> is_Some (t !! name) \/ name ∈ results.*1.
Proof.
  induction results as [|[n ok] rs IH] using rev_ind; [by left|].
  rewrite record_all_snoc, fmap_app, elem_of_app. unfold record. simpl.
  rewrite lookup_insert_is_Some'. intros [->|Hs]; [right; right; apply elem_of_cons; by left|].
  destruct (IH Hs); auto.
Qed.

(** ** Properties *)

(** Whatever order probes finish in, a service is reported unhealthy
    exactly when its last two probes, at least, failed: one success clears it,
    one failure does not condemn it, and an unprobed service is healthy. *)
Theorem unhealthy_after_two_failures results service :
  service ∈ unhealthy (record_all results ∅).2 <-> (2 <= trailing_failures service results)%Z.
Proof.
  rewrite elem_of_unhealthy. pose proof (record_all_count results service) as Hc.
  pose proof (trailing_nonneg service results). unfold failing, UNHEALTHY_AFTER, u32_max in *. split.
  - intros (n & Hn & Hf). rewrite Hn in Hc. simpl in Hc. bool_hyps. lia.
  - intros Ht. destruct ((record_all results ∅).2 !! service) as [n|]; simpl in Hc; [|lia].
    exists n. split; [done|]. apply Z.leb_le. lia.
Qed.

(** After every round the node's own report lists exactly the services the
    tracker considers unhealthy, all of them hosted here. The first round always publishes; a published report has
    a version above the previous one and at least the clock's; a round that
    publishes nothing changes nothing. *)
Theorem health_round_report `{MapIter} now results h s
    (Hinv : ht_first_round h = true \/ sh_unhealthy (st_local_health s) = unhealthy (ht_tracker h))
    (Hver : (0 <= sh_version (st_local_health s) < u64_max)%Z)
    (Hres : forall name, name ∈ results.*1 -> name ∈ (fun '(n, _, _) => n) <$> hosted s) :
  let '(h', s', published) := health_round now results h s in
  sh_unhealthy (st_local_health s') = unhealthy (ht_tracker h')
  /\ (forall name, name ∈ sh_unhealthy (st_local_health s') -> name ∈ (fun '(n, _, _) => n) <$> hosted s)
  /\ (ht_first_round h = true -> published = true)
  /\ (published = true -> (sh_version (st_local_health s) < sh_version (st_local_health s'))%Z
        /\ (now <= sh_version (st_local_health s'))%Z /\ s' = set_local_health (st_local_health s') s)
  /\ (published = false -> s' = s).
Proof.
  unfold health_round. set (names := _ <$> hosted s) in *.
  destruct (retain_hosted names (ht_tracker h)) as [dropped t] eqn:Hret.
  assert (Hdrop : dropped = false -> unhealthy t = unhealthy (ht_tracker h)).
  { unfold retain_hosted in Hret. simplify_eq. intros Hd%negb_false_iff. by apply bool_decide_eq_true in Hd. }
  assert (Ht : forall name, is_Some (t !! name) -> name ∈ names).
  { unfold retain_hosted in Hret. simplify_eq. intros name [n Hn]. by apply map_lookup_filter_Some in Hn as [_ ?]. }
  pose proof (record_all_no_flip results t) as Hflip. pose proof (record_all_keys results t) as Hkeys.
  destruct (record_all results t) as [flipped t2]. simpl in Hflip, Hkeys.
  assert (Hnames : forall name, name ∈ unhealthy t2 -> name ∈ names).
  { intros name (n & Hn & _)%elem_of_unhealthy. destruct (Hkeys name) as [?|?]; eauto. }
  assert (Hpub : (sh_version (st_local_health s) < next_version now (sh_version (st_local_health s)))%Z
    /\ (now <= next_version now (sh_version (st_local_health s)))%Z).
  { unfold next_version. rewrite wrap64_succ_gt by done. lia. }
  destruct dropped; simpl.
  - split; [done|]. split; [done|]. split; [done|]. split; [|done]. intros _. by destruct Hpub.
  - destruct (ht_first_round h); simpl.
    + split; [done|]. split; [done|]. split; [done|]. split; [|done]. intros _. by destruct Hpub.
    + destruct Hinv as [|Hinv]; [done|]. destruct flipped; simpl.
      * split; [done|]. split; [done|]. split; [done|]. split; [|done]. intros _. by destruct Hpub.
      * rewrite Hinv, <- Hdrop, <- Hflip by done. split; [done|]. split; [done|]. by split.
Qed.

(** ** Witnesses *)

Module Examples.

Definition state : SharedState := new_state Config.Examples.config "stouter.json" true.

(** Two failed probes in a row: the first round publishes "healthy", the
    second the failure. *)
Lemma health_round_witness :
  let h0 := {| ht_tracker := ∅; ht_first_round := true |} in
  let '(h1, s1, p1) := health_round 1000 [("api", false)] h0 state in
  let '(h2, s2, p2) := health_round 900 [("api", false)] h1 s1 in
  p1 = true /\ p2 = true /\ sh_version (st_local_health s2) = 1001%Z
  /\ sh_unhealthy (st_local_health s2) = unhealthy (ht_tracker h2).
Proof.
  cbv zeta.
  pose proof (health_round_report 1000 [("api", false)] {| ht_tracker := ∅; ht_first_round := true |} state) as H1.
  destruct (health_round 1000 _ _ state) as [[h1 s1] p1] eqn:Hr1.
  destruct H1 as (Hu1 & _ & Hp1 & _).
  { by left. }
  { vm_compute. split; [discriminate|reflexivity]. }
  { intros name Hn. apply list_elem_of_singleton in Hn. subst name. vm_compute. left. }
  vm_compute in Hr1. injection Hr1 as <- <- <-.
  pose proof (health_round_report 900 [("api", false)] _ _ (or_intror Hu1)) as H2.
  destruct (health_round 900 _ _ _) as [[h2 s2] p2] eqn:Hr2.
  destruct H2 as (Hu2 & _).
  { vm_compute. split; [discriminate|reflexivity]. }
  { intros name Hn. apply list_elem_of_singleton in Hn. subst name. vm_compute. left. }
  vm_compute in Hr2. injection Hr2 as <- <- <-.
  split; [reflexivity|]. split; [reflexivity|]. split; [reflexivity|exact Hu2].
Defined.

Example parse_status : parse_status_code "HTTP/1.1 204" = Some 204%Z
  /\ read_status_code ["HTT"; "P/1.0 20"; "0 OK"] = Some 200%Z /\ parse_status_code "HTTP/2 200 OK" = None.
Proof. vm_compute. auto. Qed.

End Examples.
