(* ===== verification/Messages.v ===== *)
(** * Messages and their framing ([src/src/gossip/messages.rs], and
    [send_message] and [recv_message] of [src/src/gossip/mod.rs])

    A frame is the payload's length in four big-endian bytes and the payload.
    What a payload is made of is Wire's subject; here it is the interface
    [Codec]. A byte stream is a [string]. *)

From S2P Require Import Prelude NetAddr Dynamic Config.

(** ** Messages *)

Inductive AdminOp :=
| ServiceAdd (group name owner_node_id : string) (port : Z) (domains : list string) (weight : Z)
    (max_connections : option Z) (protocol : Protocol) (request_timeout_ms : option Z)
    (health_path : option string) (labels meta : gmap string string) (local_port : option Z)
| RoutesSet (service : string) (routes : list Route)
| ServiceRename (group owner_node_id from to : string)
| ServiceRemove (group owner_node_id name : string).

Inductive AdminErrCode := Unauthorized | Validation | NotFound | Internal.
#[export] Instance AdminErrCode_eq_dec : EqDecision AdminErrCode.
Proof. solve_decision. Defined.

Inductive AdminResult :=
| ROk (new_version : Z)
| RErr (code : AdminErrCode) (message : string).
#[export] Instance AdminResult_eq_dec : EqDecision AdminResult.
Proof. solve_decision. Defined.

Inductive Message :=
| Sync (config : DynamicConfig) (nodes : list NodeInfo)
| ConfigUpdate (config : DynamicConfig)
| NodeJoin (id addr : string)
| NodeLeave (id : string)
| TunnelRequest (node_id service_name : string) (timestamp_ms : Z)
| ReverseRegistration (node_id : string) (timestamp_ms : Z)
| StatusRequest
| StatusResponse (mode node_id bind : string) (dynamic_config : DynamicConfig) (known_nodes : list NodeInfo)
| MuxTunnel
| AdminRequest (op : AdminOp)
| AdminResponse (result : AdminResult).

(** [AdminOp::service_add]: a [ServiceAdd] carrying every field of [svc]. *)
Definition service_add (group : string) (svc : Service) : AdminOp :=
  ServiceAdd group (svc_name svc) (svc_node_id svc) (svc_node_port svc) (svc_domains svc) (svc_weight svc)
    (svc_max_connections svc) (svc_protocol svc) (svc_request_timeout_ms svc) (svc_health_path svc)
    (svc_labels svc) (svc_meta svc) (svc_local_port svc).

(** An unset report is skipped, and arrives as the default one. *)
Definition health_on_wire (h : ServiceHealth) : ServiceHealth := if sh_is_unset h then default_health else h.

(** [last_seen] is [serde(skip)]: it arrives as [None]. *)
Definition node_on_wire (n : NodeInfo) : NodeInfo :=
  {| ni_id := ni_id n; ni_addr := ni_addr n; ni_relay := ni_relay n; ni_last_seen := None;
     ni_health := health_on_wire (ni_health n) |}.

Definition on_wire (m : Message) : Message :=
  match m with
  | Sync config nodes => Sync config (node_on_wire <$> nodes)
  | StatusResponse mode id bind dc nodes => StatusResponse mode id bind dc (node_on_wire <$> nodes)
  | m => m
  end.

(** ** Framing *)

Definition MAX_MSG_BYTES : Z := 1048576.

Class Codec := {
  to_vec_named : Message -> result string string;
  from_slice : string -> result Message string
}.

(** A byte's value. *)
Lemma code_of_code z : (0 <= z < 256)%Z -> code (of_code z) = z.
Proof.
  intros Hz. unfold code, of_code. rewrite N_ascii_embedding by lia. lia.
Qed.

(** [u32::to_be_bytes] and [from_be_bytes]. *)
Definition to_be_bytes (n : Z) : string :=
  String (of_code (Z.land (Z.shiftr n 24) 255))
    (String (of_code (Z.land (Z.shiftr n 16) 255))
      (String (of_code (Z.land (Z.shiftr n 8) 255))
        (String (of_code (Z.land n 255)) EmptyString))).

Definition from_be_bytes (b0 b1 b2 b3 : ascii) : Z :=
  (code b0 * 2 ^ 24 + code b1 * 2 ^ 16 + code b2 * 2 ^ 8 + code b3)%Z.

(** Where a write fails, if it does: after so many bytes, or at the flush. *)
Record Writer := { w_capacity : option nat; w_flush_ok : bool }.

Section framing.
Context `{Codec}.

Definition encode_message (m : Message) : result string string :=
  map_err (fun _ => "serialize Message") (to_vec_named m).

(** The bytes that reach the stream, and the result. *)
Definition send_message (w : Writer) (m : Message) : string * result unit string :=
  match encode_message m with
  | Err e => ("", Err e)
  | Ok payload =>
      let len := Z.of_nat (String.length payload) in
      if (u32_max <? len)%Z then ("", Err "message too large")
      else
        let frame := to_be_bytes len +:+ payload in
        match w_capacity w with
        | Some n =>
            if n <? 4 then (String.substring 0 n frame, Err "write length prefix")
            else if n <? String.length frame then (String.substring 0 n frame, Err "write payload")
            else (frame, if w_flush_ok w then Ok tt else Err "flush message")
        | None => (frame, if w_flush_ok w then Ok tt else Err "flush message")
        end
  end.

Fixpoint str_drop (n : nat) (s : string) : string :=
  match n, s with
  | 0, _ => s
  | S n, String _ s => str_drop n s
  | S _, EmptyString => EmptyString
  end.

(** Read one message from the bytes that arrive before the stream ends; the
    rest stays in the stream. *)
Definition recv_message (stream : string) : result (Message * string) string :=
  match stream with
  | String b0 (String b1 (String b2 (String b3 rest))) =>
      let len := from_be_bytes b0 b1 b2 b3 in
      if (MAX_MSG_BYTES <? len)%Z then Err ("message too large: " +:+ show len +:+ " bytes")
      else if String.length rest <? Z.to_nat len then Err "read payload"
      else
        match from_slice (String.substring 0 (Z.to_nat len) rest) with
        | Err _ => Err "deserialize Message"
        | Ok m => Ok (m, str_drop (Z.to_nat len) rest)
        end
  | _ => Err "read length prefix"
  end.
End framing.

Lemma be_roundtrip n :
  (0 <= n <= u32_max)%Z ->
  from_be_bytes (of_code (Z.land (Z.shiftr n 24) 255)) (of_code (Z.land (Z.shiftr n 16) 255))
    (of_code (Z.land (Z.shiftr n 8) 255)) (of_code (Z.land n 255)) = n.
Proof.
  unfold from_be_bytes, u32_max. intros Hn.
  change 255%Z with (Z.ones 8). rewrite !Z.land_ones by lia. rewrite !Z.shiftr_div_pow2 by lia.
  rewrite !code_of_code by (apply Z.mod_pos_bound; lia).
  change (2 ^ 24)%Z with 16777216%Z. change (2 ^ 16)%Z with 65536%Z. change (2 ^ 8)%Z with 256%Z.
  pose proof (Z.div_mod n 256 ltac:(lia)). pose proof (Z.div_mod (n / 256) 256 ltac:(lia)).
  pose proof (Z.div_mod (n / 256 / 256) 256 ltac:(lia)).
  rewrite !Z.div_div in * by lia. change (256 * 256)%Z with 65536%Z in *. change (65536 * 256)%Z with 16777216%Z in *.
  rewrite (Z.mod_small (n / 16777216)); [lia|].
  split; [apply Z.div_pos; lia|]. apply Z.div_lt_upper_bound; lia.
Qed.

Lemma recv_frame `{Codec} len body :
  (0 <= len <= u32_max)%Z ->
  recv_message (to_be_bytes len +:+ body) =
    if (MAX_MSG_BYTES <? len)%Z then Err ("message too large: " +:+ show len +:+ " bytes")
    else if String.length body <? Z.to_nat len then Err "read payload"
    else match from_slice (String.substring 0 (Z.to_nat len) body) with
         | Err _ => Err "deserialize Message"
         | Ok m => Ok (m, str_drop (Z.to_nat len) body)
         end.
Proof.
  intros Hlen. unfold to_be_bytes. rewrite !str_app_cons, str_app_nil. unfold recv_message.
  by rewrite be_roundtrip.
Qed.

Lemma substring_app a b : String.substring 0 (String.length a) (a +:+ b) = a.
Proof. induction a as [|c a IH]; [by destruct b|]. rewrite str_app_cons. simpl. by rewrite IH. Qed.

Lemma str_drop_app a b : str_drop (String.length a) (a +:+ b) = b.
Proof. induction a as [|c a IH]; [done|]. by rewrite str_app_cons. Qed.

(** A frame that was sent is read whole, leaving the stream after it, unless its
    payload is larger than 1 MiB: such a frame is sent and always refused. *)
Lemma frame_roundtrip `{Codec} w m m' payload bytes rest :
  to_vec_named m = Ok payload -> from_slice payload = Ok m' -> send_message w m = (bytes, Ok tt) ->
  (Z.of_nat (String.length payload) <= MAX_MSG_BYTES -> recv_message (bytes +:+ rest) = Ok (m', rest))%Z
  /\ (MAX_MSG_BYTES < Z.of_nat (String.length payload) ->
     recv_message (bytes +:+ rest) =
       Err ("message too large: " +:+ show (Z.of_nat (String.length payload)) +:+ " bytes"))%Z.
Proof.
  intros Henc Hdec Hsend. unfold send_message, encode_message in Hsend. rewrite Henc in Hsend. simpl in Hsend.
  set (len := Z.of_nat (String.length payload)) in *.
  destruct (u32_max <? len)%Z eqn:Hlen; [done|]. apply Z.ltb_ge in Hlen.
  assert (Hb : bytes = to_be_bytes len +:+ payload).
  { destruct (w_capacity w) as [n|]; [destruct (n <? 4); [done|]; case_match; [done|]|];
      by injection Hsend as <- _. }
  subst bytes. rewrite <- str_app_assoc, recv_frame by (unfold len in *; lia). unfold len. rewrite Nat2Z.id. split.
  - intros Hmax. rewrite (proj2 (Z.ltb_ge _ _)) by lia.
    rewrite (proj2 (Nat.ltb_ge _ _)) by (rewrite append_length; lia).
    by rewrite substring_app, Hdec, str_drop_app.
  - intros Hmax. by rewrite (proj2 (Z.ltb_lt _ _)) by lia.
Qed.
