(* ===== verification/Gossip.v ===== *)
(** * Gossip and admin RPC ([src/src/gossip/mod.rs])

    Each handler is a function of the daemon's state and its configuration file
    to the new ones and the messages it sends. The clock, what saving the file
    does and the iteration order of maps are inputs. *)

From S2P Require Import Prelude NetAddr Dynamic Config State Messages.

(** ** The world of one daemon

    [w_disk] is what loading the configuration file gives; [None] when it
    cannot be read or parsed. *)

Record World := { w_state : SharedState; w_disk : option Config }.

(** What [Config::save] does to the file: nothing, the whole new contents, or
    (in its non-atomic fallback) leaves it unreadable. *)
Inductive SaveOutcome := Saved | SaveFailed | SaveCorrupted.

(** A handler saves at most twice: after a new configuration, and after a change of the
    nodes it knows. *)
Record Saves := { sv_config : SaveOutcome; sv_nodes : SaveOutcome }.

Definition both_saves (o : SaveOutcome) : Saves := {| sv_config := o; sv_nodes := o |}.
Coercion both_saves : SaveOutcome >-> Saves.

Definition with_dynamic_config (c : Config) (dc : DynamicConfig) : Config :=
  {| mode := mode c; bind := bind c; advertise_addr := advertise_addr c; node_id := node_id c;
     outbound_only := outbound_only c; reverse_pool_size := reverse_pool_size c;
     known_nodes := known_nodes c; dynamic_config := dc; subscribe_filter := subscribe_filter c;
     tls_dir := tls_dir c; admin_cns := admin_cns c; api_port_opt := api_port_opt c;
     tracing := tracing c; http_listen := http_listen c |}.

Definition persist_state_with (save : SaveOutcome) (dc : DynamicConfig) (disk : option Config)
    : option Config :=
  match disk with
  | None => None
  | Some cfg =>
      match save with
      | Saved => Some (with_dynamic_config cfg dc)
      | SaveFailed => Some cfg
      | SaveCorrupted => None
      end
  end.

Definition persist_state (save : SaveOutcome) (w : World) : World :=
  {| w_state := w_state w;
     w_disk := persist_state_with save (st_dynamic_config (w_state w)) (w_disk w) |}.

(** Store [dc] under the lock, persist it, and rebuild the indexes. *)
Definition adopt_config (save : SaveOutcome) (dc : DynamicConfig) (w : World) : World :=
  {| w_state := rebuild_service_index (set_dynamic_config dc (w_state w));
     w_disk := persist_state_with save dc (w_disk w) |}.

(** ** Node identities and addresses *)

Definition is_valid_node_id (id : string) : bool := negb (str_is_empty id) && negb (str_contains ":" id).

Definition with_addr (addr : string) (n : NodeInfo) : NodeInfo :=
  {| ni_id := ni_id n; ni_addr := addr; ni_relay := ni_relay n; ni_last_seen := ni_last_seen n;
     ni_health := ni_health n |}.
Definition with_relay (relay : option string) (n : NodeInfo) : NodeInfo :=
  {| ni_id := ni_id n; ni_addr := ni_addr n; ni_relay := relay; ni_last_seen := ni_last_seen n;
     ni_health := ni_health n |}.
Definition with_last_seen (t : Z) (n : NodeInfo) : NodeInfo :=
  {| ni_id := ni_id n; ni_addr := ni_addr n; ni_relay := ni_relay n; ni_last_seen := Some t;
     ni_health := ni_health n |}.
Definition with_health (h : ServiceHealth) (n : NodeInfo) : NodeInfo :=
  {| ni_id := ni_id n; ni_addr := ni_addr n; ni_relay := ni_relay n; ni_last_seen := ni_last_seen n;
     ni_health := h |}.

(** A wildcard address becomes the host we are connected to, keeping its port. *)
Definition fix_unroutable_addr (connected_addr : string) (n : NodeInfo) : NodeInfo :=
  match strip_prefix "0.0.0.0:" (ni_addr n) with
  | Some port =>
      match rsplit_once ":" connected_addr with
      | Some (host, _) => with_addr (host +:+ ":" +:+ port) n
      | None => n
      end
  | None => n
  end.

Definition fix_unroutable_addrs (connected_addr : string) (nodes : list NodeInfo) : list NodeInfo :=
  fix_unroutable_addr connected_addr <$> nodes.

(** ** Merging *)

(** The report kept: the incoming one only when its version is higher. *)
Definition merge_health (existing incoming : NodeInfo) : NodeInfo :=
  if (sh_version (ni_health incoming) <=? sh_version (ni_health existing))%Z then existing
  else with_health (ni_health incoming) existing.

(** One incoming node; the flag says an address, a relay or a node is new. *)
Definition merge_node (own_id : string) (now : Z) (kn : gmap string NodeInfo) (node : NodeInfo)
    : bool * gmap string NodeInfo :=
  if negb (is_valid_node_id (ni_id node)) then (false, kn)
  else
    let node := if str_eqb (ni_id node) own_id then with_health default_health node else node in
    match kn !! ni_id node with
    | Some existing =>
        let existing := merge_health existing node in
        let has_addr := negb (str_is_empty (ni_addr node)) in
        let '(changed, existing) :=
          if negb (str_eqb (ni_addr existing) (ni_addr node))
          then (true, with_addr (ni_addr node) existing) else (false, existing) in
        let '(changed, existing) :=
          if negb (bool_decide (ni_relay existing = ni_relay node))
             && (bool_decide (is_Some (ni_relay node)) || has_addr)
          then (true, with_relay (ni_relay node) existing) else (changed, existing) in
        (changed, <[ni_id node := existing]> kn)
    | None => (true, <[ni_id node := with_last_seen now node]> kn)
    end.

Definition merge_nodes (own_id : string) (now : Z) (nodes : list NodeInfo) (kn : gmap string NodeInfo)
    : bool * gmap string NodeInfo :=
  foldl (fun '(changed, kn) node =>
    let '(c, kn) := merge_node own_id now kn node in (changed || c, kn)) (false, kn) nodes.

(** Refresh the liveness marker of the peer at the contacted address. *)
Definition refresh_contact (contact_addr : option string) (now : Z) (kn : gmap string NodeInfo)
    : gmap string NodeInfo :=
  match contact_addr with
  | None => kn
  | Some addr =>
      (fun n => if negb (str_is_empty (ni_addr n)) && str_eqb (ni_addr n) addr
                then with_last_seen now n else n) <$> kn
  end.

Definition merge_sync (save : Saves) (now : Z) (config : DynamicConfig) (nodes : list NodeInfo)
    (contact_addr : option string) (w : World) : World :=
  let w := if (dc_version (st_dynamic_config (w_state w)) <? dc_version config)%Z
           then adopt_config (sv_config save) config w else w in
  let '(nodes_changed, s) :=
    update_known_nodes (fun kn =>
      let '(changed, kn) := merge_nodes (node_id (st_config (w_state w))) now nodes kn in
      (changed, refresh_contact contact_addr now kn)) (w_state w) in
  let w := {| w_state := s; w_disk := w_disk w |} in
  if nodes_changed : bool then persist_state (sv_nodes save) w else w.

Definition node_join (now : Z) (id addr : string) (kn : gmap string NodeInfo) : bool * gmap string NodeInfo :=
  match kn !! id with
  | Some existing =>
      if negb (str_eqb (ni_addr existing) addr) then (true, <[id := with_addr addr existing]> kn)
      else (false, kn)
  | None =>
      (true, <[id := {| ni_id := id; ni_addr := addr; ni_relay := None; ni_last_seen := Some now;
                        ni_health := default_health |}]> kn)
  end.

(** [apply_message]: the gossip messages other than a received [Sync]. *)
Definition apply_message (save : Saves) (now : Z) (msg : Message) (w : World) : World :=
  match msg with
  | ConfigUpdate config =>
      if (dc_version (st_dynamic_config (w_state w)) <? dc_version config)%Z
      then adopt_config (sv_config save) config w else w
  | NodeJoin id addr =>
      if negb (is_valid_node_id id) then w
      else
        let '(changed, s) := update_known_nodes (node_join now id addr) (w_state w) in
        let w := {| w_state := s; w_disk := w_disk w |} in
        if changed : bool then persist_state (sv_nodes save) w else w
  | NodeLeave id =>
      let '(_, s) := update_known_nodes (fun kn => (tt, delete id kn)) (w_state w) in
      {| w_state := s; w_disk := w_disk w |}
  | Sync config nodes => merge_sync save now config nodes None w
  | _ => w
  end.

Section handlers.
Context `{MapIter} `{HttpCrate}.

(** Bootstrap peers, then the members' addresses not listed yet. *)
Definition peer_addrs (s : SharedState) : list string :=
  foldl (fun addrs node =>
    if negb (str_is_empty (ni_addr node)) && negb (any (str_eqb (ni_addr node)) addrs)
    then addrs ++ [ni_addr node] else addrs)
    (st_bootstrap_peers s) (map_values (st_known_nodes s)).

(** Known nodes, and an up-to-date entry for ourselves. *)
Definition snapshot_nodes (s : SharedState) : list NodeInfo :=
  let nodes := map_values (st_known_nodes s) in
  let own := node_id (st_config s) in
  if str_is_empty own then nodes
  else
    let self_addr := if outbound_only (st_config s) then "" else peer_addr (st_config s) in
    match update_first (fun n => str_eqb (ni_id n) own)
            (fun n => with_health (st_local_health s) (with_addr self_addr n)) nodes with
    | Some nodes => nodes
    | None => nodes ++ [{| ni_id := own; ni_addr := self_addr; ni_relay := None; ni_last_seen := None;
                           ni_health := st_local_health s |}]
    end.

Definition build_sync_msg (s : SharedState) : Message :=
  Sync (st_dynamic_config s) (snapshot_nodes s).

(** The messages a broadcast attempts, one connection per peer. *)
Definition broadcast_message (s : SharedState) (msg : Message) : list (string * Message) :=
  (fun addr => (addr, msg)) <$> peer_addrs s.

Definition broadcast_sync (s : SharedState) : list (string * Message) :=
  broadcast_message s (build_sync_msg s).

(** [handle_gossip_message]: the new world and the reply on the connection. *)
Definition handle_gossip_message (save : Saves) (now : Z) (peer : string) (msg : Message) (w : World)
    : World * option Message :=
  match msg with
  | Sync config nodes =>
      let nodes := if str_is_empty peer then nodes else fix_unroutable_addrs peer nodes in
      let w := merge_sync save now config nodes None w in
      (w, Some (build_sync_msg (w_state w)))
  | other => (apply_message save now other w, None)
  end.

(** [sync_with_peer], once the reply has been received. *)
Definition handle_sync_reply (save : Saves) (now : Z) (addr : string) (reply : Message) (w : World)
    : World :=
  match reply with
  | Sync config nodes => merge_sync save now config (fix_unroutable_addrs addr nodes) (Some addr) w
  | _ => w
  end.

(** ** Admin RPC *)

(** The mutation an operation stands for. *)
Definition admin_mutation (op : AdminOp) (dc : DynamicConfig) : DynamicConfig * result Z MutateErr :=
  match op with
  | ServiceAdd group name owner port domains weight max proto timeout health labels meta local =>
      let svc := {| svc_name := name; svc_node_id := owner; svc_node_port := port; svc_domains := domains;
                    svc_weight := weight; svc_max_connections := max; svc_protocol := proto;
                    svc_request_timeout_ms := timeout; svc_health_path := health; svc_labels := labels;
                    svc_meta := meta; svc_local_port := local |} in
      match option_map validate_health_path health with
      | Some (Err msg) => (dc, Err (Invalid msg))
      | _ => let '(dc', v) := upsert_service group svc dc in (dc', Ok v)
      end
  | RoutesSet service routes => set_routes service routes dc
  | ServiceRename group owner from to => rename_service group owner from to dc
  | ServiceRemove group owner name => remove_service group owner name dc
  end.

Definition admin_err_code (e : MutateErr) : AdminErrCode :=
  match e with
  | GroupNotFound _ | ServiceNotFound _ _ _ => NotFound
  | DuplicateService _ _ _ | Invalid _ => Validation
  end.

(** [handle_admin_request]: the new world, the response, and the broadcast. *)
Definition handle_admin_request (save : SaveOutcome) (peer_cn : option string) (op : AdminOp) (w : World)
    : World * AdminResult * list (string * Message) :=
  let s := w_state w in
  let allowed := match peer_cn with
                 | Some cn => any (fun a => str_eqb a cn) (admin_cns (st_config s))
                 | None => false
                 end in
  if negb allowed then (w, RErr Unauthorized "client cert CN not in adminCns allowlist", [])
  else if bool_decide (mode (st_config s) = Subscribe)
  then (w, RErr Validation "admin RPC not supported in subscribe-only mode", [])
  else
    let '(dc, r) := admin_mutation op (st_dynamic_config s) in
    let s1 := set_dynamic_config dc s in
    match r with
    | Ok new_version =>
        let disk := persist_state_with save dc (w_disk w) in
        let s2 := rebuild_service_index s1 in
        ({| w_state := s2; w_disk := disk |}, ROk new_version, broadcast_message s2 (ConfigUpdate dc))
    | Err err =>
        ({| w_state := s1; w_disk := w_disk w |}, RErr (admin_err_code err) (MutateErr_fmt err), [])
    end.

(** [{:?}] of the mode, in lower case. *)
Definition mode_name (m : Mode) : string :=
  match m with Node => "node" | Subscribe => "subscribe" | NodeSubscribe => "nodesubscribe" end.

Definition handle_status_request (s : SharedState) : Message :=
  StatusResponse (mode_name (mode (st_config s))) (node_id (st_config s)) (bind (st_config s))
    (st_dynamic_config s) (snapshot_nodes s).

(** ** Polling the file

    One pass of [run_config_poll_loop]; the warning it repeats at most once is
    only logged. *)
Definition config_poll (save : SaveOutcome) (w : World) : World * list (string * Message) :=
  let dc := st_dynamic_config (w_state w) in
  match w_disk w with
  | None => (w, [])
  | Some cfg =>
      let file_dc := dynamic_config cfg in
      let current_version := dc_version dc in
      if (current_version <? dc_version file_dc)%Z
         || ((dc_version file_dc =? current_version)%Z
             && negb (bool_decide (dc_service_groups file_dc = dc_service_groups dc)))
      then
        let new_dc :=
          if (dc_version file_dc <=? current_version)%Z
          then {| dc_version := wrap64 (current_version + 1);
                  dc_service_groups := dc_service_groups file_dc; dc_routes := dc_routes file_dc |}
          else file_dc in
        let w := adopt_config save new_dc w in
        (w, broadcast_message (w_state w) (ConfigUpdate new_dc))
      else (w, [])
  end.

(** ** Dispatch *)

(** Which handler an inbound connection's first message goes to. *)
Inductive Handler :=
| HGossip (msg : Message)
| HTunnel (node_id service_name : string) (timestamp_ms : Z)
| HReverse (node_id : string) (timestamp_ms : Z)
| HStatus
| HMux
| HAdmin (op : AdminOp)
| HUnexpected.

(** The handler, and whether the connection counts as in-flight work. Nothing
    is handled when the receive fails or shutdown comes first. *)
Definition dispatch_connection (first : option (result Message string)) : option (Handler * bool) :=
  match first with
  | None | Some (Err _) => None
  | Some (Ok msg) =>
      let handler :=
        match msg with
        | Sync _ _ | ConfigUpdate _ | NodeJoin _ _ | NodeLeave _ => HGossip msg
        | TunnelRequest node service ts => HTunnel node service ts
        | ReverseRegistration node ts => HReverse node ts
        | StatusRequest => HStatus
        | MuxTunnel => HMux
        | AdminRequest op => HAdmin op
        | StatusResponse _ _ _ _ _ | AdminResponse _ => HUnexpected
        end in
      Some (handler, match msg with MuxTunnel => false | _ => true end)
  end.
End handlers.

(** ** Configuration: what a handler can do to it *)

Lemma set_dynamic_config_id s : set_dynamic_config (st_dynamic_config s) s = s.
Proof. by destruct s. Qed.

Lemma world_eta w : {| w_state := w_state w; w_disk := w_disk w |} = w.
Proof. by destruct w. Qed.

Definition w_dc (w : World) : DynamicConfig := st_dynamic_config (w_state w).
Definition w_version (w : World) : Z := dc_version (w_dc w).

(** The configuration [merge_sync] and [ConfigUpdate] keep. *)
Definition newer_config (dc incoming : DynamicConfig) : DynamicConfig :=
  if (dc_version dc <? dc_version incoming)%Z then incoming else dc.

Lemma update_known_nodes_frame {R} (f : gmap string NodeInfo -> R * gmap string NodeInfo) s :
  let s' := (update_known_nodes f s).2 in
  st_dynamic_config s' = st_dynamic_config s /\ st_config s' = st_config s
  /\ st_service_index s' = st_service_index s /\ st_routes s' = st_routes s
  /\ st_known_nodes s' = (f (st_known_nodes s)).2.
Proof. unfold update_known_nodes. by destruct (f _). Qed.

(** What became of the file: as it was, unreadable, or holding the in-memory
    configuration with its static fields kept. *)
Definition disk_follows (w w' : World) : Prop :=
  w_disk w' = w_disk w \/ w_disk w' = None
  \/ exists cfg, w_disk w = Some cfg /\ w_disk w' = Some (with_dynamic_config cfg (w_dc w')).

Lemma persist_disk_follows save w s dc :
  st_dynamic_config s = dc -> disk_follows w {| w_state := s; w_disk := persist_state_with save dc (w_disk w) |}.
Proof.
  intros <-. unfold disk_follows, persist_state_with, w_dc. simpl.
  destruct (w_disk w) as [cfg|]; [|by left]. destruct save; eauto.
Qed.

(** [merge_sync] as one step: the configuration, the nodes and the file. *)
Lemma merge_sync_spec save now config nodes contact w :
  let w' := merge_sync save now config nodes contact w in
  w_dc w' = newer_config (w_dc w) config
  /\ st_config (w_state w') = st_config (w_state w)
  /\ (index_ok (w_state w) -> index_ok (w_state w'))
  /\ st_known_nodes (w_state w') =
       refresh_contact contact now
         (merge_nodes (node_id (st_config (w_state w))) now nodes (st_known_nodes (w_state w))).2
  /\ disk_follows w w'.
Proof.
  cbv zeta. unfold merge_sync, newer_config. fold (w_dc w).
  set (w1 := if (dc_version (w_dc w) <? dc_version config)%Z then adopt_config (sv_config save) config w else w).
  assert (H1 : w_dc w1 = newer_config (w_dc w) config /\ st_config (w_state w1) = st_config (w_state w)
    /\ (index_ok (w_state w) -> index_ok (w_state w1))
    /\ st_known_nodes (w_state w1) = st_known_nodes (w_state w)
    /\ (w_disk w1 = w_disk w \/ w_disk w1 = persist_state_with (sv_config save) (w_dc w1) (w_disk w))).
  { unfold w1, newer_config. destruct (_ <? _)%Z; simpl; [|by split_and!; auto].
    split; [done|]. split; [done|]. split; [intros _; apply index_ok_rebuild|]. split; [done|by right]. }
  destruct H1 as (Hdc & Hc & Hi & Hk & Hd).
  pose proof (update_known_nodes_frame (fun kn =>
      let '(changed, kn) := merge_nodes (node_id (st_config (w_state w1))) now nodes kn in
      (changed, refresh_contact contact now kn)) (w_state w1)) as Hf. cbv zeta in Hf.
  destruct (update_known_nodes _ (w_state w1)) as [changed s]. simpl in Hf.
  destruct Hf as (Hfd & Hfc & Hfs & Hfr & Hfk). rewrite Hc, Hk in Hfk.
  assert (Hkn : st_known_nodes s = refresh_contact contact now
    (merge_nodes (node_id (st_config (w_state w))) now nodes (st_known_nodes (w_state w))).2).
  { rewrite Hfk. by destruct (merge_nodes _ _ _ _). }
  assert (Hidx : index_ok (w_state w) -> index_ok s).
  { intros [Hx Hy]%Hi. unfold index_ok. by rewrite Hfd, Hfs, Hfr. }
  unfold w_dc in Hdc. unfold newer_config, w_dc in *.
  destruct changed; simpl; (split; [by rewrite Hfd|]; split; [by rewrite Hfc|]; split; [done|]; split; [done|]).
  - unfold disk_follows, w_dc. simpl. rewrite Hfd. destruct Hd as [->| ->].
    + unfold persist_state_with. destruct (w_disk w) as [cfg|]; [destruct (sv_nodes save)|]; eauto.
    + unfold persist_state_with. destruct (w_disk w) as [cfg|]; [destruct (sv_config save), (sv_nodes save)|]; simpl; eauto.
  - unfold disk_follows, w_dc. simpl. rewrite Hfd. destruct Hd as [->| ->]; [by left|].
    unfold persist_state_with. destruct (w_disk w) as [cfg|]; [destruct (sv_config save)|]; eauto.
Qed.

(** ** The steps of a daemon *)

Inductive gstep `{MapIter} `{HttpCrate} : World -> World -> Prop :=
| SGossip save now peer msg w : gstep w (handle_gossip_message save now peer msg w).1
| SReply save now addr reply w : gstep w (handle_sync_reply save now addr reply w)
| SAdmin save cn op w : gstep w (handle_admin_request save cn op w).1.1
| SPoll save w : gstep w (config_poll save w).1.

Lemma admin_mutation_version `{HttpCrate} op dc :
  match admin_mutation op dc with
  | (dc', Ok v) => dc_version dc' = v /\ v = wrap64 (dc_version dc + 1)
  | (dc', Err _) => dc' = dc
  end.
Proof.
  destruct op; simpl.
  - destruct (option_map _ _) as [[]|]; [by unfold upsert_service|done|by unfold upsert_service].
  - exact (mutate_version (MSetRoutes service routes) dc).
  - exact (mutate_version (MRename group owner_node_id from to) dc).
  - exact (mutate_version (MRemove group owner_node_id name) dc).
Qed.

(** The configuration stays, or its version grows. *)
Definition config_advances (w w' : World) : Prop :=
  w_dc w' = w_dc w \/ (w_version w < w_version w')%Z.

Lemma adopt_step save config w :
  let w' := if (dc_version (st_dynamic_config (w_state w)) <? dc_version config)%Z
            then adopt_config save config w else w in
  config_advances w w' /\ disk_follows w w' /\ (index_ok (w_state w) -> index_ok (w_state w')).
Proof.
  cbv zeta. destruct (Z.ltb_spec (dc_version (st_dynamic_config (w_state w))) (dc_version config)).
  - split; [by right|]. split; [by apply persist_disk_follows|]. intros _. apply index_ok_rebuild.
  - split; [by left|]. split; [by left|done].
Qed.

Lemma merge_sync_step save now config nodes contact w :
  let w' := merge_sync save now config nodes contact w in
  config_advances w w' /\ disk_follows w w' /\ (index_ok (w_state w) -> index_ok (w_state w')).
Proof.
  cbv zeta. destruct (merge_sync_spec save now config nodes contact w) as (Hdc & _ & Hi & _ & Hd).
  split; [|done]. unfold config_advances, w_version. rewrite Hdc. unfold newer_config.
  destruct (Z.ltb_spec (dc_version (w_dc w)) (dc_version config)); [by right|by left].
Qed.

Lemma known_nodes_step {R} (f : gmap string NodeInfo -> R * gmap string NodeInfo) save w (b : bool) :
  let w1 := {| w_state := (update_known_nodes f (w_state w)).2; w_disk := w_disk w |} in
  let w' := if b then persist_state save w1 else w1 in
  config_advances w w' /\ disk_follows w w' /\ (index_ok (w_state w) -> index_ok (w_state w')).
Proof.
  cbv zeta. destruct (update_known_nodes_frame f (w_state w)) as (Hd & _ & Hs & Hr & _).
  split; [|split].
  - left. unfold w_dc. destruct b; simpl; done.
  - destruct b; [|by left]. unfold persist_state. simpl. by apply persist_disk_follows.
  - unfold index_ok. destruct b; simpl; by rewrite Hd, Hs, Hr.
Qed.

Lemma apply_message_step save now msg w :
  let w' := apply_message save now msg w in
  config_advances w w' /\ disk_follows w w' /\ (index_ok (w_state w) -> index_ok (w_state w')).
Proof.
  assert (Hsame : config_advances w w /\ disk_follows w w /\ (index_ok (w_state w) -> index_ok (w_state w)))
    by (split; [by left|split; [by left|done]]).
  destruct msg; simpl; try exact Hsame.
  - apply merge_sync_step.
  - apply adopt_step.
  - destruct (negb (is_valid_node_id id)); [exact Hsame|].
    pose proof (known_nodes_step (node_join now id addr) (sv_nodes save) w) as Hk.
    destruct (update_known_nodes _ (w_state w)) as [b s]. exact (Hk b).
Qed.

Lemma gstep_ok `{MapIter} `{HttpCrate} w w' :
  gstep w w' ->
  (index_ok (w_state w) -> index_ok (w_state w')) /\ disk_follows w w'
  /\ ((0 <= w_version w < u64_max)%Z -> config_advances w w').
Proof.
  intros Hstep. destruct Hstep as [save now peer msg w|save now addr reply w|save cn op w|save w].
  - assert (Hm : forall m, config_advances w (apply_message save now m w)
      /\ disk_follows w (apply_message save now m w)
      /\ (index_ok (w_state w) -> index_ok (w_state (apply_message save now m w)))) by (intros; apply apply_message_step).
    destruct msg; simpl; try (destruct (Hm MuxTunnel) as (? & ? & ?); by auto).
    + destruct (merge_sync_step save now config (if str_is_empty peer then nodes else fix_unroutable_addrs peer nodes) None w)
        as (? & ? & ?). auto.
    + destruct (Hm (ConfigUpdate config)) as (? & ? & ?). auto.
    + destruct (Hm (NodeJoin id addr)) as (? & ? & ?). auto.
  - unfold handle_sync_reply. destruct reply; try (split; [done|split; [by left|by left]]).
    destruct (merge_sync_step save now config (fix_unroutable_addrs addr nodes) (Some addr) w) as (? & ? & ?). auto.
  - unfold handle_admin_request. destruct (negb _); [split; [done|split; [by left|by left]]|].
    case_bool_decide; [split; [done|split; [by left|by left]]|].
    pose proof (admin_mutation_version op (st_dynamic_config (w_state w))) as Hv.
    destruct (admin_mutation op _) as [dc' [v|e]]; simpl.
    + split; [intros _; apply index_ok_rebuild|]. split; [by apply persist_disk_follows|].
      intros Hmax. right. unfold w_version, w_dc in *. simpl. destruct Hv as [-> ->].
      rewrite wrap64_succ_gt by done. lia.
    + subst dc'. rewrite set_dynamic_config_id, world_eta. split; [done|]. by split; left.
  - unfold config_poll. destruct (w_disk w) as [cfg|] eqn:Hdisk; [|split; [done|split; [by left|by left]]].
    destruct (_ || _) eqn:Hb; [|split; [done|split; [by left|by left]]]. simpl.
    split; [intros _; apply index_ok_rebuild|]. split; [by apply persist_disk_follows|].
    intros Hmax. right. unfold w_version, w_dc in *. simpl.
    destruct (Z.leb_spec (dc_version (dynamic_config cfg)) (dc_version (st_dynamic_config (w_state w)))); simpl; [|lia].
    rewrite wrap64_succ_gt by done. lia.
Qed.

(** ** Health reports: the highest version wins *)

Definition newest (existing : option ServiceHealth) (h : ServiceHealth) : ServiceHealth :=
  match existing with
  | None => h
  | Some e => if (sh_version h <=? sh_version e)%Z then e else h
  end.

(** The reports about [id] among incoming nodes: those with a valid identity,
    our own reset. *)
Definition reports_about (own_id id : string) (nodes : list NodeInfo) : list ServiceHealth :=
  omap (fun n => if is_valid_node_id (ni_id n) && str_eqb (ni_id n) id
                 then Some (if str_eqb id own_id then default_health else ni_health n) else None) nodes.

Definition health_of (kn : gmap string NodeInfo) (id : string) : option ServiceHealth :=
  ni_health <$> kn !! id.

Definition newest_of (o : option ServiceHealth) (hs : list ServiceHealth) : option ServiceHealth :=
  foldl (fun o h => Some (newest o h)) o hs.

Lemma merge_node_health own now kn n id :
  health_of (merge_node own now kn n).2 id = newest_of (health_of kn id) (reports_about own id [n]).
Proof.
  unfold merge_node, reports_about, health_of. simpl.
  destruct (is_valid_node_id (ni_id n)) eqn:Hv; simpl; [|done].
  destruct (str_eqb (ni_id n) id) eqn:Hid; bool_hyps.
  - subst id. set (n' := if str_eqb (ni_id n) own then with_health default_health n else n).
    assert (Hn' : ni_id n' = ni_id n) by (unfold n'; by case_match).
    assert (Hh : ni_health n' = if str_eqb (ni_id n) own then default_health else ni_health n)
      by (unfold n'; by case_match).
    rewrite Hn', <- Hh. destruct (kn !! ni_id n) as [e|] eqn:He; simpl.
    + assert (Hm : ni_health (merge_health e n') = newest (Some (ni_health e)) (ni_health n'))
        by (unfold merge_health, newest; by destruct (sh_version (ni_health n') <=? sh_version (ni_health e))%Z).
      destruct (negb (str_eqb _ _)), (negb _ && _); simpl; rewrite lookup_insert_eq; simpl; f_equal; exact Hm.
    + by rewrite lookup_insert_eq.
  - set (n' := if str_eqb (ni_id n) own then with_health default_health n else n).
    assert (Hn' : ni_id n' = ni_id n) by (unfold n'; by case_match). rewrite Hn'.
    destruct (kn !! ni_id n) as [e|]; [|simpl; by rewrite lookup_insert_ne].
    destruct (negb (str_eqb _ _)), (negb _ && _); simpl; by rewrite lookup_insert_ne.
Qed.

Lemma merge_nodes_snoc own now nodes n kn :
  (merge_nodes own now (nodes ++ [n]) kn).2 = (merge_node own now (merge_nodes own now nodes kn).2 n).2.
Proof.
  unfold merge_nodes. rewrite foldl_snoc. destruct (foldl _ (false, kn) nodes) as [c kn']. simpl.
  by destruct (merge_node own now kn' n).
Qed.

Lemma merge_nodes_health own now nodes kn id :
  health_of (merge_nodes own now nodes kn).2 id = newest_of (health_of kn id) (reports_about own id nodes).
Proof.
  induction nodes as [|n nodes IH] using rev_ind; [done|].
  rewrite merge_nodes_snoc, merge_node_health, IH. unfold reports_about, newest_of.
  by rewrite omap_app, foldl_app.
Qed.

Lemma refresh_contact_health contact now kn id :
  health_of (refresh_contact contact now kn) id = health_of kn id.
Proof.
  unfold refresh_contact, health_of. destruct contact as [addr|]; [|done].
  rewrite lookup_fmap. destruct (kn !! id) as [n|]; simpl; [|done]. by case_match.
Qed.

(** The kept report is one of those seen, with the highest version among them. *)
Lemma newest_of_spec o hs h :
  newest_of o hs = Some h ->
  (o = Some h \/ h ∈ hs)
  /\ (forall e, o = Some e -> sh_version e <= sh_version h)%Z
  /\ (forall x, x ∈ hs -> sh_version x <= sh_version h)%Z
  /\ (forall e, o = Some e -> sh_version h = sh_version e -> h = e).
Proof.
  revert h. induction hs as [|x hs IH] using rev_ind; intros h.
  - simpl. intros ->. split; [by left|]. split; [by intros e [= ->]|]. split; [by intros x ?%not_elem_of_nil|].
    by intros e [= ->].
  - unfold newest_of in *. rewrite foldl_snoc. intros [= <-].
    destruct (foldl _ o hs) as [b|] eqn:Hb; simpl.
    + specialize (IH b eq_refl) as (H1 & H2 & H3 & H4).
      destruct (Z.leb_spec (sh_version x) (sh_version b)).
      * split; [destruct H1; [by left|right; set_solver]|]. split; [done|]. split; [|done].
        intros y [Hy|Hy%list_elem_of_singleton]%elem_of_app; [by apply H3|by subst].
      * split; [right; set_solver|]. split; [intros e He; specialize (H2 e He); lia|]. split.
        -- intros y [Hy|Hy%list_elem_of_singleton]%elem_of_app; [specialize (H3 y Hy)|subst]; lia.
        -- intros e He. specialize (H2 e He). lia.
    + assert (Ho : o = None /\ hs = []).
      { clear IH. destruct hs as [|y hs _] using rev_ind; [done|]. by rewrite foldl_snoc in Hb. }
      destruct Ho as [-> ->]. split; [right; set_solver|]. split; [done|]. split; [|done].
      intros y Hy. apply elem_of_app in Hy as [Hy|Hy]; [by apply not_elem_of_nil in Hy|].
      apply list_elem_of_singleton in Hy as ->. done.
Qed.

Lemma newest_of_Some o hs : o <> None \/ hs <> [] -> is_Some (newest_of o hs).
Proof.
  unfold newest_of. destruct hs as [|h hs _] using rev_ind; simpl.
  - intros [Ho|]; [|done]. by destruct o.
  - intros _. rewrite foldl_snoc. by eexists.
Qed.

(** ** A full exchange between two daemons

    [a] connects to [b] at [addr], sends its state, and merges the reply. The
    messages cross the wire. *)

Definition sync_exchange `{MapIter} (save_a save_b : Saves) (now_a now_b : Z) (peer addr : string)
    (a b : World) : World * World :=
  let '(b', reply) := handle_gossip_message save_b now_b peer (on_wire (build_sync_msg (w_state a))) b in
  match reply with
  | Some r => (handle_sync_reply save_a now_a addr (on_wire r) a, b')
  | None => (a, b')
  end.

(** Every known node is filed under its own id. *)
Definition kn_wf (kn : gmap string NodeInfo) : Prop := forall id n, kn !! id = Some n -> ni_id n = id.

Lemma update_first_split {A} (p : A -> bool) f (l l' : list A) :
  update_first p f l = Some l' ->
  exists l1 x l2, l = l1 ++ x :: l2 /\ l' = l1 ++ f x :: l2 /\ p x = true.
Proof. intros (l1 & x & l2 & ? & ? & ? & _)%update_first_Some. eauto 10. Qed.

(** What a snapshot says about the sender itself: one entry, its own health. *)
Lemma snapshot_self `{MapIter} s :
  node_id (st_config s) <> "" -> kn_wf (st_known_nodes s) ->
  exists addr relay,
    (fun n => (ni_addr n, ni_relay n, ni_health n)) <$>
      retain (fun n => str_eqb (ni_id n) (node_id (st_config s))) (snapshot_nodes s)
    = [(addr, relay, st_local_health s)].
Proof.
  intros Hown Hwf. unfold snapshot_nodes. set (own := node_id (st_config s)) in *.
  destruct (str_is_empty own) eqn:He; [by destruct own|].
  set (self_addr := if outbound_only (st_config s) then "" else peer_addr (st_config s)).
  set (p := fun n => str_eqb (ni_id n) own).
  assert (Hnd : NoDup (ni_id <$> map_values (st_known_nodes s))).
  { unfold map_values. rewrite <- list_fmap_compose.
    rewrite (list_fmap_ext _ fst (map_iter (st_known_nodes s))); [apply NoDup_map_iter_fst|].
    intros i [k n] Hi. apply list_elem_of_lookup_2 in Hi. apply elem_of_map_iter in Hi. by apply Hwf. }
  destruct (update_first p _ (map_values (st_known_nodes s))) as [l'|] eqn:Hu.
  - apply update_first_Some in Hu as (l1 & x & l2 & Hl & -> & Hx & Hl1).
    rewrite Hl, fmap_app, fmap_cons, NoDup_app, NoDup_cons in Hnd. destruct Hnd as (_ & _ & Hx2 & _).
    exists self_addr, (ni_relay x). rewrite retain_app, (retain_none p l1) by done. simpl.
    assert (Hpx : p (with_health (st_local_health s) (with_addr self_addr x)) = true) by exact Hx.
    fold p. rewrite Hpx, (retain_none p l2); [done|]. apply Forall_forall. intros y Hy.
    apply str_eqb_false. intros Hyo. apply Hx2. apply str_eqb_true in Hx. rewrite Hx, <- Hyo.
    apply list_elem_of_fmap. eauto.
  - apply update_first_None in Hu. exists self_addr, None.
    rewrite retain_app, (retain_none p) by done. cbn [retain app]. unfold p. cbn [ni_id]. by rewrite str_eqb_refl.
Qed.

Lemma reports_about_cons own id n nodes :
  reports_about own id (n :: nodes) =
    (if is_valid_node_id (ni_id n) && str_eqb (ni_id n) id
     then [if str_eqb id own then default_health else ni_health n] else []) ++ reports_about own id nodes.
Proof. unfold reports_about. simpl. by destruct (_ && _). Qed.

Lemma reports_about_eq own id nodes :
  is_valid_node_id id = true -> id <> own ->
  reports_about own id nodes = ni_health <$> retain (fun n => str_eqb (ni_id n) id) nodes.
Proof.
  intros Hv Hne. induction nodes as [|n nodes IH]; [done|]. rewrite reports_about_cons, IH. simpl.
  destruct (str_eqb (ni_id n) id) eqn:Hid; rewrite ?andb_false_r; [|done].
  bool_hyps. by rewrite Hid, Hv, (proj2 (str_eqb_false id own)) by done.
Qed.

Lemma reports_about_own own nodes :
  Forall (fun h => h = default_health) (reports_about own own nodes).
Proof.
  induction nodes as [|n nodes IH]; [constructor|]. rewrite reports_about_cons, str_eqb_refl.
  destruct (_ && _); simpl; [by constructor|done].
Qed.

(** The wire and the address repair keep identities, and health as [g] has it. *)
Lemma reports_about_wire own id f g nodes :
  g default_health = default_health ->
  (forall n, ni_id (f n) = ni_id n /\ ni_health (f n) = g (ni_health n)) ->
  reports_about own id (f <$> nodes) = g <$> reports_about own id nodes.
Proof.
  intros Hg Hf. induction nodes as [|n nodes IH]; [done|].
  rewrite fmap_cons, !reports_about_cons, IH. destruct (Hf n) as [-> ->].
  destruct (_ && _); [|done]. rewrite fmap_app. simpl. by destruct (str_eqb id own); rewrite ?Hg.
Qed.

Lemma health_on_wire_version h : sh_version (health_on_wire h) = sh_version h.
Proof. unfold health_on_wire, sh_is_unset. by destruct (Z.eqb_spec (sh_version h) 0). Qed.

Lemma fix_unroutable_keeps addr n :
  ni_id (fix_unroutable_addr addr n) = ni_id n /\ ni_health (fix_unroutable_addr addr n) = ni_health n.
Proof. unfold fix_unroutable_addr. by repeat case_match. Qed.

(** ** Properties *)

(** C19: Whatever a daemon receives, reads from its file or is asked by an
    admin, its configuration is replaced only by one of a higher version (below
    the largest [u64]); and the file is left alone, lost in a failed in-place
    write, or made to hold exactly the running configuration, its static fields
    kept. *)
Theorem config_version_monotone `{MapIter} `{HttpCrate} w w'
    (Hstep : gstep w w') (Hver : (0 <= w_version w < u64_max)%Z) :
  (w_dc w' = w_dc w \/ (w_version w < w_version w')%Z)
  /\ (w_disk w' = w_disk w \/ w_disk w' = None
      \/ exists cfg, w_disk w = Some cfg /\ w_disk w' = Some (with_dynamic_config cfg (w_dc w'))).
Proof. destruct (gstep_ok w w' Hstep) as (_ & Hd & Hc). split; [by apply Hc|exact Hd]. Qed.

(** The service and route indexes that proxies and tunnels consult without
    the lock answer as the running configuration does, after any sequence of
    messages, admin requests and file polls. *)
Theorem indexes_always_current `{MapIter} `{HttpCrate} config path tls disk w
    (Hsteps : steps gstep {| w_state := new_state config path tls; w_disk := disk |} w) :
  st_service_index (w_state w) = build_service_index (w_dc w)
  /\ st_routes (w_state w) = build_route_index (w_dc w).
Proof.
  eapply (steps_invariant gstep (fun w => index_ok (w_state w))); [| |exact Hsteps].
  - intros w1 w2 Hi Hs. by apply (gstep_ok w1 w2 Hs).
  - apply index_ok_new.
Qed.

(** The configurations after an exchange. *)
Lemma sync_exchange_dc `{MapIter} save_a save_b now_a now_b peer addr a b :
  let '(a', b') := sync_exchange save_a save_b now_a now_b peer addr a b in
  w_dc a' = newer_config (w_dc a) (newer_config (w_dc b) (w_dc a)) /\ w_dc b' = newer_config (w_dc b) (w_dc a).
Proof.
  unfold sync_exchange, handle_gossip_message, build_sync_msg. cbn [on_wire].
  set (nodes := if str_is_empty peer then _ else _).
  destruct (merge_sync_spec save_b now_b (st_dynamic_config (w_state a)) nodes None b) as (Hb & _).
  set (b' := merge_sync save_b now_b (st_dynamic_config (w_state a)) nodes None b) in *.
  cbn [handle_sync_reply].
  set (nodes' := fix_unroutable_addrs addr _).
  destruct (merge_sync_spec save_a now_a (st_dynamic_config (w_state b')) nodes' (Some addr) a) as (Ha & _).
  rewrite Ha. change (st_dynamic_config (w_state b')) with (w_dc b'). by rewrite Hb.
Qed.

(** One sync exchange brings two daemons to the same configuration, the
    one of higher version, when their versions differ. When the versions are
    equal neither changes, so two configurations that differ at the same
    version are not reconciled by syncing. *)
Theorem sync_exchange_converges `{MapIter} save_a save_b now_a now_b peer addr a b :
  let '(a', b') := sync_exchange save_a save_b now_a now_b peer addr a b in
  (w_version a <> w_version b ->
     w_dc a' = w_dc b' /\ w_dc a' = if (w_version a <? w_version b)%Z then w_dc b else w_dc a)
  /\ (w_version a = w_version b -> w_dc a' = w_dc a /\ w_dc b' = w_dc b).
Proof.
  pose proof (sync_exchange_dc save_a save_b now_a now_b peer addr a b) as Hx.
  destruct (sync_exchange _ _ _ _ _ _ a b) as [a' b']. destruct Hx as [-> ->].
  unfold newer_config, w_version. split.
  - intros Hne. destruct (Z.ltb_spec (dc_version (w_dc b)) (dc_version (w_dc a))).
    + rewrite Z.ltb_irrefl. by rewrite (proj2 (Z.ltb_ge _ _)) by lia.
    + by rewrite (proj2 (Z.ltb_lt (dc_version (w_dc a)) (dc_version (w_dc b)))) by lia.
  - intros Heq. by rewrite Heq, !Z.ltb_irrefl.
Qed.

(** C35: Health reports spread by gossip and the newest wins. After [b] handles
    [a]'s Sync, what [b] holds about [a] is at least as new as [a]'s own report,
    and is that report, as it arrives, unless [b] already held one as new. What [b] holds about
    itself never gets a higher version: relayed copies are ignored. *)
Theorem sync_propagates_health `{MapIter} save now peer a b
    (Hid : is_valid_node_id (node_id (st_config (w_state a))) = true)
    (Hne : node_id (st_config (w_state a)) <> node_id (st_config (w_state b)))
    (Hwf : kn_wf (st_known_nodes (w_state a))) :
  let ida := node_id (st_config (w_state a)) in
  let idb := node_id (st_config (w_state b)) in
  let b' := (handle_gossip_message save now peer (on_wire (build_sync_msg (w_state a))) b).1 in
  (exists h, health_of (st_known_nodes (w_state b')) ida = Some h
    /\ (sh_version (st_local_health (w_state a)) <= sh_version h)%Z
    /\ (h = health_on_wire (st_local_health (w_state a))
        \/ health_of (st_known_nodes (w_state b)) ida = Some h))
  /\ (forall h h', health_of (st_known_nodes (w_state b)) idb = Some h -> (0 <= sh_version h)%Z ->
        health_of (st_known_nodes (w_state b')) idb = Some h' -> h' = h).
Proof.
  cbv zeta. unfold handle_gossip_message, build_sync_msg. cbn [on_wire fst].
  set (nodes := if str_is_empty peer then _ else _).
  destruct (merge_sync_spec save now (st_dynamic_config (w_state a)) nodes None b) as (_ & _ & _ & Hkn & _).
  rewrite Hkn. cbn [refresh_contact]. rewrite !merge_nodes_health.
  assert (Hrep : forall own id, reports_about own id nodes
    = health_on_wire <$> reports_about own id (snapshot_nodes (w_state a))).
  { intros own id. unfold nodes. destruct (str_is_empty peer); [by apply reports_about_wire|].
    unfold fix_unroutable_addrs.
    rewrite (reports_about_wire _ _ _ (fun h => h)) by (done || intros; apply fix_unroutable_keeps).
    rewrite list_fmap_id. by apply reports_about_wire. }
  rewrite !Hrep. split.
  - destruct (snapshot_self (w_state a)) as (addr & relay & Hs).
    { intros Heq. rewrite Heq in Hid. done. }
    { done. }
    rewrite reports_about_eq by done.
    apply (f_equal (fmap snd)) in Hs. rewrite <- list_fmap_compose in Hs. simpl in Hs.
    change (ni_health <$> ?l) with ((snd ∘ (fun n => (ni_addr n, ni_relay n, ni_health n))) <$> l).
    rewrite Hs. destruct (newest_of_Some (health_of (st_known_nodes (w_state b)) (node_id (st_config (w_state a))))
      [health_on_wire (st_local_health (w_state a))]) as [h Hh]; [by right|].
    exists h. split; [done|]. destruct (newest_of_spec _ _ _ Hh) as (Hor & _ & Hmax & _).
    split; [rewrite <- health_on_wire_version; apply Hmax, elem_of_cons; by left|].
    destruct Hor as [?|?%list_elem_of_singleton]; [by right|by left].
  - intros h h' Hh Hv Hh'. destruct (newest_of_spec _ _ _ Hh') as ([Hor|Hin] & Hle & _ & Heq); [congruence|].
    pose proof (reports_about_own (node_id (st_config (w_state b))) (snapshot_nodes (w_state a))) as Hall.
    rewrite Forall_forall in Hall. apply list_elem_of_fmap in Hin as (h0 & -> & Hin).
    rewrite (Hall h0 Hin) in *. specialize (Hle h Hh). simpl in Hle.
    apply Heq; [done|]. simpl. lia.
Qed.

(** Merging is order-independent for health: when each (node, version) has
    one report (its node is the only writer), any two orders of the same
    incoming nodes leave the same reports. *)
Theorem merge_health_order_independent own now1 now2 nodes1 nodes2 kn id
    (Hperm : nodes1 ≡ₚ nodes2)
    (Hwriter : forall h1 h2, (Some h1 = health_of kn id \/ h1 ∈ reports_about own id nodes1) ->
       (Some h2 = health_of kn id \/ h2 ∈ reports_about own id nodes1) ->
       sh_version h1 = sh_version h2 -> h1 = h2) :
  health_of (merge_nodes own now1 nodes1 kn).2 id = health_of (merge_nodes own now2 nodes2 kn).2 id.
Proof.
  rewrite !merge_nodes_health.
  assert (Hp : reports_about own id nodes1 ≡ₚ reports_about own id nodes2)
    by (unfold reports_about; by rewrite Hperm).
  destruct (newest_of (health_of kn id) (reports_about own id nodes1)) as [h1|] eqn:H1;
    destruct (newest_of (health_of kn id) (reports_about own id nodes2)) as [h2|] eqn:H2; [| | |done].
  - destruct (newest_of_spec _ _ _ H1) as (Ho1 & He1 & Hx1 & _), (newest_of_spec _ _ _ H2) as (Ho2 & He2 & Hx2 & _).
    f_equal. apply Hwriter; [destruct Ho1; eauto|destruct Ho2 as [|Hin]; [eauto|right; by rewrite Hp]|].
    apply Z.le_antisymm.
    + destruct Ho1 as [Ho1|Hin]; [by apply He2|]. rewrite Hp in Hin. by apply Hx2.
    + destruct Ho2 as [Ho2|Hin]; [by apply He1|]. rewrite <- Hp in Hin. by apply Hx1.
  - exfalso. destruct (newest_of_Some (health_of kn id) (reports_about own id nodes2)) as [h Hh]; [|congruence].
    destruct (newest_of_spec _ _ _ H1) as ([Ho|Hin] & _); [left; congruence|right].
    intros Hn. rewrite Hp, Hn in Hin. by apply not_elem_of_nil in Hin.
  - exfalso. destruct (newest_of_Some (health_of kn id) (reports_about own id nodes1)) as [h Hh]; [|congruence].
    destruct (newest_of_spec _ _ _ H2) as ([Ho|Hin] & _); [left; congruence|right].
    intros Hn. rewrite <- Hp, Hn in Hin. by apply not_elem_of_nil in Hin.
Qed.

(** C20: An admin request changes nothing unless the client certificate's name
    is allowed and the daemon is not subscribe-only. Then it is exactly one
    mutation of the configuration: on success the new version is returned, the
    file and indexes follow and every peer is sent the new configuration; on
    failure the world is untouched and the response carries the error. *)
Theorem admin_request_spec `{MapIter} `{HttpCrate} save cn op w :
  let '(w', response, sent) := handle_admin_request save cn op w in
  let config := st_config (w_state w) in
  if negb (match cn with Some n => bool_decide (n ∈ admin_cns config) | None => false end)
  then w' = w /\ sent = [] /\ response = RErr Unauthorized "client cert CN not in adminCns allowlist"
  else if bool_decide (mode config = Subscribe)
  then w' = w /\ sent = [] /\ response = RErr Validation "admin RPC not supported in subscribe-only mode"
  else match admin_mutation op (w_dc w) with
       | (dc, Ok v) =>
           response = ROk v /\ v = wrap64 (w_version w + 1) /\ w_dc w' = dc /\ w_version w' = v
           /\ index_ok (w_state w')
           /\ w_disk w' = persist_state_with save dc (w_disk w)
           /\ (forall addr, addr ∈ peer_addrs (w_state w) <-> (addr, ConfigUpdate dc) ∈ sent)
       | (_, Err e) => w' = w /\ sent = [] /\ response = RErr (admin_err_code e) (MutateErr_fmt e)
       end.
Proof.
  unfold handle_admin_request.
  assert (Hcn : match cn with Some n => any (fun a => str_eqb a n) (admin_cns (st_config (w_state w))) | None => false end
    = match cn with Some n => bool_decide (n ∈ admin_cns (st_config (w_state w))) | None => false end).
  { destruct cn as [n|]; [|done]. apply Bool.eq_true_iff_eq.
    rewrite any_true, bool_decide_eq_true. setoid_rewrite str_eqb_true. naive_solver. }
  rewrite Hcn. destruct (negb _); [done|]. case_bool_decide; [done|].
  pose proof (admin_mutation_version op (w_dc w)) as Hv. unfold w_dc in *.
  destruct (admin_mutation op _) as [dc [v|e]]; simpl.
  - destruct Hv as [Hv1 Hv2]. split; [done|]. split; [by rewrite Hv2|]. split; [done|]. split; [done|].
    split; [apply index_ok_rebuild|]. split; [done|]. intros addr. unfold broadcast_message.
    rewrite list_elem_of_fmap. split; [intros Ha; exists addr; done|]. by intros (a & [= ->] & Ha).
  - subst dc. by rewrite set_dynamic_config_id, world_eta.
Qed.

(** ** Witnesses *)

Module Examples.

#[local] Existing Instance Dynamic.Examples.http_crate.

Definition dc (v : Z) (name : string) : DynamicConfig :=
  {| dc_version := v;
     dc_service_groups := [{| grp_name := "web"; grp_services := [Dynamic.Examples.service name "a" Http] |}];
     dc_routes := [] |}.

Definition config (id : string) (d : DynamicConfig) : Config :=
  {| mode := NodeSubscribe; bind := "0.0.0.0:8080"; advertise_addr := Some (id +:+ ":8080"); node_id := id;
     outbound_only := false; reverse_pool_size := None; known_nodes := ["b:8080"];
     dynamic_config := d; subscribe_filter := None; tls_dir := Some "tls"; admin_cns := ["ops"];
     api_port_opt := None; tracing := None; http_listen := None |}.

Definition world (id : string) (d : DynamicConfig) : World :=
  {| w_state := set_local_health {| sh_version := 5; sh_unhealthy := ["api"] |}
       (new_state (config id d) "stouter.json" true);
     w_disk := Some (config id d) |}.

Lemma version_witness :
  w_version (handle_gossip_message Saved 0 "b:1" (ConfigUpdate (dc 4 "api")) (world "a" (dc 3 "old"))).1 = 4%Z
  /\ (3 < 4)%Z.
Proof.
  destruct (config_version_monotone (world "a" (dc 3 "old"))
    (handle_gossip_message Saved 0 "b:1" (ConfigUpdate (dc 4 "api")) (world "a" (dc 3 "old"))).1) as [Hv _].
  - apply SGossip.
  - vm_compute. split; [discriminate|reflexivity].
  - split; [reflexivity|]. destruct Hv as [Hv|Hv]; [vm_compute in Hv; discriminate|exact Hv].
Defined.

Definition world0 : World :=
  {| w_state := new_state (config "a" (dc 3 "old")) "stouter.json" true; w_disk := None |}.

Definition added : AdminOp := ServiceRemove "web" "a" "old".

Lemma indexes_witness :
  let w := (handle_admin_request Saved (Some "ops") added world0).1.1 in
  w_version w = 4%Z /\ st_service_index (w_state w) = build_service_index (w_dc w).
Proof.
  cbv zeta. split; [reflexivity|].
  apply (indexes_always_current (config "a" (dc 3 "old")) "stouter.json" true None).
  eapply steps_step; [apply steps_refl|]. apply SAdmin.
Defined.

(** [b] learns [a]'s failing service. *)
Lemma propagates_witness :
  exists h, health_of (st_known_nodes (w_state
    (handle_gossip_message Saved 0 "a:1" (on_wire (build_sync_msg (w_state (world "a" (dc 3 "x")))))
      (world "b" (dc 3 "x"))).1)) "a" = Some h /\ (5 <= sh_version h)%Z.
Proof.
  destruct (sync_propagates_health Saved 0 "a:1" (world "a" (dc 3 "x")) (world "b" (dc 3 "x")))
    as [(h & Hh & Hv & _) _].
  - reflexivity.
  - discriminate.
  - intros id n Hn. vm_compute in Hn. discriminate.
  - exists h. split; [exact Hh|exact Hv].
Defined.

Definition report (v : Z) (bad : list string) : NodeInfo :=
  {| ni_id := "n"; ni_addr := "n:1"; ni_relay := None; ni_last_seen := None;
     ni_health := {| sh_version := v; sh_unhealthy := bad |} |}.

Lemma order_witness :
  health_of (merge_nodes "a" 0 [report 2 []; report 1 ["api"]] ∅).2 "n"
  = health_of (merge_nodes "a" 9 [report 1 ["api"]; report 2 []] ∅).2 "n".
Proof.
  apply (merge_health_order_independent "a" 0 9 [report 2 []; report 1 ["api"]] [report 1 ["api"]; report 2 []] ∅ "n").
  - apply perm_swap.
  - assert (Hr : reports_about "a" "n" [report 2 []; report 1 ["api"]]
      = [ni_health (report 2 []); ni_health (report 1 ["api"])]) by reflexivity.
    intros h1 h2. rewrite Hr. intros [H1|H1] [H2|H2] Hv; [discriminate..|].
    rewrite !elem_of_cons in H1, H2.
    destruct H1 as [->|[->|H1]], H2 as [->|[->|H2]];
      first [reflexivity|discriminate Hv|by apply not_elem_of_nil in H1|by apply not_elem_of_nil in H2].
Defined.

(** A hand edit that changes only routes, at an unchanged version, is not
    adopted: the poll compares the service groups alone. *)
Definition edited : DynamicConfig :=
  {| dc_version := 3; dc_service_groups := dc_service_groups (dc 3 "x");
     dc_routes := [Dynamic.Examples.route "x" "/v1"] |}.

Example poll_ignores_route_edit :
  let w := {| w_state := w_state (world "a" (dc 3 "x")); w_disk := Some (config "a" edited) |} in
  config_poll Saved w = (w, []).
Proof. reflexivity. Qed.

(** Equal versions with different contents survive an exchange unchanged. *)
Example equal_versions_diverge :
  let a := world "a" (dc 3 "x") in
  let b := world "b" (dc 3 "y") in
  let '(a', b') := sync_exchange Saved Saved 0 0 "a:1" "b:1" a b in
  w_dc a' <> w_dc b' /\ w_dc a' = w_dc a /\ w_dc b' = w_dc b.
Proof. vm_compute. split; [discriminate|split; reflexivity]. Qed.

(** A node that left is known again after a peer that missed it syncs. *)
Example leave_undone_by_stale_peer :
  let b := (handle_gossip_message Saved 0 "n:1" (Sync (dc 3 "x") [report 2 []]) (world "b" (dc 3 "x"))).1 in
  let a := (handle_gossip_message Saved 0 "n:1" (NodeLeave "n") b).1 in
  let '(a', _) := sync_exchange Saved Saved 0 0 "a:1" "b:1" a b in
  st_known_nodes (w_state a) !! "n" = None /\ is_Some (st_known_nodes (w_state a') !! "n").
Proof. vm_compute. split; [reflexivity|by eexists]. Qed.

End Examples.
