(* ===== verification/Interleaving.v ===== *)
(** * The gossip handlers, lock by lock ([src/src/gossip/mod.rs] and
    [SharedState::rebuild_service_index] in [src/src/state.rs])

    Gossip takes a handler as one step. Here a handler is the sections it goes
    through, each under one lock or between two awaits, and the sections of any number
    of handlers interleave. The configuration's lock admits one writer or any number
    of readers; a section under the write lock does not wait for anything else, so it
    is one step. Rebuilding the indexes holds the read lock over two stores, which the
    data path, taking no lock, sees apart. *)

From S2P Require Import Prelude NetAddr Dynamic Config State Messages Gossip.

(** ** Sections *)

Inductive Sec :=
| Admin (op : AdminOp)                 (** under the write lock: a mutation, and the file *)
| Adopt (config : DynamicConfig)       (** under the write lock: a newer configuration, and the file *)
| Poll                                 (** under the write lock: reading the file, and adopting it *)
| Rebuild                              (** waiting for the read lock *)
| StoreIndex                           (** holding it: about to store the service index *)
| StoreRoutes                          (** holding it: about to store the routes *)
| MergeNodes (nodes : list NodeInfo) (contact : option string)
| Join (id addr : string)
| Leave (id : string)
| Persist                              (** under the read lock *)
| Announce (dc : DynamicConfig)        (** broadcasting a change *)
| Answer (r : AdminResult)
| AnswerSync.

Definition needs_write (c : Sec) : bool := match c with Admin _ | Adopt _ | Poll => true | _ => false end.
Definition holds_read (c : Sec) : bool := match c with StoreIndex | StoreRoutes => true | _ => false end.

(** What a section sends. *)
Inductive Sent :=
| Broadcast (messages : list (string * Message))
| Replied (r : AdminResult)
| RepliedSync (m : Message).

Definition set_service_index (s : SharedState) : SharedState :=
  {| st_config := st_config s; st_dynamic_config := st_dynamic_config s; st_known_nodes := st_known_nodes s;
     st_service_index := build_service_index (st_dynamic_config s); st_routes := st_routes s;
     st_local_health := st_local_health s; st_bootstrap_peers := st_bootstrap_peers s;
     st_config_path := st_config_path s; st_reverse_pool := st_reverse_pool s;
     st_tunnel_pool := st_tunnel_pool s; st_tls := st_tls s; st_shutdown := st_shutdown s;
     st_in_flight := st_in_flight s |}.

Definition set_route_index (s : SharedState) : SharedState :=
  {| st_config := st_config s; st_dynamic_config := st_dynamic_config s; st_known_nodes := st_known_nodes s;
     st_service_index := st_service_index s; st_routes := build_route_index (st_dynamic_config s);
     st_local_health := st_local_health s; st_bootstrap_peers := st_bootstrap_peers s;
     st_config_path := st_config_path s; st_reverse_pool := st_reverse_pool s;
     st_tunnel_pool := st_tunnel_pool s; st_tls := st_tls s; st_shutdown := st_shutdown s;
     st_in_flight := st_in_flight s |}.

(** Storing a configuration under the write lock, with the file. *)
Definition store_config (save : SaveOutcome) (dc : DynamicConfig) (w : World) : World :=
  {| w_state := set_dynamic_config dc (w_state w); w_disk := persist_state_with save dc (w_disk w) |}.

Definition change_nodes {R} (f : gmap string NodeInfo -> R * gmap string NodeInfo) (w : World) : R * World :=
  let '(r, s) := update_known_nodes f (w_state w) in (r, {| w_state := s; w_disk := w_disk w |}).

Section sections.
Context `{MapIter} `{HttpCrate}.

(** [config_poll]'s choice: the configuration it adopts, if any. *)
Definition polled (w : World) : option DynamicConfig :=
  let dc := w_dc w in
  cfg ← w_disk w;
  let file_dc := dynamic_config cfg in
  if (dc_version dc <? dc_version file_dc)%Z
     || ((dc_version file_dc =? dc_version dc)%Z && negb (bool_decide (dc_service_groups file_dc = dc_service_groups dc)))
  then Some (if (dc_version file_dc <=? dc_version dc)%Z
             then {| dc_version := wrap64 (dc_version dc + 1); dc_service_groups := dc_service_groups file_dc;
                     dc_routes := dc_routes file_dc |}
             else file_dc)
  else None.

(** One section: the new world, what the same task does next, and what it sends. *)
Definition exec (save : SaveOutcome) (now : Z) (c : Sec) (w : World) : World * list Sec * list Sent :=
  match c with
  | Admin op =>
      let '(dc, r) := admin_mutation op (w_dc w) in
      match r with
      | Ok v => (store_config save dc w, [Rebuild; Announce dc; Answer (ROk v)], [])
      | Err e => ({| w_state := set_dynamic_config dc (w_state w); w_disk := w_disk w |},
                  [Answer (RErr (admin_err_code e) (MutateErr_fmt e))], [])
      end
  | Adopt config =>
      if (w_version w <? dc_version config)%Z then (store_config save config w, [Rebuild], []) else (w, [], [])
  | Poll =>
      match polled w with
      | Some dc => (store_config save dc w, [Rebuild; Announce dc], [])
      | None => (w, [], [])
      end
  | Rebuild => (w, [StoreIndex], [])
  | StoreIndex => ({| w_state := set_service_index (w_state w); w_disk := w_disk w |}, [StoreRoutes], [])
  | StoreRoutes => ({| w_state := set_route_index (w_state w); w_disk := w_disk w |}, [], [])
  | MergeNodes nodes contact =>
      let '(changed, w') := change_nodes (fun kn =>
        let '(changed, kn) := merge_nodes (node_id (st_config (w_state w))) now nodes kn in
        (changed, refresh_contact contact now kn)) w in
      (w', if changed : bool then [Persist] else [], [])
  | Join id addr =>
      let '(changed, w') := change_nodes (node_join now id addr) w in
      (w', if changed : bool then [Persist] else [], [])
  | Leave id => ((change_nodes (fun kn => (tt, delete id kn)) w).2, [], [])
  | Persist => (persist_state save w, [], [])
  | Announce dc => (w, [], [Broadcast (broadcast_message (w_state w) (ConfigUpdate dc))])
  | Answer r => (w, [], [Replied r])
  | AnswerSync => (w, [], [RepliedSync (build_sync_msg (w_state w))])
  end.

(** ** Handlers *)

Inductive Request :=
| RGossip (peer : string) (msg : Message)
| RSyncReply (addr : string) (reply : Message)
| RAdmin (peer_cn : option string) (op : AdminOp)
| RPoll.

(** The sections a handler starts with. *)
Definition program (c : Config) (r : Request) : list Sec :=
  match r with
  | RGossip peer (Sync config nodes) =>
      [Adopt config; MergeNodes (if str_is_empty peer then nodes else fix_unroutable_addrs peer nodes) None; AnswerSync]
  | RGossip _ (ConfigUpdate config) => [Adopt config]
  | RGossip _ (NodeJoin id addr) => if is_valid_node_id id then [Join id addr] else []
  | RGossip _ (NodeLeave id) => [Leave id]
  | RGossip _ _ => []
  | RSyncReply addr (Sync config nodes) => [Adopt config; MergeNodes (fix_unroutable_addrs addr nodes) (Some addr)]
  | RSyncReply _ _ => []
  | RAdmin peer_cn op =>
      let allowed := match peer_cn with
                     | Some cn => any (fun a => str_eqb a cn) (admin_cns c)
                     | None => false
                     end in
      if negb allowed then [Answer (RErr Unauthorized "client cert CN not in adminCns allowlist")]
      else if bool_decide (mode c = Subscribe)
      then [Answer (RErr Validation "admin RPC not supported in subscribe-only mode")]
      else [Admin op]
  | RPoll => [Poll]
  end.

(** How a section's save goes. *)
Definition save_of (save : Saves) (c : Sec) : SaveOutcome :=
  match c with Persist => sv_nodes save | _ => sv_config save end.

(** A handler that nothing interrupts. *)
Fixpoint run_alone (fuel : nat) (save : Saves) (now : Z) (l : list Sec) (w : World) : World * list Sent :=
  match fuel, l with
  | S fuel, c :: l =>
      let '(w, more, sent) := exec (save_of save c) now c w in
      let '(w, rest) := run_alone fuel save now (more ++ l) w in (w, sent ++ rest)
  | _, _ => (w, [])
  end.

(** ** Everything together

    The world, the tasks with the sections each has left, and every configuration
    the daemon has run, newest first. *)
Record Conc := { cc_world : World; cc_tasks : gmap nat (list Sec); cc_ran : list DynamicConfig }.

Inductive Turn :=
| Start (i : nat) (r : Request)
| Run (i : nat) (save : SaveOutcome) (now : Z)
| EditFile (disk : option Config).

Definition reading (l : list Sec) : bool := match l with c :: _ => holds_read c | [] => false end.

Definition locked (tasks : gmap nat (list Sec)) : bool := any reading (map_to_list tasks).*2.

(** A section that may count the version up, and whether there is room for it. *)
Definition bumps (c : Sec) : bool := match c with Admin _ | Poll => true | _ => false end.
Definition room (w : World) : bool := (0 <=? w_version w)%Z && (w_version w <? u64_max)%Z.

Definition turn (t : Turn) (c : Conc) : option Conc :=
  match t with
  | Start i r =>
      match cc_tasks c !! i with
      | Some _ => None
      | None => Some {| cc_world := cc_world c; cc_ran := cc_ran c;
                        cc_tasks := <[i := program (st_config (w_state (cc_world c))) r]> (cc_tasks c) |}
      end
  | Run i save now =>
      match cc_tasks c !! i with
      | Some (sec :: l) =>
          if needs_write sec && locked (cc_tasks c) || bumps sec && negb (room (cc_world c)) then None
          else
            let '(w, more, _) := exec save now sec (cc_world c) in
            Some {| cc_world := w; cc_tasks := <[i := more ++ l]> (cc_tasks c);
                    cc_ran := if bool_decide (w_dc w = w_dc (cc_world c)) then cc_ran c else w_dc w :: cc_ran c |}
      | _ => None
      end
  | EditFile disk =>
      Some {| cc_world := {| w_state := w_state (cc_world c); w_disk := disk |}; cc_tasks := cc_tasks c; cc_ran := cc_ran c |}
  end.

Definition cstep (c c' : Conc) : Prop := exists t, turn t c = Some c'.

Definition start_conc (w : World) : Conc := {| cc_world := w; cc_tasks := ∅; cc_ran := [w_dc w] |}.

(** ** A handler alone is Gossip's *)

Definition handled (save : Saves) (now : Z) (r : Request) (w : World) : World * list Sent :=
  match r with
  | RGossip peer msg =>
      let '(w', reply) := handle_gossip_message save now peer msg w in
      (w', match reply with Some m => [RepliedSync m] | None => [] end)
  | RSyncReply addr reply => (handle_sync_reply save now addr reply w, [])
  | RAdmin peer_cn op =>
      let '(w', r, messages) := handle_admin_request (sv_config save) peer_cn op w in
      (w', match r with ROk _ => [Broadcast messages; Replied r] | RErr _ _ => [Replied r] end)
  | RPoll => let '(w', messages) := config_poll (sv_config save) w in
             (w', match polled w with Some _ => [Broadcast messages] | None => [] end)
  end.

Lemma rebuild_in_two s : set_route_index (set_service_index s) = rebuild_service_index s.
Proof. done. Qed.

Lemma adopt_store save dc w :
  {| w_state := set_route_index (set_service_index (w_state (store_config save dc w))); w_disk := w_disk (store_config save dc w) |}
  = adopt_config save dc w.
Proof. done. Qed.

Lemma run_cons fuel save now c l w :
  run_alone (S fuel) save now (c :: l) w
  = let '(w, more, sent) := exec (save_of save c) now c w in
    let '(w, rest) := run_alone fuel save now (more ++ l) w in (w, sent ++ rest).
Proof. done. Qed.

Lemma run_rebuild fuel save now l w :
  run_alone (S (S (S fuel))) save now (Rebuild :: l) w
  = run_alone fuel save now l {| w_state := rebuild_service_index (w_state w); w_disk := w_disk w |}.
Proof. cbn [run_alone save_of exec app w_state w_disk]. rewrite rebuild_in_two. by destruct (run_alone fuel save now l _). Qed.

(** [merge_sync], with what follows it. *)
Lemma run_merge save now config nodes contact rest w :
  rest = [] \/ rest = [AnswerSync] ->
  run_alone 8 save now (Adopt config :: MergeNodes nodes contact :: rest) w
  = let w' := merge_sync save now config nodes contact w in
    (w', match rest with [] => [] | _ => [RepliedSync (build_sync_msg (w_state w'))] end).
Proof.
  intros Hrest. unfold merge_sync. change (dc_version (st_dynamic_config (w_state w))) with (w_version w).
  assert (Hm : forall w1 fuel, 3 <= fuel ->
    run_alone fuel save now (MergeNodes nodes contact :: rest) w1
    = let w' := let '(nodes_changed, s) := update_known_nodes (fun kn =>
          let '(changed, kn) := merge_nodes (node_id (st_config (w_state w1))) now nodes kn in
          (changed, refresh_contact contact now kn)) (w_state w1) in
        let w := {| w_state := s; w_disk := w_disk w1 |} in
        if nodes_changed : bool then persist_state (sv_nodes save) w else w in
      (w', match rest with [] => [] | _ => [RepliedSync (build_sync_msg (w_state w'))] end)).
  { intros w1 fuel Hf. destruct fuel as [|[|[|fuel]]]; [lia..|]. cbn [run_alone save_of exec]. unfold change_nodes.
    destruct (update_known_nodes _ (w_state w1)) as [[] s]; destruct Hrest as [->| ->]; cbn [app run_alone save_of exec]; try done;
      by destruct fuel. }
  destruct (w_version w <? dc_version config)%Z eqn:Hv.
  - rewrite run_cons. cbn [save_of exec]. rewrite Hv. cbn [app]. rewrite run_rebuild, Hm by lia. done.
  - rewrite run_cons. cbn [save_of exec]. rewrite Hv. cbn [app]. rewrite Hm by lia. done.
Qed.

(** Uninterrupted, a handler does what Gossip says it does in one step. *)
Lemma alone_is_handled save now r w :
  run_alone 8 save now (program (st_config (w_state w)) r) w = handled save now r w.
Proof.
  destruct r as [peer msg|addr reply|cn op|]; cbn [program handled].
  - destruct msg; try done; cbn [handle_gossip_message apply_message].
    + rewrite run_merge by auto. done.
    + rewrite run_cons. cbn [save_of exec]. change (dc_version (st_dynamic_config (w_state w))) with (w_version w).
      destruct (w_version w <? dc_version config)%Z; [|done]. cbn [app]. by rewrite run_rebuild.
    + destruct (is_valid_node_id id); [|done]. cbn [run_alone save_of exec negb]. unfold change_nodes.
      by destruct (update_known_nodes _ (w_state w)) as [[] s].
  - destruct reply; try done. cbn [handle_sync_reply]. by rewrite run_merge by auto.
  - unfold handle_admin_request. destruct (negb _); [done|]. case_bool_decide; [done|]. rewrite run_cons. cbn [save_of exec].
    unfold w_dc. destruct (admin_mutation op _) as [dc [v|e]]; [|done]. cbn [app]. by rewrite run_rebuild.
  - unfold config_poll, polled. rewrite run_cons. cbn [save_of exec]. unfold polled, w_dc. destruct (w_disk w) as [cfg|]; [|done].
    cbn [mbind option_bind]. destruct (_ || _); [|done]. cbn [app]. by rewrite run_rebuild.
Qed.

(** ** What a section does to the configuration and the indexes *)

Definition indexes (w : World) : gmap (string * string) Service * gmap string (list Route) :=
  (st_service_index (w_state w), st_routes (w_state w)).
Definition indexes_of (dc : DynamicConfig) : gmap (string * string) Service * gmap string (list Route) :=
  (build_service_index dc, build_route_index dc).

(** Whether a task has yet to store the service index, or the routes. *)
Definition pending_index (l : list Sec) : bool :=
  any (fun c => match c with Rebuild | StoreIndex => true | _ => false end) l.
Definition pending_routes (l : list Sec) : bool :=
  any (fun c => match c with Rebuild | StoreIndex | StoreRoutes => true | _ => false end) l.

(** The versions a task is to acknowledge. *)
Definition acks (l : list Sec) : list Z :=
  omap (fun c => match c with Answer (ROk v) => Some v | _ => None end) l.

Definition plain (l : list Sec) : Prop := Forall (fun c => holds_read c = false) l.

Inductive effect (w w' : World) : Sec -> list Sec -> Prop :=
| EChange c extra : needs_write c = true -> (w_version w < w_version w')%Z -> indexes w' = indexes w -> plain extra ->
    (forall v, v ∈ acks extra -> v = w_version w') -> effect w w' c (Rebuild :: extra)
| ERebuild : w' = w -> effect w w' Rebuild [StoreIndex]
| EIndex : w_dc w' = w_dc w -> indexes w' = (build_service_index (w_dc w), (indexes w).2) -> effect w w' StoreIndex [StoreRoutes]
| ERoutes : w_dc w' = w_dc w -> indexes w' = ((indexes w).1, build_route_index (w_dc w)) -> effect w w' StoreRoutes []
| ENone c more : pending_routes [c] = false -> w_dc w' = w_dc w -> indexes w' = indexes w -> plain more -> pending_routes more = false -> acks more = [] ->
    effect w w' c more.

Lemma change_nodes_same {R} (f : gmap string NodeInfo -> R * gmap string NodeInfo) w :
  w_dc (change_nodes f w).2 = w_dc w /\ indexes (change_nodes f w).2 = indexes w.
Proof.
  unfold change_nodes, w_dc, indexes. destruct (update_known_nodes_frame f (w_state w)) as (Hd & _ & Hs & Hr & _).
  destruct (update_known_nodes f (w_state w)) as [r st]. simpl in *. by rewrite Hd, Hs, Hr.
Qed.

Ltac unchanged := apply ENone; try done; by repeat constructor.

Lemma exec_effect save now c w :
  (bumps c = true -> room w = true) ->
  let '(w', more, _) := exec save now c w in effect w w' c more.
Proof.
  intros Hroom. assert (Hroom' : bumps c = true -> (0 <= w_version w < u64_max)%Z).
  { intros Hb. specialize (Hroom Hb). unfold room in Hroom. apply andb_true_iff in Hroom. lia. }
  clear Hroom. destruct c as [op|config| | | | |nodes contact|id addr|id| |dc|r|]; cbn [save_of exec].
  - pose proof (admin_mutation_version op (w_dc w)) as Hv. destruct (admin_mutation op (w_dc w)) as [dc [v|e]].
    + destruct Hv as [Hv1 Hv2]. rewrite wrap64_succ_gt in Hv2 by (by apply Hroom'). apply EChange; try done.
      * unfold w_version, w_dc, store_config in *. simpl. lia.
      * by repeat constructor.
      * intros x Hx. simpl in Hx. apply list_elem_of_singleton in Hx. by subst x.
    + subst dc. unchanged.
  - destruct (Z.ltb_spec (w_version w) (dc_version config)); [|unchanged].
    apply EChange; try done; [by repeat constructor|by intros v ?%not_elem_of_nil].
  - unfold polled. destruct (w_disk w) as [cfg|]; cbn [mbind option_bind]; [|unchanged].
    destruct (_ || _) eqn:Hb; [|unchanged]. apply EChange; try done.
    + specialize (Hroom' eq_refl). unfold w_version, store_config. cbn [w_state]. unfold w_dc at 2. cbn [w_state st_dynamic_config set_dynamic_config].
      unfold w_version in Hroom'. destruct (Z.leb_spec (dc_version (dynamic_config cfg)) (dc_version (w_dc w))); simpl; [|lia].
      rewrite wrap64_succ_gt by done. lia.
    + by repeat constructor.
    + by intros v ?%not_elem_of_nil.
  - by apply ERebuild.
  - by apply EIndex.
  - by apply ERoutes.
  - set (f := fun kn : gmap string NodeInfo => _). pose proof (change_nodes_same f w) as [Hd Hi].
    destruct (change_nodes f w) as [[] w']; unchanged.
  - pose proof (change_nodes_same (node_join now id addr) w) as [Hd Hi].
    destruct (change_nodes _ w) as [[] w']; unchanged.
  - pose proof (change_nodes_same (fun kn : gmap string NodeInfo => (tt, delete id kn)) w) as [Hd Hi]. unchanged.
  - unchanged.
  - unchanged.
  - unchanged.
  - unchanged.
Qed.

(** ** The invariant *)

(** What an acknowledged version has come to: a configuration the daemon ran, and
    once its task has stored an index, an index at least as new. *)
Definition ack_ok (ran : list DynamicConfig) (di dr : DynamicConfig) (l : list Sec) (v : Z) : Prop :=
  (exists dc, dc ∈ ran /\ dc_version dc = v)
  /\ (pending_index l = false -> (v <= dc_version di)%Z)
  /\ (pending_routes l = false -> (v <= dc_version dr)%Z).

Definition newer (a b : DynamicConfig) : Prop := (dc_version b < dc_version a)%Z.

Record conc_ok (c : Conc) : Prop := {
  co_ran : (exists rest, cc_ran c = w_dc (cc_world c) :: rest) /\ StronglySorted newer (cc_ran c);
  co_tail : forall i l, cc_tasks c !! i = Some l -> plain (tail l);
  co_locked : forall i l, cc_tasks c !! i = Some (StoreRoutes :: l) ->
    (indexes (cc_world c)).1 = build_service_index (w_dc (cc_world c));
  co_index : (indexes (cc_world c)).1 = build_service_index (w_dc (cc_world c))
    \/ exists i l, cc_tasks c !! i = Some l /\ pending_index l = true;
  co_routes : (indexes (cc_world c)).2 = build_route_index (w_dc (cc_world c))
    \/ exists i l, cc_tasks c !! i = Some l /\ pending_routes l = true;
  co_from : exists di dr, di ∈ cc_ran c /\ dr ∈ cc_ran c
    /\ indexes (cc_world c) = (build_service_index di, build_route_index dr)
    /\ forall i l v, cc_tasks c !! i = Some l -> v ∈ acks l -> ack_ok (cc_ran c) di dr l v
}.

Lemma pending_index_routes l : pending_routes l = false -> pending_index l = false.
Proof. unfold pending_routes, pending_index. induction l as [|c l IH]; [done|]. by destruct c. Qed.

Lemma any_app {A} (p : A -> bool) l1 l2 : any p (l1 ++ l2) = any p l1 || any p l2.
Proof. induction l1 as [|x l1 IH]; simpl; [done|]. by rewrite IH, orb_assoc. Qed.

Lemma acks_app l1 l2 : acks (l1 ++ l2) = acks l1 ++ acks l2.
Proof. apply omap_app. Qed.

Lemma ran_newest c dc : conc_ok c -> dc ∈ cc_ran c -> (dc_version dc <= w_version (cc_world c))%Z.
Proof.
  intros [[[rest ->] Hs] _ _ _ _ _] [->|Hin]%elem_of_cons; [done|].
  apply StronglySorted_inv in Hs as [_ Hs]. rewrite Forall_forall in Hs. specialize (Hs _ Hin). unfold newer, w_version in *. lia.
Qed.

(** Nothing holds the lock when a writer gets it. *)
Lemma not_locked tasks i l : locked tasks = false -> tasks !! i = Some l -> reading l = false.
Proof.
  intros Hl Hi. destruct (reading l) eqn:Hr; [|done]. enough (locked tasks = true) by congruence.
  apply any_true. exists l. split; [|done]. apply list_elem_of_fmap. exists (i, l). split; [done|]. by apply elem_of_map_to_list.
Qed.

Lemma plain_tail l : plain l -> plain (tail l).
Proof. intros Hl. destruct l; [done|]. by inversion Hl. Qed.

Lemma ack_ran ran ran' di dr l v : (forall dc, dc ∈ ran -> dc ∈ ran') -> ack_ok ran di dr l v -> ack_ok ran' di dr l v.
Proof. intros Hr ((dc & Hdc & Hv) & Ha). split; [|done]. exists dc. auto. Qed.

Section run.
Context (c : Conc) (i : nat) (sec : Sec) (l : list Sec) (w' : World) (more : list Sec).
Hypothesis (Hc : conc_ok c) (Hi : cc_tasks c !! i = Some (sec :: l)).

Definition after_run : Conc :=
  {| cc_world := w'; cc_tasks := <[i := more ++ l]> (cc_tasks c);
     cc_ran := if bool_decide (w_dc w' = w_dc (cc_world c)) then cc_ran c else w_dc w' :: cc_ran c |}.

Lemma after_lookup j k :
  cc_tasks after_run !! j = Some k -> (i = j /\ more ++ l = k) \/ (i <> j /\ cc_tasks c !! j = Some k).
Proof. apply lookup_insert_Some. Qed.

Lemma after_self : cc_tasks after_run !! i = Some (more ++ l).
Proof. apply lookup_insert_eq. Qed.

Lemma after_tail : plain (tail more) -> forall j k, cc_tasks after_run !! j = Some k -> plain (tail k).
Proof.
  intros Hm j k [[<- <-]|[_ Hj]]%after_lookup; [|by eapply (co_tail _ Hc)].
  pose proof (co_tail _ Hc i _ Hi) as Hl. simpl in Hl. destruct more as [|x m]; simpl in *; [by apply plain_tail|].
  by apply Forall_app.
Qed.

(** Sections that leave the configuration as it is. *)
Lemma same_ran : w_dc w' = w_dc (cc_world c) -> cc_ran after_run = cc_ran c.
Proof. intros Hd. simpl. by rewrite bool_decide_true. Qed.

Lemma ack_exists j k v : cc_tasks c !! j = Some k -> v ∈ acks k ->
  (exists dc, dc ∈ cc_ran c /\ dc_version dc = v) /\ (v <= w_version (cc_world c))%Z.
Proof.
  intros Hj Hv. destruct (co_from _ Hc) as (di & dr & _ & _ & _ & Ha). destruct (Ha j k v Hj Hv) as [(dc & Hdc & <-) _].
  split; [by exists dc|by apply ran_newest].
Qed.

Lemma run_change_ok extra : needs_write sec = true -> locked (cc_tasks c) = false ->
  (w_version (cc_world c) < w_version w')%Z -> indexes w' = indexes (cc_world c) -> plain extra ->
  (forall v, v ∈ acks extra -> v = w_version w') -> more = Rebuild :: extra -> conc_ok after_run.
Proof.
  intros Hw Hlock Hv Hidx Hp Hacks Hmore.
  assert (Hran : cc_ran after_run = w_dc w' :: cc_ran c).
  { simpl. rewrite bool_decide_false; [done|]. intros He. unfold w_version in Hv. rewrite He in Hv. lia. }
  split.
  - rewrite Hran. split; [by eexists|]. constructor; [apply Hc|]. apply Forall_forall. intros dc Hdc.
    pose proof (ran_newest _ _ Hc Hdc). unfold newer, w_version in *. lia.
  - apply after_tail. by rewrite Hmore.
  - intros j k [[<- Hk]|[_ Hj]]%after_lookup; [by rewrite Hmore in Hk|]. by apply (not_locked _ _ _ Hlock) in Hj.
  - right. exists i, (more ++ l). by rewrite after_self, Hmore.
  - right. exists i, (more ++ l). by rewrite after_self, Hmore.
  - destruct (co_from _ Hc) as (di & dr & Hdi & Hdr & Hind & Ha). exists di, dr. rewrite Hran. simpl cc_world. rewrite Hidx.
    split; [by right|]. split; [by right|]. split; [done|]. intros j k v [[<- <-]|[Hne Hj]]%after_lookup Hin.
    + rewrite Hmore in *. split; [|by split]. rewrite <- app_comm_cons in Hin. simpl in Hin. rewrite acks_app in Hin.
      apply elem_of_app in Hin as [Hin|Hin].
      * exists (w_dc w'). split; [by left|]. by rewrite (Hacks v Hin).
      * destruct (ack_exists i (sec :: l) v Hi) as [(dc & Hdc & Hv') _].
        { change (v ∈ acks ([sec] ++ l)). rewrite acks_app. apply elem_of_app. by right. }
        exists dc. split; [by right|done].
    + eapply ack_ran; [|by apply (Ha j)]. by right.
Qed.

Lemma pending_moves (p : list Sec -> bool) :
  (exists j k, cc_tasks c !! j = Some k /\ p k = true) -> (p (sec :: l) = true -> p (more ++ l) = true) ->
  exists j k, cc_tasks after_run !! j = Some k /\ p k = true.
Proof.
  intros (j & k & Hj & Hp) Hm. destruct (decide (j = i)) as [->|Hne].
  - exists i, (more ++ l). rewrite after_self. split; [done|]. apply Hm. congruence.
  - exists j, k. split; [|done]. simpl. by rewrite lookup_insert_ne.
Qed.

(** The sections that leave the configuration alone: [di] and [dr] are what the indexes
    come from afterwards. *)
Lemma run_same_ok di dr :
  w_dc w' = w_dc (cc_world c) -> plain (tail more) -> (forall v, v ∈ acks (more ++ l) -> v ∈ acks (sec :: l)) ->
  (indexes w').1 = build_service_index (w_dc w') \/ (indexes w').1 = (indexes (cc_world c)).1 /\ sec <> StoreIndex ->
  (indexes w').2 = build_route_index (w_dc w') \/ (indexes w').2 = (indexes (cc_world c)).2 /\ sec <> StoreRoutes ->
  (head (more ++ l) = Some StoreRoutes -> (indexes w').1 = build_service_index (w_dc w')) ->
  (sec <> StoreIndex -> pending_index (sec :: l) = pending_index (more ++ l)) ->
  (sec <> StoreRoutes -> pending_routes (sec :: l) = pending_routes (more ++ l)) ->
  di ∈ cc_ran c -> dr ∈ cc_ran c -> indexes w' = (build_service_index di, build_route_index dr) ->
  (forall j k v, cc_tasks after_run !! j = Some k -> v ∈ acks k ->
    (pending_index k = false -> (v <= dc_version di)%Z) /\ (pending_routes k = false -> (v <= dc_version dr)%Z)) ->
  conc_ok after_run.
Proof.
  intros Hd Ht Hacks Hix Hrx Hhead Hpi Hpr Hdi Hdr Hind Hv. pose proof (same_ran Hd) as Hran. split.
  - rewrite Hran. simpl cc_world. rewrite Hd. apply Hc.
  - by apply after_tail.
  - intros j k [[<- Hk]|[_ Hj]]%after_lookup; simpl cc_world; [apply Hhead; by rewrite Hk|].
    pose proof (co_locked _ Hc _ _ Hj) as Hl. destruct Hix as [Hix|[Hix _]]; [done|]. by rewrite Hix, Hd.
  - simpl cc_world. destruct Hix as [Hix|[Hix Hne]]; [by left|]. rewrite Hix, Hd.
    destruct (co_index _ Hc) as [Hl|Hp]; [by left|right]. apply pending_moves; [done|]. by rewrite Hpi.
  - simpl cc_world. destruct Hrx as [Hrx|[Hrx Hne]]; [by left|]. rewrite Hrx, Hd.
    destruct (co_routes _ Hc) as [Hl|Hp]; [by left|right]. apply pending_moves; [done|]. by rewrite Hpr.
  - exists di, dr. rewrite Hran. split; [done|]. split; [done|]. split; [done|]. intros j k v Hj Hin.
    split; [|by apply (Hv j)]. apply after_lookup in Hj as [[<- <-]|[_ Hj]].
    + apply Hacks in Hin. by apply (ack_exists i (sec :: l)).
    + by apply (ack_exists j k).
Qed.

End run.

Lemma run_effect_ok c i sec l w' more :
  conc_ok c -> cc_tasks c !! i = Some (sec :: l) -> (needs_write sec = true -> locked (cc_tasks c) = false) ->
  effect (cc_world c) w' sec more -> conc_ok (after_run c i l w' more).
Proof.
  intros Hc Hi Hlock Heff. destruct (co_from _ Hc) as (di & dr & Hdi & Hdr & Hind & Ha).
  assert (Hcur : w_dc (cc_world c) ∈ cc_ran c) by (destruct (co_ran _ Hc) as [[rest ->] _]; by left).
  pose proof (co_tail _ Hc i _ Hi) as Hl. simpl in Hl.
  destruct Heff as [sec extra Hw Hv Hidx Hp Hacks| ->|Hd Hidx|Hd Hidx|sec more Hnp Hd Hidx Hp Hnr Hacks].
  - apply (run_change_ok c i sec l w' _ Hc Hi extra); auto.
  - apply (run_same_ok c i Rebuild l _ _ Hc Hi di dr); try done; [exact (List.Forall_nil _)|by right|by right|].
    intros j k v [[<- <-]|[_ Hj]]%after_lookup Hin; [by destruct (Ha i _ v Hi Hin) as (_ & H1 & H2)|].
    by destruct (Ha j k v Hj Hin) as (_ & H1 & H2).
  - apply (run_same_ok c i StoreIndex l _ _ Hc Hi (w_dc (cc_world c)) dr); try done.
    + exact (List.Forall_nil _).
    + left. by rewrite Hidx, Hd.
    + right. by rewrite Hidx.
    + intros _. by rewrite Hidx, Hd.
    + by rewrite Hidx, Hind.
    + intros j k v [[<- <-]|[_ Hj]]%after_lookup Hin.
      * split; [intros _|done]. by apply (ack_exists c Hc i (StoreIndex :: l)).
      * destruct (Ha j k v Hj Hin) as (_ & _ & H2). split; [intros _; by apply (ack_exists c Hc j k)|done].
  - apply (run_same_ok c i StoreRoutes l _ _ Hc Hi di (w_dc (cc_world c))); try done.
    + exact (List.Forall_nil _).
    + right. by rewrite Hidx.
    + left. by rewrite Hidx, Hd.
    + simpl. intros Hh. destruct l as [|x l']; [done|]. simpl in Hh. injection Hh as ->. by inversion Hl.
    + by rewrite Hidx, Hind.
    + intros j k v [[<- <-]|[_ Hj]]%after_lookup Hin.
      * destruct (Ha i _ v Hi Hin) as (_ & H1 & _). split; [done|]. intros _. by apply (ack_exists c Hc i (StoreRoutes :: l)).
      * destruct (Ha j k v Hj Hin) as (_ & H1 & _). split; [done|]. intros _. by apply (ack_exists c Hc j k).
  - pose proof (pending_index_routes [sec] Hnp) as Hni. pose proof (pending_index_routes more Hnr) as Hnmi.
    assert (Hpi : pending_index (sec :: l) = pending_index (more ++ l)).
    { change (sec :: l) with ([sec] ++ l). unfold pending_index in *. rewrite !any_app. by rewrite Hni, Hnmi. }
    assert (Hpr : pending_routes (sec :: l) = pending_routes (more ++ l)).
    { change (sec :: l) with ([sec] ++ l). unfold pending_routes in *. rewrite !any_app. by rewrite Hnp, Hnr. }
    assert (Hax : forall v, v ∈ acks (more ++ l) -> v ∈ acks (sec :: l)).
    { intros v Hv. rewrite acks_app, Hacks in Hv. change (sec :: l) with ([sec] ++ l). rewrite acks_app. apply elem_of_app. by right. }
    apply (run_same_ok c i sec l _ _ Hc Hi di dr); try done.
    + by apply plain_tail.
    + right. rewrite Hidx. split; [done|]. by intros ->.
    + right. rewrite Hidx. split; [done|]. by intros ->.
    + intros Hh. exfalso. destruct more as [|x m]; [destruct l as [|x l']; [done|]|]; simpl in Hh; injection Hh as ->;
        [by inversion Hl|by inversion Hp].
    + by rewrite Hidx.
    + intros j k v [[<- <-]|[_ Hj]]%after_lookup Hin; [|by destruct (Ha j k v Hj Hin) as (_ & H1 & H2)].
      destruct (Ha i _ v Hi (Hax v Hin)) as (_ & H1 & H2). by rewrite <- Hpi, <- Hpr.
Qed.

Lemma program_plain cfg r : plain (program cfg r) /\ acks (program cfg r) = [].
Proof.
  destruct r as [peer []|addr []|cn op|]; simpl; repeat case_match; try done; split; try done; by repeat constructor.
Qed.

Lemma start_turn_ok c i r : conc_ok c -> cc_tasks c !! i = None ->
  conc_ok {| cc_world := cc_world c; cc_ran := cc_ran c;
             cc_tasks := <[i := program (st_config (w_state (cc_world c))) r]> (cc_tasks c) |}.
Proof.
  intros [Hr Ht Hl Hi Hx Hf] Hnone. destruct (program_plain (st_config (w_state (cc_world c))) r) as [Hp Ha].
  set (p := program _ r) in *.
  assert (Hold : forall q : list Sec -> bool, (exists j k, cc_tasks c !! j = Some k /\ q k = true) ->
    exists j k, <[i := p]> (cc_tasks c) !! j = Some k /\ q k = true).
  { intros q (j & k & Hj & Hq). exists j, k. rewrite lookup_insert_ne; [done|]. intros ->. congruence. }
  split; cbn [cc_world cc_tasks cc_ran]; [done| | |destruct Hi; auto|destruct Hx; auto|].
  - intros j k [[<- <-]|[_ Hj]]%lookup_insert_Some; [by apply plain_tail|by apply (Ht j)].
  - intros j k [[<- Hk]|[_ Hj]]%lookup_insert_Some; [rewrite Hk in Hp; by inversion Hp|by apply (Hl j k)].
  - destruct Hf as (di & dr & Hdi & Hdr & Hind & Hack). exists di, dr. split; [done|]. split; [done|]. split; [done|].
    intros j k v [[<- <-]|[_ Hj]]%lookup_insert_Some Hv; [rewrite Ha in Hv; by apply not_elem_of_nil in Hv|by apply (Hack j)].
Qed.

Lemma cstep_ok c c' : conc_ok c -> cstep c c' -> conc_ok c'.
Proof.
  intros Hc [t Ht]. destruct t as [i r|i save now|disk]; simpl in Ht.
  - destruct (cc_tasks c !! i) eqn:Hi; [done|]. injection Ht as <-. by apply start_turn_ok.
  - destruct (cc_tasks c !! i) as [[|sec l]|] eqn:Hi; try done.
    destruct (needs_write sec && locked (cc_tasks c) || bumps sec && negb (room (cc_world c))) eqn:Hb; [done|].
    apply orb_false_iff in Hb as [Hlock Hroom]. pose proof (exec_effect save now sec (cc_world c)) as He.
    destruct (exec save now sec (cc_world c)) as [[w' more] sent]. injection Ht as <-.
    apply (run_effect_ok c i sec l w' more Hc Hi).
    + intros Hw. by rewrite Hw in Hlock.
    + apply He. intros Hbump. rewrite Hbump in Hroom. by destruct (room _).
  - injection Ht as <-. destruct Hc as [Hr Htl Hl Hi Hx Hf]. by split.
Qed.

Lemma start_conc_ok w : index_ok (w_state w) -> conc_ok (start_conc w).
Proof.
  intros [Hi Hr]. split; simpl.
  - split; [by exists []|]. by repeat constructor.
  - intros j k Hj. by rewrite lookup_empty in Hj.
  - intros j k Hj. by rewrite lookup_empty in Hj.
  - left. exact Hi.
  - left. exact Hr.
  - exists (w_dc w), (w_dc w). split; [by left|]. split; [by left|]. split; [unfold indexes; by rewrite Hi, Hr|].
    intros j k v Hj. by rewrite lookup_empty in Hj.
Qed.

Lemma conc_reachable w c : index_ok (w_state w) -> steps cstep (start_conc w) c -> conc_ok c.
Proof.
  intros Hw Hs. eapply (steps_invariant cstep conc_ok); [apply cstep_ok|by apply start_conc_ok|exact Hs].
Qed.

(** No two configurations a daemon runs have the same version. *)
Lemma ran_version_inj ran a b : StronglySorted newer ran -> a ∈ ran -> b ∈ ran -> dc_version a = dc_version b -> a = b.
Proof.
  induction 1 as [|x l Hl IH Hx]; [by intros ?%not_elem_of_nil|]. rewrite Forall_forall in Hx. unfold newer in Hx.
  intros [->|Ha]%elem_of_cons [->|Hb]%elem_of_cons Hv; auto.
  - specialize (Hx _ Hb). lia.
  - specialize (Hx _ Ha). lia.
Qed.

(** ** Property *)

(** C11: An acknowledged change is in force. However the handlers' sections interleave, and
    whatever happens to the file: the versions of the configurations a daemon runs only
    go up; once no handler has an index left to store, both indexes are those of the
    running configuration; and when an admin request is answered with a version, the
    daemon ran the configuration of that version, and each index that requests are
    routed by is that configuration's or a newer one's. *)
Theorem acknowledged_in_force w c (Hw : index_ok (w_state w)) (Hreach : steps cstep (start_conc w) c) :
  StronglySorted newer (cc_ran c)
  /\ ((forall i l, cc_tasks c !! i = Some l -> pending_routes l = false) -> index_ok (w_state (cc_world c)))
  /\ (forall i v, cc_tasks c !! i = Some [Answer (ROk v)] ->
        exists dv di dr, dv ∈ cc_ran c /\ dc_version dv = v
          /\ st_service_index (w_state (cc_world c)) = build_service_index di /\ di ∈ cc_ran c /\ (di = dv \/ newer di dv)
          /\ st_routes (w_state (cc_world c)) = build_route_index dr /\ dr ∈ cc_ran c /\ (dr = dv \/ newer dr dv)).
Proof.
  pose proof (conc_reachable w c Hw Hreach) as [[Hran Hsort] _ _ Hi Hr Hfrom]. split; [done|]. split.
  - intros Hq. split.
    + destruct Hi as [Hi|(i & l & Hil & Hp)]; [exact Hi|]. by rewrite (pending_index_routes l (Hq i l Hil)) in Hp.
    + destruct Hr as [Hr|(i & l & Hil & Hp)]; [exact Hr|]. by rewrite (Hq i l Hil) in Hp.
  - intros i v Hiv. destruct Hfrom as (di & dr & Hdi & Hdr & Hind & Hack).
    destruct (Hack i _ v Hiv) as ((dv & Hdv & <-) & H1 & H2); [by left|]. specialize (H1 eq_refl). specialize (H2 eq_refl).
    injection Hind as Hsi Hro. exists dv, di, dr.
    assert (Hor : forall d, d ∈ cc_ran c -> (dc_version dv <= dc_version d)%Z -> d = dv \/ newer d dv).
    { intros d Hd Hle. destruct (decide (dc_version d = dc_version dv)) as [He|Hne]; [left; by eapply ran_version_inj|].
      right. unfold newer. lia. }
    split_and!; auto.
Qed.
End sections.

(** ** Witness *)

Module Examples.

#[local] Existing Instance Dynamic.Examples.http_crate.

Definition world : World := Gossip.Examples.world "a" (Gossip.Examples.dc 3 "old").

Definition run_turns (turns : list Turn) (c : Conc) : option Conc :=
  foldl (fun (o : option Conc) t => c ← o; turn t c) (Some c) turns.

Lemma run_turns_steps turns c c' : run_turns turns c = Some c' -> steps cstep c c'.
Proof.
  unfold run_turns. revert c. induction turns as [|t turns IH]; simpl; intros c Hc; [injection Hc as <-; apply steps_refl|].
  destruct (turn t c) as [c1|] eqn:Ht.
  - eapply steps_trans; [|by apply IH]. eapply steps_step; [apply steps_refl|by exists t].
  - exfalso. clear -Hc. induction turns as [|b turns IH]; simpl in Hc; [done|auto].
Qed.

(** A removal by admin request, with a newer configuration arriving by gossip after it
    and storing its indexes first. *)
Definition turns : list Turn :=
  [Start 1 (RAdmin (Some "ops") Gossip.Examples.added); Start 2 (RGossip "b:1" (ConfigUpdate (Gossip.Examples.dc 9 "new")));
   Run 1 Saved 0; Run 2 Saved 0; Run 2 Saved 0; Run 1 Saved 0; Run 2 Saved 0; Run 1 Saved 0; Run 2 Saved 0; Run 1 Saved 0;
   Run 1 Saved 0].
Definition answered : Conc := default (start_conc world) (run_turns turns (start_conc world)).

Lemma in_force_witness :
  cc_tasks answered !! 1 = Some [Answer (ROk 4)] /\ (dc_version <$> cc_ran answered) = [9; 4; 3]%Z
  /\ index_ok (w_state (cc_world answered))
  /\ exists dv, dv ∈ cc_ran answered /\ dc_version dv = 4%Z.
Proof.
  assert (Ht : cc_tasks answered !! 1 = Some [Answer (ROk 4)]) by (vm_compute; reflexivity).
  split; [exact Ht|]. split; [vm_compute; reflexivity|].
  destruct (acknowledged_in_force world answered) as (_ & _ & Hack); [split; reflexivity| |].
  - apply (run_turns_steps turns). vm_compute. reflexivity.
  - split; [split; vm_compute; reflexivity|]. destruct (Hack 1 4%Z Ht) as (dv & _ & _ & Hdv & Hv & _). exists dv. split; [exact Hdv|exact Hv].
Defined.

(** The file is written over by whatever persists next. A command on the local file
    (or a hand edit) that raised the version is lost when a node joins before the
    daemon's next poll: the poll then finds the running configuration. *)
Definition edited : Config := Gossip.Examples.config "a" (Gossip.Examples.dc 4 "edited").

Example edit_lost_before_poll :
  let c := run_turns [EditFile (Some edited); Start 1 (RGossip "c:1" (NodeJoin "c" "c:8080")); Run 1 Saved 0; Run 1 Saved 0]
             (start_conc world) in
  (c ← c; cfg ← w_disk (cc_world c); Some (dc_version (dynamic_config cfg), cc_tasks c !! 1, bool_decide (is_Some (polled (cc_world c)))))
  = Some (3%Z, Some [], false).
Proof. vm_compute. reflexivity. Qed.

End Examples.
