(* ===== verification/Wire.v ===== *)
(** * Messages as bytes ([src/src/gossip/messages.rs], the serde attributes, and
    [encode_message] and [recv_message] of [src/src/gossip/mod.rs])

    [rename_all] on an enum renames its variants only: the fields of a message keep
    their names. The MessagePack encoding of a value ([rmp_serde], named fields) is
    the interface [MsgPack]; the codec of messages over it is defined here, and
    Messages' framing is proved for it. *)

From S2P Require Import Prelude NetAddr Dynamic Config State Messages Gossip Json ConfigFmt.

#[local] Open Scope stouter_scope.

(** ** Admin operations and results *)

Definition add_names : list string :=
  ["group"; "name"; "owner_node_id"; "port"; "domains"; "weight"; "max_connections"; "protocol";
   "request_timeout_ms"; "health_path"; "labels"; "meta"; "local_port"].

Definition admin_op_fields (op : AdminOp) : string * list (string * option Value) :=
  match op with
  | ServiceAdd group name owner port domains weight max proto timeout health labels meta local =>
      ("serviceAdd",
       [req vstring "group" group; req vstring "name" name; req vstring "owner_node_id" owner; req vu16 "port" port;
        req (vlist vstring) "domains" domains; req vu32 "weight" weight;
        req (voption vu32) "max_connections" max; req vprotocol "protocol" proto;
        req (voption vu64) "request_timeout_ms" timeout; req (voption vstring) "health_path" health;
        req vmap "labels" labels; req vmap "meta" meta; req (voption vu16) "local_port" local])
  | RoutesSet service routes =>
      ("routesSet", [req vstring "service" service; req (vlist vroute) "routes" routes])
  | ServiceRename group owner from to =>
      ("serviceRename", [req vstring "group" group; req vstring "owner_node_id" owner; req vstring "from" from;
                         req vstring "to" to])
  | ServiceRemove group owner name =>
      ("serviceRemove", [req vstring "group" group; req vstring "owner_node_id" owner; req vstring "name" name])
  end.

Definition read_add (fs : list (string * Value)) : option AdminOp :=
  let* group := field vstring "group" fs in
  let* name := field vstring "name" fs in
  let* owner := field vstring "owner_node_id" fs in
  let* port := field vu16 "port" fs in
  let* domains := field_or (vlist vstring) [] "domains" fs in
  let* weight := field_or vu32 default_weight "weight" fs in
  let* max := field_or (voption vu32) None "max_connections" fs in
  let* proto := field_or vprotocol Tcp "protocol" fs in
  let* timeout := field_or (voption vu64) None "request_timeout_ms" fs in
  let* health := field_or (voption vstring) None "health_path" fs in
  let* labels := field_or vmap ∅ "labels" fs in
  let* meta := field_or vmap ∅ "meta" fs in
  let* local := field_or (voption vu16) None "local_port" fs in
  Some (ServiceAdd group name owner port domains weight max proto timeout health labels meta local).

Definition read_routes_set (fs : list (string * Value)) : option AdminOp :=
  let* service := field vstring "service" fs in
  let* routes := field (vlist vroute) "routes" fs in
  Some (RoutesSet service routes).

Definition read_rename (fs : list (string * Value)) : option AdminOp :=
  let* group := field vstring "group" fs in
  let* owner := field vstring "owner_node_id" fs in
  let* from := field vstring "from" fs in
  let* to := field vstring "to" fs in
  Some (ServiceRename group owner from to).

Definition read_remove (fs : list (string * Value)) : option AdminOp :=
  let* group := field vstring "group" fs in
  let* owner := field vstring "owner_node_id" fs in
  let* name := field vstring "name" fs in
  Some (ServiceRemove group owner name).

(** The variants of an enum tagged from the inside: their names, with their
    fields' names and readers. *)
Definition variants (A : Type) : Type := list (string * (list string * (list (string * Value) -> option A))).

Definition read_variant {A} (all : variants A) (t : string) (v : Value) : option A :=
  let* (_, (names, read)) := find_first (fun x => str_eqb x.1 t) all in
  let* fs := as_fields names v in read fs.

Definition venum {A} (tag : string) (write : A -> string * list (string * option Value)) (all : variants A)
    (ok : A -> Prop) : Fmt A :=
  {| to_value a := tagged tag (write a).1 (write a).2;
     of_value v := let* (t, v) := untag tag v in read_variant all t v;
     valid := ok |}.

Definition admin_op_variants : variants AdminOp :=
  [("serviceAdd", (add_names, read_add));
   ("routesSet", (["service"; "routes"], read_routes_set));
   ("serviceRename", (["group"; "owner_node_id"; "from"; "to"], read_rename));
   ("serviceRemove", (["group"; "owner_node_id"; "name"], read_remove))].

Definition admin_op_valid (op : AdminOp) : Prop :=
  match op with
  | ServiceAdd _ _ _ port _ weight max _ timeout _ _ _ local =>
      valid vu16 port /\ valid vu32 weight /\ valid (voption vu32) max /\ valid (voption vu64) timeout
      /\ valid (voption vu16) local
  | RoutesSet _ routes => valid (vlist vroute) routes
  | _ => True
  end.

Definition vadmin_op : Fmt AdminOp := venum "kind" admin_op_fields admin_op_variants admin_op_valid.

Definition err_code_name (c : AdminErrCode) : string :=
  match c with
  | Unauthorized => "unauthorized" | Validation => "validation" | NotFound => "notFound" | Internal => "internal"
  end.
Definition verr_code : Fmt AdminErrCode := vvariant err_code_name [Unauthorized; Validation; NotFound; Internal].

Definition admin_result_fields (r : AdminResult) : string * list (string * option Value) :=
  match r with
  | ROk v => ("ok", [req vu64 "new_version" v])
  | RErr code message => ("err", [req verr_code "code" code; req vstring "message" message])
  end.

Definition read_ok (fs : list (string * Value)) : option AdminResult :=
  let* v := field vu64 "new_version" fs in Some (ROk v).
Definition read_err (fs : list (string * Value)) : option AdminResult :=
  let* code := field verr_code "code" fs in
  let* message := field vstring "message" fs in
  Some (RErr code message).

Definition admin_result_variants : variants AdminResult :=
  [("ok", (["new_version"], read_ok)); ("err", (["code"; "message"], read_err))].

Definition admin_result_valid (r : AdminResult) : Prop := match r with ROk v => valid vu64 v | _ => True end.

Definition vadmin_result : Fmt AdminResult :=
  venum "kind" admin_result_fields admin_result_variants admin_result_valid.

(** ** Reading back a tagged enum *)

Lemma untag_tagged tag t l : tag ∉ l.*1 -> untag tag (tagged tag t l) = Some (t, VObj (fields_of l)).
Proof.
  intros Htag. assert (Hall : forall kv, kv ∈ fields_of l -> str_eqb kv.1 tag = false).
  { intros [k v] Hin%fields_of_keys. apply str_eqb_false. simpl. intros ->. apply Htag.
    apply list_elem_of_fmap. by exists (tag, Some v). }
  unfold untag, tagged, get. simpl. rewrite str_eqb_refl. simpl.
  rewrite retain_none by (apply Forall_forall; exact Hall). rewrite retain_all; [done|].
  apply Forall_forall. intros kv Hin. by rewrite Hall.
Qed.

(** What each value of the type owes: its fields avoid the tag, and its variant's
    reader gives it back. *)
Definition variant_ok {A} (tag : string) (write : A -> string * list (string * option Value)) (all : variants A)
    (a : A) : Prop :=
  bool_decide (tag ∉ (write a).2.*1) = true
  /\ (let* (_, (_, read)) := find_first (fun x => str_eqb x.1 (write a).1) all in read (fields_of (write a).2))
     = Some a
  /\ Forall plain_entry (write a).2.

Lemma venum_write {A} tag write (all : variants A) (ok : A -> Prop) :
  (forall a, ok a -> variant_ok tag write all a) -> FmtWrite (venum tag write all ok).
Proof.
  intros Hok. split; cbn [to_value of_value valid venum]; intros a (Htag & Hread & Hplain)%Hok.
  - apply bool_decide_eq_true in Htag. rewrite untag_tagged by done. cbn. unfold read_variant.
    destruct (find_first _ _) as [[? [? ?]]|]; [exact Hread|done].
  - apply plain_obj. constructor; [done|by apply plain_fields_of].
Qed.

Lemma venum_read {A} tag write (all : variants A) (ok : A -> Prop) :
  Forall (fun x => forall fs a, x.2.2 fs = Some a -> ok a) all -> FmtRead (venum tag write all ok).
Proof.
  intros Hall v a Hv. cbn in Hv. destruct (untag tag v) as [[t v']|]; [|done]. unfold read_variant in Hv.
  destruct (find_first _ _) as [[n [names read]]|] eqn:Hf; [|done].
  destruct (as_fields names v') as [fs|]; [|done]. apply find_first_elem_of in Hf as [Hin _].
  rewrite Forall_forall in Hall. by eapply (Hall _ Hin).
Qed.

Lemma variant_intro {A} tag write (all : variants A) a t l names read :
  write a = (t, l) -> bool_decide (tag ∉ l.*1) = true ->
  find_first (fun x => str_eqb x.1 t) all = Some (t, (names, read)) ->
  read (fields_of l) = Some a -> Forall plain_entry l -> variant_ok tag write all a.
Proof. intros Hw Htag Hf Hread Hplain. unfold variant_ok. rewrite Hw. cbn [fst snd]. by rewrite Hf. Qed.

(** One variant of an enum, with its reader. *)
Tactic Notation "serde_variant" reference(read) :=
  eapply variant_intro;
    [reflexivity|vm_compute; reflexivity|reflexivity|unfold read; serde_read; done|serde_plain].

(** The readers of an enum, one after the other. *)
Tactic Notation "serde_reader" reference(read) reference(ok) :=
  apply Forall_cons_2; [cbn [snd]; unfold read; intros fs a H; serde_cases H; cbv [ok]; serde_valid|].

#[export] Instance verr_code_ok : FmtOk verr_code.
Proof. apply vvariant_ok. by intros []. Qed.

#[export] Instance vadmin_result_ok : FmtOk vadmin_result.
Proof.
  split.
  - apply venum_write. intros [v|code message] Ha; cbv [admin_result_valid] in Ha.
    + serde_variant read_ok.
    + serde_variant read_err.
  - apply venum_read. serde_reader read_ok admin_result_valid. serde_reader read_err admin_result_valid.
    apply Forall_nil_2.
Qed.

#[export] Instance vadmin_op_ok : FmtOk vadmin_op.
Proof.
  split.
  - apply venum_write. intros op Ha. destruct op; cbv [admin_op_valid] in Ha; destruct_and? Ha.
    + serde_variant read_add.
    + serde_variant read_routes_set.
    + serde_variant read_rename.
    + serde_variant read_remove.
  - apply venum_read. serde_reader read_add admin_op_valid. serde_reader read_routes_set admin_op_valid.
    serde_reader read_rename admin_op_valid. serde_reader read_remove admin_op_valid. apply Forall_nil_2.
Qed.

(** ** Messages

    The format of the nodes is a parameter: [vnode] is the code's, and [vnode_clean],
    which writes and reads the same, says when nothing is lost. *)

Section message.
Context (vn : Fmt NodeInfo).

Definition message_fields (m : Message) : string * list (string * option Value) :=
  match m with
  | Sync config nodes => ("sync", [req vdynamic "config" config; req (vlist vn) "nodes" nodes])
  | ConfigUpdate config => ("configUpdate", [req vdynamic "config" config])
  | NodeJoin id addr => ("nodeJoin", [req vstring "id" id; req vstring "addr" addr])
  | NodeLeave id => ("nodeLeave", [req vstring "id" id])
  | TunnelRequest node service ts =>
      ("tunnelRequest", [req vstring "node_id" node; req vstring "service_name" service; req vu64 "timestamp_ms" ts])
  | ReverseRegistration node ts =>
      ("reverseRegistration", [req vstring "node_id" node; req vu64 "timestamp_ms" ts])
  | StatusRequest => ("statusRequest", [])
  | StatusResponse mode node bind dc nodes =>
      ("statusResponse", [req vstring "mode" mode; req vstring "node_id" node; req vstring "bind" bind;
                          req vdynamic "dynamic_config" dc; req (vlist vn) "known_nodes" nodes])
  | MuxTunnel => ("muxTunnel", [])
  | AdminRequest op => ("adminRequest", [req vadmin_op "op" op])
  | AdminResponse result => ("adminResponse", [req vadmin_result "result" result])
  end.

Definition read_sync (fs : list (string * Value)) : option Message :=
  let* config := field vdynamic "config" fs in
  let* nodes := field (vlist vn) "nodes" fs in
  Some (Sync config nodes).
Definition read_config_update (fs : list (string * Value)) : option Message :=
  let* config := field vdynamic "config" fs in Some (ConfigUpdate config).
Definition read_node_join (fs : list (string * Value)) : option Message :=
  let* id := field vstring "id" fs in
  let* addr := field vstring "addr" fs in
  Some (NodeJoin id addr).
Definition read_node_leave (fs : list (string * Value)) : option Message :=
  let* id := field vstring "id" fs in Some (NodeLeave id).
Definition read_tunnel_request (fs : list (string * Value)) : option Message :=
  let* node := field vstring "node_id" fs in
  let* service := field vstring "service_name" fs in
  let* ts := field vu64 "timestamp_ms" fs in
  Some (TunnelRequest node service ts).
Definition read_reverse (fs : list (string * Value)) : option Message :=
  let* node := field vstring "node_id" fs in
  let* ts := field vu64 "timestamp_ms" fs in
  Some (ReverseRegistration node ts).
Definition read_status_request (fs : list (string * Value)) : option Message := Some StatusRequest.
Definition read_status_response (fs : list (string * Value)) : option Message :=
  let* mode := field vstring "mode" fs in
  let* node := field vstring "node_id" fs in
  let* bind := field vstring "bind" fs in
  let* dc := field vdynamic "dynamic_config" fs in
  let* nodes := field (vlist vn) "known_nodes" fs in
  Some (StatusResponse mode node bind dc nodes).
Definition read_mux_tunnel (fs : list (string * Value)) : option Message := Some MuxTunnel.
Definition read_admin_request (fs : list (string * Value)) : option Message :=
  let* op := field vadmin_op "op" fs in Some (AdminRequest op).
Definition read_admin_response (fs : list (string * Value)) : option Message :=
  let* result := field vadmin_result "result" fs in Some (AdminResponse result).

Definition message_variants : variants Message :=
  [("sync", (["config"; "nodes"], read_sync));
   ("configUpdate", (["config"], read_config_update));
   ("nodeJoin", (["id"; "addr"], read_node_join));
   ("nodeLeave", (["id"], read_node_leave));
   ("tunnelRequest", (["node_id"; "service_name"; "timestamp_ms"], read_tunnel_request));
   ("reverseRegistration", (["node_id"; "timestamp_ms"], read_reverse));
   ("statusRequest", ([], read_status_request));
   ("statusResponse", (["mode"; "node_id"; "bind"; "dynamic_config"; "known_nodes"], read_status_response));
   ("muxTunnel", ([], read_mux_tunnel));
   ("adminRequest", (["op"], read_admin_request));
   ("adminResponse", (["result"], read_admin_response))].

Definition message_valid (m : Message) : Prop :=
  match m with
  | Sync config nodes => valid vdynamic config /\ valid (vlist vn) nodes
  | ConfigUpdate config => valid vdynamic config
  | TunnelRequest _ _ ts | ReverseRegistration _ ts => valid vu64 ts
  | StatusResponse _ _ _ dc nodes => valid vdynamic dc /\ valid (vlist vn) nodes
  | AdminRequest op => valid vadmin_op op
  | AdminResponse result => valid vadmin_result result
  | _ => True
  end.

Definition vmessage : Fmt Message := venum "type" message_fields message_variants message_valid.

#[export] Instance vmessage_write `{!FmtWrite vn} : FmtWrite vmessage.
Proof.
  apply venum_write. intros m Ha. destruct m; cbv [message_valid] in Ha; destruct_and? Ha.
  - serde_variant read_sync.
  - serde_variant read_config_update.
  - serde_variant read_node_join.
  - serde_variant read_node_leave.
  - serde_variant read_tunnel_request.
  - serde_variant read_reverse.
  - serde_variant read_status_request.
  - serde_variant read_status_response.
  - serde_variant read_mux_tunnel.
  - serde_variant read_admin_request.
  - serde_variant read_admin_response.
Qed.

#[export] Instance vmessage_read `{!FmtRead vn} : FmtRead vmessage.
Proof.
  apply venum_read. serde_reader read_sync message_valid. serde_reader read_config_update message_valid.
  serde_reader read_node_join message_valid. serde_reader read_node_leave message_valid.
  serde_reader read_tunnel_request message_valid. serde_reader read_reverse message_valid.
  serde_reader read_status_request message_valid. serde_reader read_status_response message_valid.
  serde_reader read_mux_tunnel message_valid. serde_reader read_admin_request message_valid.
  serde_reader read_admin_response message_valid. apply Forall_nil_2.
Qed.
End message.

(** ** The codec *)

Class MsgPack := {
  pack : Value -> string;
  unpack : string -> option Value
}.
(** A value whose numbers MessagePack can hold is read back, unless it is longer
    than the format's 32-bit lengths. *)
Class MsgPackLaws (M : MsgPack) : Prop :=
  msgpack_roundtrip : forall v, plain v -> (Z.of_nat (String.length (pack v)) <= u32_max)%Z -> unpack (pack v) = Some v.

(** [rmp_serde::to_vec_named] and [from_slice] of a [Message]. *)
Definition wire_codec `{MsgPack} : Codec :=
  {| to_vec_named m := Ok (pack (to_value (vmessage vnode) m));
     from_slice payload :=
       match (let* v := unpack payload in of_value (vmessage vnode) v) with
       | Some m => Ok m
       | None => Err "invalid"
       end |}.
#[export] Existing Instance wire_codec.

(** The messages the Rust type has: their integers have their width; [last_seen] is
    whatever it is. *)
Definition sendable : Message -> Prop :=
  valid (vmessage (vstruct node_names node_fields read_node (fun n => valid vhealth (ni_health n)))).

Lemma node_fields_on_wire n : fields_of (node_fields (node_on_wire n)) = fields_of (node_fields n).
Proof.
  destruct n as [id addr relay seen h]. unfold node_fields, node_on_wire, health_on_wire, skip_if.
  cbn [ni_id ni_addr ni_relay ni_health]. destruct (sh_is_unset h) eqn:Hu; [done|by rewrite Hu].
Qed.

Lemma nodes_on_wire nodes :
  to_value (vlist vnode) nodes = to_value (vlist vnode_clean) (node_on_wire <$> nodes).
Proof.
  simpl. f_equal. rewrite <- list_fmap_compose. apply list_fmap_ext. intros i n _.
  change (VObj (fields_of (node_fields n)) = VObj (fields_of (node_fields (node_on_wire n)))).
  by rewrite node_fields_on_wire.
Qed.

Lemma node_on_wire_clean n : valid vhealth (ni_health n) -> node_clean (node_on_wire n).
Proof.
  intros Hv. unfold node_clean, node_on_wire, health_on_wire. simpl.
  destruct (sh_is_unset (ni_health n)) eqn:Hu; [by split_and!|]. split_and!; try done. by rewrite Hu.
Qed.

(** What crosses the wire is the message without what is local to its sender. *)
Lemma message_on_wire m :
  sendable m ->
  to_value (vmessage vnode) m = to_value (vmessage vnode_clean) (on_wire m) /\ valid (vmessage vnode_clean) (on_wire m).
Proof.
  assert (Hn : forall nodes, Forall (fun n => valid vhealth (ni_health n)) nodes ->
    Forall node_clean (node_on_wire <$> nodes)).
  { intros nodes Hv. apply Forall_fmap. eapply Forall_impl; [exact Hv|]. apply node_on_wire_clean. }
  destruct m; intros Hv; try (split; [reflexivity|exact Hv]).
  - destruct Hv as [Hc Hns]. split; [|split; [exact Hc|by apply Hn]].
    cbn [to_value vmessage venum message_fields on_wire fst snd]. unfold req at 2 4. by rewrite nodes_on_wire.
  - destruct Hv as [Hc Hns]. split; [|split; [exact Hc|by apply Hn]].
    cbn [to_value vmessage venum message_fields on_wire fst snd]. unfold req at 5 10. by rewrite nodes_on_wire.
Qed.

Lemma wire_decodes `{MsgPackLaws} m :
  sendable m -> (Z.of_nat (String.length (pack (to_value (vmessage vnode) m))) <= u32_max)%Z ->
  from_slice (pack (to_value (vmessage vnode) m)) = Ok (on_wire m).
Proof.
  intros Hm Hlen. destruct (message_on_wire m Hm) as [Hv Hc]. cbn [from_slice wire_codec].
  rewrite msgpack_roundtrip; [|rewrite Hv|done].
  - rewrite Hv. change (of_value (vmessage vnode)) with (of_value (vmessage vnode_clean)). by rewrite of_to.
  - by apply to_plain.
Qed.

(** ** Properties *)

(** C27: A message that was sent arrives as it was, but for what is local to the
    sender ([last_seen]) and health reports never made, and the stream goes on after
    it. A message of more than 1 MiB is sent without complaint (up to the limit of
    the length prefix) and refused by every receiver. *)
Theorem wire_roundtrip `{MsgPackLaws} w m bytes rest
    (Hm : sendable m) (Hsend : send_message w m = (bytes, Ok tt)) :
  let len := Z.of_nat (String.length (pack (to_value (vmessage vnode) m))) in
  ((len <= MAX_MSG_BYTES)%Z -> recv_message (bytes +:+ rest) = Ok (on_wire m, rest))
  /\ ((MAX_MSG_BYTES < len)%Z -> recv_message (bytes +:+ rest) = Err ("message too large: " +:+ show len +:+ " bytes")).
Proof.
  cbv zeta. eapply frame_roundtrip; [reflexivity| |exact Hsend]. apply wire_decodes; [done|].
  unfold send_message in Hsend. cbn [encode_message to_vec_named wire_codec map_err] in Hsend.
  destruct (u32_max <? _)%Z eqn:Hl; [done|]. by apply Z.ltb_ge in Hl.
Qed.

(** ** Witnesses *)

Module Examples.

#[local] Instance msgpack : MsgPack := {| pack := Sample.write; unpack := Sample.read |}.
#[local] Instance msgpack_laws : MsgPackLaws msgpack.
Proof. intros v _ _. apply Sample.read_write. Qed.

(** A Sync with a node last seen at 9, then the rest of the stream. *)
Definition msg : Message :=
  Sync {| dc_version := 3; dc_service_groups := []; dc_routes := [] |}
    [{| ni_id := "n"; ni_addr := "n:1"; ni_relay := None; ni_last_seen := Some 9%Z;
        ni_health := {| sh_version := 2; sh_unhealthy := ["api"] |} |}].

Definition out : string * result unit string := send_message {| w_capacity := None; w_flush_ok := true |} msg.

Lemma wire_witness : recv_message (out.1 +:+ "next") = Ok (on_wire msg, "next").
Proof.
  apply (wire_roundtrip {| w_capacity := None; w_flush_ok := true |} msg out.1 "next").
  - repeat split; try (repeat constructor; discriminate).
  - vm_compute. reflexivity.
  - vm_compute. discriminate.
Defined.

(** Internally tagged, with the fields' own names. *)
Example tunnel_request_written :
  to_value (vmessage vnode) (TunnelRequest "n" "api" 5)
  = VObj [("type", VStr "tunnelRequest"); ("node_id", VStr "n"); ("service_name", VStr "api"); ("timestamp_ms", VNum 5)].
Proof. reflexivity. Qed.

(** The compact form, in which the fields have no names, is read too. *)
Example compact_read :
  of_value (vmessage vnode) (VArr [VStr "nodeJoin"; VStr "n"; VStr "n:1"]) = Some (NodeJoin "n" "n:1").
Proof. reflexivity. Qed.

End Examples.
