(* ===== verification/Tunnel.v ===== *)
(** * Tunnels ([src/src/node/tunnel.rs], [src/src/node/relay.rs],
    [src/src/node/reverse.rs] and the server side of [src/src/mux.rs])

    The handshake that precedes a tunnel's bytes, on the node that answers it,
    on a relay in between and on the subscriber that asked; and the reverse
    connections of nodes that can only dial out. A handler's result is the
    bytes it writes to the client before the two streams are bridged, and how it
    ends. *)

From S2P Require Import Prelude NetAddr Dynamic Config State Messages Gossip.

Definition MAX_SKEW_MS : Z := 30000.
Definition POOL_WAIT_TIMEOUT : Z := 10000000000.

(** ** The status the answering node sends *)

Definition byte (n : Z) : string := String (of_code n) EmptyString.

(** [0x01], the message's length and the message ([len as u32] wraps). *)
Definition send_tunnel_error (msg : string) : string :=
  byte 1 +:+ to_be_bytes (wrap32 (Z.of_nat (String.length msg))) +:+ msg.

Definition tunnel_success : string := byte 0.

(** What the asking side reads back: the rest of the stream once accepted. *)
Inductive TunnelError :=
| NoStatus
| NoErrorLength
| NoErrorMessage
| Rejected (msg : string).
#[export] Instance TunnelError_eq_dec : EqDecision TunnelError.
Proof. solve_decision. Defined.

(** The response part of [send_and_check_tunnel]. *)
Definition check_tunnel (stream : string) : result string TunnelError :=
  match stream with
  | EmptyString => Err NoStatus
  | String status rest =>
      if (code status =? 0)%Z then Ok rest
      else match rest with
           | String b0 (String b1 (String b2 (String b3 rest))) =>
               let len := Z.to_nat (from_be_bytes b0 b1 b2 b3) in
               if String.length rest <? len then Err NoErrorMessage
               else Err (Rejected (String.substring 0 len rest))
           | _ => Err NoErrorLength
           end
  end.

(** ** The answering node *)

(** How handling a request ends. *)
Inductive TunnelEnd :=
| Proxied (port : Z)          (** bridged to the local service *)
| Bridged (rest : string)     (** bridged to a reverse connection that still has these bytes *)
| Failed (msg : string).

(** What the outside does while a request is handled. *)
Record TunnelEnv := {
  te_now_ms : option Z;                       (** [None]: the clock is before 1970 *)
  te_connect : Z -> result unit string;       (** connecting to a local port *)
  te_waits : list (wait_outcome (T := conn)); (** waits on the reverse pool *)
  te_forward : conn -> Message -> bool;       (** sending on a reverse connection *)
  te_answer : conn -> string                  (** the bytes it then sends back *)
}.

(** The service's port on this node. *)
Definition connect_local_service (env : TunnelEnv) (service_name : string) (s : SharedState)
    : result Z string :=
  match st_service_index s !! (node_id (st_config s), service_name) with
  | None => Err ("service '" +:+ service_name +:+ "' not found on this node")
  | Some svc =>
      let port := svc_node_port svc in
      match te_connect env port with
      | Ok _ => Ok port
      | Err e => Err ("failed to connect to local service at 127.0.0.1:" +:+ show port +:+ ": " +:+ e)
      end
  end.

Definition refuse_if_draining (s : SharedState) : option string :=
  if st_shutdown s then Some "node is shutting down" else None.

(** The relay's copy of the NAT'd node's answer: what it forwards, and the end. *)
Definition relay_answer (answer : string) : string * TunnelEnd :=
  match answer with
  | EmptyString => ("", Failed "read tunnel status from reverse connection")
  | String status rest =>
      let out := String status EmptyString in
      if (code status =? 0)%Z then (out, Bridged rest)
      else match rest with
           | String b0 (String b1 (String b2 (String b3 rest))) =>
               let out := out +:+ String b0 (String b1 (String b2 (String b3 EmptyString))) in
               let len := Z.to_nat (from_be_bytes b0 b1 b2 b3) in
               if String.length rest <? len then (out, Failed "read tunnel error from reverse")
               else (out +:+ String.substring 0 len rest, Failed "NAT'd node rejected tunnel")
           | _ => (out, Failed "read tunnel error length from reverse")
           end
  end.

Definition relay_tunnel (env : TunnelEnv) (node service_name : string) (timestamp_ms : Z) (s : SharedState)
    : string * TunnelEnd * StreamPool conn :=
  let '(taken, pool) := take_loop node (st_reverse_pool s) POOL_WAIT_TIMEOUT (te_waits env) in
  match taken with
  | None =>
      let msg := "no idle reverse connections for node " +:+ node in
      (send_tunnel_error msg, Failed msg, pool)
  | Some c =>
      if negb (te_forward env c (TunnelRequest node service_name timestamp_ms)) then ("", Failed "forward tunnel request to reverse connection", pool)
      else let '(out, e) := relay_answer (te_answer env c) in (out, e, pool)
  end.

Definition handle_tunnel (env : TunnelEnv) (node service_name : string) (timestamp_ms : Z) (s : SharedState)
    : string * TunnelEnd * StreamPool conn :=
  let refuse msg := (send_tunnel_error msg, Failed msg, st_reverse_pool s) in
  match refuse_if_draining s with
  | Some msg => refuse msg
  | None =>
      match te_now_ms env with
      | None => ("", Failed "system time before Unix epoch", st_reverse_pool s)
      | Some now_ms =>
          let skew := abs_diff now_ms timestamp_ms in
          if (MAX_SKEW_MS <? skew)%Z
          then refuse ("tunnel request timestamp skew too large: " +:+ show skew +:+ "ms")
          else if negb (str_is_empty node) && negb (str_eqb node (node_id (st_config s)))
          then relay_tunnel env node service_name timestamp_ms s
          else match connect_local_service env service_name s with
               | Err msg => refuse msg
               | Ok port => (tunnel_success, Proxied port, st_reverse_pool s)
               end
      end
  end.

(** One stream of a mux session: its first message must be a tunnel request. *)
Definition handle_mux_stream (env : TunnelEnv) (first : result Message string) (s : SharedState)
    : string * TunnelEnd * StreamPool conn :=
  match first with
  | Err _ => ("", Failed "recv tunnel request on mux stream", st_reverse_pool s)
  | Ok (TunnelRequest node service_name timestamp_ms) =>
      match refuse_if_draining s with
      | Some msg => (send_tunnel_error msg, Failed msg, st_reverse_pool s)
      | None =>
          match te_now_ms env with
          | None => ("", Failed "system time before Unix epoch", st_reverse_pool s)
          | Some now_ms =>
              let skew := abs_diff now_ms timestamp_ms in
              if (MAX_SKEW_MS <? skew)%Z then
                let msg := "tunnel request timestamp skew too large: " +:+ show skew +:+ "ms" in
                (send_tunnel_error msg, Failed msg, st_reverse_pool s)
              else
                let our_node_id := node_id (st_config s) in
                if negb (str_is_empty node) && negb (str_eqb node our_node_id)
                then relay_tunnel env node service_name timestamp_ms s
                else match connect_local_service env service_name s with
                     | Err err_msg => (send_tunnel_error err_msg, Failed err_msg, st_reverse_pool s)
                     | Ok port => (tunnel_success, Proxied port, st_reverse_pool s)
                     end
          end
      end
  | Ok _ => ("", Failed "unexpected message on mux stream", st_reverse_pool s)
  end.

(** ** Reverse connections *)

(** [handle_reverse_registration]: the NAT'd node becomes reachable through us
    and its connection waits in the pool. *)
Definition handle_reverse_registration (now_ms : option Z) (now : Z) (c : conn) (node : string)
    (timestamp_ms : Z) (s : SharedState) : SharedState * result unit string :=
  match now_ms with
  | None => (s, Err "system time before Unix epoch")
  | Some now_ms =>
      let skew := abs_diff now_ms timestamp_ms in
      if (MAX_SKEW_MS <? skew)%Z then
        (s, Err ("reverse registration timestamp skew too large: " +:+ show skew +:+ "ms (node " +:+ node +:+ ")"))
      else
        let our_addr := peer_addr (st_config s) in
        let '(_, s1) := update_known_nodes (fun kn =>
          (tt, match kn !! node with
               | Some n => <[node := with_last_seen now (with_relay (Some our_addr) n)]> kn
               | None => <[node := {| ni_id := node; ni_addr := ""; ni_relay := Some our_addr;
                                      ni_last_seen := Some now; ni_health := default_health |}]> kn
               end)) s in
        (set_pools (push node c (st_reverse_pool s1)) (st_tunnel_pool s1) s1, Ok tt)
  end.

(** One pass of [run_reverse_pool_loop]: the workers it starts, and all started
    so far. *)
Definition reverse_peers `{MapIter} (s : SharedState) : list string :=
  omap (fun n => if bool_decide (ni_relay n = None) && negb (str_is_empty (ni_addr n))
                 then Some (ni_addr n) else None) (map_values (st_known_nodes s)).

Definition spawn_workers (keys : list (string * nat)) (spawned : gset (string * nat))
    : list (string * nat) * gset (string * nat) :=
  foldl (fun '(started, spawned) key =>
    if decide (key ∈ spawned) then (started, spawned)
    else (started ++ [key], {[key]} ∪ spawned)) ([], spawned) keys.

Definition reverse_pool_pass `{MapIter} (s : SharedState) (spawned : gset (string * nat))
    : list (string * nat) * gset (string * nat) :=
  spawn_workers
    (reverse_peers s ≫= (fun peer => pair peer <$> seq 0 (Z.to_nat (pool_size (st_config s))))) spawned.

(** Once the relay's first message is in: the tunnel is handled as if it had been
    dialled, in a task tracked as in-flight. *)
Definition reverse_dispatch (env : TunnelEnv) (first : option (result Message string)) (s : SharedState)
    : result (option (string * TunnelEnd * StreamPool conn)) string :=
  match first with
  | None => Ok None (* shutdown came first *)
  | Some (Err e) => Err e
  | Some (Ok (TunnelRequest node service timestamp_ms)) => Ok (Some (handle_tunnel env node service timestamp_ms s))
  | Some (Ok _) => Err "unexpected message on reverse connection"
  end.

(** [open_reverse_connection]: dialling the relay, registering, and waiting; [reply] is
    what the relay sends first, if shutdown does not come before. The message it
    registered with is given too. *)
Record ReverseEnv := {
  re_connect : result conn string;
  re_tls : conn -> result conn string;
  re_now_ms : option Z;
  re_send : conn -> Message -> bool
}.

Definition open_reverse_connection (renv : ReverseEnv) (env : TunnelEnv) (relay_addr : string)
    (reply : conn -> option (result Message string)) (s : SharedState)
    : option Message * result (option (string * TunnelEnd * StreamPool conn)) string :=
  match re_connect renv with
  | Err _ => (None, Err ("connect to relay " +:+ relay_addr))
  | Ok tcp =>
      match tls_wrap s (re_tls renv) tcp with
      | Err e => (None, Err e)
      | Ok stream =>
          match re_now_ms renv with
          | None => (None, Err "system time before Unix epoch")
          | Some timestamp_ms =>
              let msg := ReverseRegistration (node_id (st_config s)) timestamp_ms in
              if negb (re_send renv stream msg) then (None, Err "send registration")
              else (Some msg, reverse_dispatch env (reply stream) s)
          end
      end
  end.

(** [reverse_worker]: connection after connection until the shutdown is seen at the top
    of the loop, with a pause after each that failed. A turn is what the loop finds:
    the state then, and what dialling and waiting come to. *)
Record WorkerTurn := {
  wk_state : SharedState;
  wk_reverse : ReverseEnv;
  wk_tunnel : TunnelEnv;
  wk_reply : conn -> option (result Message string)
}.

Fixpoint reverse_worker (relay_addr : string) (turns : list WorkerTurn)
    : list (option Message * result (option (string * TunnelEnd * StreamPool conn)) string) * nat :=
  match turns with
  | [] => ([], 0)
  | t :: turns =>
      if st_shutdown (wk_state t) then ([], 0)
      else let opened := open_reverse_connection (wk_reverse t) (wk_tunnel t) relay_addr (wk_reply t) (wk_state t) in
           let '(rest, pauses) := reverse_worker relay_addr turns in
           (opened :: rest, if is_ok opened.2 then pauses else S pauses)
  end.

(** ** Reading back what was written *)

Lemma check_tunnel_success rest : check_tunnel (tunnel_success +:+ rest) = Ok rest.
Proof. unfold tunnel_success, byte. by rewrite str_app_cons, str_app_nil. Qed.

Lemma check_tunnel_byte n rest :
  (0 <= n < 256)%Z -> n <> 0%Z ->
  check_tunnel (byte n +:+ rest) =
    match rest with
    | String b0 (String b1 (String b2 (String b3 rest))) =>
        let len := Z.to_nat (from_be_bytes b0 b1 b2 b3) in
        if String.length rest <? len then Err NoErrorMessage
        else Err (Rejected (String.substring 0 len rest))
    | _ => Err NoErrorLength
    end.
Proof.
  intros Hn Hn0. unfold byte. rewrite str_app_cons, str_app_nil. unfold check_tunnel.
  rewrite code_of_code by done. by rewrite (proj2 (Z.eqb_neq _ _)).
Qed.

Lemma check_tunnel_error msg rest :
  (Z.of_nat (String.length msg) <= u32_max)%Z ->
  check_tunnel (send_tunnel_error msg +:+ rest) = Err (Rejected msg).
Proof.
  intros Hlen. unfold send_tunnel_error. rewrite wrap32_small by lia.
  rewrite <- !str_app_assoc, check_tunnel_byte by lia. unfold to_be_bytes.
  rewrite !str_app_cons, str_app_nil. cbv zeta. rewrite be_roundtrip by lia. rewrite Nat2Z.id.
  rewrite (proj2 (Nat.ltb_ge _ _)) by (rewrite append_length; lia).
  by rewrite substring_app.
Qed.

Lemma check_tunnel_error_not_ok msg rest : is_ok (check_tunnel (send_tunnel_error msg +:+ rest)) = false.
Proof.
  unfold send_tunnel_error. rewrite <- !str_app_assoc, check_tunnel_byte by lia.
  unfold to_be_bytes. rewrite !str_app_cons. cbv zeta. by destruct (_ <? _).
Qed.

(** What follows the forwarded bytes on the subscriber's side: the bridged
    stream, or the end of it. *)
Definition after (e : TunnelEnd) : string := match e with Bridged rest => rest | _ => "" end.

Lemma substring_length n s : n <= String.length s -> String.length (String.substring 0 n s) = n.
Proof.
  revert n. induction s as [|c s IH]; intros n Hn; simpl in *; [by replace n with 0 by lia|].
  destruct n as [|n]; [done|]. simpl. rewrite IH; lia.
Qed.

Lemma substring_full s : String.substring 0 (String.length s) s = s.
Proof. rewrite <- (str_app_nil_r s) at 2. apply substring_app. Qed.

Lemma relay_answer_transparent answer :
  let '(out, e) := relay_answer answer in
  check_tunnel (out +:+ after e) = check_tunnel answer
  /\ match e with Bridged rest => check_tunnel answer = Ok rest
                | Failed _ => is_ok (check_tunnel answer) = false
                | Proxied _ => False end.
Proof.
  destruct answer as [|status rest]; [done|]. cbn [relay_answer].
  destruct (code status =? 0)%Z eqn:Hs; cbn [check_tunnel after].
  { rewrite str_app_cons, str_app_nil. cbn [check_tunnel]. by rewrite Hs. }
  assert (Hck : forall r, check_tunnel (String status r) =
    match r with
    | String b0 (String b1 (String b2 (String b3 r))) =>
        if String.length r <? Z.to_nat (from_be_bytes b0 b1 b2 b3) then Err NoErrorMessage
        else Err (Rejected (String.substring 0 (Z.to_nat (from_be_bytes b0 b1 b2 b3)) r))
    | _ => Err NoErrorLength
    end).
  { intros r. cbn [check_tunnel]. by rewrite Hs. }
  rewrite Hs. destruct rest as [|b0 [|b1 [|b2 [|b3 rest]]]];
    try (cbn [after]; rewrite str_app_nil_r, Hck; done).
  set (len := Z.to_nat (from_be_bytes b0 b1 b2 b3)).
  destruct (Nat.ltb_spec (String.length rest) len) as [Hlt|Hge]; cbn [after];
    rewrite str_app_nil_r; repeat first [rewrite str_app_cons|rewrite str_app_nil]; rewrite !Hck; fold len.
  - assert (0 < len) by lia. cbn [String.length]. rewrite (proj2 (Nat.ltb_lt 0 len)) by done. done.
  - rewrite substring_length by done. rewrite Nat.ltb_irrefl. split; [|done].
    rewrite <- (substring_length len rest) at 1 by done. by rewrite substring_full.
Qed.

(** A worker opens nothing once the daemon stops, and pauses once per failure. *)
Lemma reverse_worker_stops relay_addr before t after :
  Forall (fun t => st_shutdown (wk_state t) = false) before -> st_shutdown (wk_state t) = true ->
  let opened t := open_reverse_connection (wk_reverse t) (wk_tunnel t) relay_addr (wk_reply t) (wk_state t) in
  reverse_worker relay_addr (before ++ t :: after)
  = (opened <$> before, length (retain (fun t => negb (is_ok (opened t).2)) before)).
Proof.
  intros Hb Ht. cbv zeta. induction Hb as [|u before Hu _ IH]; cbn [app reverse_worker]; [by rewrite Ht|].
  rewrite Hu, IH. simpl. by destruct (is_ok _).
Qed.

(** ** Reverse workers *)

Lemma spawn_workers_snoc keys key spawned :
  spawn_workers (keys ++ [key]) spawned =
    let '(started, spawned) := spawn_workers keys spawned in
    if decide (key ∈ spawned) then (started, spawned) else (started ++ [key], {[key]} ∪ spawned).
Proof. unfold spawn_workers. rewrite foldl_snoc. by destruct (foldl _ _ keys). Qed.

Lemma spawn_workers_spec keys spawned :
  let '(started, spawned') := spawn_workers keys spawned in
  NoDup started /\ (forall k, k ∈ started <-> k ∈ keys /\ k ∉ spawned)
  /\ forall k, k ∈ spawned' <-> k ∈ spawned \/ k ∈ keys.
Proof.
  induction keys as [|key keys IH] using rev_ind.
  - simpl. split; [constructor|]. set_solver.
  - rewrite spawn_workers_snoc. destruct (spawn_workers keys spawned) as [started spawned'].
    destruct IH as (Hnd & Hs & Hsp). case_decide as Hk.
    + split; [done|]. set_solver.
    + split; [|set_solver]. apply NoDup_app. split; [done|]. split; [|apply NoDup_singleton].
      intros k Hin Hk'%list_elem_of_singleton. subst. apply Hs in Hin as [Hin _]. apply Hk, Hsp. by right.
Qed.

(** The parts of [tunnel_request_spec] a failure settles at once. *)
Ltac tunnel_failed H :=
  split; [discriminate|split; [intros; apply H|split; [discriminate|reflexivity]]].

(** ** Properties *)

(** C24: A relay is transparent: whatever the NAT'd node answers, even cut
    short, the subscriber reads from the relay the very outcome it would have
    read from the node, the error message included; the streams are bridged
    exactly when the node accepted, with every byte after the status kept. *)
Theorem relay_transparent answer :
  let '(out, e) := relay_answer answer in
  check_tunnel (out +:+ after e) = check_tunnel answer
  /\ match e with Bridged rest => check_tunnel answer = Ok rest
                | Failed _ => is_ok (check_tunnel answer) = false
                | Proxied _ => False end.
Proof. apply relay_answer_transparent. Qed.

(** C16: A tunnel request reaches a local service exactly when the node is not
    draining, the timestamp is within 30 seconds of its clock, the request
    names this node (or none), and the service is indexed here and its port
    accepts. Only then does the subscriber read success; every failure reads as
    one, and a draining node says so. A request on a mux stream is handled
    identically. *)
Theorem tunnel_request_spec env node service_name timestamp_ms s :
  let '(out, e, pool) := handle_tunnel env node service_name timestamp_ms s in
  (forall port, e = Proxied port <->
     st_shutdown s = false
     /\ (exists now, te_now_ms env = Some now /\ (Z.abs (now - timestamp_ms) <= 30000)%Z)
     /\ (node = "" \/ node = node_id (st_config s))
     /\ exists svc, st_service_index s !! (node_id (st_config s), service_name) = Some svc
          /\ svc_node_port svc = port /\ is_ok (te_connect env port) = true)
  /\ (forall port rest, e = Proxied port -> check_tunnel (out +:+ rest) = Ok rest)
  /\ (forall msg, e = Failed msg -> is_ok (check_tunnel out) = false)
  /\ (st_shutdown s = true -> check_tunnel out = Err (Rejected "node is shutting down"))
  /\ handle_mux_stream env (Ok (TunnelRequest node service_name timestamp_ms)) s = (out, e, pool).
Proof.
  assert (Hbad : forall msg, is_ok (check_tunnel (send_tunnel_error msg)) = false).
  { intros msg. rewrite <- (str_app_nil_r (send_tunnel_error msg)). apply check_tunnel_error_not_ok. }
  assert (Hbad' : is_ok (check_tunnel "") = false) by done.
  unfold handle_tunnel, handle_mux_stream, refuse_if_draining.
  destruct (st_shutdown s).
  { split; [split; [discriminate|by intros [? _]]|]. split; [discriminate|]. split; [intros; apply Hbad|].
    split; [|reflexivity]. intros _. rewrite <- (str_app_nil_r (send_tunnel_error _)).
    apply check_tunnel_error. vm_compute. discriminate. }
  destruct (te_now_ms env) as [now|]; cycle 1.
  { split; [split; [discriminate|by intros (_ & (? & ? & _) & _)]|]. tunnel_failed Hbad'. }
  unfold abs_diff, MAX_SKEW_MS. destruct (30000 <? Z.abs (now - timestamp_ms))%Z eqn:Hskew; bool_hyps.
  { split; [split; [discriminate|intros (_ & (n & [= <-] & ?) & _); lia]|]. tunnel_failed Hbad. }
  destruct (negb (str_is_empty node) && _) eqn:Hnode.
  - bool_hyps. assert (Hne : node <> "") by by intros ->.
    unfold relay_tunnel. destruct (take_loop _ _ _ _) as [[c|] pool].
    + destruct (negb (te_forward env c _)).
      { split; [split; [discriminate|intros (_ & _ & [?|?] & _); congruence]|]. tunnel_failed Hbad'. }
      pose proof (relay_answer_transparent (te_answer env c)) as Hr.
      destruct (relay_answer (te_answer env c)) as [out e]. destruct Hr as [Hr He].
      split; [|split; [|split; [|split; [discriminate|reflexivity]]]].
      * intros port. split; [by intros ->|]. intros (_ & _ & [?|?] & _); congruence.
      * by intros port rest ->.
      * intros msg ->. cbn [after] in Hr. rewrite str_app_nil_r in Hr. by rewrite Hr.
    + split; [split; [discriminate|intros (_ & _ & [?|?] & _); congruence]|]. tunnel_failed Hbad.
  - assert (Hor : node = "" \/ node = node_id (st_config s)).
    { apply andb_false_iff in Hnode as [Hn|Hn]; bool_hyps; [left; by destruct node|by right]. }
    unfold connect_local_service.
    destruct (st_service_index s !! _) as [svc|] eqn:Hsvc; cycle 1.
    { split; [split; [discriminate|intros (_ & _ & _ & ? & ? & _); discriminate]|]. tunnel_failed Hbad. }
    destruct (te_connect env (svc_node_port svc)) as [[]|e] eqn:Hc.
    + split; [|split; [intros; apply check_tunnel_success|split; [discriminate|split; [discriminate|reflexivity]]]].
      intros port. split.
      * intros [= <-]. split; [done|]. split; [eauto|]. split; [done|]. exists svc. by rewrite Hc.
      * intros (_ & _ & _ & svc' & [= <-] & <- & _). done.
    + split; [|tunnel_failed Hbad]. split; [discriminate|].
      intros (_ & _ & _ & svc' & [= <-] & <- & Hok). by rewrite Hc in Hok.
Qed.

(** A reverse registration within 30 seconds of our clock makes the node
    reachable through us: its relay is our address, it counts as seen now, its
    address and health are kept, and its connection is the last in the pool.
    Nothing else changes, and a registration outside the window changes nothing. *)
Theorem reverse_registration_spec now_ms now c node timestamp_ms s :
  let '(s', r) := handle_reverse_registration (Some now_ms) now c node timestamp_ms s in
  if (Z.abs (now_ms - timestamp_ms) <=? 30000)%Z then
    r = Ok tt
    /\ (exists n, st_known_nodes s' !! node = Some n
          /\ ni_relay n = Some (peer_addr (st_config s)) /\ ni_last_seen n = Some now
          /\ match st_known_nodes s !! node with
             | Some old => ni_id n = ni_id old /\ ni_addr n = ni_addr old /\ ni_health n = ni_health old
             | None => ni_id n = node /\ ni_addr n = "" /\ ni_health n = default_health
             end)
    /\ (forall other, other <> node -> st_known_nodes s' !! other = st_known_nodes s !! other)
    /\ (forall key, idle key (st_reverse_pool s') =
          idle key (st_reverse_pool s) ++ (if decide (node = key) then [c] else []))
    /\ st_dynamic_config s' = st_dynamic_config s /\ st_tunnel_pool s' = st_tunnel_pool s
  else s' = s /\ is_ok r = false.
Proof.
  unfold handle_reverse_registration, abs_diff, MAX_SKEW_MS. rewrite Z.ltb_antisym.
  destruct (Z.abs (now_ms - timestamp_ms) <=? 30000)%Z; simpl; [|done].
  split; [done|]. split; [|split; [|split; [intros key; apply idle_push|done]]].
  - destruct (st_known_nodes s !! node) as [old|]; rewrite lookup_insert_eq; by eexists.
  - intros other Hne. destruct (st_known_nodes s !! node) as [old|]; by rewrite lookup_insert_ne.
Qed.

(** Across passes, a NAT'd node runs exactly one reverse worker per peer it
    can dial and slot of the pool: a pass starts the missing ones, each once,
    and never restarts one. *)
Lemma reverse_workers_once `{MapIter} s spawned :
  let '(started, spawned') := reverse_pool_pass s spawned in
  NoDup started
  /\ (forall peer slot, (peer, slot) ∈ started <->
        peer ∈ reverse_peers s /\ (slot < Z.to_nat (pool_size (st_config s)))%nat /\ (peer, slot) ∉ spawned)
  /\ (forall k, k ∈ spawned' <-> k ∈ spawned \/ k ∈ started)
  /\ (reverse_pool_pass s spawned').1 = [].
Proof.
  unfold reverse_pool_pass. set (keys := reverse_peers s ≫= _).
  assert (Hkeys : forall peer slot, (peer, slot) ∈ keys <->
    peer ∈ reverse_peers s /\ (slot < Z.to_nat (pool_size (st_config s)))%nat).
  { intros peer slot. unfold keys. rewrite list_elem_of_bind. setoid_rewrite list_elem_of_fmap.
    setoid_rewrite elem_of_seq. split.
    - intros (p & (i & [= -> ->] & ?) & ?). split; [done|lia].
    - intros [Hp Hs]. exists peer. split; [|done]. exists slot. split; [done|lia]. }
  pose proof (spawn_workers_spec keys spawned) as Hs.
  destruct (spawn_workers keys spawned) as [started spawned']. destruct Hs as (Hnd & Hin & Hsp).
  split; [done|]. split; [|split].
  - intros peer slot. rewrite Hin, Hkeys. tauto.
  - intros k. rewrite Hsp, Hin. destruct (decide (k ∈ spawned)); tauto.
  - pose proof (spawn_workers_spec keys spawned') as Hs2. destruct (spawn_workers keys spawned') as [st2 sp2].
    destruct Hs2 as (_ & Hin2 & _). simpl. destruct st2 as [|k ks]; [done|]. exfalso.
    destruct (proj1 (Hin2 k)) as [Hk Hnk]; [apply elem_of_cons; by left|].
    apply Hnk, Hsp. by right.
Qed.

Module Examples.

(** A NAT'd node's answer through a relay, and a draining node's. *)
Example relayed_error :
  let '(out, e) := relay_answer (send_tunnel_error "service 'x' not found on this node") in
  check_tunnel out = Err (Rejected "service 'x' not found on this node").
Proof. vm_compute. reflexivity. Qed.

End Examples.
