(* ===== verification/Io.v ===== *)
(** * Bidirectional copying ([src/src/io.rs])

    One direction of a proxied connection, the idle clock the two directions
    share, and how they combine. What each read and write does is an input. *)

From S2P Require Import Prelude.

Definition BUF_SIZE : nat := 16 * 4096.
Definition IDLE_TIMEOUT_MS : Z := 300000.

(** How a direction ends: shut down after the end of its input, failed, or
    still waiting when the inputs given run out. *)
Inductive CopyEnd := Shutdown | WriteZero | IoError | Waiting.
#[export] Instance CopyEnd_eq_dec : EqDecision CopyEnd.
Proof. solve_decision. Defined.

Fixpoint str_skip (n : nat) (s : string) : string :=
  match n, s with
  | 0, _ => s
  | S n, String _ s => str_skip n s
  | S _, EmptyString => EmptyString
  end.

(** Write [chunk] piecewise: each write takes some bytes ([None]: it fails).
    The bytes written, what is left of the writes, and the end if it came. *)
Fixpoint write_pieces (chunk : string) (writes : list (option nat)) (out : string)
    : string * list (option nat) * option CopyEnd :=
  if str_is_empty chunk then (out, writes, None)
  else match writes with
       | [] => (out, [], Some Waiting)
       | None :: writes => (out, writes, Some IoError)
       | Some 0 :: writes => (out, writes, Some WriteZero)
       | Some n :: writes =>
           let n := Nat.min n (String.length chunk) in
           write_pieces (str_skip n chunk) writes (out +:+ String.substring 0 n chunk)
       end.

(** [copy_then_shutdown]. A read gives at most a buffer's worth of bytes
    ([None]: it fails), with whether the flush after writing them succeeds; an
    empty one is the end of the input, where the writer is shut down. *)
Fixpoint copy_then_shutdown (reads : list (option (string * bool))) (writes : list (option nat))
    (shutdown : bool) (out : string) : string * CopyEnd :=
  match reads with
  | [] => (out, Waiting)
  | None :: _ => (out, IoError)
  | Some (chunk, flushed) :: reads =>
      if str_is_empty chunk then (out, if shutdown then Shutdown else IoError)
      else match write_pieces chunk writes out with
           | (out, _, Some e) => (out, e)
           | (out, writes, None) =>
               if flushed then copy_then_shutdown reads writes shutdown out else (out, IoError)
           end
  end.

(** ** [Activity]

    Milliseconds since the start of the connection. *)

Definition touch (elapsed_ms last_ms : Z) : Z := Z.max last_ms (Z.min elapsed_ms u64_max).

(** [idle_for]: each look is the latest activity and the time it is made;
    the first past the deadline resolves it. *)
Fixpoint idle_for (limit : Z) (looks : list (Z * Z)) : option Z :=
  match looks with
  | [] => None
  | (last, now) :: looks => if (last + limit <=? now)%Z then Some now else idle_for limit looks
  end.

(** [proxy_bidirectional]: idle first, or both directions shut down, or the
    first failure. *)
Definition proxy_bidirectional (idle_first : bool) (ab ba : CopyEnd) : option (result unit CopyEnd) :=
  if idle_first then Some (Ok tt)
  else match ab, ba with
       | Shutdown, Shutdown => Some (Ok tt)
       | (WriteZero | IoError), _ => Some (Err ab)
       | _, (WriteZero | IoError) => Some (Err ba)
       | _, _ => None
       end.

Definition read_bytes (reads : list (option (string * bool))) : string :=
  foldr (fun r acc => match r with Some (chunk, _) => chunk | None => "" end +:+ acc) "" reads.

Lemma split_at n s : n <= String.length s -> s = String.substring 0 n s +:+ str_skip n s.
Proof.
  revert n. induction s as [|c s IH]; intros n Hn.
  - simpl in Hn. assert (n = 0) as -> by lia. done.
  - destruct n as [|n]; [done|]. simpl in *. rewrite str_app_cons. f_equal. apply IH. lia.
Qed.

(** The bytes out are the bytes in so far, then the rest of the chunk. *)
Lemma write_pieces_spec chunk writes out :
  let '(out', _, e) := write_pieces chunk writes out in
  exists done_ left_, chunk = done_ +:+ left_ /\ out' = out +:+ done_
    /\ e <> Some Shutdown /\ (e = None -> left_ = "").
Proof.
  revert chunk out. induction writes as [|w writes IH]; intros chunk out; simpl;
    (destruct (str_is_empty chunk) eqn:He;
     [destruct chunk; [|discriminate]; exists "", ""; rewrite !str_app_nil_r; by split_and!|]).
  - exists "", chunk. rewrite ?str_app_nil_r. by split_and!.
  - destruct w as [[|n]|]; [exists "", chunk; rewrite ?str_app_nil_r; by split_and!|
      |exists "", chunk; rewrite ?str_app_nil_r; by split_and!].
    set (k := Nat.min (S n) (String.length chunk)).
    specialize (IH (str_skip k chunk) (out +:+ String.substring 0 k chunk)).
    destruct (write_pieces _ writes _) as [[out' ws] e]. destruct IH as (d & l & Hs & Ho & He1 & He2).
    exists (String.substring 0 k chunk +:+ d), l. rewrite <- !str_app_assoc, <- Hs.
    split; [apply split_at; lia|]. by rewrite Ho, str_app_assoc.
Qed.

Lemma copy_prefix reads writes shutdown out :
  let '(out', e) := copy_then_shutdown reads writes shutdown out in
  exists done_ left_, read_bytes reads = done_ +:+ left_ /\ out' = out +:+ done_
    /\ (e = Shutdown -> exists before flushed later, reads = before ++ Some ("", flushed) :: later
          /\ done_ = read_bytes before).
Proof.
  revert writes out. induction reads as [|r reads IH]; intros writes out; simpl.
  { exists "", "". rewrite ?str_app_nil_r. by split_and!. }
  destruct r as [[chunk flushed]|]; simpl; [|exists "", (read_bytes reads); rewrite ?str_app_nil_r; by split_and!].
  destruct (str_is_empty chunk) eqn:Hempty.
  { destruct chunk; [|done]. exists "", (read_bytes reads). rewrite str_app_nil_r. split; [done|]. split; [done|].
    intros _. exists [], flushed, reads. by split. }
  pose proof (write_pieces_spec chunk writes out) as Hw.
  destruct (write_pieces chunk writes out) as [[out1 ws] [e|]].
  - destruct Hw as (d & l & -> & -> & He & _). exists d, (l +:+ read_bytes reads).
    rewrite str_app_assoc. split; [done|]. split; [done|]. congruence.
  - destruct Hw as (d & l & -> & -> & _ & Hl). rewrite (Hl eq_refl), str_app_nil_r in *.
    destruct flushed; [|by exists d, (read_bytes reads)].
    specialize (IH ws (out +:+ d)). destruct (copy_then_shutdown reads ws _ _) as [out' e].
    destruct IH as (d' & l' & Hr & -> & Hs). exists (d +:+ d'), l'.
    rewrite Hr, !str_app_assoc. split; [done|]. split; [done|]. intros He.
    destruct (Hs He) as (before & fl & later & -> & ->).
    by exists (Some (d, true) :: before), fl, later.
Qed.

Lemma idle_for_spec limit looks now :
  idle_for limit looks = Some now -> exists last, (last, now) ∈ looks /\ (limit <= now - last)%Z.
Proof.
  induction looks as [|[l n] looks IH]; simpl; [done|]. destruct (Z.leb_spec (l + limit) n).
  - intros [= <-]. exists l. split; [apply elem_of_cons; by left|lia].
  - intros Hs. destruct (IH Hs) as (last & Hin & ?). exists last. split; [apply elem_of_cons; by right|done].
Qed.

(** ** Properties *)

(** One direction of a proxied connection forwards exactly a prefix of the
    bytes it read, in order, however its writes are cut up; when it shuts its
    writer down it has forwarded all of them up to the end of its input. *)
Theorem copy_forwards_in_order reads writes shutdown :
  let '(out, e) := copy_then_shutdown reads writes shutdown "" in
  (exists left_, read_bytes reads = out +:+ left_)
  /\ (e = Shutdown -> exists before flushed later, reads = before ++ Some ("", flushed) :: later
        /\ out = read_bytes before).
Proof.
  pose proof (copy_prefix reads writes shutdown "") as Hc.
  destruct (copy_then_shutdown reads writes shutdown "") as [out e].
  destruct Hc as (d & l & Hr & -> & Hs). rewrite str_app_nil. split; [by exists l|done].
Qed.

Example copy_example :
  copy_then_shutdown [Some ("hello", true); Some (" world", true); Some ("", true)]
    [Some 2; Some 9; Some 6] true "" = ("hello world", Shutdown)
  /\ copy_then_shutdown [Some ("hello", true); Some ("", true)] [Some 2; Some 0] true "" = ("he", WriteZero).
Proof. vm_compute. auto. Qed.
