(* ===== verification/Mux.v ===== *)
(** * Multiplexed sessions ([src/src/mux.rs], the pool and the client driver)

    The pool of yamux sessions by address, and the task that serves requests
    for outbound streams one at a time. The yamux connection ([yamux] crate) and
    the channels are inputs; handles and requests are identifiers. The server
    side of a session is in Tunnel. *)

From S2P Require Import Prelude.

(** ** [MuxPool] *)

Abbreviation MuxPool := (gmap string nat).

(** [open_stream]: a stream on the session for [addr]; a session that fails to
    give one is removed. [opens] is what each handle's [open_stream] gives. *)
Definition open_stream {Stream} (opens : nat -> option Stream) (addr : string) (pool : MuxPool)
    : option Stream * MuxPool :=
  match pool !! addr with
  | None => (None, pool)
  | Some handle =>
      match opens handle with
      | Some stream => (Some stream, pool)
      | None => (None, delete addr pool)
      end
  end.

Definition mux_insert (addr : string) (handle : nat) (pool : MuxPool) : MuxPool := <[addr := handle]> pool.
Definition mux_contains (addr : string) (pool : MuxPool) : bool := bool_decide (is_Some (pool !! addr)).
Definition session_count (pool : MuxPool) : nat := size pool.
Definition mux_remove (addr : string) (pool : MuxPool) : MuxPool := delete addr pool.

(** ** The driver of a client session

    One poll of [drive_client_connection]: the request waiting for a stream,
    and what the channel and the connection answer. *)

Inductive Recv := RecvSome (sender : nat) | RecvClosed | RecvPending.
Inductive Inbound := InboundEnd | InboundStream | InboundPending.

Record PollInput := {
  pi_sender_closed : bool;            (** the waiting requester gave up *)
  pi_outbound : option (option nat);  (** ready with a stream or an error, or not ready *)
  pi_recv : Recv;
  pi_inbound : Inbound
}.

Record PollResult := {
  pr_pending : option nat;
  pr_answered : list (nat * option nat); (** the answer sent, if any *)
  pr_dropped : list nat;                 (** requests whose requester gave up *)
  pr_received : list nat;
  pr_done : bool
}.

Definition drive_poll (i : PollInput) (pending : option nat) : PollResult :=
  let '(pending, answered, dropped) :=
    match pending with
    | Some sender =>
        if pi_sender_closed i then (None, [], [sender])
        else match pi_outbound i with
             | Some result => (None, [(sender, result)], [])
             | None => (Some sender, [], [])
             end
    | None => (None, [], [])
    end in
  let result pending received done_ :=
    {| pr_pending := pending; pr_answered := answered; pr_dropped := dropped;
       pr_received := received; pr_done := done_ |} in
  let drive pending received :=
    match pi_inbound i with
    | InboundEnd => result pending received true
    | InboundStream | InboundPending => result pending received false
    end in
  match pending with
  | None =>
      match pi_recv i with
      | RecvSome sender => drive (Some sender) [sender]
      | RecvClosed => result None [] true
      | RecvPending => drive None []
      end
  | Some _ => drive pending []
  end.

(** Polls until the task ends: what was received, what each request came to,
    and the request still waiting. *)
Fixpoint drive_client_connection (inputs : list PollInput) (pending : option nat)
    : list nat * list (nat * option (option nat)) * option nat :=
  match inputs with
  | [] => ([], [], pending)
  | i :: inputs =>
      let r := drive_poll i pending in
      let settled := ((fun '(s, a) => (s, Some a)) <$> pr_answered r) ++ ((fun s => (s, None)) <$> pr_dropped r) in
      if pr_done r then (pr_received r, settled, pr_pending r)
      else
        let '(received, settled', pending') := drive_client_connection inputs (pr_pending r) in
        (pr_received r ++ received, settled ++ settled', pending')
  end.

Lemma drive_poll_spec i pending :
  let r := drive_poll i pending in
  option_list pending ++ pr_received r =
    (pr_answered r).*1 ++ pr_dropped r ++ option_list (pr_pending r).
Proof.
  cbv zeta. unfold drive_poll.
  destruct pending as [s|]; [destruct (pi_sender_closed i); [|destruct (pi_outbound i)]|];
    destruct (pi_recv i), (pi_inbound i); done.
Qed.

(** ** Properties *)

(** The driver serves requests for streams in the order they arrive, one
    at a time: each is settled once (answered, or dropped because its requester
    gave up) before the next is taken, and when the task ends at most one is
    left waiting. None is lost or answered twice. *)
Lemma driver_serves_in_order inputs :
  let '(received, settled, pending) := drive_client_connection inputs None in
  received = settled.*1 ++ option_list pending.
Proof.
  assert (Hgen : forall pending0,
    let '(received, settled, pending) := drive_client_connection inputs pending0 in
    option_list pending0 ++ received = settled.*1 ++ option_list pending).
  { induction inputs as [|i inputs IH]; intros pending0; simpl; [by rewrite app_nil_r|].
    pose proof (drive_poll_spec i pending0) as Hp. cbv zeta in Hp.
    set (r := drive_poll i pending0) in *.
    set (settled := ((fun '(s, a) => (s, Some a)) <$> pr_answered r) ++ ((fun s => (s, None)) <$> pr_dropped r)).
    assert (Hs : settled.*1 = (pr_answered r).*1 ++ pr_dropped r).
    { unfold settled. rewrite fmap_app, <- !list_fmap_compose. f_equal.
      - apply list_fmap_ext. by intros ? [].
      - apply list_fmap_id. }
    destruct (pr_done r).
    - by rewrite Hp, Hs, (assoc_L (++)).
    - specialize (IH (pr_pending r)). destruct (drive_client_connection inputs (pr_pending r)) as [[rc st] pd].
      rewrite (assoc_L (++)), Hp, fmap_app, Hs, <- !(assoc_L (++)), IH. done. }
  apply (Hgen None).
Qed.

Example driver_example :
  drive_client_connection
    [ {| pi_sender_closed := false; pi_outbound := None; pi_recv := RecvSome 1; pi_inbound := InboundPending |};
      {| pi_sender_closed := false; pi_outbound := Some (Some 7); pi_recv := RecvSome 2; pi_inbound := InboundPending |};
      {| pi_sender_closed := true; pi_outbound := None; pi_recv := RecvClosed; pi_inbound := InboundPending |} ] None
  = ([1; 2], [(1, Some (Some 7)); (2, None)], None).
Proof. reflexivity. Qed.
