(* ===== verification/Proxy.v ===== *)
(** * The local TCP proxy of a service ([src/src/subscribe/proxy.rs])

    Which nodes can serve a client connection, the attempts made for it, and
    how one tunnel is established. *)

From S2P Require Import Prelude NetAddr Dynamic Config State Messages Gossip Tunnel Mux Balancer.

Definition REVERSE_POOL_TIMEOUT : Z := 5000000000.
Definition MAX_TUNNEL_ATTEMPTS : nat := 3.
Definition NODE_STALE_AFTER : Z := 30000000000.

(** ** Candidates *)

Section candidates.
Context `{MapIter}.

(** Every instance must say so. *)
Definition service_is_http (service_name : string) (s : SharedState) : bool :=
  let instances := retain (fun '((_, svc), _) => str_eqb svc service_name) (map_iter (st_service_index s)) in
  negb (bool_decide (instances = [])) && all (fun '(_, svc) => bool_decide (svc_protocol svc = Http)) instances.

Definition by_id (a b : Backend) : Prop := String.le (b_id a) (b_id b).
#[export] Instance by_id_dec : RelDecision by_id.
Proof. intros a b. unfold by_id. apply _. Defined.

(** The known nodes hosting the service, sorted by node id. *)
Definition service_backends (service_name : string) (s : SharedState) : list Backend :=
  merge_sort by_id
    (omap (fun '((node, svc_nm), svc) =>
       if str_eqb svc_nm service_name then
         (fun n => {| b_node := n; b_weight := svc_weight svc; b_max_connections := svc_max_connections svc;
                      b_request_timeout := (fun ms => ms * 1000000)%Z <$> svc_request_timeout_ms svc;
                      b_labels := svc_labels svc |}) <$> (st_known_nodes s !! node)
       else None)
       (map_iter (st_service_index s))).
End candidates.

(** The items satisfying [keep], or all of them if none do. *)
Definition prefer {A} (items : list A) (keep : A -> bool) : list A :=
  if any keep items then retain keep items else items.

Definition recently_seen (now : Z) (b : Backend) : bool :=
  match ni_last_seen (b_node b) with
  | Some seen => (saturating_sub now seen <=? NODE_STALE_AFTER)%Z
  | None => false
  end.

Definition prefer_healthy (now : Z) (backends : list Backend) (service_name : string) (s : SharedState)
    : list Backend :=
  let live := prefer backends (recently_seen now) in
  prefer live (fun b => negb (service_unhealthy s (b_id b) service_name)).

(** ** Establishing a tunnel *)

(** A stream is a mux stream, or a connection from a pool or freshly dialled. *)
Inductive Tunnel := TMux (stream : nat) | TMesh (stream : conn).
Inductive Method := MMux | MReverse | MPool | MCold.
#[export] Instance Method_eq_dec : EqDecision Method.
Proof. solve_decision. Defined.

Record EstablishEnv := {
  ee_now_ms : option Z;
  ee_mux : nat -> option nat;                  (** opening a stream on a mux handle *)
  ee_waits : list (wait_outcome (T := conn));  (** waits on the reverse pool *)
  ee_connect : string -> result conn string;   (** a TCP connection to an address *)
  ee_tls : conn -> result conn string;         (** [tls_connect] over it *)
  ee_send : Tunnel -> Message -> bool;         (** sending the request *)
  ee_answer : Tunnel -> string                 (** the bytes that come back *)
}.

(** [send_and_check_tunnel]. *)
Definition send_and_check_tunnel (env : EstablishEnv) (t : Tunnel) (msg : Message) : result string string :=
  if negb (ee_send env t msg) then Err "send tunnel request"
  else match check_tunnel (ee_answer env t) with
       | Ok rest => Ok rest
       | Err NoStatus => Err "read tunnel status byte"
       | Err NoErrorLength => Err "read tunnel error length"
       | Err NoErrorMessage => Err "read tunnel error message"
       | Err (Rejected msg) => Err ("node rejected tunnel: " +:+ msg)
       end.

Record Pools := { p_mux : MuxPool; p_reverse : StreamPool conn; p_tunnel : StreamPool conn }.

Definition connect_addr (node : NodeInfo) : string := default (ni_addr node) (ni_relay node).

(** The dedicated connection, when no mux stream is to be had. *)
Definition take_connection (env : EstablishEnv) (node : NodeInfo) (p : Pools)
    : result (Method * conn) string * Pools :=
  let addr := connect_addr node in
  match try_take (ni_id node) (p_reverse p) with
  | (Some c, reverse) => (Ok (MReverse, c), {| p_mux := p_mux p; p_reverse := reverse; p_tunnel := p_tunnel p |})
  | (None, _) =>
      match try_take addr (p_tunnel p) with
      | (Some c, tunnel) => (Ok (MPool, c), {| p_mux := p_mux p; p_reverse := p_reverse p; p_tunnel := tunnel |})
      | (None, _) =>
          if str_is_empty addr then
            match take_loop (ni_id node) (p_reverse p) REVERSE_POOL_TIMEOUT (ee_waits env) with
            | (Some c, reverse) =>
                (Ok (MReverse, c), {| p_mux := p_mux p; p_reverse := reverse; p_tunnel := p_tunnel p |})
            | (None, reverse) =>
                (Err ("node " +:+ ni_id node +:+ " not reachable: no address and no reverse connections"),
                 {| p_mux := p_mux p; p_reverse := reverse; p_tunnel := p_tunnel p |})
            end
          else
            match ee_connect env addr with
            | Err _ => (Err ("connect to " +:+ addr), p)
            | Ok tcp =>
                match ee_tls env tcp with
                | Ok c => (Ok (MCold, c), p)
                | Err _ => (Err ("TLS connect to " +:+ addr), p)
                end
            end
      end
  end.

Definition establish_tunnel (env : EstablishEnv) (node : NodeInfo) (service_name : string) (p : Pools)
    : result (Method * Tunnel) string * Pools :=
  match ee_now_ms env with
  | None => (Err "system time before Unix epoch", p)
  | Some timestamp_ms =>
      let msg := TunnelRequest (ni_id node) service_name timestamp_ms in
      let addr := connect_addr node in
      let '(mux, p) :=
        if str_is_empty addr then (None, p)
        else let '(stream, mux) := open_stream (ee_mux env) addr (p_mux p) in
             (stream, {| p_mux := mux; p_reverse := p_reverse p; p_tunnel := p_tunnel p |}) in
      match mux with
      | Some stream =>
          (match send_and_check_tunnel env (TMux stream) msg with
           | Ok _ => Ok (MMux, TMux stream)
           | Err e => Err e
           end, p)
      | None =>
          let '(taken, p) := take_connection env node p in
          (match taken with
           | Err e => Err e
           | Ok (method, c) =>
               match send_and_check_tunnel env (TMesh c) msg with
               | Ok _ => Ok (method, TMesh c)
               | Err e => Err e
               end
           end, p)
      end
  end.

(** ** Serving a client *)

Inductive ClientOutcome :=
| NoNodes
| CircuitOpen
| Forwarded (node : string)   (** proxied; the slot is dropped when that ends *)
| Unreachable (tried : list string).

(** [note_tunnel_failure]: the balancer's part; the rest is logging. *)
Definition note_tunnel_failure (node : string) (now : Z) (inner : Inner) : Inner :=
  (record_failure node now inner).2.

(** The attempts. [nows] is the clock at each attempt's pick and failure, and
    [establish] what tunnel setup to the chosen node gives. The nodes tried are
    in order; on [Forwarded] the last one's slot is still held. *)
Fixpoint serve_loop (attempts : nat) (backends : list Backend) (nows : nat -> Z * Z)
    (establish : Backend -> bool) (tried : list string) (inner : Inner)
    : ClientOutcome * list string * Inner :=
  match attempts with
  | 0 => (Unreachable tried, tried, inner)
  | S attempts =>
      match pick backends tried (nows (length tried)).1 inner with
      | (AllTried, inner) => (Unreachable tried, tried, inner)
      | (AtCapacity, inner) =>
          if bool_decide (tried = []) then (CircuitOpen, tried, inner) else (Unreachable tried, tried, inner)
      | (Chosen index slot, inner) =>
          let node := b_id (backends !!! index) in
          let tried' := tried ++ [node] in
          if establish (backends !!! index) then (Forwarded node, tried', record_success node inner)
          else serve_loop attempts backends nows establish tried'
                 (drop_slot slot (note_tunnel_failure node (nows (length tried)).2 inner))
      end
  end.

Definition serve_client `{MapIter} (now : Z) (nows : nat -> Z * Z) (establish : Backend -> bool)
    (service_name : string) (s : SharedState) (inner : Inner) : ClientOutcome * list string * Inner :=
  let all_ := service_backends service_name s in
  let inner := retain_nodes all_ inner in
  let backends := prefer_healthy now all_ service_name s in
  if bool_decide (backends = []) then (NoNodes, [], inner)
  else serve_loop (Nat.min (length backends) MAX_TUNNEL_ATTEMPTS) backends nows establish [] inner.

(** What [run_proxy] does with its listener's bind and with each connection. *)
Inductive Accepted := AsHttp | AsTcp | StopAccepting.

Definition run_proxy_bind (port : option Z) (bound : result Z string) : result Z string :=
  match bound with
  | Ok local_port => Ok local_port
  | Err e => Err ("bind 127.0.0.1:" +:+ show (default 0%Z port) +:+ ": " +:+ e)
  end.

Definition run_proxy_accept `{MapIter} (service_name : string) (s : SharedState) : Accepted :=
  if st_shutdown s then StopAccepting
  else if service_is_http service_name s then AsHttp else AsTcp.

(** ** Candidates: what is offered to the balancer *)

Lemma elem_of_prefer {A} (items : list A) keep x :
  x ∈ prefer items keep <-> x ∈ items /\ (keep x = true \/ Forall (fun y => keep y = false) items).
Proof.
  unfold prefer. destruct (any keep items) eqn:Ha.
  - rewrite elem_of_retain. split; [tauto|]. intros [Hx [?|Hall]]; [done|].
    apply any_false in Hall. congruence.
  - apply any_false in Ha. tauto.
Qed.

Lemma prefer_nonempty {A} (items : list A) keep : items <> [] -> prefer items keep <> [].
Proof.
  unfold prefer. destruct (any keep items) eqn:Ha; [|done]. intros _ Hr.
  apply any_true in Ha as (x & Hx & Hk). assert (Hin : x ∈ retain keep items) by by apply elem_of_retain.
  rewrite Hr in Hin. by apply not_elem_of_nil in Hin.
Qed.

Lemma prefer_sublist {A} (items : list A) keep : sublist (prefer items keep) items.
Proof. unfold prefer. destruct (any keep items); [apply retain_sublist|done]. Qed.

Lemma prefer_healthy_sublist now bs name s : sublist (prefer_healthy now bs name s) bs.
Proof. unfold prefer_healthy. by rewrite !prefer_sublist. Qed.

Definition backend_for (svc : Service) (n : NodeInfo) : Backend :=
  {| b_node := n; b_weight := svc_weight svc; b_max_connections := svc_max_connections svc;
     b_request_timeout := (fun ms => ms * 1000000)%Z <$> svc_request_timeout_ms svc;
     b_labels := svc_labels svc |}.

Lemma elem_of_service_backends `{MapIter} name s b :
  b ∈ service_backends name s <->
  exists node svc n, st_service_index s !! (node, name) = Some svc
    /\ st_known_nodes s !! node = Some n /\ b = backend_for svc n.
Proof.
  unfold service_backends. rewrite merge_sort_Permutation, list_elem_of_omap. split.
  - intros ([[node nm] svc] & Hin & Hb). apply elem_of_map_iter in Hin.
    destruct (str_eqb nm name) eqn:Hn; bool_hyps; [subst nm|done].
    destruct (st_known_nodes s !! node) as [n|] eqn:Hk; [|done]. simpl in Hb. exists node, svc, n.
    split; [done|]. split; [done|]. by injection Hb as <-.
  - intros (node & svc & n & Hi & Hk & ->). exists ((node, name), svc). split; [by apply elem_of_map_iter|].
    by rewrite str_eqb_refl, Hk.
Qed.

Lemma service_backends_sorted `{MapIter} name s : Sorted by_id (service_backends name s).
Proof.
  apply Sorted_merge_sort. intros a b. unfold by_id. apply total. apply _.
Qed.

(** ** The attempts *)

Definition act (inner : Inner) (id : string) : Z := default 0%Z (active inner !! id).

Lemma act_drop_pick inner inner1 id x :
  (0 <= act inner id < u32_max)%Z ->
  active inner1 = <[id := wrap32 (act inner id + 1)]> (active inner) ->
  act (drop_slot id inner1) x = act inner x.
Proof.
  intros Hr Ha. unfold drop_slot. rewrite Ha, lookup_insert_eq.
  rewrite wrap32_small by lia. unfold saturating_sub.
  replace (Z.max 0 (act inner id + 1 - 1))%Z with (act inner id) by lia. unfold act at 1. simpl.
  destruct (decide (x = id)) as [->|Hne].
  - destruct (Z.eqb_spec (act inner id) 0) as [He|He].
    + by rewrite lookup_delete_eq.
    + by rewrite lookup_insert_eq.
  - destruct (Z.eqb_spec (act inner id) 0) as [He|He].
    + by rewrite lookup_delete_ne, lookup_insert_ne.
    + by rewrite !lookup_insert_ne.
Qed.

Lemma act_note_failure node now inner id : act (note_tunnel_failure node now inner) id = act inner id.
Proof. unfold note_tunnel_failure, record_failure, act. by destruct (outlier_failure _ now). Qed.

Lemma act_record_success node inner id : act (record_success node inner) id = act inner id.
Proof. unfold record_success, act. by destruct (outliers inner !! node). Qed.

Lemma active_note_failure node now inner : active (note_tunnel_failure node now inner) = active inner.
Proof. unfold note_tunnel_failure, record_failure. by destruct (outlier_failure _ now). Qed.

(** A pick takes one slot, of a node not tried yet, and dropping it gives it back. *)
Lemma pick_slot backends tried now inner index slot inner1 :
  pick backends tried now inner = (Chosen index slot, inner1) ->
  (forall id, id ∉ tried -> 0 <= act inner id < u32_max)%Z ->
  let b := backends !!! index in
  slot = b_id b /\ b ∈ backends /\ (b_id b ∉ tried)
  /\ (forall i, active i = active inner1 -> forall x, act (drop_slot (b_id b) i) x = act inner x)
  /\ (forall x, act inner1 x = act inner x + if decide (x = b_id b) then 1 else 0)%Z.
Proof.
  intros Hp Hact. apply pick_chosen_inv in Hp as (-> & _ & Ho & Ha).
  apply elem_of_open in Ho as [[Hi Hnt]%elem_of_untried _]. cbv zeta. set (node := b_id (backends !!! index)) in *.
  change (default 0%Z (active inner !! node)) with (act inner node) in Ha. pose proof (Hact node Hnt) as Hr.
  split; [done|]. split; [by apply lookup_total_elem|]. split; [done|]. split.
  - intros i Hai x. eapply act_drop_pick; [exact Hr|]. by rewrite Hai.
  - intros x. unfold act at 1. rewrite Ha. case_decide as Hx; [subst x|].
    + rewrite lookup_insert_eq. simpl. by rewrite wrap32_small by lia.
    + rewrite lookup_insert_ne by done. unfold act. lia.
Qed.

(** The slots as they are after an outcome. *)
Definition slots_after (o : ClientOutcome) (inner inner' : Inner) : Prop :=
  forall id, act inner' id = (act inner id + match o with
                                             | Forwarded node => if decide (id = node) then 1 else 0
                                             | _ => 0
                                             end)%Z.

Record served (backends : list Backend) (establish : Backend -> bool) (attempts : nat)
    (tried : list string) (o : ClientOutcome) (tried' : list string) : Prop := {
  served_tried : exists new, tried' = tried ++ new /\ length new <= attempts
    /\ match o with
       | Forwarded node => exists failed b, new = failed ++ [node] /\ b ∈ backends /\ b_id b = node
           /\ establish b = true
           /\ forall id, id ∈ failed -> exists b, b ∈ backends /\ b_id b = id /\ establish b = false
       | Unreachable l => l = tried' /\ forall id, id ∈ new -> exists b, b ∈ backends /\ b_id b = id /\ establish b = false
       | CircuitOpen => tried' = []
       | NoNodes => False
       end;
  served_nodup : NoDup tried -> NoDup tried'
}.

Lemma serve_loop_served attempts backends nows establish tried inner :
  (forall id, 0 <= act inner id < u32_max)%Z ->
  let '(o, tried', inner') := serve_loop attempts backends nows establish tried inner in
  served backends establish attempts tried o tried' /\ slots_after o inner inner'.
Proof.
  revert tried inner. induction attempts as [|n IH]; intros tried inner Hact; cbn [serve_loop].
  { split; [|intros id; lia]. split; [|done]. exists []. rewrite app_nil_r. split; [done|]. split; [done|].
    split; [done|]. by intros ? ?%not_elem_of_nil. }
  destruct (pick backends tried (nows (length tried)).1 inner) as [p inner1] eqn:Hp.
  destruct p as [index slot| |].
  - destruct (pick_slot _ _ _ _ _ _ _ Hp (fun id _ => Hact id)) as (-> & Hin & Hnt & Hback & Hkeep).
    set (node := b_id (backends !!! index)) in *.
    assert (Hnd : NoDup tried -> NoDup (tried ++ [node])).
    { intros Ht. by apply NoDup_snoc. }
    destruct (establish (backends !!! index)) eqn:Hest.
    + split; [|intros id; by rewrite act_record_success, Hkeep]. split; [|done].
      exists [node]. split; [done|]. split; [simpl; lia|]. exists [], (backends !!! index).
      split; [done|]. split; [done|]. split; [done|]. split; [done|]. by intros ? ?%not_elem_of_nil.
    + assert (Hsame : forall id, act (drop_slot node (note_tunnel_failure node (nows (length tried)).2 inner1)) id = act inner id).
      { apply Hback, active_note_failure. }
      specialize (IH (tried ++ [node]) (drop_slot node (note_tunnel_failure node (nows (length tried)).2 inner1))).
      destruct (serve_loop n _ _ _ _ _) as [[o tried'] inner']. destruct IH as [[Hs Hnd'] Hsl].
      { intros id. by rewrite Hsame. }
      split; [|intros id; by rewrite Hsl, Hsame]. split.
      * destruct Hs as (new & -> & Hlen & Ho). exists (node :: new). rewrite <- (assoc_L (++)).
        split; [done|]. split; [simpl; lia|]. destruct o as [| |fwd|l]; [done| | |].
        -- by destruct tried.
        -- destruct Ho as (failed & b & -> & Hb & Hbid & Hbe & Hf). exists (node :: failed), b.
           split; [done|]. split; [done|]. split; [done|]. split; [done|].
           intros id [->|Hid]%elem_of_cons; [by exists (backends !!! index)|by apply Hf].
        -- destruct Ho as [-> Hf]. split; [by rewrite <- (assoc_L (++))|].
           intros id [->|Hid]%elem_of_cons; [by exists (backends !!! index)|by apply Hf].
      * auto.
  - pose proof (pick_not_chosen _ _ _ _ _ _ Hp (or_introl eq_refl)) as ->.
    split; [|intros id; lia]. split; [|done]. exists []. rewrite app_nil_r. split; [done|].
    split; [simpl; lia|]. split; [done|]. by intros ? ?%not_elem_of_nil.
  - pose proof (pick_not_chosen _ _ _ _ _ _ Hp (or_intror eq_refl)) as ->.
    case_bool_decide as Ht; (split; [|intros id; lia]); (split; [|done]); exists []; rewrite app_nil_r;
      (split; [done|]); (split; [simpl; lia|]); [done|]. split; [done|]. by intros ? ?%not_elem_of_nil.
Qed.

Lemma serve_loop_finds attempts backends nows establish tried inner :
  (forall b, b ∈ backends -> b_max_connections b = None) ->
  NoDup (b_id <$> backends) -> NoDup tried -> tried ⊆ b_id <$> backends ->
  length tried + attempts = length backends ->
  (forall b, b ∈ backends -> b_id b ∈ tried -> establish b = false) ->
  (exists b, b ∈ backends /\ establish b = true) ->
  exists node, (serve_loop attempts backends nows establish tried inner).1.1 = Forwarded node.
Proof.
  intros Hmax Hids. revert tried inner.
  induction attempts as [|n IH]; intros tried inner Hnd Hsub Hlen Hfail [good [Hgood Hest]].
  { exfalso. assert (Hp : tried ≡ₚ b_id <$> backends).
    { apply submseteq_length_Permutation; [by apply NoDup_submseteq|]. rewrite length_fmap. lia. }
    assert (Hin : b_id good ∈ tried) by (rewrite Hp; apply list_elem_of_fmap; eauto).
    by rewrite (Hfail good Hgood Hin) in Hest. }
  assert (Hnt : b_id good ∉ tried).
  { intros Hin. by rewrite (Hfail good Hgood Hin) in Hest. }
  apply list_elem_of_lookup in Hgood as Hg. destruct Hg as [k Hk].
  assert (Hkl : k < length backends) by by eapply lookup_lt_Some.
  assert (Hkt : backends !!! k = good) by by apply list_lookup_total_correct.
  assert (Hu : k ∈ untried_of backends tried) by (apply elem_of_untried; by rewrite Hkt).
  assert (Ho : k ∈ open_of backends tried inner).
  { apply elem_of_open. split; [done|]. unfold is_open. by rewrite Hkt, Hmax. }
  destruct (pick_chosen backends tried (nows (length tried)).1 inner) as (i & inner1 & Hp & Hi & _).
  { intros Hn. rewrite Hn in Hu. by apply not_elem_of_nil in Hu. }
  { intros Hn. rewrite Hn in Ho. by apply not_elem_of_nil in Ho. }
  cbn [serve_loop]. rewrite Hp. destruct (establish (backends !!! i)) eqn:Hei; [by eexists|].
  apply pick_chosen_inv in Hp as (_ & _ & Hoi & _).
  apply elem_of_open in Hoi as [[Hil Hint]%elem_of_untried _].
  assert (Hbi : backends !!! i ∈ backends) by by apply lookup_total_elem.
  apply IH.
  - by apply NoDup_snoc.
  - intros x Hx. apply elem_of_app in Hx as [Hx|Hx]; [by apply Hsub|].
    apply list_elem_of_singleton in Hx as ->. apply list_elem_of_fmap. eauto.
  - rewrite length_app. simpl. lia.
  - intros b Hb Hbt. apply elem_of_app in Hbt as [?|Hbt]; [by apply Hfail|].
    apply list_elem_of_singleton in Hbt. by rewrite (NoDup_fmap_eq b_id backends b (backends !!! i)).
  - eauto.
Qed.

(** The specification of the choice: an open mux stream first, then the newest
    idle reverse connection, then the newest warm one; only when there is none,
    a new connection, or for a node without an address a reverse connection
    that arrives in time. *)
Inductive dedicated (env : EstablishEnv) (node : NodeInfo) (p : Pools) : Method -> conn -> Pools -> Prop :=
| ded_reverse c reverse :
    try_take (ni_id node) (p_reverse p) = (Some c, reverse) ->
    dedicated env node p MReverse c {| p_mux := p_mux p; p_reverse := reverse; p_tunnel := p_tunnel p |}
| ded_pool c tunnel :
    idle (ni_id node) (p_reverse p) = [] -> try_take (connect_addr node) (p_tunnel p) = (Some c, tunnel) ->
    dedicated env node p MPool c {| p_mux := p_mux p; p_reverse := p_reverse p; p_tunnel := tunnel |}
| ded_wait c reverse :
    idle (ni_id node) (p_reverse p) = [] -> idle (connect_addr node) (p_tunnel p) = [] ->
    connect_addr node = "" ->
    take_loop (ni_id node) (p_reverse p) REVERSE_POOL_TIMEOUT (ee_waits env) = (Some c, reverse) ->
    dedicated env node p MReverse c {| p_mux := p_mux p; p_reverse := reverse; p_tunnel := p_tunnel p |}
| ded_cold tcp c :
    idle (ni_id node) (p_reverse p) = [] -> idle (connect_addr node) (p_tunnel p) = [] ->
    connect_addr node <> "" -> ee_connect env (connect_addr node) = Ok tcp -> ee_tls env tcp = Ok c ->
    dedicated env node p MCold c p.

Inductive chosen (env : EstablishEnv) (node : NodeInfo) (p : Pools) : Method -> Tunnel -> Pools -> Prop :=
| chosen_mux handle stream :
    connect_addr node <> "" -> p_mux p !! connect_addr node = Some handle -> ee_mux env handle = Some stream ->
    chosen env node p MMux (TMux stream) p
| chosen_dedicated m c mux p' :
    connect_addr node = "" /\ mux = p_mux p
    \/ connect_addr node <> "" /\ open_stream (ee_mux env) (connect_addr node) (p_mux p) = (None, mux) ->
    dedicated env node {| p_mux := mux; p_reverse := p_reverse p; p_tunnel := p_tunnel p |} m c p' ->
    chosen env node p m (TMesh c) p'.

(** The stream carries the request and the node's answer accepts it. *)
Definition accepted (env : EstablishEnv) (t : Tunnel) (msg : Message) : Prop :=
  ee_send env t msg = true /\ is_ok (check_tunnel (ee_answer env t)) = true.

Lemma send_and_check_accepted env t msg :
  is_ok (send_and_check_tunnel env t msg) = true <-> accepted env t msg.
Proof.
  unfold send_and_check_tunnel, accepted. destruct (ee_send env t msg); simpl; [|by split; [|intros []]].
  destruct (check_tunnel _) as [|[]]; simpl; by split; [|intros []].
Qed.

Lemma try_take_some {T} key (pool : StreamPool T) c pool' :
  try_take key pool = (Some c, pool') -> idle key pool <> [].
Proof.
  intros Ht. pose proof (try_take_spec key pool) as Hs. rewrite Ht in Hs. destruct Hs as [-> _].
  by destruct (idle key pool').
Qed.

Lemma take_connection_dedicated env node p m c p' :
  take_connection env node p = (Ok (m, c), p') <-> dedicated env node p m c p'.
Proof.
  unfold take_connection.
  pose proof (try_take_spec (ni_id node) (p_reverse p)) as Hr.
  destruct (try_take (ni_id node) (p_reverse p)) as [[c1|] reverse] eqn:Hrt.
  { apply try_take_some in Hrt as Hne. split; [intros [= <- <- <-]; by constructor|].
    inversion 1; simplify_eq; congruence. }
  destruct Hr as [-> Hr]. pose proof (try_take_spec (connect_addr node) (p_tunnel p)) as Ht.
  destruct (try_take (connect_addr node) (p_tunnel p)) as [[c1|] tunnel] eqn:Htt.
  { apply try_take_some in Htt as Hne. split; [intros [= <- <- <-]; by constructor|].
    inversion 1; simplify_eq; congruence. }
  destruct Ht as [-> Ht]. destruct (str_is_empty (connect_addr node)) eqn:He.
  - assert (connect_addr node = "") as Ha by by destruct (connect_addr node).
    destruct (take_loop _ _ _ _) as [[c1|] reverse'] eqn:Hl.
    + split; [intros [= <- <- <-]; by apply ded_wait|]. inversion 1; simplify_eq; try congruence.
    + split; [done|]. inversion 1; simplify_eq; congruence.
  - assert (connect_addr node <> "") as Ha by by intros Ha; rewrite Ha in He.
    destruct (ee_connect env _) as [tcp|] eqn:Hc; [destruct (ee_tls env tcp) as [c1|] eqn:Htls|].
    + split; [intros [= <- <- <-]; by eapply ded_cold|]. inversion 1; simplify_eq; congruence.
    + split; [done|]. inversion 1; simplify_eq; congruence.
    + split; [done|]. inversion 1; simplify_eq; congruence.
Qed.

(** ** Properties *)

(** The candidates of a service are its instances on known nodes, each with
    its own weight, limit, timeout and labels, sorted by node id whatever order
    the index is walked in. The liveness and health filters only remove
    candidates, fail open, and keep a stale or unhealthy one only when all are. *)
Theorem candidates_spec `{MapIter} now name s :
  let all_ := service_backends name s in
  let live := prefer all_ (recently_seen now) in
  let backends := prefer_healthy now all_ name s in
  (forall b, b ∈ all_ <->
     exists node svc n, st_service_index s !! (node, name) = Some svc
       /\ st_known_nodes s !! node = Some n /\ b = backend_for svc n)
  /\ Sorted by_id all_
  /\ (backends = [] <-> all_ = [])
  /\ sublist backends all_
  /\ (forall b, b ∈ backends -> (exists b', b' ∈ all_ /\ recently_seen now b' = true) -> recently_seen now b = true)
  /\ (forall b, b ∈ backends ->
        (exists b', b' ∈ live /\ service_unhealthy s (b_id b') name = false) ->
        service_unhealthy s (b_id b) name = false).
Proof.
  cbv zeta. split; [intros; apply elem_of_service_backends|]. split; [apply service_backends_sorted|].
  split; [|split; [apply prefer_healthy_sublist|split]].
  - split; [|intros ->; done]. intros Hn. destruct (decide (service_backends name s = [])) as [|Hne]; [done|].
    exfalso. revert Hn. unfold prefer_healthy. by apply prefer_nonempty, prefer_nonempty.
  - intros b Hb (b' & Hb' & Hl). unfold prefer_healthy in Hb.
    apply elem_of_prefer in Hb as [Hb _]. apply elem_of_prefer in Hb as [_ [?|Hall]]; [done|].
    rewrite Forall_forall in Hall. by rewrite (Hall b' Hb') in Hl.
  - intros b Hb (b' & Hb' & Hl). unfold prefer_healthy in Hb.
    apply elem_of_prefer in Hb as [_ [Hk|Hall]]; [by apply negb_true_iff|].
    rewrite Forall_forall in Hall. specialize (Hall b' Hb'). by rewrite Hl in Hall.
Qed.

(** C10: One client connection tries at most three nodes, each once, all of them
    candidates, and stops at the first whose tunnel comes up; when it gives up
    every node it tried had failed. No slot leaks: only the node that serves
    the client keeps one. *)
Theorem serve_client_spec `{MapIter} now nows establish name s inner
    (Hact : forall id, (0 <= act inner id < u32_max)%Z) :
  let backends := prefer_healthy now (service_backends name s) name s in
  let '(o, tried, inner') := serve_client now nows establish name s inner in
  (o = NoNodes <-> backends = [])
  /\ NoDup tried /\ (length tried <= 3)%nat
  /\ match o with
     | Forwarded node => exists failed b, tried = failed ++ [node] /\ b ∈ backends /\ b_id b = node
         /\ establish b = true
         /\ forall id, id ∈ failed -> exists b, b ∈ backends /\ b_id b = id /\ establish b = false
     | Unreachable l => l = tried /\ forall id, id ∈ tried -> exists b, b ∈ backends /\ b_id b = id /\ establish b = false
     | CircuitOpen | NoNodes => tried = []
     end
  /\ slots_after o inner inner'.
Proof.
  cbv zeta. unfold serve_client.
  assert (Hret : forall id, act (retain_nodes (service_backends name s) inner) id = act inner id) by done.
  case_bool_decide as Hb.
  { split; [done|]. split; [constructor|]. split; [simpl; lia|]. split; [done|]. intros id. rewrite Hret. lia. }
  pose proof (serve_loop_served (Nat.min (length (prefer_healthy now (service_backends name s) name s)) MAX_TUNNEL_ATTEMPTS)
    (prefer_healthy now (service_backends name s) name s) nows establish []
    (retain_nodes (service_backends name s) inner) Hact) as Hs.
  destruct (serve_loop _ _ _ _ _ _) as [[o tried] inner']. destruct Hs as [[(new & -> & Hlen & Ho) Hnd] Hsl].
  simpl in *. split; [|split; [apply Hnd; constructor|split; [unfold MAX_TUNNEL_ATTEMPTS in Hlen; lia|split; [|done]]]].
  - split; [by intros ->|done].
  - destruct o; done.
Qed.

(** C39: A client is served whenever some candidate works: with up to three
    candidates on distinct nodes, none limited, and a tunnel that comes up on
    at least one of them, the attempts end on a working node. *)
Theorem serve_client_finds_working `{MapIter} now nows establish name s inner
    (Hids : NoDup (b_id <$> prefer_healthy now (service_backends name s) name s))
    (Hlen : (length (prefer_healthy now (service_backends name s) name s) <= 3)%nat)
    (Hmax : forall b, b ∈ prefer_healthy now (service_backends name s) name s -> b_max_connections b = None)
    (Hgood : exists b, b ∈ prefer_healthy now (service_backends name s) name s /\ establish b = true) :
  exists node, (serve_client now nows establish name s inner).1.1 = Forwarded node.
Proof.
  unfold serve_client. rewrite bool_decide_false; cycle 1.
  { intros Hn. rewrite Hn in Hgood. destruct Hgood as (b & Hb & _). by apply not_elem_of_nil in Hb. }
  rewrite Nat.min_l by done. apply serve_loop_finds; [done|done|constructor| |done| |done].
  - intros x Hx. by apply not_elem_of_nil in Hx.
  - intros b _ Hb. by apply not_elem_of_nil in Hb.
Qed.

(** C18: Establishing a tunnel uses the stream the priorities choose (an open mux
    stream, the newest idle reverse connection, the newest warm one, and only
    then a reverse connection waited for or a new one), and succeeds exactly
    when that stream carries the request and the node's answer accepts it: a
    chosen stream that fails is not replaced by the next choice. *)
Theorem establish_tunnel_spec env node service_name p now m t p' (Hnow : ee_now_ms env = Some now) :
  establish_tunnel env node service_name p = (Ok (m, t), p') <->
  chosen env node p m t p' /\ accepted env t (TunnelRequest (ni_id node) service_name now).
Proof.
  unfold establish_tunnel. rewrite Hnow. rewrite <- send_and_check_accepted.
  set (msg := TunnelRequest (ni_id node) service_name now).
  assert (Hded : forall mux,
    (connect_addr node = "" /\ mux = p_mux p
     \/ connect_addr node <> "" /\ open_stream (ee_mux env) (connect_addr node) (p_mux p) = (None, mux)) ->
    (let '(taken, p1) := take_connection env node {| p_mux := mux; p_reverse := p_reverse p; p_tunnel := p_tunnel p |} in
     (match taken with
      | Err e => Err e
      | Ok (method, c) => match send_and_check_tunnel env (TMesh c) msg with
                          | Ok _ => Ok (method, TMesh c) | Err e => Err e end
      end, p1)) = (Ok (m, t), p') <->
    chosen env node p m t p' /\ is_ok (send_and_check_tunnel env t msg) = true).
  { intros mux Hmux. split.
    - destruct (take_connection _ _ _) as [[[m1 c]|] p1] eqn:Htc; [|done].
      destruct (send_and_check_tunnel env (TMesh c) msg) eqn:Hs; [|done]. intros [= <- <- <-].
      rewrite Hs. split; [|done]. apply take_connection_dedicated in Htc. by eapply chosen_dedicated.
    - intros [Hch Hok]. destruct Hch as [handle stream Hne Hh Hst|m c mux' p' Hmux' Hd].
      + exfalso. destruct Hmux as [[? _]|[_ Ho]]; [done|]. unfold open_stream in Ho. by rewrite Hh, Hst in Ho.
      + assert (mux' = mux) as -> by (destruct Hmux as [[]|[]], Hmux' as [[]|[]]; congruence).
        apply take_connection_dedicated in Hd. rewrite Hd. by destruct (send_and_check_tunnel env (TMesh c) msg). }
  destruct (str_is_empty (connect_addr node)) eqn:He.
  - assert (connect_addr node = "") as Ha by by destruct (connect_addr node).
    destruct p as [mux rev tun]. cbn [p_mux p_reverse p_tunnel] in *. apply Hded. by left.
  - assert (connect_addr node <> "") as Ha by by intros Ha; rewrite Ha in He.
    destruct (open_stream (ee_mux env) (connect_addr node) (p_mux p)) as [[stream|] mux] eqn:Ho; [|apply Hded; by right].
    clear Hded. unfold open_stream in Ho. destruct (p_mux p !! connect_addr node) as [handle|] eqn:Hh; [|done].
    destruct (ee_mux env handle) as [stream'|] eqn:Hst; [|done]. simplify_eq.
    assert (Hp : {| p_mux := p_mux p; p_reverse := p_reverse p; p_tunnel := p_tunnel p |} = p) by by destruct p.
    rewrite Hp. split.
    + destruct (send_and_check_tunnel env (TMux stream) msg) eqn:Hs; [|done]. intros [= <- <- <-].
      rewrite Hs. split; [|done]. by eapply chosen_mux.
    + intros [Hch Hok]. destruct Hch as [handle' stream' _ Hh' Hst'|m c mux' p' Hmux' Hd].
      * simplify_eq. by destruct (send_and_check_tunnel env (TMux stream) msg).
      * exfalso. destruct Hmux' as [[? _]|[_ Ho]]; [done|]. unfold open_stream in Ho. by rewrite Hh, Hst in Ho.
Qed.

(** ** Witnesses *)

Module Examples.

Definition known : gmap string NodeInfo :=
  {["a" := Balancer.Examples.node "a"; "b" := Balancer.Examples.node "b"]}.

Definition state : SharedState :=
  (update_known_nodes (fun _ => (tt, known)) (new_state Config.Examples.config "stouter.json" true)).2.

(** Node [a] refuses, [b] accepts. *)
Definition establish (b : Backend) : bool := str_eqb (b_id b) "b".
Definition nows (n : nat) : Z * Z := (Z.of_nat n, Z.of_nat n).

Lemma serve_witness :
  (serve_client 0 nows establish "api" state default_inner).1 = (Forwarded "b", ["a"; "b"])
  /\ (length (serve_client 0 nows establish "api" state default_inner).1.2 <= 3)%nat.
Proof.
  pose proof (serve_client_spec 0 nows establish "api" state default_inner) as Hs.
  split; [vm_compute; reflexivity|].
  destruct (serve_client 0 nows establish "api" state default_inner) as [[o tried] inner'].
  apply Hs. intros id. unfold act. simpl. rewrite lookup_empty. vm_compute. split; [discriminate|reflexivity].
Defined.

Lemma finds_witness :
  exists node, (serve_client 0 nows establish "api" state default_inner).1.1 = Forwarded node.
Proof.
  apply (serve_client_finds_working 0 nows establish "api" state default_inner).
  - apply (bool_decide_unpack _); vm_compute; exact I.
  - vm_compute. repeat constructor.
  - intros b Hb. unfold prefer_healthy in Hb.
    apply elem_of_prefer in Hb as [Hb _]. apply elem_of_prefer in Hb as [Hb _].
    apply elem_of_service_backends in Hb as (node & svc & n & Hi & _ & ->).
    assert (Hin : svc ∈ all_services Dynamic.Examples.dc).
    { change (st_service_index state) with (build_service_index Dynamic.Examples.dc) in Hi.
      rewrite build_service_index_eq, index_services_lookup, lookup_empty in Hi.
      destruct (find_first _ _) as [x|] eqn:Hf; [|discriminate]. injection Hi as <-.
      apply find_first_elem_of in Hf as [Hf _]. by apply elem_of_reverse in Hf. }
    vm_compute in Hin. apply list_elem_of_In in Hin. simpl in Hin.
    destruct Hin as [<-|[<-|[]]]; reflexivity.
  - assert (Hb : nth 1 (prefer_healthy 0 (service_backends "api" state) "api" state) inhabitant
      ∈ prefer_healthy 0 (service_backends "api" state) "api" state).
    { apply list_elem_of_In, nth_In. vm_compute. repeat constructor. }
    eexists. split; [exact Hb|]. vm_compute. reflexivity.
Defined.

Definition env : EstablishEnv :=
  {| ee_now_ms := Some 1000%Z; ee_mux _ := None; ee_waits := []; ee_connect _ := Err "refused"; ee_tls c := Ok c;
     ee_send _ _ := true; ee_answer _ := tunnel_success |}.

Definition pools : Pools := {| p_mux := ∅; p_reverse := ∅; p_tunnel := {["a:8080" := [7; 8]]} |}.

(** With no mux session and no reverse connection, the newest warm one is used. *)
Lemma establish_witness :
  establish_tunnel env (Balancer.Examples.node "a") "api" pools
    = (Ok (MPool, TMesh 8), {| p_mux := ∅; p_reverse := ∅; p_tunnel := {["a:8080" := [7]]} |}).
Proof.
  apply (establish_tunnel_spec env (Balancer.Examples.node "a") "api" pools 1000 _ _ _ eq_refl). split.
  - eapply chosen_dedicated; [right; split; [discriminate|reflexivity]|].
    apply ded_pool; reflexivity.
  - split; reflexivity.
Defined.

End Examples.
