(* ===== verification/Headers.v ===== *)
(** * Header handling of the HTTP proxy ([src/src/subscribe/http.rs], headers)

    Which headers describe a single hop, and what the proxy removes before it
    forwards a message. The header map is the [http] crate's: an interface with
    the laws of its documentation, names in lower case as it stores them. *)

From S2P Require Import Prelude.

(** ** The interface of the [http] crate *)

Class HeaderMap := {
  headers : Type;
  get_all : headers -> string -> list string;     (** the values, as bytes, in order *)
  hm_remove : string -> headers -> headers;
  hm_insert : string -> string -> headers -> headers;
  hm_empty : headers;
  value_of_str : string -> option string;         (** [HeaderValue::from_str] *)
  to_str : string -> option string;               (** [HeaderValue::to_str] *)
  get_all_remove h n m : get_all (hm_remove n h) m = if decide (m = n) then [] else get_all h m;
  get_all_insert h n v m : get_all (hm_insert n v h) m = if decide (m = n) then [v] else get_all h m;
  get_all_empty m : get_all hm_empty m = [];
  value_of_str_same s v : value_of_str s = Some v -> v = s;
  to_str_same v s : to_str v = Some s -> s = v;
  to_str_visible v : all (fun c => (32 <=? code c)%Z && (code c <? 127)%Z) (str_to_list v) = true ->
    to_str v = Some v
}.

(** [HeaderMap::get] and [contains_key]. *)
Definition hm_get `{HeaderMap} (h : headers) (n : string) : option string := head (get_all h n).
Definition contains_key `{HeaderMap} (h : headers) (n : string) : bool :=
  negb (bool_decide (get_all h n = [])).

(** Two maps with the same values under every name. *)
#[export] Instance headers_equiv `{HeaderMap} : Equiv headers :=
  fun h1 h2 => forall n, get_all h1 n = get_all h2 n.

#[export] Instance headers_equivalence `{HeaderMap} : Equivalence (≡@{headers}).
Proof.
  split; [by intros ? ?|by intros ? ? Hh n; rewrite (Hh n)|].
  intros ? ? ? H1 H2 n. by rewrite (H1 n), (H2 n).
Qed.

#[export] Instance hm_remove_proper `{HeaderMap} n : Proper ((≡) ==> (≡)) (hm_remove n).
Proof. intros h1 h2 Hh m. rewrite !get_all_remove. by case_decide. Qed.

#[export] Instance hm_insert_proper `{HeaderMap} n v : Proper ((≡) ==> (≡)) (hm_insert n v).
Proof. intros h1 h2 Hh m. rewrite !get_all_insert. by case_decide. Qed.

(** ** Strings *)

(** [str::trim] on the ASCII strings [to_str] gives. *)
Definition is_whitespace (c : ascii) : bool :=
  ((9 <=? code c) && (code c <=? 13))%Z || (code c =? 32)%Z.

Fixpoint trim_start (s : string) : string :=
  match s with
  | EmptyString => EmptyString
  | String c s' => if is_whitespace c then trim_start s' else s
  end.

Definition trim (s : string) : string := String.rev (trim_start (String.rev (trim_start s))).

(** ** Hop-by-hop headers *)

Definition HOP_BY_HOP : list string :=
  ["connection"; "keep-alive"; "proxy-connection"; "proxy-authenticate"; "proxy-authorization";
   "te"; "trailer"; "transfer-encoding"; "upgrade"].

Section hop_by_hop.
Context `{HeaderMap}.

Definition connection_tokens (h : headers) : list string :=
  retain (fun t => negb (str_is_empty t))
    ((fun t => to_ascii_lowercase (trim t)) <$> (omap to_str (get_all h "connection") ≫= str_split ",")).

Definition is_upgrade (h : headers) : bool :=
  contains_key h "upgrade" && any (str_eqb "upgrade") (connection_tokens h).

Definition strip_hop_by_hop (h : headers) (keep_upgrade : bool) : headers :=
  let named := connection_tokens h in
  let upgrade := hm_get h "upgrade" in
  let h := foldl (fun h name => hm_remove name h) h (HOP_BY_HOP ++ named) in
  if keep_upgrade then
    match upgrade with
    | Some value => hm_insert "connection" "upgrade" (hm_insert "upgrade" value h)
    | None => h
    end
  else h.

(** ** Lemmas *)

Lemma get_all_remove_all names h n :
  get_all (foldl (fun h name => hm_remove name h) h names) n =
    if decide (n ∈ names) then [] else get_all h n.
Proof.
  revert h. induction names as [|m names IH]; intros h; cbn [foldl].
  { by rewrite decide_False by apply not_elem_of_nil. }
  rewrite IH, get_all_remove. destruct (decide (n ∈ names)) as [Hin|Hin].
  { by rewrite decide_True by (by apply elem_of_cons; right). }
  destruct (decide (n = m)) as [->|Hne].
  - by rewrite decide_True by (by apply elem_of_cons; left).
  - rewrite decide_False; [done|]. by intros [?|?]%elem_of_cons.
Qed.

(** One header of the stripped map. *)
Lemma get_all_strip h keep n :
  get_all (strip_hop_by_hop h keep) n =
    match (if keep then hm_get h "upgrade" else None) with
    | Some value =>
        if decide (n = "connection") then ["upgrade"]
        else if decide (n = "upgrade") then [value]
        else if decide (n ∈ HOP_BY_HOP ++ connection_tokens h) then [] else get_all h n
    | None => if decide (n ∈ HOP_BY_HOP ++ connection_tokens h) then [] else get_all h n
    end.
Proof.
  unfold strip_hop_by_hop. destruct keep; [|apply get_all_remove_all].
  destruct (hm_get h "upgrade"); [|apply get_all_remove_all].
  by rewrite !get_all_insert, get_all_remove_all.
Qed.

Lemma tokens_of_upgrade h : get_all h "connection" = ["upgrade"] -> connection_tokens h = ["upgrade"].
Proof. intros Hc. unfold connection_tokens. rewrite Hc. simpl. by rewrite to_str_visible. Qed.

Lemma contains_key_get h n : contains_key h n = true <-> is_Some (hm_get h n).
Proof.
  unfold contains_key, hm_get. destruct (get_all h n); simpl; by split.
Qed.

(** ** Properties *)

(** No hop-by-hop header survives, neither a standard one nor one the message
    names in [Connection], while every other header keeps all its values in
    order. For an upgrade the forwarded message still asks for it, with the
    protocol the client named and nothing else in [Connection]; otherwise it
    asks for none. *)
Theorem strip_hop_by_hop_spec h keep (Hkeep : keep = true -> is_upgrade h = true) :
  let h' := strip_hop_by_hop h keep in
  (forall n, n ∉ HOP_BY_HOP -> n ∉ connection_tokens h -> get_all h' n = get_all h n)
  /\ (forall n, n ∈ HOP_BY_HOP \/ n ∈ connection_tokens h ->
        keep = false \/ (n <> "upgrade" /\ n <> "connection") -> get_all h' n = [])
  /\ is_upgrade h' = keep
  /\ connection_tokens h' = (if keep then ["upgrade"] else [])
  /\ (keep = true -> hm_get h' "upgrade" = hm_get h "upgrade").
Proof.
  cbv zeta. destruct keep; cycle 1.
  { assert (Hget : forall n, get_all (strip_hop_by_hop h false) n =
      if decide (n ∈ HOP_BY_HOP ++ connection_tokens h) then [] else get_all h n) by (intros; by rewrite get_all_strip).
    split; [|split; [|split; [|split; [|done]]]].
    - intros n Hn Ht. rewrite Hget, decide_False; [done|]. by intros [?|?]%elem_of_app.
    - intros n Hn _. by rewrite Hget, decide_True by by apply elem_of_app.
    - unfold is_upgrade, contains_key. by rewrite Hget.
    - unfold connection_tokens at 1. by rewrite Hget. }
  specialize (Hkeep eq_refl). unfold is_upgrade in Hkeep. apply andb_true_iff in Hkeep as [Hup _].
  apply contains_key_get in Hup as [value Hup].
  assert (Hget : forall n, get_all (strip_hop_by_hop h true) n =
    if decide (n = "connection") then ["upgrade"]
    else if decide (n = "upgrade") then [value]
    else if decide (n ∈ HOP_BY_HOP ++ connection_tokens h) then [] else get_all h n).
  { intros n. by rewrite get_all_strip, Hup. }
  assert (Htok : connection_tokens (strip_hop_by_hop h true) = ["upgrade"]).
  { apply tokens_of_upgrade. by rewrite Hget. }
  split; [|split; [|split; [|split; [done|]]]].
  - intros n Hn Ht. rewrite Hget, !decide_False; [done| | |].
    + by intros [?|?]%elem_of_app.
    + intros ->. apply Hn. apply (bool_decide_unpack _). exact I.
    + intros ->. apply Hn. apply (bool_decide_unpack _). exact I.
  - intros n Hn [?|[Hu Hc]]; [done|]. rewrite Hget, (decide_False _ _ Hc), (decide_False _ _ Hu).
    by rewrite decide_True by by apply elem_of_app.
  - unfold is_upgrade. rewrite Htok. unfold contains_key. by rewrite Hget.
  - intros _. unfold hm_get at 1. by rewrite Hget.
Qed.
End hop_by_hop.

(** ** An instance, and a witness *)

Module Examples.

(** Association lists of names and values. *)
Definition list_get_all (h : list (string * string)) (n : string) : list string :=
  (retain (fun '(m, _) => str_eqb m n) h).*2.

Definition list_remove (n : string) (h : list (string * string)) : list (string * string) :=
  retain (fun '(m, _) => negb (str_eqb m n)) h.

Definition visible_to_str (v : string) : option string :=
  if all (fun c => (32 <=? code c)%Z && (code c <? 127)%Z) (str_to_list v) then Some v else None.

Lemma list_get_all_remove h n m :
  list_get_all (list_remove n h) m = if decide (m = n) then [] else list_get_all h m.
Proof.
  unfold list_get_all, list_remove. rewrite retain_retain. case_decide as Hm.
  - rewrite retain_none; [done|]. apply Forall_forall. intros [k v] _. subst.
    destruct (str_eqb k n); done.
  - f_equal. apply retain_ext. intros [k v] _. destruct (str_eqb k m) eqn:Hk; [|by destruct (str_eqb k n)].
    bool_hyps. subst. by rewrite (proj2 (str_eqb_false m n) Hm).
Qed.

Lemma list_get_all_insert h n v m :
  list_get_all (list_remove n h ++ [(n, v)]) m = if decide (m = n) then [v] else list_get_all h m.
Proof.
  pose proof (list_get_all_remove h n m) as Hr. unfold list_get_all in *.
  rewrite retain_app, fmap_app, Hr. simpl. case_decide as Hm.
  - subst. by rewrite str_eqb_refl.
  - rewrite (proj2 (str_eqb_false n m)) by done. by rewrite app_nil_r.
Qed.

Lemma visible_to_str_same v s : visible_to_str v = Some s -> s = v.
Proof. unfold visible_to_str. destruct (all _ _); congruence. Qed.

Lemma visible_to_str_visible v :
  all (fun c => (32 <=? code c)%Z && (code c <? 127)%Z) (str_to_list v) = true -> visible_to_str v = Some v.
Proof. unfold visible_to_str. by intros ->. Qed.

#[export] Instance list_headers : HeaderMap := {|
  headers := list (string * string);
  get_all := list_get_all;
  hm_remove := list_remove;
  hm_insert n v h := list_remove n h ++ [(n, v)];
  hm_empty := [];
  value_of_str := visible_to_str;
  to_str := visible_to_str;
  get_all_remove := list_get_all_remove;
  get_all_insert := list_get_all_insert;
  get_all_empty m := eq_refl;
  value_of_str_same := fun s v Hv => visible_to_str_same s v Hv;
  to_str_same := visible_to_str_same;
  to_str_visible := visible_to_str_visible
|}.

Definition websocket : headers (HeaderMap := list_headers) :=
  [("host", "api"); ("connection", "keep-alive, Upgrade,X-Debug"); ("upgrade", "websocket");
   ("x-debug", "1"); ("accept", "a"); ("accept", "b"); ("te", "trailers")].

Lemma strip_witness :
  strip_hop_by_hop websocket true
    = [("host", "api"); ("accept", "a"); ("accept", "b"); ("upgrade", "websocket"); ("connection", "upgrade")]
  /\ get_all (strip_hop_by_hop websocket true) "x-debug" = [].
Proof.
  split; [vm_compute; reflexivity|].
  destruct (strip_hop_by_hop_spec (websocket : headers) true) as (_ & Hgone & _); [vm_compute; reflexivity|].
  apply Hgone; [right|right; split; discriminate].
  apply (bool_decide_unpack _). vm_compute. exact I.
Defined.

End Examples.
