(* ===== verification/Trace.v ===== *)
(** * Trace context and node addresses ([src/src/subscribe/http.rs])

    The W3C [traceparent] the proxy carries forward, and the synthetic authority
    that keys the upstream connection pool by node. Parsing a URI is the [http]
    crate's; the random bytes are inputs. *)

From S2P Require Import Prelude Dynamic Headers.

(** ** Hexadecimal *)

Definition hex_char (n : Z) : ascii := of_code (if (n <? 10)%Z then 48 + n else 87 + n).

(** [{b:02x}] of a byte. *)
Definition hex_byte (b : Z) : list ascii := [hex_char (b / 16); hex_char (b mod 16)].
Definition hex_bytes (bytes : list Z) : list ascii := bytes ≫= hex_byte.

(** [str::bytes]. *)
Definition bytes_of (s : string) : list Z := code <$> str_to_list s.
Definition of_bytes (l : list Z) : string := list_to_str (of_code <$> l).

Definition is_hex_lower (c : ascii) : bool :=
  ((48 <=? code c) && (code c <=? 57))%Z || ((97 <=? code c) && (code c <=? 102))%Z.

(** [char::to_digit(16)]. *)
Definition to_digit16 (c : ascii) : option Z :=
  let n := code c in
  if ((48 <=? n) && (n <=? 57))%Z then Some (n - 48)%Z
  else if ((97 <=? n) && (n <=? 102))%Z then Some (n - 87)%Z
  else if ((65 <=? n) && (n <=? 70))%Z then Some (n - 55)%Z
  else None.

Fixpoint digits16 (acc : Z) (l : list ascii) : option Z :=
  match l with
  | [] => Some acc
  | c :: l =>
      match to_digit16 c with
      | Some d => let acc := (acc * 16 + d)%Z in if (acc <=? 255)%Z then digits16 acc l else None
      | None => None
      end
  end.

(** [u8::from_str_radix(_, 16)]: a leading [+] is accepted. *)
Definition from_str_radix16 (l : list ascii) : option Z :=
  match l with
  | [] => None
  | c :: rest => if Ascii.eqb c "+" then (match rest with [] => None | _ => digits16 0 rest end) else digits16 0 l
  end.

(** [String::from_utf8] accepts exactly these. *)
Definition cont (b : Z) : bool := ((128 <=? b) && (b <=? 191))%Z.
Fixpoint utf8_ok (l : list Z) : bool :=
  match l with
  | [] => true
  | b0 :: l1 =>
      if (b0 <? 128)%Z then utf8_ok l1
      else if ((194 <=? b0) && (b0 <=? 223))%Z then
        match l1 with b1 :: l2 => cont b1 && utf8_ok l2 | [] => false end
      else if ((224 <=? b0) && (b0 <=? 239))%Z then
        match l1 with
        | b1 :: b2 :: l3 =>
            (((if b0 =? 224 then 160 else 128) <=? b1) && (b1 <=? (if b0 =? 237 then 159 else 191)))%Z
            && cont b2 && utf8_ok l3
        | _ => false
        end
      else if ((240 <=? b0) && (b0 <=? 244))%Z then
        match l1 with
        | b1 :: b2 :: b3 :: l4 =>
            (((if b0 =? 240 then 144 else 128) <=? b1) && (b1 <=? (if b0 =? 244 then 143 else 191)))%Z
            && cont b2 && cont b3 && utf8_ok l4
        | _ => false
        end
      else false
  end.

(** ** [TraceContext] *)

Record TraceContext := { trace_id : string; span_id : string; flags : string }.
#[export] Instance TraceContext_eq_dec : EqDecision TraceContext.
Proof. solve_decision. Defined.

Definition is_hex (s : string) (len : nat) : bool :=
  (String.length s =? len) && all is_hex_lower (str_to_list s).
Definition nonzero (s : string) : bool := any (fun c => negb (Ascii.eqb c "0")) (str_to_list s).

(** The fields of a header value. *)
Definition parse_traceparent (value : string) : option TraceContext :=
  match str_split "-" (trim value) with
  | version :: trace :: span :: fl :: more =>
      if str_eqb version "00" && negb (bool_decide (more = [])) then None
      else if is_hex version 2 && negb (str_eqb version "ff") && is_hex trace 32 && nonzero trace
                && is_hex span 16 && nonzero span && is_hex fl 2
      then Some {| trace_id := trace; span_id := span; flags := fl |}
      else None
  | _ => None
  end.

Definition from_headers `{HeaderMap} (h : headers) : option TraceContext :=
  v ← hm_get h "traceparent"; s ← to_str v; parse_traceparent s.

(** Random bytes are drawn until they are not all zero; [draws] is what each
    round gives. *)
Fixpoint random_hex (draws : list (list Z)) : option string :=
  match draws with
  | [] => None
  | raw :: draws =>
      if any (fun b => negb (Z.eqb b 0)) raw then Some (list_to_str (hex_bytes raw)) else random_hex draws
  end.

Definition new_root (sampled : bool) (draws16 draws8 : list (list Z)) : option TraceContext :=
  match random_hex draws16, random_hex draws8 with
  | Some t, Some s => Some {| trace_id := t; span_id := s; flags := if sampled then "01" else "00" |}
  | _, _ => None
  end.

Definition is_sampled (t : TraceContext) : bool :=
  match from_str_radix16 (str_to_list (flags t)) with Some f => (Z.land f 1 =? 1)%Z | None => false end.

Definition child (t : TraceContext) (draws8 : list (list Z)) : option TraceContext :=
  (fun s => {| trace_id := trace_id t; span_id := s; flags := flags t |}) <$> random_hex draws8.

Definition to_header (t : TraceContext) : string :=
  "00-" +:+ trace_id t +:+ "-" +:+ span_id t +:+ "-" +:+ flags t.

(** ** Node addresses *)

Definition NODE_HOST_SUFFIX : string := "stouter".

(** [slice::chunks]; one step of fuel per chunk. *)
Fixpoint chunks {A} (fuel n : nat) (l : list A) : list (list A) :=
  match fuel, l with
  | S fuel, _ :: _ => take n l :: chunks fuel n (drop n l)
  | _, _ => []
  end.

Definition hex_labels (id : string) : list string :=
  let hex := hex_bytes (bytes_of id) in list_to_str <$> chunks (length hex) 62 hex.

Definition node_host (id : string) : string := String.concat "." (hex_labels id) +:+ "." +:+ NODE_HOST_SUFFIX.

(** A URI is its scheme and host. *)
Definition Uri : Type := option string * option string.

Definition node_uri `{HttpCrate} (id path_and_query : string) : option Uri :=
  ok (uri_parse ("http://" +:+ node_host id +:+ path_and_query)).

Fixpoint hex_pairs (l : list ascii) : option (list Z) :=
  match l with
  | [] => Some []
  | a :: b :: l =>
      match from_str_radix16 [a; b], hex_pairs l with
      | Some x, Some xs => Some (x :: xs)
      | _, _ => None
      end
  | [_] => None (* an odd length *)
  end.

Definition node_id_from_uri (uri : Uri) : option string :=
  host ← uri.2;
  h ← strip_suffix NODE_HOST_SUFFIX host;
  h ← strip_suffix "." h;
  bytes ← hex_pairs (str_split "." h ≫= str_to_list);
  if utf8_ok bytes then Some (of_bytes bytes) else None.

(** ** Lemmas: lists of characters *)

Lemma trim_start_id s : all (fun c => negb (is_whitespace c)) (str_to_list s) = true -> trim_start s = s.
Proof. destruct s as [|c s]; [done|]. simpl. by destruct (is_whitespace c). Qed.

Lemma trim_id s : all (fun c => negb (is_whitespace c)) (str_to_list s) = true -> trim s = s.
Proof.
  intros Hs. unfold trim. rewrite (trim_start_id s Hs), trim_start_id.
  - apply str_to_list_inj. by rewrite !str_to_list_rev, reverse_involutive.
  - apply all_true. rewrite str_to_list_rev. apply all_true in Hs. by apply Forall_reverse.
Qed.

Lemma str_split_none c s : c ∉ str_to_list s -> str_split c s = [s].
Proof.
  induction s as [|d s IH]; [done|]. cbn [str_to_list str_split]. intros Hn.
  rewrite IH by (intros ?; apply Hn, elem_of_cons; by right).
  destruct (Ascii.eqb_spec c d) as [->|]; [|done]. destruct Hn. apply elem_of_cons. by left.
Qed.

Lemma str_split_cons c a b : c ∉ str_to_list a -> str_split c (a +:+ String c b) = a :: str_split c b.
Proof. intros Ha. by rewrite str_split_app, str_split_none. Qed.

(** Splitting a joined list gives back its characters. *)
Lemma str_split_concat c ls :
  Forall (fun l => c ∉ str_to_list l) ls ->
  (str_split c (String.concat (String c "") ls) ≫= str_to_list) = ls ≫= str_to_list.
Proof.
  intros Hls. induction Hls as [|l ls Hl Hls IH]; [done|]. destruct ls as [|l2 ls].
  - simpl String.concat. rewrite str_split_none by done. done.
  - change (String.concat (String c "") (l :: l2 :: ls))
      with (l +:+ String c "" +:+ String.concat (String c "") (l2 :: ls)).
    rewrite str_app_cons, str_app_nil, str_split_cons by done.
    cbn [mbind list_bind] in *. by rewrite IH.
Qed.

Lemma concat_chunks {A} fuel n (l : list A) : 0 < n -> length l <= fuel -> mjoin (chunks fuel n l) = l.
Proof.
  intros Hn. revert l. induction fuel as [|fuel IH]; intros [|x l] Hl; simpl in *; try done; [lia|].
  rewrite IH; [by rewrite take_drop|]. rewrite length_drop. simpl. lia.
Qed.

Lemma bind_of_str ls : (list_to_str <$> ls) ≫= str_to_list = mjoin ls.
Proof.
  induction ls as [|l ls IH]; [done|]. cbn [fmap list_fmap mbind list_bind mjoin list_join] in *.
  by rewrite str_to_list_to_str, IH.
Qed.

Lemma elem_of_chunks {A} fuel n (l k : list A) x : k ∈ chunks fuel n l -> x ∈ k -> x ∈ l.
Proof.
  revert l. induction fuel as [|fuel IH]; intros l; simpl; [by intros ?%not_elem_of_nil|].
  destruct l as [|y l]; [by intros ?%not_elem_of_nil|]. rewrite <- (take_drop n (y :: l)) at 3.
  intros [->|Hk]%elem_of_cons Hx; apply elem_of_app; [by left|right]. by apply (IH _ Hk).
Qed.

(** ** Lemmas: hexadecimal *)

Lemma code_range c : (0 <= code c < 256)%Z.
Proof. unfold code. pose proof (N_ascii_bounded c). lia. Qed.

Lemma of_code_code c : of_code (code c) = c.
Proof. unfold of_code, code. by rewrite N2Z.id, ascii_N_embedding. Qed.

Definition byte_ok (b : Z) : Prop := (0 <= b < 256)%Z.

(** The hexadecimal digits, one by one. *)
Lemma hex_char_spec n : (0 <= n < 16)%Z ->
  is_hex_lower (hex_char n) = true /\ to_digit16 (hex_char n) = Some n
  /\ Ascii.eqb (hex_char n) "0" = (n =? 0)%Z.
Proof.
  intros Hn.
  assert (Hall : Forall (fun n => is_hex_lower (hex_char n) = true /\ to_digit16 (hex_char n) = Some n
    /\ Ascii.eqb (hex_char n) "0" = (n =? 0)%Z) (Z.of_nat <$> seq 0 16)).
  { apply (bool_decide_unpack _). vm_compute. exact I. }
  rewrite Forall_forall in Hall. apply Hall, list_elem_of_fmap.
  exists (Z.to_nat n). split; [lia|]. apply elem_of_seq. lia.
Qed.

(** A hexadecimal digit is neither a separator nor white space. *)
Lemma is_hex_lower_not c d : is_hex_lower c = true -> is_hex_lower d = false -> c <> d.
Proof. congruence. Qed.

Lemma hex_not_whitespace c : is_hex_lower c = true -> is_whitespace c = false.
Proof.
  unfold is_hex_lower, is_whitespace. intros Hc.
  apply orb_false_iff. rewrite !andb_false_iff, !Z.leb_gt, Z.eqb_neq.
  apply orb_true_iff in Hc. rewrite !andb_true_iff, !Z.leb_le in Hc. lia.
Qed.

Lemma nibbles b : byte_ok b ->
  (0 <= b / 16 < 16 /\ 0 <= b mod 16 < 16 /\ b = 16 * (b / 16) + b mod 16)%Z.
Proof. unfold byte_ok. intros Hb. pose proof (Z.mod_pos_bound b 16). pose proof (Z.div_mod b 16). lia. Qed.

Lemma from_str_radix16_hex_byte b : byte_ok b -> from_str_radix16 (hex_byte b) = Some b.
Proof.
  intros Hb%nibbles. destruct (hex_char_spec (b / 16)) as (Hh & Hd1 & _); [lia|].
  destruct (hex_char_spec (b mod 16)) as (_ & Hd2 & _); [lia|].
  unfold hex_byte, from_str_radix16. destruct (Ascii.eqb_spec (hex_char (b / 16)) "+") as [He|_].
  { rewrite He in Hh. discriminate. }
  cbn [digits16]. rewrite Hd1, Hd2. rewrite (proj2 (Z.leb_le _ _)) by lia.
  rewrite (proj2 (Z.leb_le _ _)) by lia. f_equal. lia.
Qed.

Lemma hex_pairs_hex_bytes l : Forall byte_ok l -> hex_pairs (hex_bytes l) = Some l.
Proof.
  induction 1 as [|b l Hb Hl IH]; [done|].
  change (hex_bytes (b :: l)) with (hex_char (b / 16) :: hex_char (b mod 16) :: hex_bytes l).
  cbn [hex_pairs]. change [hex_char (b / 16); hex_char (b mod 16)] with (hex_byte b).
  by rewrite from_str_radix16_hex_byte, IH.
Qed.

Lemma length_hex_bytes l : length (hex_bytes l) = 2 * length l.
Proof. induction l as [|b l IH]; [done|]. change (hex_bytes (b :: l)) with (hex_byte b ++ hex_bytes l). simpl. lia. Qed.

Lemma hex_bytes_lower l : Forall byte_ok l -> Forall (fun c => is_hex_lower c = true) (hex_bytes l).
Proof.
  induction 1 as [|b l Hb Hl IH]; [constructor|]. apply nibbles in Hb.
  change (hex_bytes (b :: l)) with (hex_byte b ++ hex_bytes l). apply Forall_app. split; [|done].
  repeat constructor; apply hex_char_spec; lia.
Qed.

Lemma hex_bytes_nonzero l : Forall byte_ok l ->
  any (fun b => negb (Z.eqb b 0)) l = true -> any (fun c => negb (Ascii.eqb c "0")) (hex_bytes l) = true.
Proof.
  intros Hl (b & Hb & Hn)%any_true. rewrite Forall_forall in Hl. pose proof (nibbles b (Hl b Hb)) as Hbr.
  apply negb_true_iff, Z.eqb_neq in Hn.
  assert (Hd : exists d, (0 <= d < 16)%Z /\ d <> 0%Z /\ hex_char d ∈ hex_byte b).
  { destruct (decide (b / 16 = 0)%Z).
    - exists (b mod 16)%Z. split; [lia|]. split; [lia|]. apply elem_of_cons. right. by apply list_elem_of_singleton.
    - exists (b / 16)%Z. split; [lia|]. split; [lia|]. apply elem_of_cons. by left. }
  destruct Hd as (d & Hd & Hd0 & Hin). apply any_true. exists (hex_char d). split.
  - unfold hex_bytes. apply list_elem_of_bind. by exists b.
  - destruct (hex_char_spec d Hd) as (_ & _ & ->). by apply negb_true_iff, Z.eqb_neq.
Qed.

(** What a drawn identifier looks like. *)
Lemma random_hex_ok n draws s :
  Forall (fun raw => length raw = n /\ Forall byte_ok raw) draws -> random_hex draws = Some s ->
  is_hex s (2 * n) = true /\ nonzero s = true.
Proof.
  induction 1 as [|raw draws [Hlen Hraw] _ IH]; [done|]. cbn [random_hex].
  destruct (any _ raw) eqn:Ha; [|done]. intros [= <-]. unfold is_hex, nonzero.
  rewrite <- length_str_to_list, str_to_list_to_str, length_hex_bytes, Hlen, Nat.eqb_refl. split.
  - apply all_true. by apply hex_bytes_lower.
  - by apply hex_bytes_nonzero.
Qed.

(** ** Lemmas: trace contexts *)

Definition trace_ok (t : TraceContext) : Prop :=
  is_hex (trace_id t) 32 = true /\ nonzero (trace_id t) = true
  /\ is_hex (span_id t) 16 = true /\ nonzero (span_id t) = true /\ is_hex (flags t) 2 = true.

Lemma is_hex_all s n : is_hex s n = true -> Forall (fun c => is_hex_lower c = true) (str_to_list s).
Proof. unfold is_hex. intros [_ Hs]%andb_true_iff. by apply all_true. Qed.

Lemma is_hex_no_dash s n : is_hex s n = true -> "-"%char ∉ str_to_list s.
Proof.
  intros Hs%is_hex_all Hin. rewrite Forall_forall in Hs. specialize (Hs _ Hin). discriminate.
Qed.

Lemma parse_traceparent_ok value t : parse_traceparent value = Some t -> trace_ok t.
Proof.
  unfold parse_traceparent. destruct (str_split "-" (trim value)) as [|v [|tr [|sp [|fl more]]]]; try done.
  destruct (_ && negb _); [done|].
  destruct (is_hex v 2 && _ && _ && _ && _ && _ && _) eqn:Hb; [|done]. intros [= <-].
  rewrite !andb_true_iff in Hb. unfold trace_ok. simpl. tauto.
Qed.

Lemma to_header_chars t : trace_ok t ->
  Forall (fun c => is_hex_lower c = true \/ c = "-"%char) (str_to_list (to_header t)).
Proof.
  intros (Ht & _ & Hs & _ & Hf). unfold to_header. rewrite !str_to_list_app.
  apply is_hex_all in Ht, Hs, Hf.
  assert (Hd : Forall (fun c => is_hex_lower c = true \/ c = "-"%char) ["-"%char]) by (constructor; [by right|constructor]).
  repeat (apply Forall_app; split); try exact Hd;
    first [by (eapply Forall_impl; [eassumption|by left])|repeat constructor; first [by left|by right]].
Qed.

Lemma parse_to_header t : trace_ok t -> parse_traceparent (to_header t) = Some t.
Proof.
  intros Hok. pose proof Hok as (Ht & Htn & Hs & Hsn & Hf). unfold parse_traceparent. rewrite trim_id.
  - unfold to_header.
    assert (Hsplit : str_split "-" ("00-" +:+ trace_id t +:+ "-" +:+ span_id t +:+ "-" +:+ flags t)
      = ["00"; trace_id t; span_id t; flags t]).
    { change ("00-" +:+ trace_id t +:+ "-" +:+ span_id t +:+ "-" +:+ flags t)
        with ("00" +:+ String "-" (trace_id t +:+ String "-" (span_id t +:+ String "-" (flags t)))).
      rewrite !str_split_cons by
        first [by eapply is_hex_no_dash|apply (bool_decide_unpack _); vm_compute; exact I].
      by rewrite str_split_none by by eapply is_hex_no_dash. }
    rewrite Hsplit. cbn [str_eqb]. rewrite Ht, Htn, Hs, Hsn, Hf. by destruct t.
  - apply all_true. eapply Forall_impl; [by apply to_header_chars|].
    intros c [Hc| ->]; [by rewrite hex_not_whitespace|done].
Qed.

Lemma to_str_to_header `{HeaderMap} t : trace_ok t -> to_str (to_header t) = Some (to_header t).
Proof.
  intros Hok. apply to_str_visible, all_true. eapply Forall_impl; [by apply to_header_chars|].
  intros c [Hc| ->]; [|done]. unfold is_hex_lower in Hc. apply orb_true_iff in Hc.
  rewrite !andb_true_iff, !Z.leb_le in Hc. rewrite andb_true_iff, Z.leb_le, Z.ltb_lt. lia.
Qed.

(** ** Properties *)

(** The trace survives the hop: whatever the client sent, the [traceparent]
    the proxy forwards is valid, belongs to the client's trace with its sampling
    decision (or to a new one sampled as asked, when the client sent none or an
    invalid one), and names a new span. The next hop reads back exactly that. *)
Theorem traceparent_forwarded `{HeaderMap} (h : headers) sampled draws16 draws8 draws8' trace upstream
    (Hdraws : Forall (fun raw => length raw = 16 /\ Forall byte_ok raw) draws16
              /\ Forall (fun raw => length raw = 8 /\ Forall byte_ok raw) (draws8 ++ draws8'))
    (Htrace : match from_headers h with
              | Some t => Some t
              | None => new_root sampled draws16 draws8
              end = Some trace)
    (Hchild : child trace draws8' = Some upstream) :
  from_headers (hm_insert "traceparent" (to_header upstream) h) = Some upstream
  /\ trace_id upstream = trace_id trace /\ flags upstream = flags trace
  /\ nonzero (span_id upstream) = true
  /\ match from_headers h with
     | Some t => trace = t
     | None => is_sampled upstream = sampled
     end.
Proof.
  destruct Hdraws as [H16 [H8 H8']%Forall_app].
  assert (Hok : trace_ok trace).
  { destruct (from_headers h) as [t|] eqn:Hh.
    - injection Htrace as <-. unfold from_headers in Hh. destruct (hm_get h "traceparent") as [v|]; [|done].
      simpl in Hh. destruct (to_str v) as [s|]; [|done]. by apply parse_traceparent_ok in Hh.
    - unfold new_root in Htrace. destruct (random_hex draws16) as [t|] eqn:Ht; [|done].
      destruct (random_hex draws8) as [s|] eqn:Hs; [|done]. injection Htrace as <-.
      apply (random_hex_ok 16) in Ht as [? ?]; [|done]. apply (random_hex_ok 8) in Hs as [? ?]; [|done].
      unfold trace_ok. simpl. by destruct sampled. }
  unfold child in Hchild. destruct (random_hex draws8') as [s|] eqn:Hs; [|done]. injection Hchild as <-.
  apply (random_hex_ok 8) in Hs as [Hs Hsn]; [|done]. destruct Hok as (Ht & Htn & _ & _ & Hf).
  set (up := {| trace_id := trace_id trace; span_id := s; flags := flags trace |}).
  assert (Hup : trace_ok up) by (by split_and!).
  split; [|split; [done|split; [done|split; [done|]]]].
  - unfold from_headers, hm_get. rewrite get_all_insert, decide_True by done. simpl.
    rewrite to_str_to_header by done. simpl. by apply parse_to_header.
  - destruct (from_headers h); [by injection Htrace|]. unfold new_root in Htrace.
    destruct (random_hex draws16), (random_hex draws8); try done. injection Htrace as <-. by destruct sampled.
Qed.

(** What the [http] crate documents of [Uri::host]: of an absolute URI with a
    path, the authority between the slashes, here one of labels and dots. *)
Definition host_char (c : ascii) : bool :=
  is_ascii_digit c || ((97 <=? code c) && (code c <=? 122))%Z || Ascii.eqb c ".".

Class UriHostLaw `{HttpCrate} : Prop :=
  uri_host_law host rest uri :
    all host_char (str_to_list host) = true -> uri_parse ("http://" +:+ host +:+ String "/" rest) = Ok uri ->
    uri.2 = Some host.

Lemma hex_host_char c : is_hex_lower c = true -> host_char c = true.
Proof.
  unfold is_hex_lower, host_char, is_ascii_digit. intros Hc. apply orb_true_iff in Hc.
  rewrite !andb_true_iff, !Z.leb_le in Hc.
  destruct (Ascii.eqb c "."); [by rewrite orb_true_r|].
  rewrite orb_false_r, orb_true_iff, !andb_true_iff, !Z.leb_le. lia.
Qed.

Lemma bytes_of_ok s : Forall byte_ok (bytes_of s).
Proof. apply Forall_forall. intros b (c & -> & _)%list_elem_of_fmap. apply code_range. Qed.

Lemma of_bytes_of s : of_bytes (bytes_of s) = s.
Proof.
  unfold of_bytes, bytes_of. rewrite <- list_fmap_compose.
  rewrite (list_fmap_ext _ id) by (intros; apply of_code_code). by rewrite list_fmap_id, list_to_str_to_list.
Qed.

Lemma hex_labels_chars id : Forall (fun l => Forall (fun c => is_hex_lower c = true) (str_to_list l)) (hex_labels id).
Proof.
  apply Forall_forall. intros l (k & -> & Hk)%list_elem_of_fmap. rewrite str_to_list_to_str.
  apply Forall_forall. intros c Hc. pose proof (hex_bytes_lower _ (bytes_of_ok id)) as Hl.
  rewrite Forall_forall in Hl. apply Hl. by eapply elem_of_chunks.
Qed.

Lemma concat_chars (P : ascii -> Prop) ls :
  P "."%char -> Forall (fun l => Forall P (str_to_list l)) ls -> Forall P (str_to_list (String.concat "." ls)).
Proof.
  intros Hdot Hls. induction Hls as [|l ls Hl Hls IH]; [constructor|]. destruct ls as [|l2 ls]; [done|].
  change (String.concat "." (l :: l2 :: ls)) with (l +:+ "." +:+ String.concat "." (l2 :: ls)).
  rewrite !str_to_list_app. apply Forall_app. split; [done|]. apply Forall_app. split; [by repeat constructor|done].
Qed.

(** The synthetic authority names the node exactly: the connector reads back
    from it the very id the request was balanced to, whatever bytes the id has,
    so two nodes never share a pool of upstream connections. *)
Theorem node_uri_roundtrip `{UriHostLaw} id rest uri (Hutf8 : utf8_ok (bytes_of id) = true)
    (Huri : node_uri id (String "/" rest) = Some uri) :
  node_id_from_uri uri = Some id.
Proof.
  unfold node_uri in Huri. destruct (uri_parse _) as [u|] eqn:Hp; [|done]. injection Huri as ->.
  pose proof (hex_labels_chars id) as Hch.
  apply uri_host_law in Hp; cycle 1.
  { apply all_true. unfold node_host. rewrite !str_to_list_app. apply Forall_app. split.
    - apply concat_chars; [done|]. eapply Forall_impl; [exact Hch|]. intros l Hl.
      eapply Forall_impl; [exact Hl|]. apply hex_host_char.
    - apply all_true. vm_compute. reflexivity. }
  unfold node_id_from_uri. rewrite Hp. cbn [mbind option_bind]. unfold node_host.
  rewrite str_app_assoc, strip_suffix_app. cbn [mbind option_bind]. rewrite strip_suffix_app. cbn [mbind option_bind].
  rewrite str_split_concat; cycle 1.
  { eapply Forall_impl; [exact Hch|]. intros l Hl Hin. rewrite Forall_forall in Hl. by specialize (Hl _ Hin). }
  assert (Hjoin : hex_labels id ≫= str_to_list = hex_bytes (bytes_of id)).
  { unfold hex_labels. rewrite bind_of_str. by apply concat_chunks; lia. }
  rewrite Hjoin, hex_pairs_hex_bytes by apply bytes_of_ok. cbn [mbind option_bind]. by rewrite Hutf8, of_bytes_of.
Qed.

(** ** Witnesses *)

Module Examples.

Definition incoming : headers (HeaderMap := Headers.Examples.list_headers) :=
  [("traceparent", " 01-4bf92f3577b34da6a3ce929d0e0e4736-00f067aa0ba902b7-01-later ")].

Definition span_draws : list (list Z) := [repeat 0%Z 8; [0; 1; 2; 3; 4; 5; 6; 255]%Z].

Lemma traceparent_witness :
  (trace ← from_headers incoming; to_header <$> child trace span_draws)
    = Some "00-4bf92f3577b34da6a3ce929d0e0e4736-00010203040506ff-01"
  /\ exists up, from_headers (hm_insert "traceparent" (to_header up) incoming) = Some up
       /\ trace_id up = "4bf92f3577b34da6a3ce929d0e0e4736".
Proof.
  split; [vm_compute; reflexivity|].
  set (trace := {| trace_id := "4bf92f3577b34da6a3ce929d0e0e4736"; span_id := "00f067aa0ba902b7"; flags := "01" |}).
  set (up := {| trace_id := trace_id trace; span_id := "00010203040506ff"; flags := "01" |}).
  exists up.
  destruct (traceparent_forwarded incoming true [] [] span_draws trace up) as (Hr & Hi & _).
  - split; [constructor|]. repeat constructor; unfold byte_ok; lia.
  - vm_compute. reflexivity.
  - vm_compute. reflexivity.
  - split; [exact Hr|exact Hi].
Defined.

(** A parser of [http://host/path]. *)
#[export] Instance authority_crate : HttpCrate :=
  {| header_name_ok n := negb (str_is_empty n);
     uri_parse s := match strip_prefix "http://" s with
                    | Some r => match split_once "/" r with
                                | Some (host, _) => Ok (Some "http", Some host)
                                | None => Err "no path"
                                end
                    | None => Err "no scheme"
                    end |}.

Lemma split_once_first c a rest : c ∉ str_to_list a -> split_once c (a +:+ String c rest) = Some (a, rest).
Proof.
  induction a as [|d a IH]; intros Ha; rewrite ?str_app_nil, ?str_app_cons; cbn [split_once str_to_list] in *.
  - by rewrite Ascii.eqb_refl.
  - destruct (Ascii.eqb_spec c d) as [->|]; [destruct Ha; apply elem_of_cons; by left|].
    rewrite IH; [done|]. intros ?. apply Ha, elem_of_cons. by right.
Qed.

#[export] Instance authority_law : UriHostLaw.
Proof.
  intros host rest uri Hhost. cbn [uri_parse authority_crate].
  rewrite (proj2 (strip_prefix_Some "http://" _ (host +:+ String "/" rest))) by done.
  rewrite split_once_first; [by intros [= <-]|]. intros Hin.
  apply all_true in Hhost. rewrite Forall_forall in Hhost. by specialize (Hhost _ Hin).
Qed.

Lemma node_uri_witness :
  exists uri, node_uri "nœud-1" "/items?x=1" = Some uri /\ node_id_from_uri uri = Some "nœud-1".
Proof.
  eexists. split; [vm_compute; reflexivity|].
  apply (node_uri_roundtrip "nœud-1" "items?x=1"); [vm_compute; reflexivity|vm_compute; reflexivity].
Defined.

End Examples.
