(* ===== verification/Retry.v ===== *)
(** * The retry budget ([src/src/subscribe/http.rs], [RetryBudget])

    Tokens are an [f64] under a lock. Every value it takes is a multiple of
    [2^-54] (that of [0.2] as an [f64]), so the model counts those units and
    rounds each sum to 53 significant bits, ties to even, as the hardware does. *)

From S2P Require Import Prelude.

Local Open Scope Z_scope.

(** ** Non-negative doubles in units of [2^-54] *)

Definition ulp_exp (z : Z) : Z := Z.max 0 (Z.log2 z - 52).

Definition round53 (z : Z) : Z :=
  let ulp := 2 ^ ulp_exp z in
  let q := z / ulp in
  let r := z mod ulp in
  if 2 * r <? ulp then q * ulp
  else if ulp <? 2 * r then (q + 1) * ulp
  else if Z.even q then q * ulp else (q + 1) * ulp.

Definition f64_add (a b : Z) : Z := round53 (a + b).
Definition f64_sub (a b : Z) : Z := round53 (a - b).

(** ** [RetryBudget] *)

Definition ONE : Z := 2 ^ 54.
Definition RETRY_BUDGET_RATIO : Z := 3602879701896397. (* 0.2 *)
Definition RETRY_BUDGET_MAX : Z := 20 * ONE.

Definition new_budget : Z := RETRY_BUDGET_MAX.
Definition deposit (t : Z) : Z := Z.min (f64_add t RETRY_BUDGET_RATIO) RETRY_BUDGET_MAX.
Definition try_withdraw (t : Z) : bool * Z := if ONE <=? t then (true, f64_sub t ONE) else (false, t).

(** A history of the budget: the requests credited and the retries asked for. *)
Inductive BudgetOp := Deposit | Withdraw.

Fixpoint run_budget (ops : list BudgetOp) (t : Z) : list bool * Z :=
  match ops with
  | [] => ([], t)
  | Deposit :: ops => run_budget ops (deposit t)
  | Withdraw :: ops =>
      let '(granted, t) := try_withdraw t in
      let '(gs, t) := run_budget ops t in (granted :: gs, t)
  end.

Definition deposits (ops : list BudgetOp) : Z :=
  sumZ (fun op => match op with Deposit => 1 | Withdraw => 0 end) ops.
Definition granted (gs : list bool) : Z := sumZ (fun b : bool => if b then 1 else 0) gs.

(** ** Rounding *)

Lemma ulp_pos z : 0 < 2 ^ ulp_exp z.
Proof. apply Z.pow_pos_nonneg; [lia|]. unfold ulp_exp. lia. Qed.

Lemma round53_error z : 2 * Z.abs (round53 z - z) <= 2 ^ ulp_exp z.
Proof.
  unfold round53. pose proof (ulp_pos z) as Hp. set (ulp := 2 ^ ulp_exp z) in *.
  pose proof (Z.div_mod z ulp). pose proof (Z.mod_pos_bound z ulp Hp).
  destruct (Z.ltb_spec (2 * (z mod ulp)) ulp); [nia|].
  destruct (Z.ltb_spec ulp (2 * (z mod ulp))); [nia|]. destruct (Z.even _); nia.
Qed.

(** Below 32, a sum is off by at most 32 units. *)
Lemma round53_close z : z < 2 ^ 59 -> Z.abs (round53 z - z) <= 32.
Proof.
  intros Hz. pose proof (round53_error z).
  assert (Hu : 2 ^ ulp_exp z <= 2 ^ 6); [|change (2 ^ 6) with 64 in Hu; lia].
  apply Z.pow_le_mono_r; [lia|]. unfold ulp_exp.
  destruct (decide (0 < z)) as [Hz0|Hz0].
  - assert (Z.log2 z < 59) by by apply Z.log2_lt_pow2. lia.
  - rewrite Z.log2_nonpos by lia. lia.
Qed.

(** Rounding keeps the sign. *)
Lemma round53_nonneg z : 0 <= z -> 0 <= round53 z.
Proof.
  intros Hz. unfold round53. pose proof (ulp_pos z) as Hp.
  pose proof (Z.div_pos z (2 ^ ulp_exp z) Hz Hp). repeat case_match; nia.
Qed.

(** ** One operation *)

Definition balance_ok (t : Z) : Prop := 0 <= t <= RETRY_BUDGET_MAX.

Lemma deposit_spec t : balance_ok t ->
  balance_ok (deposit t) /\ deposit t <= t + RETRY_BUDGET_RATIO + 32.
Proof.
  unfold balance_ok, deposit, f64_add, RETRY_BUDGET_MAX, ONE, RETRY_BUDGET_RATIO. intros Ht.
  pose proof (round53_close (t + 3602879701896397)). pose proof (round53_nonneg (t + 3602879701896397)). lia.
Qed.

Lemma withdraw_spec t : balance_ok t ->
  let '(granted, t') := try_withdraw t in
  balance_ok t' /\ granted = (ONE <=? t) /\ t' <= t - (if granted then ONE - 32 else 0).
Proof.
  unfold balance_ok, try_withdraw, f64_sub, RETRY_BUDGET_MAX, ONE. intros Ht.
  destruct (Z.leb_spec (2 ^ 54) t); [|split_and!; lia].
  pose proof (round53_close (t - 2 ^ 54)). pose proof (round53_nonneg (t - 2 ^ 54)). split_and!; lia.
Qed.

Lemma run_budget_spec ops t : balance_ok t ->
  let '(gs, t') := run_budget ops t in
  balance_ok t' /\ 0 <= granted gs
  /\ granted gs * (ONE - 32) + t' <= t + deposits ops * (RETRY_BUDGET_RATIO + 32).
Proof.
  unfold granted, deposits. revert t. induction ops as [|[] ops IH]; intros t Ht; cbn [run_budget].
  - simpl. split_and!; [done|lia|lia].
  - pose proof (deposit_spec t Ht) as [Hok Hle]. specialize (IH _ Hok). destruct (run_budget ops _) as [gs t'].
    cbn [sumZ foldr]. fold (sumZ (fun op => match op with Deposit => 1 | Withdraw => 0 end) ops).
    destruct IH as (? & ? & ?). split_and!; [done|done|lia].
  - pose proof (withdraw_spec t Ht) as Hw. destruct (try_withdraw t) as [g t1]. destruct Hw as (Hok & Hg & Hle).
    specialize (IH _ Hok). destruct (run_budget ops t1) as [gs t']. cbn [sumZ foldr].
    fold (sumZ (fun op => match op with Deposit => 1 | Withdraw => 0 end) ops).
    fold (sumZ (fun b : bool => if b then 1 else 0) gs). destruct IH as (? & ? & ?).
    split_and!; [done|destruct g; lia|]. destruct g; lia.
Qed.

(** ** Property *)

(** C38: Retries cannot multiply load: over any history of a service (up to
    [2^40] requests), the retries granted are at most the burst of 20 plus one
    for every five requests, the rounding of the balance included; the balance
    stays between 0 and 20, and a retry is refused only below 1. *)
Theorem retry_budget_bound ops (Hops : deposits ops < 2 ^ 40) :
  let '(gs, t) := run_budget ops new_budget in
  5 * granted gs <= 100 + deposits ops
  /\ 0 <= t <= RETRY_BUDGET_MAX
  /\ (fst (try_withdraw t) = false <-> t < ONE).
Proof.
  pose proof (run_budget_spec ops new_budget) as Hr. destruct (run_budget ops new_budget) as [gs t].
  destruct Hr as (Hok & Hg & Hb); [unfold balance_ok, new_budget, RETRY_BUDGET_MAX, ONE; lia|].
  assert (Hd : 0 <= deposits ops) by (apply sumZ_nonneg; intros []; lia).
  unfold balance_ok, new_budget, RETRY_BUDGET_MAX, RETRY_BUDGET_RATIO, ONE in *. split; [|split; [done|]].
  - change (2 ^ 54) with 18014398509481984 in *. lia.
  - unfold try_withdraw, ONE. destruct (Z.leb_spec (2 ^ 54) t); simpl; split; (done || lia).
Qed.

Module Examples.

(** A fresh budget grants 20 retries, and then one for five requests. *)
Definition burst : list BudgetOp := repeat Withdraw 21 ++ repeat Deposit 5 ++ [Withdraw; Withdraw].

Lemma budget_witness :
  fst (run_budget burst new_budget) = repeat true 20 ++ [false; true; false]
  /\ 5 * granted (fst (run_budget burst new_budget)) <= 100 + deposits burst.
Proof.
  split; [vm_compute; reflexivity|].
  pose proof (retry_budget_bound burst) as Hb.
  destruct (run_budget burst new_budget) as [gs t]. apply Hb. vm_compute. reflexivity.
Defined.

End Examples.
