(* ===== verification/HttpProxy.v ===== *)
(** * The HTTP proxy of a service ([src/src/subscribe/http.rs])

    Routing one request to a subset, and the attempts made for it: which nodes
    it is sent to, when it is sent again, and what the client is answered. The
    HTTP client (hyper) is an input: what a request to each node comes to. *)

From S2P Require Import Prelude NetAddr Dynamic Config State Balancer Proxy Headers Trace Retry.

(** ** Routes *)

Record RoutedTo := { routed_label : string; routed_labels : gmap string string }.

(** The first subset whose weight exceeds what is left of the ticket. *)
Fixpoint find_by_ticket (backends : list RouteBackend) (ticket : Z) : option RouteBackend :=
  match backends with
  | [] => None
  | b :: backends =>
      if (ticket <? rb_weight b)%Z then Some b else find_by_ticket backends (ticket - rb_weight b)%Z
  end.

Definition total_weight (backends : list RouteBackend) : Z := sumZ rb_weight backends.

(** The first matching route and its index. *)
Fixpoint find_route (index : nat) (routes : list Route) (p : Route -> bool) : option (nat * Route) :=
  match routes with
  | [] => None
  | r :: routes => if p r then Some (index, r) else find_route (S index) routes p
  end.

Section http.
Context `{HeaderMap}.

Definition route_matches_request (method path : string) (h : headers) (r : Route) : bool :=
  matches (route_matches r) method path (fun name => v ← hm_get h name; to_str v).

(** [random] draws a ticket below the total; the error is the panic of indexing
    an empty list. *)
Definition select_route (routes : list Route) (method path : string) (h : headers) (random : Z -> Z)
    : result (option RoutedTo) string :=
  match find_route 0 routes (route_matches_request method path h) with
  | None => Ok None
  | Some (index, route) =>
      let total := total_weight (route_backends route) in
      let ticket := if (total =? 0)%Z then 0%Z else random total in
      let routed b := Ok (Some {| routed_label := label route index; routed_labels := rb_labels b |}) in
      match find_by_ticket (route_backends route) ticket with
      | Some b => routed b
      | None => match route_backends route with b :: _ => routed b | [] => Err "index out of bounds" end
      end
  end.

(** ** Bodies *)

Definition MAX_BUFFERED_BODY : Z := 64 * 1024.

(** The client's body: whether it is empty, the size it declares, and what
    collecting it gives. *)
Record Incoming := {
  in_end_stream : bool;
  in_upper : option Z;
  in_collected : result string string
}.

Inductive RequestBody := Replayable (bytes : string) | Stream (body : option Incoming).

Definition prepare (body : Incoming) : result RequestBody string :=
  if in_end_stream body then Ok (Replayable "")
  else if match in_upper body with Some n => (n <=? MAX_BUFFERED_BODY)%Z | None => false end
  then match in_collected body with Ok bytes => Ok (Replayable bytes) | Err e => Err e end
  else Ok (Stream (Some body)).

Definition is_replayable (b : RequestBody) : bool :=
  match b with Replayable _ => true | Stream _ => false end.

(** What is sent, and the body kept. *)
Definition for_attempt (b : RequestBody) : option (string + Incoming) * RequestBody :=
  match b with
  | Replayable bytes => (Some (inl bytes), b)
  | Stream (Some body) => (Some (inr body), Stream None)
  | Stream None => (None, b)
  end.

Definition is_retryable_status (status : Z) : bool :=
  (status =? 502)%Z || (status =? 503)%Z || (status =? 504)%Z.

Definition is_idempotent (method : string) : bool :=
  any (str_eqb method) ["GET"; "HEAD"; "OPTIONS"; "PUT"; "DELETE"; "TRACE"].

(** ** The attempts *)

(** The events of the span: a node and the status it answered, or [None] when
    the connection failed. *)
Record AttemptLog := { tried : list string; last_err : option string; events : list (string * option Z) }.
Definition default_log : AttemptLog := {| tried := []; last_err := None; events := [] |}.

Inductive Outcome :=
| OResponse (status : Z) (resp : headers) (slot node : string)
| OError (status : Z) (reason : string).

(** What the client gives for a request, and how long it takes. *)
Inductive Sent :=
| SResponse (status : Z) (resp : headers)
| SConnectError (e : string)   (** it never left *)
| SError (e : string).         (** it may have reached the node *)

Record AttemptEnv := {
  ae_uri : string -> bool;                  (** whether the node's synthetic URI parses *)
  ae_now : nat -> Z * Z;                    (** the clock at an attempt's pick and failure *)
  ae_send : Backend -> string + Incoming -> Sent * Z
}.

(** The answer, under the backend's time limit. *)
Definition answer (env : AttemptEnv) (b : Backend) (body : string + Incoming) : option Sent :=
  let '(sent, took) := ae_send env b body in
  match b_request_timeout b with
  | Some limit => if (took <=? limit)%Z then Some sent else None
  | None => Some sent
  end.

(** The balancer, the budget, the body and the log an attempt works on, with
    the answer held back in case no later attempt does better. *)
Record Attempting := {
  at_inner : Inner;
  at_tokens : Z;
  at_body : RequestBody;
  at_log : AttemptLog;
  at_fallback : option Outcome
}.

Definition no_backend : Outcome := OError 502 "no_backend_reachable".

Definition with_inner (inner : Inner) (st : Attempting) : Attempting :=
  {| at_inner := inner; at_tokens := at_tokens st; at_body := at_body st; at_log := at_log st;
     at_fallback := at_fallback st |}.

Definition with_err (e : string) (log : AttemptLog) : AttemptLog :=
  {| tried := tried log; last_err := Some e; events := events log |}.
Definition add_event (ev : string * option Z) (log : AttemptLog) : AttemptLog :=
  {| tried := tried log; last_err := last_err log; events := events log ++ [ev] |}.
Definition add_tried (node : string) (log : AttemptLog) : AttemptLog :=
  {| tried := tried log ++ [node]; last_err := last_err log; events := events log |}.

(** Dropping an outcome gives back its slot. *)
Definition drop_outcome (o : option Outcome) (inner : Inner) : Inner :=
  match o with Some (OResponse _ _ slot _) => drop_slot slot inner | _ => inner end.

(** One attempt: the state after it, with the outcome if it is the last. *)
Definition attempt_once (env : AttemptEnv) (method : string) (backends : list Backend)
    (max_attempts : nat) (st : Attempting) : option Outcome * Attempting :=
  let log := at_log st in
  let now := ae_now env (length (tried log)) in
  match pick backends (tried log) now.1 (at_inner st) with
  | (AllTried, inner) => (Some no_backend, with_inner inner st)
  | (AtCapacity, inner) =>
      (Some (if bool_decide (tried log = []) then OError 503 "circuit_open" else no_backend), with_inner inner st)
  | (Chosen index slot, inner) =>
      let backend := backends !!! index in
      let node := b_id backend in
      let log := add_tried node log in
      let '(sent_body, body) := for_attempt (at_body st) in
      let next log inner tokens fallback :=
        {| at_inner := inner; at_tokens := tokens; at_body := body; at_log := log; at_fallback := fallback |} in
      let stop log inner o := (Some o, next log inner (at_tokens st) (at_fallback st)) in
      if negb (ae_uri env node) then
        (Some no_backend, {| at_inner := drop_slot slot inner; at_tokens := at_tokens st;
                             at_body := at_body st; at_log := log; at_fallback := at_fallback st |})
      else match sent_body with
      | None => stop log (drop_slot slot inner) no_backend
      | Some req_body =>
          match answer env backend req_body with
          | None => stop log (drop_slot slot inner) (OError 504 "timeout")
          | Some (SResponse status resp) =>
              let inner := record_success node inner in
              let outcome := OResponse status resp slot node in
              if negb (is_retryable_status status) || negb (is_idempotent method)
                 || negb (is_replayable body) || (max_attempts <=? length (tried log))
              then stop log inner outcome
              else
                let '(granted, tokens) := try_withdraw (at_tokens st) in
                if negb granted then (Some outcome, next log inner tokens (at_fallback st))
                else (None, next (add_event (node, Some status) log) (drop_outcome (at_fallback st) inner)
                              tokens (Some outcome))
          | Some (SConnectError e) =>
              let inner := drop_slot slot (note_tunnel_failure node now.2 inner) in
              let log := with_err e (add_event (node, None) log) in
              if negb (is_replayable body) then stop log inner no_backend
              else (None, next log inner (at_tokens st) (at_fallback st))
          | Some (SError e) => stop (with_err e log) (drop_slot slot inner) (OError 502 "upstream_error")
          end
      end
  end.

(** The loop; each attempt tries one more node, so the attempts left bound it. *)
Fixpoint attempt_loop (remaining : nat) (env : AttemptEnv) (method : string) (backends : list Backend)
    (max_attempts : nat) (st : Attempting) : Outcome * Attempting :=
  match remaining with
  | 0 => (no_backend, st)
  | S remaining =>
      match attempt_once env method backends max_attempts st with
      | (Some o, st) => (o, st)
      | (None, st) => attempt_loop remaining env method backends max_attempts st
      end
  end.

(** A real answer beats a proxy-generated error; what is not returned is dropped. *)
Definition settle (o : Outcome) (st : Attempting) : Outcome * Attempting :=
  match o, at_fallback st with
  | OError _ _, Some fallback => (fallback, st)
  | _, fallback => (o, with_inner (drop_outcome fallback (at_inner st)) st)
  end.

Definition attempt `{MapIter} (env : AttemptEnv) (now : Z) (service_name method : string) (s : SharedState)
    (subset : option (gmap string string)) (inner : Inner) (tokens : Z) (body : RequestBody) (log : AttemptLog)
    : Outcome * Attempting :=
  let all_ := service_backends service_name s in
  let inner := retain_nodes all_ inner in
  let candidates := match subset with
                    | Some labels => retain (fun b => labels_match (b_labels b) labels) all_
                    | None => all_
                    end in
  let st := {| at_inner := inner; at_tokens := tokens; at_body := body; at_log := log; at_fallback := None |} in
  if bool_decide (candidates = []) && bool_decide (is_Some subset)
  then (OError 503 "no_route_backend", st)
  else
    let backends := prefer_healthy now candidates service_name s in
    let max_attempts := Nat.min (length backends) MAX_TUNNEL_ATTEMPTS in
    let '(o, st) := attempt_loop (max_attempts - length (tried log)) env method backends max_attempts st in
    settle o st.

(** ** Routing *)

Lemma find_route_spec p routes index :
  match find_route index routes p with
  | None => Forall (fun r => p r = false) routes
  | Some (i, r) => exists k, i = index + k /\ routes !! k = Some r /\ p r = true
      /\ forall j r', j < k -> routes !! j = Some r' -> p r' = false
  end.
Proof.
  revert index. induction routes as [|r routes IH]; intros index; cbn [find_route]; [constructor|].
  destruct (p r) eqn:Hp.
  { exists 0. split; [lia|]. split; [done|]. split; [done|]. lia. }
  specialize (IH (S index)). destruct (find_route (S index) routes p) as [[i r']|]; [|by constructor].
  destruct IH as (k & -> & Hk & Hr & Hbefore). exists (S k). split; [lia|]. split; [done|]. split; [done|].
  intros [|j] r'' Hj Hl; [by simplify_eq/=|]. apply (Hbefore j r''); [lia|done].
Qed.

Lemma find_by_ticket_spec backends ticket :
  (0 <= ticket < total_weight backends)%Z ->
  exists before b after, backends = before ++ b :: after /\ find_by_ticket backends ticket = Some b
    /\ (total_weight before <= ticket < total_weight before + rb_weight b)%Z.
Proof.
  unfold total_weight. revert ticket. induction backends as [|b backends IH]; intros ticket Ht; [simpl in Ht; lia|].
  cbn [find_by_ticket]. destruct (Z.ltb_spec ticket (rb_weight b)).
  - exists [], b, backends. split; [done|]. split; [done|]. simpl. lia.
  - change (sumZ rb_weight (b :: backends)) with (rb_weight b + sumZ rb_weight backends)%Z in Ht.
    destruct (IH (ticket - rb_weight b)%Z) as (before & b' & after & -> & Hf & Hr); [lia|].
    exists (b :: before), b', after. split; [done|]. split; [done|].
    change (sumZ rb_weight (b :: before)) with (rb_weight b + sumZ rb_weight before)%Z. lia.
Qed.

(** ** Slots *)

Lemma act_drop id inner x :
  (0 <= act inner id)%Z ->
  act (drop_slot id inner) x = (if decide (x = id) then Z.max 0 (act inner id - 1) else act inner x)%Z.
Proof.
  unfold drop_slot, act, saturating_sub. destruct (active inner !! id) as [n|] eqn:Hn; cycle 1.
  { case_decide; [subst; by rewrite Hn|done]. }
  simpl. intros H0. destruct (Z.eqb_spec (Z.max 0 (n - 1)) 0) as [He|He]; simpl; case_decide as Hx.
  - subst. by rewrite lookup_delete_eq, He.
  - by rewrite lookup_delete_ne.
  - subst. by rewrite lookup_insert_eq.
  - by rewrite lookup_insert_ne.
Qed.

(** The connection a kept outcome holds, for the node [x]. *)
Definition held (o : option Outcome) (x : string) : Z :=
  match o with Some (OResponse _ _ slot _) => if decide (x = slot) then 1 else 0 | _ => 0 end.

Lemma held_outcome_nonneg o x : (0 <= held o x)%Z.
Proof. unfold held. repeat case_match; lia. Qed.

Lemma act_drop_outcome o inner x :
  (forall id, held o id <= act inner id)%Z -> act (drop_outcome o inner) x = (act inner x - held o x)%Z.
Proof.
  intros Hle. destruct o as [[status resp slot node|]|]; simpl in *; try lia.
  pose proof (Hle slot) as Hs. rewrite decide_True in Hs by done. rewrite act_drop by lia.
  case_decide; [subst; lia|lia].
Qed.

(** ** One attempt *)

Section attempts.
Variable (env : AttemptEnv) (method : string) (backends : list Backend) (max_attempts : nat).

(** What the node answers the body that is sent, if one is. *)
Definition answered (body : RequestBody) (b : Backend) : option Sent :=
  if ae_uri env (b_id b) then
    match fst (for_attempt body) with Some req => answer env b req | None => None end
  else None.

Definition is_response (a : option Sent) : bool := match a with Some (SResponse _ _) => true | _ => false end.

(** Why a request may be sent again after this node. *)
Definition resendable (body : RequestBody) (b : Backend) : Prop :=
  is_replayable body = true
  /\ match answered body b with
     | Some (SConnectError _) => True
     | Some (SResponse status _) => is_retryable_status status = true /\ is_idempotent method = true
     | _ => False
     end.

(** The proxy's own answer when it stops at a node that gave none. *)
Definition error_of (body : RequestBody) (b : Backend) : Z * string :=
  if ae_uri env (b_id b) then
    match fst (for_attempt body) with
    | None => (502%Z, "no_backend_reachable")
    | Some req =>
        match answer env b req with
        | None => (504%Z, "timeout")
        | Some (SError _) => (502%Z, "upstream_error")
        | Some _ => (502%Z, "no_backend_reachable")
        end
    end
  else (502%Z, "no_backend_reachable").

Definition answers (body : RequestBody) (o : Outcome) (b : Backend) : Prop :=
  match o with
  | OResponse status resp slot node =>
      b_id b = node /\ slot = node /\ answered body b = Some (SResponse status resp)
  | OError status reason => is_response (answered body b) = false /\ (status, reason) = error_of body b
  end.

(** The proxy's own answer when it has no further node to try, after [again]: what is
    left of the candidates is at its limit, or there is none. *)
Definition exhausted (again : nat) (o : Outcome) : Prop :=
  o = no_backend \/ again = 0 /\ o = OError 503 "circuit_open".

Definition spent (t t' : Z) (n : nat) : Prop :=
  exists k, (run_budget (repeat Withdraw k) t).2 = t' /\ granted (run_budget (repeat Withdraw k) t).1 = Z.of_nat n.

Definition status_events (log : AttemptLog) : nat :=
  length (retain (fun '(_, status) => bool_decide (is_Some status)) (events log)).

Definition slots_free (st : Attempting) : Prop :=
  (forall id, held (at_fallback st) id <= act (at_inner st) id)%Z
  /\ (forall id, id ∉ tried (at_log st) -> act (at_inner st) id < u32_max)%Z.

(** How one attempt moves the state. *)
Inductive attempted (st : Attempting) : option Outcome -> Attempting -> Prop :=
| at_none status reason st' :
    exhausted (length (tried (at_log st))) (OError status reason) -> at_log st' = at_log st -> at_fallback st' = at_fallback st -> at_tokens st' = at_tokens st ->
    (forall id, act (at_inner st') id = act (at_inner st) id) ->
    attempted st (Some (OError status reason)) st'
| at_last b o st' :
    b ∈ backends -> b_id b ∉ tried (at_log st) -> tried (at_log st') = tried (at_log st) ++ [b_id b] ->
    answers (at_body st) o b ->
    at_fallback st' = at_fallback st -> spent (at_tokens st) (at_tokens st') 0 ->
    status_events (at_log st') = status_events (at_log st) ->
    (forall id, act (at_inner st') id = act (at_inner st) id + held (Some o) id)%Z ->
    attempted st (Some o) st'
| at_again b n st' :
    b ∈ backends -> b_id b ∉ tried (at_log st) -> tried (at_log st') = tried (at_log st) ++ [b_id b] ->
    resendable (at_body st) b -> at_body st' = at_body st ->
    match answered (at_body st) b with
    | Some (SResponse status resp) => n = 1 /\ at_fallback st' = Some (OResponse status resp (b_id b) (b_id b))
    | _ => n = 0 /\ at_fallback st' = at_fallback st
    end ->
    spent (at_tokens st) (at_tokens st') n ->
    status_events (at_log st') = status_events (at_log st) + n ->
    (forall id, act (at_inner st') id = act (at_inner st) id - held (at_fallback st) id + held (at_fallback st') id)%Z ->
    attempted st None st'.

Lemma spent_refl t : spent t t 0.
Proof. by exists 0. Qed.

Lemma spent_trans t t1 t2 n m : spent t t1 n -> spent t1 t2 m -> spent t t2 (n + m).
Proof.
  intros (k & <- & Hn) (j & <- & Hm). exists (k + j). rewrite repeat_app.
  assert (Happ : forall ops ops' t, run_budget (ops ++ ops') t =
    let '(gs, t') := run_budget ops t in let '(gs', t'') := run_budget ops' t' in (gs ++ gs', t'')).
  { induction ops as [|[] ops IH]; intros ops' u; cbn [run_budget app].
    - by destruct (run_budget ops' u).
    - apply IH.
    - destruct (try_withdraw u) as [g u1]. rewrite IH. destruct (run_budget ops u1) as [gs u2].
      by destruct (run_budget ops' u2). }
  rewrite Happ. destruct (run_budget (repeat Withdraw k) t) as [gs t1]. cbn [fst snd] in *.
  destruct (run_budget (repeat Withdraw j) t1) as [gs' t2]. cbn [fst snd] in *. split; [done|].
  unfold granted in *. rewrite sumZ_app. lia.
Qed.

Lemma spent_withdraw t : spent t (try_withdraw t).2 (if (try_withdraw t).1 then 1 else 0).
Proof.
  exists 1. cbn [repeat run_budget]. destruct (try_withdraw t) as [g t']. split; [done|]. by destruct g.
Qed.

Lemma status_events_add ev log :
  status_events (add_event ev log) = status_events log + (if bool_decide (is_Some ev.2) then 1 else 0).
Proof.
  unfold status_events. simpl. rewrite retain_app, length_app. destruct ev as [node [s|]]; done.
Qed.

Lemma attempt_once_attempted st : slots_free st ->
  attempted st (attempt_once env method backends max_attempts st).1
    (attempt_once env method backends max_attempts st).2.
Proof.
  intros [Hheld Hfree]. unfold attempt_once.
  destruct (pick backends (tried (at_log st)) _ (at_inner st)) as [p inner] eqn:Hp.
  destruct p as [index slot| |]; cycle 1.
  { rewrite (pick_not_chosen _ _ _ _ _ _ Hp (or_introl eq_refl)). eapply at_none; try done. by left. }
  { rewrite (pick_not_chosen _ _ _ _ _ _ Hp (or_intror eq_refl)).
    case_bool_decide as Ht; (eapply at_none; try done); [right; by rewrite Ht|by left]. }
  assert (Hrange : forall id, id ∉ tried (at_log st) -> (0 <= act (at_inner st) id < u32_max)%Z).
  { intros id Hid. split; [|by apply Hfree]. pose proof (Hheld id). pose proof (held_outcome_nonneg (at_fallback st) id). lia. }
  destruct (pick_slot _ _ _ _ _ _ _ Hp Hrange) as (-> & Hin & Hnt & Hback & Hkeep'). clear Hrange.
  set (b := backends !!! index) in *. set (node := b_id b) in *.
  assert (Hkeep : forall x, act (record_success node inner) x =
    (act (at_inner st) x + (if decide (x = node) then 1 else 0))%Z).
  { intros x. by rewrite act_record_success. }
  destruct (for_attempt (at_body st)) as [sent_body body] eqn:Hbody.
  assert (Hans : answered (at_body st) b =
    if ae_uri env node then match sent_body with Some req => answer env b req | None => None end else None).
  { unfold answered. by rewrite Hbody. }
  assert (Herr : error_of (at_body st) b =
    if ae_uri env node then match sent_body with
      | Some req => match answer env b req with
                    | None => (504%Z, "timeout") | Some (SError _) => (502%Z, "upstream_error")
                    | Some _ => (502%Z, "no_backend_reachable") end
      | None => (502%Z, "no_backend_reachable") end else (502%Z, "no_backend_reachable")).
  { unfold error_of. by rewrite Hbody. }
  destruct (ae_uri env node) eqn:Huri; cbn [negb].
  2: { eapply (at_last st b); try done; [unfold answers, no_backend; by rewrite Hans, Herr|apply spent_refl|]. intros id. simpl. rewrite Hback by done. lia. }
  destruct sent_body as [req|]; cycle 1.
  { eapply (at_last st b); try done; [unfold answers, no_backend; by rewrite Hans, Herr|apply spent_refl|]. intros id. simpl. rewrite Hback by done. lia. }
  destruct (answer env b req) as [[status resp|e|e]|] eqn:Hanswer.
  - destruct (negb _ || negb _ || negb _ || _) eqn:Hstop.
    + eapply (at_last st b); try done. apply spent_refl.
    + rewrite !orb_false_iff, !negb_false_iff in Hstop. destruct Hstop as [[[Hst Hid] Hrep] _].
      pose proof (spent_withdraw (at_tokens st)) as Hsp.
      destruct (try_withdraw (at_tokens st)) as [[] tokens]; cbn [fst snd negb] in *.
      * assert (Hb : body = at_body st).
        { unfold for_attempt in Hbody. destruct (at_body st) as [|[]]; simplify_eq; done. }
        eapply (at_again st b 1); try done.
        -- split; [|by rewrite Hans]. by rewrite <- Hb.
        -- by rewrite Hans.
        -- change (status_events (add_event (node, Some status) (add_tried node (at_log st))) = status_events (at_log st) + 1).
           by rewrite status_events_add.
        -- intros id. cbn [fst snd at_inner at_fallback]. rewrite act_drop_outcome; [rewrite Hkeep; simpl; lia|].
           intros x. rewrite Hkeep. specialize (Hheld x). case_decide; lia.
      * by eapply (at_last st b).
  - assert (Hdrop : forall x, act (drop_slot node (note_tunnel_failure node
      (ae_now env (length (tried (at_log st)))).2 inner)) x = act (at_inner st) x).
    { apply Hback, active_note_failure. }
    destruct (negb (is_replayable body)) eqn:Hrep.
    + eapply (at_last st b); try done; [unfold answers, no_backend; by rewrite Hans, Herr|apply spent_refl| |].
      * change (status_events (add_event (node, None) (add_tried node (at_log st))) = status_events (at_log st)).
        rewrite status_events_add. simpl. unfold status_events. simpl. lia.
      * intros id. simpl. rewrite Hdrop. lia.
    + apply negb_false_iff in Hrep. assert (Hb : body = at_body st).
      { unfold for_attempt in Hbody. destruct (at_body st) as [|[]]; simplify_eq; done. }
      eapply (at_again st b 0); try done.
      * split; [by rewrite <- Hb|by rewrite Hans].
      * by rewrite Hans.
      * apply spent_refl.
      * change (status_events (add_event (node, None) (add_tried node (at_log st))) = status_events (at_log st) + 0).
        by rewrite status_events_add.
      * intros id. cbn [fst snd at_inner at_fallback]. rewrite Hdrop. lia.
  - eapply (at_last st b); try done; [unfold answers; by rewrite Hans, Herr|apply spent_refl|]. intros id. simpl. rewrite Hback by done. lia.
  - eapply (at_last st b); try done; [unfold answers; by rewrite Hans, Herr|apply spent_refl|]. intros id. simpl. rewrite Hback by done. lia.
Qed.

(** ** All attempts *)

(** What the nodes tried, in order, come to: every one but the last could be
    followed by another attempt; the outcome is the last one's; and an answer is
    held back exactly when one of the earlier nodes gave it. *)
Record attempts (st : Attempting) (again last : list Backend) (o : Outcome) (st' : Attempting) : Prop := {
  as_tried : tried (at_log st') = tried (at_log st) ++ (b_id <$> again ++ last);
  as_nodup : NoDup (tried (at_log st)) -> NoDup (tried (at_log st'));
  as_in : Forall (fun b => b ∈ backends) (again ++ last);
  as_again : Forall (resendable (at_body st)) again;
  as_last : match last with
            | [] => exhausted (length (tried (at_log st)) + length again) o
            | [b] => answers (at_body st) o b
            | _ => False
            end;
  as_fallback : match at_fallback st' with
                | Some fb => at_fallback st = Some fb \/ exists b, b ∈ again /\ answers (at_body st) fb b
                             /\ is_response (answered (at_body st) b) = true
                | None => at_fallback st = None
                          /\ Forall (fun b => is_response (answered (at_body st) b) = false) again
                end;
  as_spent : exists n, status_events (at_log st') = status_events (at_log st) + n
                       /\ spent (at_tokens st) (at_tokens st') n;
  as_slots : forall id, (act (at_inner st') id =
    act (at_inner st) id - held (at_fallback st) id + held (at_fallback st') id + held (Some o) id)%Z
}.

Lemma attempts_none st o st' status reason :
  o = OError status reason -> exhausted (length (tried (at_log st))) o -> at_log st' = at_log st -> at_fallback st' = at_fallback st ->
  at_tokens st' = at_tokens st -> (forall id, act (at_inner st') id = act (at_inner st) id) ->
  attempts st [] [] o st'.
Proof.
  intros -> Hex Hl Hf Ht Ha. split; rewrite ?Hl, ?Hf, ?Ht; simpl; try done.
  - by rewrite app_nil_r.
  - by rewrite Nat.add_0_r.
  - destruct (at_fallback st); [by left|by split].
  - exists 0. split; [lia|apply spent_refl].
  - intros id. rewrite Ha. lia.
Qed.

Lemma attempts_last st b o st' :
  b ∈ backends -> b_id b ∉ tried (at_log st) -> tried (at_log st') = tried (at_log st) ++ [b_id b] ->
  answers (at_body st) o b -> at_fallback st' = at_fallback st -> spent (at_tokens st) (at_tokens st') 0 ->
  status_events (at_log st') = status_events (at_log st) ->
  (forall id, act (at_inner st') id = act (at_inner st) id + held (Some o) id)%Z ->
  attempts st [] [b] o st'.
Proof.
  intros Hb Hn Ht Ha Hf Hs He Hact. split; rewrite ?Ht, ?Hf; try done.
  - intros ?. by apply NoDup_snoc.
  - by repeat constructor.
  - destruct (at_fallback st); [by left|by split].
  - exists 0. split; [lia|done].
  - intros id. rewrite Hact. lia.
Qed.

(** Another attempt before these. *)
Lemma attempts_cons st b n st1 again last o st' :
  b ∈ backends -> b_id b ∉ tried (at_log st) -> tried (at_log st1) = tried (at_log st) ++ [b_id b] ->
  resendable (at_body st) b -> at_body st1 = at_body st ->
  match answered (at_body st) b with
  | Some (SResponse status resp) => n = 1 /\ at_fallback st1 = Some (OResponse status resp (b_id b) (b_id b))
  | _ => n = 0 /\ at_fallback st1 = at_fallback st
  end ->
  spent (at_tokens st) (at_tokens st1) n -> status_events (at_log st1) = status_events (at_log st) + n ->
  (forall id, act (at_inner st1) id = act (at_inner st) id - held (at_fallback st) id + held (at_fallback st1) id)%Z ->
  attempts st1 again last o st' -> attempts st (b :: again) last o st'.
Proof.
  intros Hb Hn Ht Hr Hbody Hfb Hsp He Hact [At An Ai Aa Al Af [k [Ak As]] Asl].
  rewrite Hbody in *. split; try done.
  - rewrite At, Ht, <- (assoc_L (++)). done.
  - intros Hnd. apply An. rewrite Ht. by apply NoDup_snoc.
  - by constructor.
  - by constructor.
  - destruct last as [|b' []]; [|done|done]. rewrite Ht, length_app in Al. simpl in *.
    by replace (length (tried (at_log st)) + S (length again)) with (length (tried (at_log st)) + 1 + length again) by lia.
  - destruct (at_fallback st') as [fb|].
    + destruct Af as [Hf|(b' & Hb' & Ha & Hi)]; [|right; exists b'; split; [apply elem_of_cons; by right|done]].
      destruct (answered (at_body st) b) as [[status resp|e|e]|] eqn:Hans; try (left; destruct Hfb; congruence).
      destruct Hfb as [_ Hfb]. rewrite Hfb in Hf. injection Hf as <-. right. exists b.
      split; [apply elem_of_cons; by left|]. by rewrite Hans.
    + destruct Af as [Hf Hall]. rewrite Hf in Hfb.
      destruct (answered (at_body st) b) as [[status resp|e|e]|] eqn:Hans; destruct Hfb as [_ Hfb]; try discriminate;
        (split; [done|]); (constructor; [by rewrite Hans|done]).
  - exists (n + k). split; [lia|]. by eapply spent_trans.
  - intros id. rewrite Asl, Hact. lia.
Qed.

Lemma slots_free_next st b st1 :
  slots_free st -> tried (at_log st1) = tried (at_log st) ++ [b_id b] ->
  (at_fallback st1 = at_fallback st
   \/ exists status resp, at_fallback st1 = Some (OResponse status resp (b_id b) (b_id b))) ->
  (forall id, act (at_inner st1) id = act (at_inner st) id - held (at_fallback st) id + held (at_fallback st1) id)%Z ->
  slots_free st1.
Proof.
  intros [Hh Hf] Ht Hfb Ha. split.
  - intros id. rewrite Ha. specialize (Hh id). lia.
  - intros id Hid. rewrite Ht in Hid. rewrite Ha.
    assert (Hnt : id ∉ tried (at_log st)) by (intros ?; apply Hid, elem_of_app; by left).
    assert (Hne : id <> b_id b) by (intros ->; apply Hid, elem_of_app; right; by apply list_elem_of_singleton).
    specialize (Hf id Hnt). pose proof (held_outcome_nonneg (at_fallback st) id).
    destruct Hfb as [->|(status & resp & ->)]; [lia|]. unfold held at 2. rewrite decide_False by done. lia.
Qed.

Lemma attempt_loop_attempts remaining st : slots_free st ->
  exists again last, length (again ++ last) <= remaining
    /\ attempts st again last (attempt_loop remaining env method backends max_attempts st).1
         (attempt_loop remaining env method backends max_attempts st).2.
Proof.
  revert st. induction remaining as [|n IH]; intros st Hfree; cbn [attempt_loop].
  { exists [], []. split; [done|]. eapply attempts_none; try done. by left. }
  pose proof (attempt_once_attempted st Hfree) as Hone.
  destruct (attempt_once env method backends max_attempts st) as [o st1]. cbn [fst snd] in Hone.
  destruct Hone as [status reason st1 Hex Hl Hf Ht Ha|b o st1 Hb Hn Ht Ha Hf Hs He Hact
                   |b k st1 Hb Hn Ht Hr Hbody Hfb Hs He Hact].
  - exists [], []. split; [simpl; lia|]. by eapply attempts_none.
  - exists [], [b]. split; [simpl; lia|]. by apply attempts_last.
  - assert (Hfree1 : slots_free st1).
    { eapply slots_free_next; [done|done| |done].
      destruct (answered (at_body st) b) as [[status resp|e|e]|]; destruct Hfb as [_ ->]; eauto. }
    destruct (IH st1 Hfree1) as (again & last & Hlen & Hats).
    exists (b :: again), last. split; [simpl in *; lia|]. by eapply attempts_cons.
Qed.

End attempts.
End http.

(** ** The whole of a request's attempts *)

Section attempt.
Context `{HeaderMap, MapIter}.

Lemma settle_spec o st :
  let '(o', st') := settle o st in
  at_log st' = at_log st /\ at_tokens st' = at_tokens st
  /\ match o, at_fallback st with OError _ _, Some fb => o' = fb | _, _ => o' = o end
  /\ ((forall id, 0 <= act (at_inner st) id - held (Some o) id - held (at_fallback st) id)%Z -> forall id,
      act (at_inner st') id = act (at_inner st) id - held (Some o) id - held (at_fallback st) id + held (Some o') id)%Z.
Proof.
  assert (Hdrop : forall o', (forall id, 0 <= act (at_inner st) id - held (Some o') id - held (at_fallback st) id)%Z ->
    forall id, act (drop_outcome (at_fallback st) (at_inner st)) id
      = (act (at_inner st) id - held (Some o') id - held (at_fallback st) id + held (Some o') id)%Z).
  { intros o' Hge id. rewrite act_drop_outcome; [lia|]. intros x. specialize (Hge x).
    pose proof (held_outcome_nonneg (Some o') x). lia. }
  unfold settle. destruct o as [status resp slot node|status reason].
  - split; [done|]. split; [done|]. split; [done|]. apply (Hdrop (OResponse status resp slot node)).
  - destruct (at_fallback st) as [fb|] eqn:Hf; (split; [done|]); (split; [done|]); (split; [done|]).
    + intros _ id. change (held (Some (OError status reason)) id) with 0%Z. lia.
    + apply (Hdrop (OError status reason)).
Qed.

(** Why the proxy answers itself: what the node it stopped at came to, or that it
    had no further one. *)
Definition stopped_because `{HeaderMap} (env : AttemptEnv) (body : RequestBody) (again last : list Backend)
    (status : Z) (reason : string) : Prop :=
  match last with
  | [] => exhausted (length again) (OError status reason)
  | b :: _ => (status, reason) = error_of env body b
  end.

Lemma settled_outcome env body o fb o' (again last : list Backend) :
  match last with
  | [] => exhausted (length again) o
  | [b] => answers env body o b
  | _ => False
  end ->
  match fb with
  | Some fb => exists b, b ∈ again /\ answers env body fb b /\ is_response (answered env body b) = true
  | None => Forall (fun b => is_response (answered env body b) = false) again
  end ->
  match o, fb with OError _ _, Some fb => o' = fb | _, _ => o' = o end ->
  match o' with
  | OResponse _ _ _ _ => exists b, b ∈ again ++ last /\ answers env body o' b
  | OError status reason => Forall (fun b => is_response (answered env body b) = false) (again ++ last)
      /\ stopped_because env body again last status reason
  end.
Proof.
  intros Hl Hfb Ho. destruct o as [status resp slot node|status reason].
  - subst o'. destruct last as [|b []]; [by destruct Hl as [?|[_ ?]]| |done].
    exists b. split; [apply elem_of_app; right; by apply list_elem_of_singleton|done].
  - destruct fb as [fb|]; subst o'.
    + destruct Hfb as (b & Hb & Ha & Hi). destruct fb as [|status' reason']; [|destruct Ha as [Ha _]; by rewrite Ha in Hi].
      exists b. split; [apply elem_of_app; by left|done].
    + destruct last as [|b []]; [by rewrite app_nil_r| |done]. destruct Hl as [Hl He].
      split; [|done]. apply Forall_app. split; [done|]. by repeat constructor.
Qed.

(** Why the proxy itself answers a request to [subset]: no instance carries the
    labels, or the attempts stopped. *)
Definition own_error (name : string) (s : SharedState) (env : AttemptEnv) (subset : option (gmap string string))
    (body : RequestBody) (again last : list Backend) (status : Z) (reason : string) : Prop :=
  (status = 503%Z /\ reason = "no_route_backend" /\ again ++ last = []
   /\ exists labels, subset = Some labels
        /\ Forall (fun b => labels_match (b_labels b) labels = false) (service_backends name s))
  \/ stopped_because env body again last status reason.

Lemma own_error_known name s env subset body again last status reason :
  own_error name s env subset body again last status reason ->
  reason <> "bad_request_body" /\ status ∈ [400; 502; 503; 504]%Z.
Proof.
  assert (Hin : forall z, bool_decide (z ∈ [400; 502; 503; 504]%Z) = true -> z ∈ [400; 502; 503; 504]%Z)
    by (intros z; apply bool_decide_eq_true).
  intros [(-> & -> & _)|Hs]; [split; [done|by apply Hin]|].
  unfold stopped_because, exhausted, no_backend, error_of in Hs. destruct last as [|b last].
  - destruct Hs as [[= -> ->]|[_ [= -> ->]]]; (split; [done|by apply Hin]).
  - repeat case_match; injection Hs as -> ->; (split; [done|by apply Hin]).
Qed.

(** The attempts of one request, with the reason of an error. *)
Lemma attempt_ok env now name method s subset inner tokens body
    (Hact : forall id, (0 <= act inner id < u32_max)%Z) :
  let '(o, st) := attempt env now name method s subset inner tokens body default_log in
  exists again last : list Backend,
    tried (at_log st) = b_id <$> again ++ last /\ length last <= 1
    /\ NoDup (tried (at_log st)) /\ length (tried (at_log st)) <= 3
    /\ Forall (fun b => b ∈ service_backends name s
                 /\ forall labels, subset = Some labels -> labels_match (b_labels b) labels = true) (again ++ last)
    /\ Forall (resendable env method body) again
    /\ match o with
       | OResponse _ _ _ _ => exists b, b ∈ again ++ last /\ answers env body o b
       | OError status reason => Forall (fun b => is_response (answered env body b) = false) (again ++ last)
           /\ own_error name s env subset body again last status reason
       end
    /\ spent tokens (at_tokens st) (status_events (at_log st))
    /\ forall id, act (at_inner st) id = (act inner id + held (Some o) id)%Z.
Proof.
  unfold attempt.
  set (candidates := match subset with Some labels => _ | None => _ end).
  assert (Hcand : forall b, b ∈ candidates -> b ∈ service_backends name s
    /\ forall labels, subset = Some labels -> labels_match (b_labels b) labels = true).
  { intros b. unfold candidates. destruct subset as [labels|]; [|by split].
    intros [Hb Hl]%elem_of_retain. split; [done|]. by intros ? [= <-]. }
  set (st0 := {| at_inner := retain_nodes _ inner; at_tokens := tokens; at_body := body; at_log := default_log;
                 at_fallback := None |}).
  destruct (_ && _) eqn:Hnone.
  { exists [], []. split_and!; [done|simpl; lia|apply NoDup_nil_2|simpl; lia|constructor|constructor|constructor| |apply spent_refl|].
    - left. split_and!; [done..|]. bool_hyps.
      match goal with Hs : is_Some subset |- _ => destruct Hs as [labels Hs]; exists labels; split; [done|] end.
      apply Forall_forall. intros b Hb. destruct (labels_match (b_labels b) labels) eqn:Hl; [|done].
      assert (Hin : b ∈ candidates) by (unfold candidates; simplify_eq; by apply elem_of_retain).
      match goal with Hc : candidates = [] |- _ => rewrite Hc in Hin end. by apply elem_of_nil in Hin.
    - intros id. simpl. rewrite Z.add_0_r. done. }
  set (backends := prefer_healthy now candidates name s).
  set (max_attempts := Nat.min (length backends) MAX_TUNNEL_ATTEMPTS).
  assert (Hfree : slots_free st0).
  { split; intros id; [simpl|intros _]; change (act (at_inner st0) id) with (act inner id); apply Hact. }
  destruct (attempt_loop_attempts env method backends max_attempts (max_attempts - 0) st0 Hfree)
    as (again & last & Hlen & Hats).
  change (length (tried default_log)) with 0.
  destruct (attempt_loop _ env method backends max_attempts st0) as [o st]. cbn [fst snd] in Hats.
  destruct Hats as [At An Ai Aa Al Af (n & Ae & As) Asl]. cbn in At, Af, Ae, As, Aa, Al.
  pose proof (settle_spec o st) as Hset. destruct (settle o st) as [o' st']. destruct Hset as (-> & -> & Ho & Hslots).
  assert (Hst : forall id, act (at_inner st) id = (act inner id + held (at_fallback st) id + held (Some o) id)%Z).
  { intros id. rewrite Asl. simpl. change (act (retain_nodes (service_backends name s) inner) id) with (act inner id). lia. }
  exists again, last. split; [done|]. split; [destruct last as [|? []]; simpl; try done; lia|].
  split; [by apply An, NoDup_nil_2|]. split.
  { rewrite At, length_fmap. unfold max_attempts, MAX_TUNNEL_ATTEMPTS in Hlen. lia. }
  split; [|split; [done|split; [|split]]].
  - eapply Forall_impl; [exact Ai|]. intros b Hb. apply Hcand.
    eapply elem_of_sublist; [exact Hb|apply prefer_healthy_sublist].
  - assert (Hsettled := settled_outcome env body o (at_fallback st) o' again last Al
      ltac:(destruct (at_fallback st); by destruct Af) Ho).
    destruct o'; [done|]. destruct Hsettled. split; [done|by right].
  - by rewrite Ae.
  - intros id. rewrite Hslots; [rewrite Hst; lia|]. intros x. rewrite Hst. pose proof (Hact x). lia.
Qed.

(** C6: What one request may do. It goes to at most three distinct candidates of
    the matched subset. It leaves a node for another only if its body can be sent
    again and either the connection failed, so that it never left, or the method
    is idempotent, the answer was 502, 503 or 504, and the retry budget paid for
    it; so a request that must not run twice is never sent twice. A backend's answer
    always beats an error of the proxy's own, which is given only when no node
    answered; and the only connection slot kept is that of the answer. *)
Theorem attempt_spec env now name method s subset inner tokens body
    (Hact : forall id, (0 <= act inner id < u32_max)%Z) :
  let '(o, st) := attempt env now name method s subset inner tokens body default_log in
  exists again last : list Backend,
    tried (at_log st) = b_id <$> again ++ last /\ length last <= 1
    /\ NoDup (tried (at_log st)) /\ length (tried (at_log st)) <= 3
    /\ Forall (fun b => b ∈ service_backends name s
                 /\ forall labels, subset = Some labels -> labels_match (b_labels b) labels = true) (again ++ last)
    /\ Forall (resendable env method body) again
    /\ match o with
       | OResponse _ _ _ _ => exists b, b ∈ again ++ last /\ answers env body o b
       | OError _ _ => Forall (fun b => is_response (answered env body b) = false) (again ++ last)
       end
    /\ spent tokens (at_tokens st) (status_events (at_log st))
    /\ forall id, act (at_inner st) id = (act inner id + held (Some o) id)%Z.
Proof.
  pose proof (attempt_ok env now name method s subset inner tokens body Hact) as Hok.
  destruct (attempt _ _ _ _ _ _ _ _ _ _) as [o st].
  destruct Hok as (again & last & Ht & Hl & Hnd & Hlen & Hc & Hr & Ho & Hs & Hact').
  exists again, last. split_and!; try done. destruct o; [done|by destruct Ho].
Qed.

End attempt.

(** ** One request *)

Record HttpRequest `{HeaderMap} := {
  rq_method : string;
  rq_path : string;
  rq_path_and_query : option string;
  rq_headers : headers;
  rq_body : Incoming
}.

Record Reply `{HeaderMap} := {
  rp_status : Z;
  rp_headers : headers;
  rp_slot : option string;     (** kept until the body is sent or the upgraded stream ends *)
  rp_node : option string;
  rp_attempts : nat;
  rp_route : string;
  rp_error : option string     (** why the proxy itself answered *)
}.

(** The trace a request without one starts, the random span id of the hop, the
    ticket for a weighted route, and the client for the request sent upstream:
    its method, path and query, and headers. *)
Record HandleEnv `{HeaderMap} := {
  he_root : TraceContext;
  he_span : string;
  he_random : Z -> Z;
  he_client : string -> string -> headers -> AttemptEnv
}.

Section handle.
Context `{HeaderMap, MapIter}.

Definition ERROR_HEADER : string := "x-stouter-error".

(** [error_response]: the status and the headers. *)
Definition error_response (reason : string) : headers :=
  hm_insert "content-type" "text/plain" (hm_insert ERROR_HEADER reason hm_empty).

(** The headers of the request sent upstream. *)
Definition upstream_headers (service_name : string) (upgrade : bool) (traceparent : string) (h : headers) : headers :=
  let h := strip_hop_by_hop h upgrade in
  let h := if contains_key h "host" then h
           else match value_of_str service_name with
                | Some host => hm_insert "host" host h
                | None => h
                end in
  hm_insert "traceparent" traceparent h.

(** The client's answer for an outcome. Switching protocols keeps the headers,
    and the slot only if the request asked to upgrade. *)
Definition reply_to (upgrade : bool) (route : string) (o : Outcome) (st : Attempting) : Reply * Inner :=
  match o with
  | OResponse status resp slot node =>
      let reply h slot := {| rp_status := status; rp_headers := h; rp_slot := slot; rp_node := Some node;
                             rp_attempts := length (tried (at_log st)); rp_route := route; rp_error := None |} in
      if (status =? 101)%Z then
        if upgrade then (reply resp (Some slot), at_inner st)
        else (reply resp None, drop_slot slot (at_inner st))
      else (reply (strip_hop_by_hop resp false) (Some slot), at_inner st)
  | OError status reason =>
      ({| rp_status := status; rp_headers := error_response reason; rp_slot := None;
          rp_node := List.last (Some <$> tried (at_log st)) None;
          rp_attempts := length (tried (at_log st)); rp_route := route; rp_error := Some reason |}, at_inner st)
  end.

Definition handle (env : HandleEnv) (now : Z) (service_name : string) (s : SharedState) (req : HttpRequest)
    (inner : Inner) (tokens : Z) : result (Reply * Inner * Z) string :=
  let trace := default (he_root env) (from_headers (rq_headers req)) in
  let upstream_trace := {| trace_id := trace_id trace; span_id := he_span env; flags := flags trace |} in
  let upgrade := is_upgrade (rq_headers req) in
  let h := upstream_headers service_name upgrade (to_header upstream_trace) (rq_headers req) in
  let path_and_query := default "/" (rq_path_and_query req) in
  let? routed := select_route (default [] (st_routes s !! service_name)) (rq_method req) (rq_path req) h (he_random env) in
  let route_label := match routed with Some r => routed_label r | None => "default" end in
  let tokens := deposit tokens in
  let '(o, st) :=
    match prepare (rq_body req) with
    | Err e =>
        (OError 400 "bad_request_body",
         {| at_inner := inner; at_tokens := tokens; at_body := Stream None; at_log := with_err e default_log;
            at_fallback := None |})
    | Ok body =>
        attempt (he_client env (rq_method req) path_and_query h) now service_name (rq_method req) s
          (routed_labels <$> routed) inner tokens body default_log
    end in
  let '(reply, inner) := reply_to upgrade route_label o st in
  Ok (reply, inner, at_tokens st).

(** [method_label]. *)
Definition method_label (method : string) : string :=
  if any (str_eqb method) ["GET"; "POST"; "PUT"; "DELETE"; "PATCH"; "HEAD"; "OPTIONS"] then method else "OTHER".

(** ** Properties of routing and of the reply *)

(** C37: A request is routed by the first route it matches, and among that route's
    subsets the ticket drawn falls in exactly one, each owning as many tickets as
    its weight: a uniform ticket splits the traffic in the exact proportion of the
    weights, and a subset of weight 0 gets none. A request that matches no route
    uses every instance. *)
Theorem select_route_spec routes method path h random
    (Hweights : forall r b, r ∈ routes -> b ∈ route_backends r -> (0 <= rb_weight b)%Z)
    (Hrandom : forall total, (0 < total)%Z -> (0 <= random total < total)%Z) :
  let matching := route_matches_request method path h in
  (select_route routes method path h random = Ok None <-> Forall (fun r => matching r = false) routes)
  /\ forall i r, routes !! i = Some r -> matching r = true ->
     (forall j r', j < i -> routes !! j = Some r' -> matching r' = false) ->
     (0 < total_weight (route_backends r))%Z ->
     let ticket := random (total_weight (route_backends r)) in
     exists before b after, route_backends r = before ++ b :: after
       /\ (total_weight before <= ticket < total_weight before + rb_weight b)%Z
       /\ (0 < rb_weight b)%Z
       /\ select_route routes method path h random =
            Ok (Some {| routed_label := label r i; routed_labels := rb_labels b |}).
Proof.
  cbv zeta. unfold select_route. set (p := route_matches_request method path h).
  pose proof (find_route_spec p routes 0) as Hf. destruct (find_route 0 routes p) as [[k r']|]; cycle 1.
  { split; [by split|]. intros i r Hi Hm. rewrite Forall_forall in Hf.
    rewrite (Hf r) in Hm by by eapply list_elem_of_lookup_2. done. }
  destruct Hf as (k' & -> & Hk & Hp & Hbefore). simpl plus. split.
  { split.
    - destruct (find_by_ticket _ _); [done|]. by destruct (route_backends r').
    - intros Hall. rewrite Forall_forall in Hall. rewrite (Hall r') in Hp by by eapply list_elem_of_lookup_2. done. }
  intros i r Hi Hm Hfirst Htotal.
  assert (i = k') as ->.
  { destruct (Nat.lt_trichotomy i k') as [Hlt|[?|Hlt]]; [|done|].
    - by rewrite (Hbefore i r Hlt Hi) in Hm.
    - by rewrite (Hfirst k' r' Hlt Hk) in Hp. }
  assert (r' = r) as -> by congruence.
  rewrite (proj2 (Z.eqb_neq _ _)) by lia.
  destruct (find_by_ticket_spec (route_backends r) (random (total_weight (route_backends r))))
    as (before & b & after & Hb & Hfind & Hr); [by apply Hrandom|].
  exists before, b, after. rewrite Hfind. split_and!; [done|lia|lia|lia|done].
Qed.

Lemma reply_slots upgrade route o st :
  let '(reply, inner) := reply_to upgrade route o st in
  (forall id, held (Some o) id <= act (at_inner st) id)%Z ->
  forall id, act inner id = (act (at_inner st) id - held (Some o) id
    + match rp_slot reply with Some slot => if decide (id = slot) then 1 else 0 | None => 0 end)%Z.
Proof.
  unfold reply_to. destruct o as [status resp slot node|status reason]; [|intros _ id; simpl; lia].
  destruct (status =? 101)%Z; [destruct upgrade|]; intros Hle id; cbn [rp_slot held]; try lia.
  change (drop_slot slot (at_inner st)) with (drop_outcome (Some (OResponse status resp slot node)) (at_inner st)).
  rewrite act_drop_outcome by done. simpl. lia.
Qed.

(** ** What is forwarded *)

(** The values of a header once the message is forwarded: as they came, unless
    they describe the hop; an upgrade still names its protocol, and nothing else
    in [connection]. *)
Definition forwarded (h : headers) (upgrade : bool) (n : string) : list string :=
  if decide (n ∈ HOP_BY_HOP ++ connection_tokens h) then
    if upgrade && str_eqb n "connection" then ["upgrade"]
    else if upgrade && str_eqb n "upgrade" then take 1 (get_all h "upgrade")
    else []
  else get_all h n.

Lemma get_all_forwarded h keep n :
  (keep = true -> is_upgrade h = true) -> get_all (strip_hop_by_hop h keep) n = forwarded h keep n.
Proof.
  intros Hkeep. rewrite get_all_strip. unfold forwarded. destruct keep; [|by case_decide].
  specialize (Hkeep eq_refl). apply andb_true_iff in Hkeep as [Hup _]. apply contains_key_get in Hup as [value Hup].
  rewrite Hup. unfold hm_get in Hup. destruct (get_all h "upgrade") as [|v values] eqn:Hv; [done|].
  injection Hup as ->. cbn [andb].
  assert (Hhop : forall m, m ∈ HOP_BY_HOP -> m ∈ HOP_BY_HOP ++ connection_tokens h) by (intros; apply elem_of_app; by left).
  destruct (decide (n = "connection")) as [->|Hc].
  { rewrite decide_True; [done|]. apply Hhop, (bool_decide_unpack _). exact I. }
  destruct (decide (n = "upgrade")) as [->|Hu].
  { rewrite decide_True; [done|]. apply Hhop, (bool_decide_unpack _). exact I. }
  case_decide; [|done]. by rewrite (proj2 (str_eqb_false n "connection") Hc), (proj2 (str_eqb_false n "upgrade") Hu).
Qed.

(** The headers [h'] a request with headers [h] goes upstream with: this hop's
    [traceparent] and no other, a host, and every other header as forwarded. *)
Definition sent_upstream (env : HandleEnv) (service_name : string) (h h' : headers) : Prop :=
  let trace := default (he_root env) (from_headers h) in
  get_all h' "traceparent" = [to_header {| trace_id := trace_id trace; span_id := he_span env; flags := flags trace |}]
  /\ get_all h' "host" = match forwarded h (is_upgrade h) "host" with
                         | [] => option_list (value_of_str service_name)
                         | hosts => hosts
                         end
  /\ forall n, n <> "traceparent" -> n <> "host" -> get_all h' n = forwarded h (is_upgrade h) n.

Lemma upstream_headers_sent env service_name h :
  let trace := default (he_root env) (from_headers h) in
  sent_upstream env service_name h
    (upstream_headers service_name (is_upgrade h)
       (to_header {| trace_id := trace_id trace; span_id := he_span env; flags := flags trace |}) h).
Proof.
  intros trace. unfold sent_upstream. fold trace. unfold upstream_headers.
  assert (Hf : forall n, get_all (strip_hop_by_hop h (is_upgrade h)) n = forwarded h (is_upgrade h) n)
    by (intros; by apply get_all_forwarded).
  split; [by rewrite get_all_insert, decide_True|].
  unfold contains_key. rewrite Hf.
  split.
  - rewrite get_all_insert, decide_False by done.
    destruct (forwarded h (is_upgrade h) "host") as [|v vs] eqn:Hh; simpl.
    + destruct (value_of_str service_name) as [host|]; [by rewrite get_all_insert, decide_True|by rewrite Hf, Hh].
    + by rewrite Hf, Hh.
  - intros n Ht Hn. rewrite get_all_insert, decide_False by done.
    case_bool_decide; simpl; [|done].
    destruct (value_of_str service_name); [rewrite get_all_insert, decide_False by done|]; done.
Qed.

Lemma reply_shape upgrade route o st :
  let '(reply, inner) := reply_to upgrade route o st in
  rp_attempts reply = length (tried (at_log st)) /\ rp_route reply = route
  /\ match o with
     | OResponse status resp slot node => rp_error reply = None /\ rp_status reply = status /\ rp_node reply = Some node
         /\ rp_slot reply = (if (status =? 101)%Z && negb upgrade then None else Some slot)
         /\ forall n, get_all (rp_headers reply) n =
              if (status =? 101)%Z then get_all resp n else forwarded resp false n
     | OError status reason => rp_error reply = Some reason /\ rp_status reply = status
         /\ get_all (rp_headers reply) ERROR_HEADER = [reason] /\ rp_slot reply = None
     end.
Proof.
  unfold reply_to. destruct o as [status resp slot node|status reason].
  - destruct (status =? 101)%Z eqn:H101; [destruct upgrade|]; cbn; rewrite ?H101; repeat (split; [done|]); try done.
    intros n. by apply (get_all_forwarded resp false n).
  - split_and!; try done. simpl. unfold error_response. by rewrite !get_all_insert.
Qed.

(** C36: What the client is answered, and what was sent for it. The request goes
    upstream with the trace of this hop, a host, and its other headers without the
    hop-by-hop ones; the route is chosen on these headers, and only instances of
    its subset are tried. If the answer is not the proxy's own, one of the instances
    tried gave it: the client gets that status and those headers, without the
    hop-by-hop ones unless it switches protocols. If it is, [x-stouter-error] says
    why: the body could not be read (400, sent nowhere); no instance carries the
    labels of the subset (503); the last instance tried ran out of time (504) or
    failed (502); or no further one could be tried (502, or 503 when none was);
    and none of the instances tried gave an answer. One request
    credits the budget once, and afterwards only the slot of the answer being sent
    is still taken. *)
Theorem handle_spec env now service_name s req inner tokens reply inner' tokens'
    (Hact : forall id, (0 <= act inner id < u32_max)%Z)
    (Hhandle : handle env now service_name s req inner tokens = Ok (reply, inner', tokens')) :
  exists h routed again last,
    let client := he_client env (rq_method req) (default "/" (rq_path_and_query req)) h in
    let nodes := again ++ last in
    sent_upstream env service_name (rq_headers req) h
    /\ select_route (default [] (st_routes s !! service_name)) (rq_method req) (rq_path req) h (he_random env) = Ok routed
    /\ rp_route reply = default "default" (routed_label <$> routed)
    /\ rp_attempts reply = length nodes /\ length nodes <= 3
    /\ Forall (fun b => b ∈ service_backends service_name s
                 /\ forall r, routed = Some r -> labels_match (b_labels b) (routed_labels r) = true) nodes
    /\ match rp_error reply with
       | None => exists body b resp, prepare (rq_body req) = Ok body /\ b ∈ nodes
           /\ answered client body b = Some (SResponse (rp_status reply) resp) /\ rp_node reply = Some (b_id b)
           /\ (forall n, get_all (rp_headers reply) n =
                 if (rp_status reply =? 101)%Z then get_all resp n else forwarded resp false n)
           /\ rp_slot reply = (if (rp_status reply =? 101)%Z && negb (is_upgrade (rq_headers req)) then None
                               else Some (b_id b))
       | Some reason =>
           get_all (rp_headers reply) ERROR_HEADER = [reason] /\ rp_slot reply = None
           /\ rp_status reply ∈ [400; 502; 503; 504]%Z
           /\ match prepare (rq_body req) with
              | Err _ => rp_status reply = 400%Z /\ reason = "bad_request_body" /\ nodes = [] /\ inner' = inner
              | Ok body => reason <> "bad_request_body"
                  /\ Forall (fun b => is_response (answered client body b) = false) nodes
                  /\ own_error service_name s client (routed_labels <$> routed) body again last (rp_status reply) reason
              end
       end
    /\ (exists n, spent (deposit tokens) tokens' n)
    /\ (forall id, act inner' id = act inner id
          + match rp_slot reply with Some slot => if decide (id = slot) then 1 else 0 | None => 0 end)%Z.
Proof.
  unfold handle in Hhandle. pose proof (upstream_headers_sent env service_name (rq_headers req)) as Hsent.
  cbv zeta in Hsent. set (h := upstream_headers _ _ _ _) in *. set (upgrade := is_upgrade (rq_headers req)) in *.
  destruct (select_route _ _ _ h _) as [routed|] eqn:Hroute; [|done].
  exists h, routed. set (route_label := match routed with Some _ => _ | None => _ end) in *.
  assert (Hlabel : route_label = default "default" (routed_label <$> routed)) by by destruct routed.
  set (client := he_client env _ _ h) in *.
  destruct (prepare (rq_body req)) as [body|e] eqn:Hbody; cycle 1.
  { exists [], []. cbn [reply_to] in Hhandle. injection Hhandle as <- <- <-.
    cbn [rp_error rp_headers rp_slot rp_status rp_attempts rp_route at_log tried with_err default_log at_inner at_tokens].
    do 3 (split; [done|]). split; [done|]. split; [simpl; lia|]. split; [by apply Forall_nil_2|].
    split; [|split; [exists 0; apply spent_refl|]].
    { split_and!; try done; [unfold error_response; by rewrite !get_all_insert|]. apply (bool_decide_unpack _). exact I. }
    intros id. simpl. lia. }
  pose proof (attempt_ok client now service_name (rq_method req) s (routed_labels <$> routed) inner (deposit tokens) body Hact) as Ha.
  destruct (attempt _ _ _ _ _ _ _ _ _ _) as [o st].
  destruct Ha as (again & last & Htried & _ & _ & Hlen & Hnodes & _ & Ho & Hspent & Hslots).
  exists again, last. pose proof (reply_slots upgrade route_label o st) as Hr.
  pose proof (reply_shape upgrade route_label o st) as Hshape.
  destruct (reply_to upgrade route_label o st) as [reply1 inner1]. injection Hhandle as -> -> <-.
  destruct Hshape as (Hattempts & Hrl & Hshape). rewrite Htried, length_fmap in Hlen, Hattempts.
  cbv zeta. fold client. split_and!; [done|done|by rewrite Hrl|done|done| | |by eexists|].
  - eapply Forall_impl; [exact Hnodes|]. intros b [Hb Hl]. split; [done|]. intros r ->. by apply Hl.
  - destruct o as [status resp slot node|status reason].
    + destruct Hshape as (He & Hst & Hn & Hs & Hh). rewrite He, Hst, Hn, Hs. destruct Ho as (b & Hb & <- & -> & Ha).
      by exists body, b, resp.
    + destruct Hshape as (He & Hst & Hh & Hs). rewrite He, Hst. destruct Ho as [Hno Hown].
      pose proof (own_error_known _ _ _ _ _ _ _ _ _ Hown) as [Hne Hin]. by split_and!.
  - intros id. rewrite Hr; [rewrite Hslots; lia|]. intros x. rewrite Hslots. pose proof (Hact x). lia.
Qed.

End handle.

(** ** Witnesses *)

Module Examples.

Local Existing Instance Headers.Examples.list_headers.

Definition hdrs (l : list (string * string)) : headers := l.

(** Two subsets, a tenth of the traffic to the second. *)
Definition canary : Route :=
  {| route_name := Some "canary"; route_service := "api";
     route_matches := {| rm_path_prefix := Some "/v2"; rm_method := Some "GET"; rm_headers := ∅ |};
     route_backends := [{| rb_labels := {["v" := "1"]}; rb_weight := 9 |};
                        {| rb_labels := {["v" := "2"]}; rb_weight := 1 |}] |}.

Lemma route_witness :
  select_route [canary] "GET" "/v2/x" (hdrs []) (fun total => total - 1)%Z
    = Ok (Some {| routed_label := "canary"; routed_labels := {["v" := "2"]} |})
  /\ select_route [canary] "GET" "/v20" (hdrs []) (fun total => total - 1)%Z = Ok None.
Proof.
  split; [vm_compute; reflexivity|].
  destruct (select_route_spec [canary] "GET" "/v20" (hdrs []) (fun total => total - 1)%Z) as [Hnone _].
  - intros r b Hr Hb. apply list_elem_of_singleton in Hr. subst r. apply list_elem_of_In in Hb. simpl in Hb.
    destruct Hb as [<-|[<-|[]]]; simpl; lia.
  - intros total Ht. simpl. lia.
  - apply Hnone. constructor; [vm_compute; reflexivity|constructor].
Defined.

Definition empty_body : Incoming := {| in_end_stream := true; in_upper := Some 0%Z; in_collected := Ok "" |}.

(** Node [a] answers 503, any other node 200, in a millisecond. *)
Definition client : AttemptEnv :=
  {| ae_uri _ := true; ae_now n := (Z.of_nat n, Z.of_nat n);
     ae_send b _ := (SResponse (if str_eqb (b_id b) "a" then 503 else 200) (hdrs [("keep-alive", "1"); ("etag", "x")]),
                     1000000%Z) |}.

Lemma idle_balancer id : (0 <= act default_inner id < u32_max)%Z.
Proof. unfold act. simpl. rewrite lookup_empty. vm_compute. split; [discriminate|reflexivity]. Qed.

(** A [GET] is sent again to [b]; a [POST] answers what [a] said. *)
Lemma attempt_witness :
  let run method := attempt client 0 "api" method Proxy.Examples.state None default_inner new_budget
                      (Replayable "") default_log in
  (run "GET").1 = OResponse 200 (hdrs [("keep-alive", "1"); ("etag", "x")]) "b" "b"
  /\ tried (at_log (run "GET").2) = ["a"; "b"]
  /\ tried (at_log (run "POST").2) = ["a"]
  /\ length (tried (at_log (run "GET").2)) <= 3.
Proof.
  cbv zeta. split; [vm_compute; reflexivity|]. split; [vm_compute; reflexivity|]. split; [vm_compute; reflexivity|].
  pose proof (attempt_spec client 0 "api" "GET" Proxy.Examples.state None default_inner new_budget
                (Replayable "") idle_balancer) as Ha.
  destruct (attempt client 0 "api" "GET" Proxy.Examples.state None default_inner new_budget (Replayable "") default_log)
    as [o st]. destruct Ha as (again & last & _ & _ & _ & Hlen & _). exact Hlen.
Defined.

Definition handle_env : HandleEnv :=
  {| he_root := {| trace_id := "4bf92f3577b34da6a3ce929d0e0e4736"; span_id := "00f067aa0ba902b7"; flags := "01" |};
     he_span := "00f067aa0ba902b8"; he_random total := 0%Z; he_client _ _ _ := client |}.

Definition request : HttpRequest :=
  {| rq_method := "GET"; rq_path := "/"; rq_path_and_query := Some "/"; rq_headers := hdrs [("host", "api")];
     rq_body := empty_body |}.

Definition handled : result (Reply * Inner * Z) string :=
  handle handle_env 0 "api" Proxy.Examples.state request default_inner new_budget.

(** The answer of [b], without the hop's headers; the request went upstream with
    the trace the proxy started. *)
Lemma handle_witness :
  match handled with
  | Ok (reply, _, _) =>
      rp_status reply = 200%Z /\ rp_headers reply = hdrs [("etag", "x")] /\ rp_attempts reply = 2
  | Err _ => False
  end
  /\ exists reply inner tokens h, handled = Ok (reply, inner, tokens)
       /\ get_all h "traceparent" = ["00-4bf92f3577b34da6a3ce929d0e0e4736-00f067aa0ba902b8-01"]
       /\ get_all h "host" = ["api"].
Proof.
  split; [vm_compute; repeat split|].
  assert (Hok : is_ok handled = true) by (vm_compute; reflexivity).
  destruct handled as [[[reply inner] tokens]|e] eqn:Hh; [|discriminate].
  destruct (handle_spec handle_env 0 "api" Proxy.Examples.state request default_inner new_budget reply inner tokens
    idle_balancer Hh) as (h & _ & _ & _ & (Htrace & Hhost & _) & _).
  exists reply, inner, tokens, h. split; [reflexivity|]. split; [exact Htrace|exact Hhost].
Defined.

End Examples.
