(* ===== verification/Listener.v ===== *)
(** * The shared HTTP listener ([src/src/subscribe/listener.rs])

    Which service a request on [httpListen] is for, and what is refused. The
    chosen service's own HTTP proxy (HttpProxy) handles the request. *)

From S2P Require Import Prelude Dynamic Config State Proxy Headers.

(** ** Hosts *)

(** [str::trim_end_matches(c)]. *)
Fixpoint trim_start_of (c : ascii) (s : string) : string :=
  match s with
  | EmptyString => EmptyString
  | String d s' => if Ascii.eqb c d then trim_start_of c s' else s
  end.
Definition trim_end_of (c : ascii) (s : string) : string := String.rev (trim_start_of c (String.rev s)).

(** The first piece of [str::split(c)]. *)
Definition first_piece (c : ascii) (s : string) : string := List.hd "" (str_split c s).

(** The host of a [Host] header: a bracketed IPv6 literal or a name, without
    its port. *)
Definition header_host (value : string) : string :=
  match strip_prefix "[" value with
  | Some rest => "[" +:+ first_piece "]" rest +:+ "]"
  | None => first_piece ":" value
  end.

Definition normal_host (raw : string) : option string :=
  let host := to_ascii_lowercase (trim_end_of "." raw) in
  if str_is_empty host then None else Some host.

Section listener.
Context `{HeaderMap}.

(** [uri_host] is the URL's host, in absolute form. *)
Definition request_host (uri_host : option string) (h : headers) : option string :=
  raw ← match uri_host with
        | Some host => Some host
        | None => v ← hm_get h "host"; header_host <$> to_str v
        end;
  normal_host raw.

(** ** Services *)

Definition visible_services (dc : DynamicConfig) (filter : option SubscribeFilter) : list Service :=
  dc_service_groups dc ≫= fun g =>
    retain (fun s => match filter with
                     | None => true
                     | Some f => sf_is_empty f || allows f (grp_name g) (svc_name s)
                     end) (grp_services g).

Definition names_host (host : string) (s : Service) : bool := eq_ignore_ascii_case (svc_name s) host.
Definition claims_host (host : string) (s : Service) : bool :=
  any (fun d => eq_ignore_ascii_case (trim_end_of "." d) host) (svc_domains s).

Definition resolve_service (host : string) (dc : DynamicConfig) (filter : option SubscribeFilter) : option string :=
  match find_first (names_host host) (visible_services dc filter) with
  | Some svc => Some (svc_name svc)
  | None => svc_name <$> find_first (claims_host host) (visible_services dc filter)
  end.

Inductive Dispatched :=
| Reject (status : Z) (reason : string)
| Handle (service : string).

Definition dispatch `{MapIter} (method : string) (uri_host : option string) (h : headers) (s : SharedState) : Dispatched :=
  if str_eqb method "CONNECT" then Reject 501 "connect_not_supported"
  else match request_host uri_host h with
  | None => Reject 400 "missing_host"
  | Some host =>
      match resolve_service host (st_dynamic_config s) (subscribe_filter (st_config s)) with
      | None => Reject 404 "unknown_service"
      | Some service =>
          if negb (service_is_http service s) then Reject 501 "service_not_http" else Handle service
      end
  end.

(** ** Lemmas *)

(** The services a daemon with this filter sees. *)
Definition visible (dc : DynamicConfig) (filter : option SubscribeFilter) (svc : Service) : Prop :=
  exists g, g ∈ dc_service_groups dc /\ svc ∈ grp_services g
    /\ forall f, filter = Some f -> sf_service_groups f <> [] \/ sf_services f <> [] ->
         grp_name g ∈ sf_service_groups f \/ svc_name svc ∈ sf_services f.

Lemma any_str_eqb x l : any (fun y => str_eqb y x) l = true <-> x ∈ l.
Proof.
  rewrite any_true. split; [intros (y & Hy & He%str_eqb_true); by subst|].
  intros Hx. exists x. by rewrite str_eqb_refl.
Qed.

Lemma filter_passes f group service :
  sf_is_empty f || allows f group service = true <->
  (sf_service_groups f <> [] \/ sf_services f <> [] -> group ∈ sf_service_groups f \/ service ∈ sf_services f).
Proof.
  unfold sf_is_empty, allows.
  rewrite !orb_true_iff, andb_true_iff, !bool_decide_eq_true, !any_str_eqb. split; [naive_solver|].
  intros Hi. destruct (decide (sf_service_groups f = [])), (decide (sf_services f = [])); naive_solver.
Qed.

Lemma elem_of_visible dc filter svc : svc ∈ visible_services dc filter <-> visible dc filter svc.
Proof.
  unfold visible_services, visible. rewrite list_elem_of_bind. split.
  - intros (g & [Hs Hf]%elem_of_retain & Hg). exists g. split; [done|]. split; [done|].
    intros f ->. by apply filter_passes.
  - intros (g & Hg & Hs & Hf). exists g. split; [|done]. apply elem_of_retain. split; [done|].
    destruct filter as [f|]; [|done]. apply filter_passes. auto.
Qed.

Lemma resolve_service_spec host dc filter :
  match resolve_service host dc filter with
  | Some name => exists svc, visible dc filter svc /\ svc_name svc = name
      /\ (names_host host svc = true
          \/ claims_host host svc = true /\ forall other, visible dc filter other -> names_host host other = false)
  | None => forall svc, visible dc filter svc -> names_host host svc = false /\ claims_host host svc = false
  end.
Proof.
  unfold resolve_service. destruct (find_first (names_host host) _) as [svc|] eqn:Hn.
  { apply find_first_elem_of in Hn as [Hv Hn]. apply elem_of_visible in Hv. exists svc. auto. }
  apply find_first_None in Hn. rewrite Forall_forall in Hn.
  assert (Hno : forall other, visible dc filter other -> names_host host other = false).
  { intros other Hv. by apply Hn, elem_of_visible. }
  destruct (find_first (claims_host host) _) as [svc|] eqn:Hc; simpl.
  - apply find_first_elem_of in Hc as [Hv Hc]. apply elem_of_visible in Hv. exists svc. auto.
  - apply find_first_None in Hc. rewrite Forall_forall in Hc. intros svc Hv.
    split; [by apply Hno|]. by apply Hc, elem_of_visible.
Qed.

(** ** Properties *)

(** A request on the shared listener reaches a service exactly when it is not
    a [CONNECT], names a host, a visible service answers to it (by name, or by
    domain when no visible service has that name), and every instance of that
    service speaks HTTP. A service hidden by [subscribeFilter] is never reached,
    and every refusal gives its reason. *)
Theorem dispatch_spec `{MapIter} method uri_host h s :
  let dc := st_dynamic_config s in
  let filter := subscribe_filter (st_config s) in
  match dispatch method uri_host h s with
  | Handle name => method <> "CONNECT" /\ service_is_http name s = true
      /\ exists host svc, request_host uri_host h = Some host /\ visible dc filter svc /\ svc_name svc = name
         /\ (names_host host svc = true
             \/ claims_host host svc = true /\ forall other, visible dc filter other -> names_host host other = false)
  | Reject status reason =>
      (method = "CONNECT" /\ status = 501%Z /\ reason = "connect_not_supported")
      \/ (method <> "CONNECT" /\ request_host uri_host h = None /\ status = 400%Z /\ reason = "missing_host")
      \/ exists host, method <> "CONNECT" /\ request_host uri_host h = Some host
         /\ ((status = 404%Z /\ reason = "unknown_service"
              /\ forall svc, visible dc filter svc -> names_host host svc = false /\ claims_host host svc = false)
             \/ (status = 501%Z /\ reason = "service_not_http"
                 /\ exists svc, visible dc filter svc /\ (names_host host svc = true \/ claims_host host svc = true)
                      /\ service_is_http (svc_name svc) s = false))
  end.
Proof.
  cbv zeta. unfold dispatch. destruct (str_eqb method "CONNECT") eqn:Hm; bool_hyps; [by left|].
  destruct (request_host uri_host h) as [host|] eqn:Hh; [|right; left; by split_and!].
  pose proof (resolve_service_spec host (st_dynamic_config s) (subscribe_filter (st_config s))) as Hr.
  destruct (resolve_service _ _ _) as [name|]; cycle 1.
  { right. right. exists host. split; [done|]. split; [done|]. left. by split_and!. }
  destruct Hr as (svc & Hv & Hname & Hor). destruct (service_is_http name s) eqn:Hp; simpl.
  - split; [done|]. split; [done|]. exists host, svc. by split_and!.
  - right. right. exists host. split; [done|]. split; [done|]. right. split; [done|]. split; [done|].
    exists svc. rewrite Hname. split; [done|]. split; [naive_solver|done].
Qed.
End listener.

Module Examples.

Local Existing Instance Headers.Examples.list_headers.

Definition host_header (value : string) : headers := [("host", value)].
Definition no_headers : headers := [].

(** The URL's host comes first; case, port and trailing dots do not matter. *)
Example hosts :
  request_host (Some "Inventory") (host_header "other") = Some "inventory"
  /\ request_host None (host_header "stock.example.com.") = Some "stock.example.com"
  /\ request_host None (host_header "Inventory:15001") = Some "inventory"
  /\ request_host None (host_header "[::1]:15001") = Some "[::1]"
  /\ request_host None no_headers = None.
Proof. vm_compute. split_and!; reflexivity. Qed.

End Examples.
