(* ===== verification/Registry.v ===== *)
(** * The HTTP proxies of a daemon ([HttpProxies] in [src/src/subscribe/http.rs])

    One proxy per service name, created on first use. A proxy is shared ([Arc]) by
    the service's own port, by the [httpListen] dispatcher and by the requests it is
    serving, so it is an identifier here and its state is in a store: dropping a name
    from the map leaves the proxy to those who still hold it. *)

From S2P Require Import Prelude Balancer Retry.

(** What changes in a proxy: its balancer and its retry budget. *)
Record HttpProxy := { hp_service_name : string; hp_balancer : Inner; hp_tokens : Z }.

Record HttpProxies := {
  hs_map : gmap string nat;
  hs_store : gmap nat HttpProxy;
  hs_next : nat
}.

(** [HttpProxies::new]. *)
Definition no_proxies : HttpProxies := {| hs_map := ∅; hs_store := ∅; hs_next := 0 |}.

(** [HttpProxy::new]. *)
Definition new_proxy (service_name : string) : HttpProxy :=
  {| hp_service_name := service_name; hp_balancer := default_inner; hp_tokens := new_budget |}.

Definition proxy_get (service_name : string) (r : HttpProxies) : nat * HttpProxies :=
  match hs_map r !! service_name with
  | Some id => (id, r)
  | None =>
      let id := hs_next r in
      (id, {| hs_map := <[service_name := id]> (hs_map r); hs_store := <[id := new_proxy service_name]> (hs_store r);
              hs_next := S id |})
  end.

Definition proxy_retain (keep : string -> bool) (r : HttpProxies) : HttpProxies :=
  {| hs_map := filter (fun kv => keep kv.1 = true) (hs_map r); hs_store := hs_store r; hs_next := hs_next r |}.

(** A change of one proxy's balancer. *)
Definition set_balancer (id : nat) (inner : Inner) (r : HttpProxies) : HttpProxies :=
  {| hs_map := hs_map r;
     hs_store := alter (fun p => {| hp_service_name := hp_service_name p; hp_balancer := inner; hp_tokens := hp_tokens p |})
                   id (hs_store r);
     hs_next := hs_next r |}.

(** Every name has the proxy made for it, and identifiers are given out once. *)
Record proxies_ok (r : HttpProxies) : Prop := {
  po_named : forall name id, hs_map r !! name = Some id -> exists p, hs_store r !! id = Some p /\ hp_service_name p = name;
  po_fresh : forall id, is_Some (hs_store r !! id) -> id < hs_next r
}.

Lemma no_proxies_ok : proxies_ok no_proxies.
Proof.
  split; cbn [hs_map hs_store hs_next no_proxies].
  - intros name id Hn. by rewrite lookup_empty in Hn.
  - intros id [p Hp]. by rewrite lookup_empty in Hp.
Qed.

Lemma proxy_get_map name r : hs_map (proxy_get name r).2 = <[name := (proxy_get name r).1]> (hs_map r).
Proof. unfold proxy_get. destruct (hs_map r !! name) as [id|] eqn:Hn; [by rewrite insert_id|done]. Qed.

Lemma proxy_get_same name r : hs_map (proxy_get name r).2 !! name = Some (proxy_get name r).1.
Proof. by rewrite proxy_get_map, lookup_insert_eq. Qed.

(** What getting and retaining do: proxies that exist stay as they are, and others are
    as new. *)
Record grows (r r' : HttpProxies) : Prop := {
  gr_ok : proxies_ok r';
  gr_keeps : forall id p, hs_store r !! id = Some p -> hs_store r' !! id = Some p;
  gr_new : forall id p, hs_store r' !! id = Some p ->
    hs_store r !! id = Some p \/ hs_store r !! id = None /\ exists name, p = new_proxy name
}.

Lemma grows_refl r : proxies_ok r -> grows r r.
Proof. split; auto. Qed.

Lemma grows_trans r1 r2 r3 : grows r1 r2 -> grows r2 r3 -> grows r1 r3.
Proof.
  intros [_ Hk1 Hn1] [Hok Hk2 Hn2]. split; [done|auto|]. intros id p Hp.
  destruct (Hn2 _ _ Hp) as [Hp2|[Hnone Hnew]]; [by apply Hn1|right]. split; [|done].
  destruct (hs_store r1 !! id) as [q|] eqn:Hq; [|done]. by rewrite (Hk1 _ _ Hq) in Hnone.
Qed.

Lemma proxy_get_grows name r : proxies_ok r -> grows r (proxy_get name r).2.
Proof.
  intros Hr. pose proof Hr as [Hn Hf]. unfold proxy_get. destruct (hs_map r !! name) as [id|] eqn:Hm; [by apply grows_refl|].
  assert (Hnew : hs_store r !! hs_next r = None).
  { destruct (hs_store r !! hs_next r) eqn:Hs; [|done]. specialize (Hf (hs_next r)). rewrite Hs in Hf.
    destruct (Nat.lt_irrefl (hs_next r)). apply Hf. eauto. }
  split; [split| |]; cbn [snd hs_map hs_store hs_next].
  - intros name' id [[<- <-]|[Hne Hi]]%lookup_insert_Some; [rewrite lookup_insert_eq; by eexists|].
    destruct (Hn _ _ Hi) as (p & Hp & ?). exists p. rewrite lookup_insert_ne; [done|]. intros <-. congruence.
  - intros id [p [[<- _]|[_ Hp]]%lookup_insert_Some]; [lia|]. etransitivity; [apply Hf; eauto|lia].
  - intros id p Hp. rewrite lookup_insert_ne; [done|]. intros <-. congruence.
  - intros id p [[<- <-]|[_ Hp]]%lookup_insert_Some; [right; eauto|by left].
Qed.

Lemma proxy_get_keeps name r name' id :
  hs_map r !! name' = Some id -> hs_map (proxy_get name r).2 !! name' = Some id.
Proof.
  intros Hi. rewrite proxy_get_map. destruct (decide (name = name')) as [->|Hne]; [|by rewrite lookup_insert_ne].
  rewrite lookup_insert_eq. unfold proxy_get. by rewrite Hi.
Qed.

Lemma proxy_retain_grows keep r : proxies_ok r -> grows r (proxy_retain keep r).
Proof. intros [Hn Hf]. split; [split; [|exact Hf]|done|auto]. intros name id [Hi _]%map_lookup_filter_Some. by apply Hn. Qed.

Lemma proxy_retain_lookup keep r name :
  hs_map (proxy_retain keep r) !! name = if keep name then hs_map r !! name else None.
Proof.
  apply option_eq. intros id. unfold proxy_retain. cbn [hs_map]. rewrite map_lookup_filter_Some. cbn [fst].
  destruct (keep name); naive_solver.
Qed.

Lemma set_balancer_ok id inner r : proxies_ok r -> proxies_ok (set_balancer id inner r).
Proof.
  intros [Hn Hf]. split; cbn [hs_map hs_store hs_next set_balancer].
  - intros name i Hi. destruct (Hn _ _ Hi) as (p & Hp & ?). destruct (decide (i = id)) as [->|Hne].
    + rewrite lookup_alter_eq, Hp. by eexists.
    + rewrite lookup_alter_ne by done. eauto.
  - intros i Hi. apply Hf. by rewrite lookup_alter_is_Some in Hi.
Qed.
