(* ===== verification/Subscribe.v ===== *)
(** * The subscribe daemon's background work ([src/src/subscribe/mod.rs])

    One pass of the proxy manager, of the warm-connection pool and of the mux
    session keeper. Starting a proxy (binding its port), dialling and opening a
    session are inputs; the tasks' sleeping is left to the caller of a pass. *)

From S2P Require Import Prelude Dynamic Config State Mux Proxy Registry.

(** ** Data *)

Record ServiceInfo := { si_port : Z; si_domains : list string; si_meta : gmap string string }.

Record DesiredService := {
  ds_name : string;
  ds_domains : list string;
  ds_meta : gmap string string;
  ds_local_port : option Z
}.

(** A running proxy; [ph_task] is its task, aborted when it is stopped, and [ph_http]
    the HTTP proxy that task got for its service. *)
Record ProxyHandle := { ph_service_name : string; ph_requested_port : option Z; ph_task : nat; ph_http : nat }.

(** What the manager keeps between passes, with the shared [service_ports] and
    the daemon's HTTP proxies. *)
Record Manager := {
  mg_proxies : gmap string ProxyHandle;
  mg_ports : gmap string ServiceInfo;
  mg_start_errors : gmap string string;
  mg_port_conflicts : gmap string string;
  mg_http : HttpProxies
}.

Definition new_manager : Manager :=
  {| mg_proxies := ∅; mg_ports := ∅; mg_start_errors := ∅; mg_port_conflicts := ∅; mg_http := no_proxies |}.

(** What a spawned proxy's port channel gives: its port and task, the bind
    error, or nothing. *)
Inductive StartOutcome := Started (port : Z) (task : nat) | BindFailed (e : string) | NoAnswer.

(** ** The desired set *)

Section manager.
Context `{MapIter}.

Definition service_key (group service : string) : string := group +:+ "/" +:+ service.

(** Skipped: our own services in nodeSubscribe mode, and what the filter hides. *)
Definition wanted (c : Config) (group : string) (svc : Service) : bool :=
  negb (bool_decide (mode c = NodeSubscribe) && str_eqb (svc_node_id svc) (node_id c))
  && match subscribe_filter c with
     | Some f => sf_is_empty f || allows f group (svc_name svc)
     | None => true
     end.

(** One service of the scan: the first instance of a key on a known node decides. *)
Definition add_desired (c : Config) (dc : DynamicConfig) (nodes : gmap string NodeInfo) (group : string)
    (acc : gmap string DesiredService * gmap string string) (svc : Service)
    : gmap string DesiredService * gmap string string :=
  let '(desired, conflicts) := acc in
  if negb (wanted c group svc) then acc
  else
    let key := service_key group (svc_name svc) in
    if bool_decide (is_Some (nodes !! svc_node_id svc)) && bool_decide (desired !! key = None) then
      let '(port, conflicts) :=
        match local_port_for dc (svc_name svc) with
        | Ok port => (port, delete key conflicts)
        | Err e => (None, <[key := e]> conflicts)
        end in
      (<[key := {| ds_name := svc_name svc; ds_domains := svc_domains svc; ds_meta := svc_meta svc;
                   ds_local_port := port |}]> desired, conflicts)
    else acc.

Definition desired_services (s : SharedState) (conflicts : gmap string string)
    : gmap string DesiredService * gmap string string :=
  let dc := st_dynamic_config s in
  foldl (fun acc group =>
    foldl (add_desired (st_config s) dc (st_known_nodes s) (grp_name group)) acc (grp_services group))
    (∅, conflicts) (dc_service_groups dc).

(** ** Stopping and starting *)

Definition stale (desired : gmap string DesiredService) (key : string) (h : ProxyHandle) : bool :=
  match desired !! key with
  | None => true
  | Some d => negb (bool_decide (ds_local_port d = ph_requested_port h))
  end.

Definition stop_proxy (m : Manager) (key : string) : Manager :=
  match mg_proxies m !! key with
  | Some h =>
      {| mg_proxies := delete key (mg_proxies m); mg_ports := delete (ph_service_name h) (mg_ports m);
         mg_start_errors := mg_start_errors m; mg_port_conflicts := mg_port_conflicts m; mg_http := mg_http m |}
  | None => m
  end.

Definition stop_removed (desired : gmap string DesiredService) (m : Manager) : Manager :=
  foldl stop_proxy m (retain (fun '(key, h) => stale desired key h) (map_iter (mg_proxies m))).*1.

(** A proxy already running only has its domains and metadata refreshed; the
    service's name must be free for a new one. [run_proxy] gets the service's HTTP
    proxy once it is bound. *)
Definition start_proxy (start : string -> option Z -> StartOutcome) (m : Manager)
    (entry : string * DesiredService) : Manager :=
  let '(key, d) := entry in
  match mg_proxies m !! key with
  | Some h =>
      {| mg_proxies := mg_proxies m;
         mg_ports := alter (fun info => {| si_port := si_port info; si_domains := ds_domains d; si_meta := ds_meta d |})
                       (ph_service_name h) (mg_ports m);
         mg_start_errors := mg_start_errors m; mg_port_conflicts := mg_port_conflicts m; mg_http := mg_http m |}
  | None =>
      if bool_decide (is_Some (mg_ports m !! ds_name d)) then m
      else match start key (ds_local_port d) with
           | Started port task =>
               let http := proxy_get (ds_name d) (mg_http m) in
               {| mg_proxies := <[key := {| ph_service_name := ds_name d; ph_requested_port := ds_local_port d;
                                            ph_task := task; ph_http := http.1 |}]> (mg_proxies m);
                  mg_ports := <[ds_name d := {| si_port := port; si_domains := ds_domains d; si_meta := ds_meta d |}]>
                                (mg_ports m);
                  mg_start_errors := delete key (mg_start_errors m); mg_port_conflicts := mg_port_conflicts m;
                  mg_http := http.2 |}
           | BindFailed e =>
               {| mg_proxies := mg_proxies m; mg_ports := mg_ports m;
                  mg_start_errors := <[key := e]> (mg_start_errors m);
                  mg_port_conflicts := mg_port_conflicts m; mg_http := mg_http m |}
           | NoAnswer => m
           end
  end.

(** One pass of [manage_proxies]. *)
Definition manage_pass (start : string -> option Z -> StartOutcome) (s : SharedState) (m : Manager) : Manager :=
  let '(desired, conflicts) := desired_services s (mg_port_conflicts m) in
  let m := {| mg_proxies := mg_proxies m; mg_ports := mg_ports m; mg_start_errors := mg_start_errors m;
              mg_port_conflicts := conflicts; mg_http := mg_http m |} in
  let m := stop_removed desired m in
  let configured := list_to_set (svc_name <$> all_services (st_dynamic_config s)) : gset string in
  let m := {| mg_proxies := mg_proxies m; mg_ports := mg_ports m; mg_start_errors := mg_start_errors m;
              mg_port_conflicts := mg_port_conflicts m;
              mg_http := proxy_retain (fun name => bool_decide (name ∈ configured)) (mg_http m) |} in
  foldl (start_proxy start) m (map_iter desired).

(** ** Warm connections and mux sessions *)

Definition POOL_TARGET : nat := 8.

Definition fill_addrs (s : SharedState) : list string :=
  omap (fun n => let addr := connect_addr n in
                 if str_is_empty addr || (POOL_TARGET <=? State.count addr (st_tunnel_pool s)) then None else Some addr)
    (map_values (st_known_nodes s)).

(** One pass of [fill_tunnel_pool]: a connection per address that wants one;
    [dial] is what the n-th gives. *)
Definition fill_pass (dial : nat -> string -> option conn) (s : SharedState) : StreamPool conn :=
  (foldl (fun '(n, pool) addr =>
     (S n, match dial n addr with Some c => push addr c pool | None => pool end))
     (0, st_tunnel_pool s) (fill_addrs s)).2.

Definition mux_addrs (s : SharedState) (pool : MuxPool) : list string :=
  omap (fun n => let addr := connect_addr n in
                 if str_is_empty addr || mux_contains addr pool then None else Some addr)
    (map_values (st_known_nodes s)).

Definition mux_pass (session : nat -> string -> option nat) (s : SharedState) (pool : MuxPool) : MuxPool :=
  (foldl (fun '(n, pool) addr =>
     (S n, match session n addr with Some handle => mux_insert addr handle pool | None => pool end))
     (0, pool) (mux_addrs s pool)).2.

(** ** The invariant

    Every running proxy owns its service's entry of [service_ports], alone. *)

Record manager_ok (m : Manager) : Prop := {
  mo_owner : forall k1 k2 h1 h2, mg_proxies m !! k1 = Some h1 -> mg_proxies m !! k2 = Some h2 ->
    ph_service_name h1 = ph_service_name h2 -> k1 = k2;
  mo_ports : forall name, is_Some (mg_ports m !! name) <->
    exists k h, mg_proxies m !! k = Some h /\ ph_service_name h = name
}.

(** The manager's key of a service, "group/service", tells its name only if that has
    no slash. *)
Definition plain_name (name : string) : Prop := "/"%char ∉ str_to_list name.

(** Every running proxy is under the key of its own service. *)
Definition keyed (m : Manager) : Prop :=
  forall key h, mg_proxies m !! key = Some h ->
    plain_name (ph_service_name h) /\ exists group, key = service_key group (ph_service_name h).

Lemma new_manager_keyed : keyed new_manager.
Proof. intros key h Hk. cbn [mg_proxies new_manager] in Hk. by rewrite lookup_empty in Hk. Qed.

Lemma last_slash {A} (x : A) l1 l2 a b : x ∉ a -> x ∉ b -> l1 ++ x :: a = l2 ++ x :: b -> a = b.
Proof.
  intros Ha Hb Heq. apply app_eq_inv in Heq as [(k & -> & Hk)|(k & -> & Hk)].
  - destruct k as [|y k]; [by injection Hk|]. injection Hk as <- ->. destruct Hb. apply elem_of_app. right. by left.
  - destruct k as [|y k]; [by injection Hk|]. injection Hk as <- ->. destruct Ha. apply elem_of_app. right. by left.
Qed.

Lemma service_key_plain g1 n1 g2 n2 : plain_name n1 -> plain_name n2 -> service_key g1 n1 = service_key g2 n2 -> n1 = n2.
Proof.
  unfold service_key, plain_name. intros H1 H2 Heq. apply (f_equal str_to_list) in Heq.
  rewrite !str_to_list_app in Heq. apply last_slash in Heq; [|done|done]. by apply str_to_list_inj.
Qed.

Lemma stop_proxy_ok m key : manager_ok m -> manager_ok (stop_proxy m key).
Proof.
  intros [Ho Hp]. unfold stop_proxy. destruct (mg_proxies m !! key) as [h|] eqn:Hk; [|done].
  split; cbn [mg_proxies mg_ports].
  - intros k1 k2 h1 h2 [_ H1]%lookup_delete_Some [_ H2]%lookup_delete_Some. by eapply Ho.
  - intros name. destruct (decide (name = ph_service_name h)) as [->|Hne].
    + rewrite lookup_delete_eq. split; [by intros []|]. intros (k & h' & [Hkk Hk']%lookup_delete_Some & Hn).
      by destruct Hkk; eapply Ho.
    + rewrite lookup_delete_ne by done. rewrite Hp. split; intros (k & h' & Hk' & <-).
      * exists k, h'. rewrite lookup_delete_ne; [done|]. intros ->. by simplify_eq.
      * apply lookup_delete_Some in Hk' as [_ Hk']. by exists k, h'.
Qed.

(** Stopping a list of keys removes those and keeps the others as they are. *)
Lemma stop_all_proxies keys m k :
  mg_proxies (foldl stop_proxy m keys) !! k = if decide (k ∈ keys) then None else mg_proxies m !! k.
Proof.
  revert m. induction keys as [|key keys IH]; intros m; cbn [foldl].
  { by rewrite decide_False by apply not_elem_of_nil. }
  rewrite IH. destruct (decide (k ∈ keys)) as [Hin|Hin].
  { by rewrite decide_True by (by apply elem_of_cons; right). }
  unfold stop_proxy. destruct (decide (k = key)) as [->|Hne].
  - rewrite decide_True by (by apply elem_of_cons; left).
    destruct (mg_proxies m !! key) eqn:Hk; [|done]. simpl. by rewrite lookup_delete_eq.
  - rewrite decide_False by (by intros [?|?]%elem_of_cons).
    destruct (mg_proxies m !! key); [|done]. simpl. by rewrite lookup_delete_ne.
Qed.

Lemma stop_removed_proxies desired m k :
  mg_proxies (stop_removed desired m) !! k =
    (h ← mg_proxies m !! k; if stale desired k h then None else Some h).
Proof.
  unfold stop_removed. rewrite stop_all_proxies. case_decide as Hk.
  - apply list_elem_of_fmap in Hk as ([k' h] & -> & [Hin Hs]%elem_of_retain). simpl.
    apply elem_of_map_iter in Hin. rewrite Hin. simpl. by rewrite Hs.
  - destruct (mg_proxies m !! k) as [h|] eqn:Hh; [|done]. simpl.
    destruct (stale desired k h) eqn:Hs; [|done]. destruct Hk. apply list_elem_of_fmap.
    exists (k, h). split; [done|]. apply elem_of_retain. split; [by apply elem_of_map_iter|done].
Qed.

Lemma stop_removed_ok desired m : manager_ok m -> manager_ok (stop_removed desired m).
Proof.
  unfold stop_removed. generalize ((retain (fun '(key, h) => stale desired key h) (map_iter (mg_proxies m))).*1).
  intros keys. revert m. induction keys as [|k keys IH]; intros m Hm; [done|]. by apply IH, stop_proxy_ok.
Qed.

Lemma start_proxy_ok start m entry : manager_ok m -> manager_ok (start_proxy start m entry).
Proof.
  intros Hm. pose proof Hm as [Ho Hp]. destruct entry as [key d]. cbn [start_proxy].
  destruct (mg_proxies m !! key) as [h|] eqn:Hk.
  { split; cbn [mg_proxies mg_ports]; [done|]. intros name. by rewrite lookup_alter_is_Some. }
  case_bool_decide as Hn; [done|]. destruct (start key (ds_local_port d)) as [port task|e|]; [|by split|done].
  assert (Hfree : forall k h, mg_proxies m !! k = Some h -> ph_service_name h <> ds_name d).
  { intros k h Hkh Heq. apply Hn, Hp. eauto. }
  split; cbn [mg_proxies mg_ports].
  - intros k1 k2 h1 h2 [[<- <-]|[Hn1 H1]]%lookup_insert_Some [[<- <-]|[Hn2 H2]]%lookup_insert_Some He; try done.
    + by destruct (Hfree k2 h2 H2).
    + by destruct (Hfree k1 h1 H1).
    + by eapply Ho.
  - intros name. rewrite lookup_insert_is_Some', Hp. split.
    + intros [<-|(k & h & Hkh & <-)].
      * eexists key, _. by rewrite lookup_insert_eq.
      * exists k, h. rewrite lookup_insert_ne; [done|]. intros ->. by rewrite Hk in Hkh.
    + intros (k & h & [[<- <-]|[Hne Hkh]]%lookup_insert_Some & <-); [by left|right; eauto].
Qed.

(** ** The desired set, exactly *)

Definition service_port (dc : DynamicConfig) (name : string) : option Z := default None (ok (local_port_for dc name)).

(** [svc] of group [g] should have a proxy under [key]. *)
Definition proxied (s : SharedState) (key : string) (svc : Service) : Prop :=
  exists g, g ∈ dc_service_groups (st_dynamic_config s) /\ svc ∈ grp_services g
    /\ wanted (st_config s) (grp_name g) svc = true /\ is_Some (st_known_nodes s !! svc_node_id svc)
    /\ key = service_key (grp_name g) (svc_name svc).

Definition desired_for (dc : DynamicConfig) (svc : Service) (d : DesiredService) : Prop :=
  d = {| ds_name := svc_name svc; ds_domains := svc_domains svc; ds_meta := svc_meta svc;
         ds_local_port := service_port dc (svc_name svc) |}.

Lemma add_desired_spec c dc nodes group acc svc key d :
  (add_desired c dc nodes group acc svc).1 !! key = Some d <->
  acc.1 !! key = Some d
  \/ acc.1 !! key = None /\ wanted c group svc = true /\ is_Some (nodes !! svc_node_id svc)
     /\ key = service_key group (svc_name svc) /\ desired_for dc svc d.
Proof.
  unfold add_desired, desired_for, service_port. destruct acc as [desired conflicts]; cbn [fst].
  destruct (wanted c group svc); simpl negb; cbn iota; [|naive_solver].
  destruct (bool_decide _ && bool_decide _) eqn:Hb; cycle 1.
  { cbn [fst]. split; [by left|]. intros [?|(Hn & _ & Hk & -> & _)]; [done|].
    by rewrite !bool_decide_true in Hb. }
  apply andb_true_iff in Hb as [Hk%bool_decide_eq_true Hd%bool_decide_eq_true].
  assert (Hins : forall v, <[service_key group (svc_name svc) := v]> desired !! key = Some d <->
    desired !! key = Some d \/ desired !! key = None /\ key = service_key group (svc_name svc) /\ d = v).
  { intros v. rewrite lookup_insert_Some. destruct (decide (service_key group (svc_name svc) = key)) as [<-|Hne].
    - rewrite Hd. naive_solver.
    - naive_solver. }
  destruct (local_port_for dc (svc_name svc)) as [port|e]; cbn [fst ok]; rewrite Hins; naive_solver.
Qed.

Lemma desired_fold_sound c dc nodes group svcs acc key d :
  (foldl (add_desired c dc nodes group) acc svcs).1 !! key = Some d ->
  acc.1 !! key = Some d
  \/ exists svc, svc ∈ svcs /\ wanted c group svc = true /\ is_Some (nodes !! svc_node_id svc)
       /\ key = service_key group (svc_name svc) /\ desired_for dc svc d.
Proof.
  revert acc. induction svcs as [|svc svcs IH]; intros acc; cbn [foldl]; [by left|].
  intros [Hd|(svc' & Hin & Hrest)]%IH.
  - apply add_desired_spec in Hd as [?|(_ & ? & ? & ? & ?)]; [by left|].
    right. exists svc. split; [apply elem_of_cons; by left|done].
  - right. exists svc'. split; [apply elem_of_cons; by right|done].
Qed.

Lemma desired_fold_mono c dc nodes group svcs acc key :
  is_Some (acc.1 !! key) -> is_Some ((foldl (add_desired c dc nodes group) acc svcs).1 !! key).
Proof.
  revert acc. induction svcs as [|svc svcs IH]; intros acc Hk; cbn [foldl]; [done|].
  apply IH. destruct Hk as [d Hd]. exists d. apply add_desired_spec. by left.
Qed.

Lemma desired_fold_complete c dc nodes group svcs acc svc :
  svc ∈ svcs -> wanted c group svc = true -> is_Some (nodes !! svc_node_id svc) ->
  is_Some ((foldl (add_desired c dc nodes group) acc svcs).1 !! service_key group (svc_name svc)).
Proof.
  intros Hin Hw Hn. revert acc. induction svcs as [|svc' svcs IH]; intros acc; [by apply not_elem_of_nil in Hin|].
  cbn [foldl]. apply elem_of_cons in Hin as [<-|Hin]; [|by apply IH]. apply desired_fold_mono.
  destruct (acc.1 !! service_key group (svc_name svc)) as [d|] eqn:Hd.
  - exists d. apply add_desired_spec. by left.
  - eexists. apply add_desired_spec. right. by split_and!.
Qed.

Lemma desired_services_spec s conflicts :
  let desired := (desired_services s conflicts).1 in
  (forall key d, desired !! key = Some d ->
     exists svc, proxied s key svc /\ desired_for (st_dynamic_config s) svc d)
  /\ (forall key svc, proxied s key svc -> is_Some (desired !! key)).
Proof.
  unfold desired_services, proxied. set (dc := st_dynamic_config s).
  set (f := fun acc group => foldl (add_desired (st_config s) dc (st_known_nodes s) (grp_name group)) acc (grp_services group)).
  assert (Hacc : forall groups acc,
    (forall key d, (foldl f acc groups).1 !! key = Some d -> acc.1 !! key = Some d \/
       exists svc g, g ∈ groups /\ svc ∈ grp_services g /\ wanted (st_config s) (grp_name g) svc = true
         /\ is_Some (st_known_nodes s !! svc_node_id svc) /\ key = service_key (grp_name g) (svc_name svc)
         /\ desired_for dc svc d)
    /\ (forall key, is_Some (acc.1 !! key) -> is_Some ((foldl f acc groups).1 !! key))
    /\ (forall g svc, g ∈ groups -> svc ∈ grp_services g -> wanted (st_config s) (grp_name g) svc = true ->
          is_Some (st_known_nodes s !! svc_node_id svc) ->
          is_Some ((foldl f acc groups).1 !! service_key (grp_name g) (svc_name svc)))).
  { induction groups as [|g groups IH]; intros acc; cbn [foldl].
    { split; [by left|]. split; [done|]. by intros ? ? ?%not_elem_of_nil. }
    destruct (IH (f acc g)) as (Hs & Hm & Hc). split; [|split].
    - intros key d [Hd|(svc & g' & Hin & Hrest)]%Hs.
      + apply desired_fold_sound in Hd as [?|(svc & ? & ? & ? & ? & ?)]; [by left|].
        right. exists svc, g. split; [apply elem_of_cons; by left|done].
      + right. exists svc, g'. split; [apply elem_of_cons; by right|done].
    - intros key Hk. by apply Hm, desired_fold_mono.
    - intros g' svc [<-|Hin]%elem_of_cons Hsvc Hw Hn; [|by apply Hc].
      by apply Hm, desired_fold_complete. }
  destruct (Hacc (dc_service_groups dc) (∅, conflicts)) as (Hs & _ & Hc). cbv zeta. split.
  - intros key d Hd. destruct (Hs key d Hd) as [He|(svc & g & ? & ? & ? & ? & ? & ?)].
    + simpl in He. by rewrite lookup_empty in He.
    + exists svc. split; [|done]. by exists g.
  - intros key svc (g & ? & ? & ? & ? & ->). by apply Hc.
Qed.

(** ** Starting the desired proxies *)

Definition refreshed (m : Manager) (d : DesiredService) (h : ProxyHandle) : Prop :=
  exists info, mg_ports m !! ph_service_name h = Some info /\ si_domains info = ds_domains d /\ si_meta info = ds_meta d.

Definition is_started (o : StartOutcome) : bool := match o with Started _ _ => true | _ => false end.

(** What became of one desired service. *)
Definition settled (start : string -> option Z -> StartOutcome) (m : Manager) (key : string) (d : DesiredService) : Prop :=
  match mg_proxies m !! key with
  | Some h => refreshed m d h
  | None =>
      (exists key' h', key' <> key /\ mg_proxies m !! key' = Some h' /\ ph_service_name h' = ds_name d)
      \/ is_started (start key (ds_local_port d)) = false
  end.

Lemma start_proxy_other start m key d k :
  k <> key -> mg_proxies (start_proxy start m (key, d)) !! k = mg_proxies m !! k.
Proof.
  intros Hne. cbn [start_proxy]. destruct (mg_proxies m !! key); [done|].
  case_bool_decide; [done|]. destruct (start _ _); simpl; [by rewrite lookup_insert_ne|done|done].
Qed.

Lemma start_proxy_keeps start m entry k h :
  mg_proxies m !! k = Some h -> mg_proxies (start_proxy start m entry) !! k = Some h.
Proof.
  destruct entry as [key d]. intros Hk. destruct (decide (k = key)) as [->|Hne].
  - cbn [start_proxy]. by rewrite Hk.
  - by rewrite start_proxy_other.
Qed.

Lemma start_proxy_new start m key d h :
  mg_proxies (start_proxy start m (key, d)) !! key = Some h ->
  mg_proxies m !! key = Some h
  \/ mg_proxies m !! key = None /\ ph_requested_port h = ds_local_port d /\ ph_service_name h = ds_name d.
Proof.
  cbn [start_proxy]. destruct (mg_proxies m !! key) as [h'|] eqn:Hk; [simpl; rewrite Hk; by left|].
  case_bool_decide; [by rewrite Hk|]. destruct (start _ _); simpl; [|by rewrite Hk|by rewrite Hk].
  rewrite lookup_insert_eq. intros [= <-]. by right.
Qed.

Lemma start_proxy_settles start m key d : manager_ok m -> settled start (start_proxy start m (key, d)) key d.
Proof.
  intros [Ho Hp]. unfold settled. cbn [start_proxy]. destruct (mg_proxies m !! key) as [h|] eqn:Hk.
  { cbn [mg_proxies]. rewrite Hk. unfold refreshed. cbn [mg_ports]. rewrite lookup_alter_eq.
    assert (Hi : is_Some (mg_ports m !! ph_service_name h)) by (apply Hp; eauto).
    destruct Hi as [info ->]. simpl. by eexists. }
  case_bool_decide as Hn.
  { rewrite Hk. left. apply Hp in Hn as (k' & h' & Hk' & Hname). exists k', h'.
    split; [|done]. intros ->. by rewrite Hk in Hk'. }
  destruct (start key (ds_local_port d)) as [port task|e|] eqn:Hs; cbn [mg_proxies].
  - rewrite lookup_insert_eq. unfold refreshed. cbn [mg_ports ph_service_name]. rewrite lookup_insert_eq. by eexists.
  - rewrite Hk. by right.
  - rewrite Hk. by right.
Qed.

(** A service already settled stays so while others start. *)
Lemma settled_later start m key d key' d' :
  manager_ok m -> key' <> key -> settled start m key d -> settled start (start_proxy start m (key', d')) key d.
Proof.
  intros [Ho Hp] Hne. unfold settled. rewrite start_proxy_other by done.
  destruct (mg_proxies m !! key) as [h|] eqn:Hk.
  - unfold refreshed. intros (info & Hi & Hd). exists info. split; [|done]. rewrite <- Hi. cbn [start_proxy].
    destruct (mg_proxies m !! key') as [h'|] eqn:Hk'.
    + cbn [mg_ports]. apply lookup_alter_ne. intros He. apply Hne. by eapply Ho.
    + case_bool_decide as Hn; [done|]. destruct (start _ _); try done. cbn [mg_ports].
      apply lookup_insert_ne. intros He. apply Hn. rewrite He. by eexists.
  - intros [(k & h & Hkk & Hh & Hname)|?]; [left|by right]. exists k, h.
    split; [done|]. split; [|done]. by apply start_proxy_keeps.
Qed.

Record started_all (start : string -> option Z -> StartOutcome) (l : list (string * DesiredService)) (m m' : Manager) : Prop := {
  sa_ok : manager_ok m';
  sa_keeps : forall k h, mg_proxies m !! k = Some h -> mg_proxies m' !! k = Some h;
  sa_new : forall k h, mg_proxies m' !! k = Some h -> mg_proxies m !! k = Some h
    \/ exists d, (k, d) ∈ l /\ ph_requested_port h = ds_local_port d;
  sa_settled : forall k d, (k, d) ∈ l -> settled start m' k d;
  sa_http : forall name, is_Some (hs_map (mg_http m') !! name) -> is_Some (hs_map (mg_http m) !! name) \/ exists k d, (k, d) ∈ l /\ ds_name d = name
}.

Lemma start_all start l m : manager_ok m -> NoDup l.*1 -> started_all start l m (foldl (start_proxy start) m l).
Proof.
  intros Hm. induction l as [|[key d] l IH] using rev_ind; intros Hnd.
  { split; simpl; auto. by intros ? ? ?%not_elem_of_nil. }
  rewrite fmap_app in Hnd. apply NoDup_app in Hnd as (Hnd & Hfresh & _). specialize (IH Hnd).
  rewrite foldl_app. cbn [foldl]. set (m1 := foldl (start_proxy start) m l) in *.
  assert (Hkey : forall k d', (k, d') ∈ l -> key <> k).
  { intros k d' Hin ->. apply (Hfresh k); [|by apply list_elem_of_singleton].
    apply list_elem_of_fmap. by exists (k, d'). }
  split.
  - apply start_proxy_ok, IH.
  - intros k h Hk. apply start_proxy_keeps. by apply (sa_keeps _ _ _ _ IH).
  - intros k h Hk. destruct (decide (k = key)) as [->|Hne].
    + apply start_proxy_new in Hk as [Hk|(_ & Hport & _)].
      * apply (sa_new _ _ _ _ IH) in Hk as [?|(d' & Hin & ?)]; [by left|].
        right. exists d'. split; [apply elem_of_app; by left|done].
      * right. exists d. split; [apply elem_of_app; right; by apply list_elem_of_singleton|done].
    + rewrite start_proxy_other in Hk by done.
      apply (sa_new _ _ _ _ IH) in Hk as [?|(d' & Hin & ?)]; [by left|].
      right. exists d'. split; [apply elem_of_app; by left|done].
  - intros k d' [Hin|Hin]%elem_of_app.
    + apply settled_later; [apply IH|by eapply Hkey|by apply IH].
    + apply list_elem_of_singleton in Hin. injection Hin as -> ->. apply start_proxy_settles, IH.
  - intros name Hname.
    assert (Hor : is_Some (hs_map (mg_http m1) !! name) \/ ds_name d = name).
    { revert Hname. cbn [start_proxy]. destruct (mg_proxies m1 !! key); [by left|].
      case_bool_decide; [by left|]. destruct (start _ _); [|by left|by left].
      cbn [mg_http]. rewrite proxy_get_map, lookup_insert_is_Some. naive_solver. }
    destruct Hor as [Hn|Heq].
    + apply (sa_http _ _ _ _ IH) in Hn as [?|(k & d' & Hin & ?)]; [by left|].
      right. exists k, d'. split; [apply elem_of_app; by left|done].
    + right. exists key, d. split; [apply elem_of_app; right; by apply list_elem_of_singleton|done].
Qed.

(** ** Property *)

Lemma start_all_keyed start l m :
  keyed m -> (forall key d, (key, d) ∈ l -> plain_name (ds_name d) /\ exists group, key = service_key group (ds_name d)) ->
  keyed (foldl (start_proxy start) m l).
Proof.
  revert m. induction l as [|[key d] l IH]; intros m Hm Hl; [done|]. apply IH; [|intros; apply Hl; by right].
  intros k h Hk. destruct (decide (k = key)) as [->|Hne].
  - apply start_proxy_new in Hk as [Hk|(_ & _ & ->)]; [by apply Hm|]. apply Hl. by left.
  - rewrite start_proxy_other in Hk by done. by apply Hm.
Qed.

Lemma manage_pass_keyed start s m :
  keyed m -> Forall (fun svc => plain_name (svc_name svc)) (all_services (st_dynamic_config s)) ->
  keyed (manage_pass start s m).
Proof.
  intros Hm Hplain. rewrite Forall_forall in Hplain. unfold manage_pass.
  pose proof (desired_services_spec s (mg_port_conflicts m)) as [Hsound _].
  destruct (desired_services s (mg_port_conflicts m)) as [desired conflicts]. cbn [fst] in *. apply start_all_keyed.
  - intros key h Hk. cbn [mg_proxies] in Hk. rewrite stop_removed_proxies in Hk. cbn [mg_proxies] in Hk.
    destruct (mg_proxies m !! key) as [h'|] eqn:Hh; [|done]. simpl in Hk. destruct (stale _ _ _); [done|].
    injection Hk as <-. by apply Hm.
  - intros key d Hd%elem_of_map_iter. destruct (Hsound key d Hd) as (svc & (g & Hg & Hsvc & _ & _ & ->) & Hdd).
    unfold desired_for in Hdd. subst d. cbn [ds_name]. split; [|by eexists].
    apply Hplain, elem_of_all_services. by exists g.
Qed.

(** A key tells its service. *)
Lemma keyed_name s m key h svc :
  keyed m -> plain_name (svc_name svc) -> mg_proxies m !! key = Some h -> proxied s key svc ->
  ph_service_name h = svc_name svc.
Proof.
  intros Hm Hsvc Hh (g & _ & _ & _ & _ & Hkey). destruct (Hm key h Hh) as [Hp [g' Hkey']].
  rewrite Hkey in Hkey'. by apply service_key_plain in Hkey'.
Qed.

(** The pass without the names: what runs, under which key and with which port. *)
Lemma manage_pass_proxies start s m (Hm : manager_ok m) :
  let m' := manage_pass start s m in
  let dc := st_dynamic_config s in
  manager_ok m'
  /\ (forall key h, mg_proxies m' !! key = Some h ->
        exists svc, proxied s key svc /\ ph_requested_port h = service_port dc (svc_name svc))
  /\ (forall key h, mg_proxies m !! key = Some h ->
        mg_proxies m' !! key = Some h \/ forall svc, proxied s key svc ->
          exists other, proxied s key other /\ ph_requested_port h <> service_port dc (svc_name other))
  /\ (forall key svc, proxied s key svc ->
        exists first d, proxied s key first /\ desired_for dc first d /\ settled start m' key d)
  /\ (forall name, is_Some (hs_map (mg_http m') !! name) -> exists svc, svc ∈ all_services dc /\ svc_name svc = name).
Proof.
  cbv zeta. unfold manage_pass. pose proof (desired_services_spec s (mg_port_conflicts m)) as [Hsound Hcomplete].
  destruct (desired_services s (mg_port_conflicts m)) as [desired conflicts]. cbn [fst] in *.
  set (m1 := {| mg_proxies := mg_proxies m; mg_port_conflicts := conflicts |}).
  assert (Hm1 : manager_ok m1) by (destruct Hm; by split).
  pose proof (stop_removed_ok desired m1 Hm1) as [Ho Hp].
  pose proof (stop_removed_proxies desired m1) as Hstop. set (m2 := stop_removed desired m1) in *.
  set (m3 := {| mg_proxies := mg_proxies m2; mg_ports := mg_ports m2; mg_http := proxy_retain _ (mg_http m2) |}).
  assert (Hm3 : manager_ok m3) by by split.
  pose proof (start_all start (map_iter desired) m3 Hm3 (NoDup_map_iter_fst desired)) as [Sok Skeep Snew Sset Shttp].
  change (forall k, mg_proxies m3 !! k = (h ← mg_proxies m !! k; if stale desired k h then None else Some h)) in Hstop.
  split; [done|]. split; [|split; [|split]].
  - intros key h Hk.
    assert (Hd : exists d, desired !! key = Some d /\ ph_requested_port h = ds_local_port d).
    { apply Snew in Hk as [Hk|(d & Hin & Hport)]; [|exists d; split; [by apply elem_of_map_iter|done]].
      rewrite Hstop in Hk. destruct (mg_proxies m !! key) as [h'|]; [|done]. simpl in Hk. unfold stale in Hk.
      destruct (desired !! key) as [d|]; [|done]. exists d. split; [done|].
      case_bool_decide as Hp'; [|done]. simpl in Hk. by injection Hk as <-. }
    destruct Hd as (d & Hd & ->). destruct (Hsound key d Hd) as (svc & Hsvc & Hdd). unfold desired_for in Hdd. subst d. by exists svc.
  - intros key h Hk. destruct (mg_proxies m3 !! key) as [h'|] eqn:H3.
    + left. apply Skeep. rewrite H3. rewrite Hstop, Hk in H3. simpl in H3. destruct (stale _ _ _); congruence.
    + right. intros svc Hsvc. destruct (Hcomplete key svc Hsvc) as [d Hd].
      destruct (Hsound key d Hd) as (other & Hother & Hdd). exists other. split; [done|].
      rewrite Hstop, Hk in H3. simpl in H3. unfold stale in H3. rewrite Hd in H3. unfold desired_for in Hdd. rewrite Hdd in H3.
      cbn [ds_local_port] in H3. case_bool_decide as Hp'; [done|]. congruence.
  - intros key svc Hsvc. destruct (Hcomplete key svc Hsvc) as [d Hd].
    destruct (Hsound key d Hd) as (first & Hfirst & Hdd). exists first, d. split; [done|]. split; [done|].
    by apply Sset, elem_of_map_iter.
  - intros name Hname. apply Shttp in Hname as [Hn|(k & d & Hin & <-)].
    + unfold m3 in Hn. cbn [mg_http] in Hn. rewrite proxy_retain_lookup in Hn.
      case_bool_decide as Hc; [|by destruct Hn]. clear Hn. rename Hc into Hn. apply elem_of_list_to_set, list_elem_of_fmap in Hn as (svc & -> & ?). by exists svc.
    + apply elem_of_map_iter in Hin. destruct (Hsound k d Hin) as (svc & (g & Hg & Hs & _) & Hdd).
      unfold desired_for in Hdd. subst d. exists svc. split; [|done]. apply elem_of_all_services. by exists g.
Qed.

(** C17: After a pass of the proxy manager the running proxies are exactly what
    the configuration asks for, as far as their ports could be bound, when no service
    name has a slash. Each serves a wanted service on a known node, the one whose key
    it is under, at the local port the configuration gives; one that already did is the
    very same task, never restarted; every wanted service has a proxy of its own name
    running with its current domains and metadata shown, unless another group's proxy
    has its name or its start failed; no two proxies share a service name; and HTTP
    proxies exist only for configured services. What is asked of the manager holds of
    the one a daemon starts with, and after every pass. *)
Theorem manage_pass_spec start s m (Hm : manager_ok m) (Hkeyed : keyed m)
    (Hplain : Forall (fun svc => plain_name (svc_name svc)) (all_services (st_dynamic_config s))) :
  let m' := manage_pass start s m in
  let dc := st_dynamic_config s in
  manager_ok m' /\ keyed m'
  /\ (forall key h, mg_proxies m' !! key = Some h ->
        (exists svc, proxied s key svc)
        /\ forall svc, proxied s key svc ->
             ph_service_name h = svc_name svc /\ ph_requested_port h = service_port dc (svc_name svc))
  /\ (forall key h svc, mg_proxies m !! key = Some h -> proxied s key svc ->
        mg_proxies m' !! key = Some h \/ ph_requested_port h <> service_port dc (svc_name svc))
  /\ (forall key svc, proxied s key svc ->
        exists first d, proxied s key first /\ svc_name first = svc_name svc /\ desired_for dc first d
          /\ settled start m' key d)
  /\ (forall name, is_Some (hs_map (mg_http m') !! name) -> exists svc, svc ∈ all_services dc /\ svc_name svc = name).
Proof.
  destruct (manage_pass_proxies start s m Hm) as (Hok & Hrun & Hkeep & Hset & Hhttp).
  pose proof (manage_pass_keyed start s m Hkeyed Hplain) as Hk'. cbv zeta.
  assert (Hname : forall key svc, proxied s key svc -> plain_name (svc_name svc)).
  { intros key svc (g & Hg & Hsvc & _). rewrite Forall_forall in Hplain. apply Hplain, elem_of_all_services. by exists g. }
  assert (Hsame : forall key svc svc', proxied s key svc -> proxied s key svc' -> svc_name svc = svc_name svc').
  { intros key svc svc' H1 H2. pose proof (Hname _ _ H1) as P1. pose proof (Hname _ _ H2) as P2.
    destruct H1 as (g1 & _ & _ & _ & _ & E1), H2 as (g2 & _ & _ & _ & _ & E2). rewrite E1 in E2.
    by apply service_key_plain in E2. }
  split; [done|]. split; [done|]. split; [|split; [|split; [|done]]].
  - intros key h Hh. destruct (Hrun key h Hh) as (svc & Hsvc & Hport). split; [by exists svc|]. intros svc' Hsvc'. split.
    + by apply (keyed_name s (manage_pass start s m) key h); [|eapply Hname| |].
    + by rewrite Hport, (Hsame key svc svc').
  - intros key h svc Hh Hsvc. destruct (Hkeep key h Hh) as [?|Hno]; [by left|right].
    destruct (Hno svc Hsvc) as (other & Hother & Hp). by rewrite (Hsame key svc other).
  - intros key svc Hsvc. destruct (Hset key svc Hsvc) as (first & d & Hfirst & Hrest). exists first, d.
    split; [done|]. split; [by apply (Hsame key)|done].
Qed.
End manager.

Module Examples.

Definition start (key : string) (port : option Z) : StartOutcome := Started (default 40000%Z port) 1.

Lemma new_manager_ok : manager_ok new_manager.
Proof.
  split; cbn [mg_proxies mg_ports new_manager]; [intros k1 k2 h1 h2 Hk; by rewrite lookup_empty in Hk|]. intros name.
  rewrite lookup_empty. split; [by intros [? ?]|]. intros (k & h & Hk & _). by rewrite lookup_empty in Hk.
Qed.

(** Node [a] in nodeSubscribe mode proxies the service on [b], not its own. *)
Definition after_pass : Manager := manage_pass start Proxy.Examples.state new_manager.

Lemma pass_witness :
  map_to_list (ph_service_name <$> mg_proxies after_pass) = [("web/api", "api")]
  /\ (forall key h, mg_proxies after_pass !! key = Some h ->
        (exists svc, proxied Proxy.Examples.state key svc)
        /\ forall svc, proxied Proxy.Examples.state key svc -> ph_service_name h = svc_name svc
             /\ ph_requested_port h = service_port (st_dynamic_config Proxy.Examples.state) (svc_name svc)).
Proof.
  split; [vm_compute; reflexivity|].
  refine (proj1 (proj2 (proj2 (manage_pass_spec start Proxy.Examples.state new_manager new_manager_ok new_manager_keyed _)))).
  apply Forall_forall. intros svc Hsvc. unfold plain_name. apply list_elem_of_In in Hsvc. simpl in Hsvc.
  destruct Hsvc as [<-|[<-|[]]]; apply (bool_decide_unpack _); vm_compute; exact I.
Defined.

(** With a slash in a service's name two services can have one key: when the service
    [b/c] of the group [a] is replaced by the service [c] of the group [a/b], the old
    proxy stays and the new service gets none. *)
Definition only (group name : string) : SharedState :=
  set_dynamic_config
    {| dc_version := 1;
       dc_service_groups := [{| grp_name := group; grp_services := [Dynamic.Examples.service name "b" Http] |}];
       dc_routes := [] |} Proxy.Examples.state.

Example one_key_for_two_services :
  let m := manage_pass start (only "a/b" "c") (manage_pass start (only "a" "b/c") new_manager) in
  map_to_list (ph_service_name <$> mg_proxies m) = [("a/b/c", "b/c")] /\ (map_to_list (mg_ports m)).*1 = ["b/c"].
Proof. vm_compute. auto. Qed.

End Examples.
