(* ===== verification/Ingress.v ===== *)
(** * The two ways in ([run_proxy] in [src/src/subscribe/proxy.rs], [dispatch] in
    [src/src/subscribe/listener.rs], [HttpProxies] in [src/src/subscribe/http.rs])

    A request for a service comes by the service's own port or by [httpListen]; the
    proxy manager starts and stops the ports meanwhile. All of them share the
    daemon's HTTP proxies, so a service has one balancer, one set of connection limits
    and one retry budget. *)

From S2P Require Import Prelude Dynamic Config State Balancer Retry Proxy Headers Trace HttpProxy Listener Registry Subscribe.

(** ** Requests *)

Inductive Answer `{HeaderMap} :=
| Rejected (status : Z) (h : headers)
| Answered (reply : Reply).

Section requests.
Context `{HeaderMap} `{MapIter}.

(** [HttpProxy::handle] on a shared proxy. *)
Definition handle_on (env : HandleEnv) (now : Z) (s : SharedState) (req : HttpRequest) (id : nat) (r : HttpProxies)
    : result Answer string * HttpProxies :=
  match hs_store r !! id with
  | None => (Err "dropped", r)
  | Some p =>
      match HttpProxy.handle env now (hp_service_name p) s req (hp_balancer p) (hp_tokens p) with
      | Ok (reply, inner, tokens) =>
          (Ok (Answered reply),
           {| hs_map := hs_map r;
              hs_store := <[id := {| hp_service_name := hp_service_name p; hp_balancer := inner; hp_tokens := tokens |}]>
                            (hs_store r);
              hs_next := hs_next r |})
      | Err e => (Err e, r)
      end
  end.

(** A request on [httpListen]. *)
Definition listener_request (env : HandleEnv) (now : Z) (s : SharedState) (uri_host : option string) (req : HttpRequest)
    (r : HttpProxies) : result Answer string * HttpProxies :=
  match Listener.dispatch (rq_method req) uri_host (rq_headers req) s with
  | Reject status reason => (Ok (Rejected status (error_response reason)), r)
  | Handle service => let '(id, r) := proxy_get service r in handle_on env now s req id r
  end.

(** A request on a connection to a running proxy's port. *)
Definition port_request (env : HandleEnv) (now : Z) (s : SharedState) (req : HttpRequest) (h : ProxyHandle) (r : HttpProxies)
    : result Answer string * HttpProxies :=
  handle_on env now s req (ph_http h) r.

(** A connection to a port of a service that is not [http] uses the same balancer. *)
Definition port_connection (now : Z) (nows : nat -> Z * Z) (establish : Backend -> bool) (s : SharedState) (h : ProxyHandle)
    (r : HttpProxies) : option ClientOutcome * HttpProxies :=
  match hs_store r !! ph_http h with
  | None => (None, r)
  | Some p =>
      let '(o, _, inner) := serve_client now nows establish (ph_service_name h) s (hp_balancer p) in
      (Some o, set_balancer (ph_http h) inner r)
  end.

(** ** Everything together

    The manager with the daemon's proxies, the proxies that requests in progress have
    got, and the slots held on nodes through each proxy. *)
Record Ingress := {
  in_manager : Manager;
  in_open : list nat;
  in_slots : gmap nat (list string)
}.

Definition new_ingress : Ingress := {| in_manager := new_manager; in_open := []; in_slots := ∅ |}.

Definition slots_of (id : nat) (w : Ingress) : list string := default [] (in_slots w !! id).

Definition with_http (r : HttpProxies) (m : Manager) : Manager :=
  {| mg_proxies := mg_proxies m; mg_ports := mg_ports m; mg_start_errors := mg_start_errors m;
     mg_port_conflicts := mg_port_conflicts m; mg_http := r |}.

(** [limit] is each service's [maxConnections] by node. A request takes its proxy when
    it enters and uses that one's balancer until it is done, whatever the manager does. *)
Inductive istep (limit : string -> string -> option Z) : Ingress -> Ingress -> Prop :=
| IPass start s w : Forall (fun svc => plain_name (svc_name svc)) (all_services (st_dynamic_config s)) ->
    istep limit w {| in_manager := manage_pass start s (in_manager w); in_open := in_open w; in_slots := in_slots w |}
| IPort key h w : mg_proxies (in_manager w) !! key = Some h ->
    istep limit w {| in_manager := in_manager w; in_open := ph_http h :: in_open w; in_slots := in_slots w |}
| IListener service w :
    let got := proxy_get service (mg_http (in_manager w)) in
    istep limit w {| in_manager := with_http got.2 (in_manager w); in_open := got.1 :: in_open w; in_slots := in_slots w |}
| IBalancer id p inner slots w : id ∈ in_open w -> hs_store (mg_http (in_manager w)) !! id = Some p ->
    bstep (limit (hp_service_name p)) (hp_balancer p, slots_of id w) (inner, slots) ->
    istep limit w {| in_manager := with_http (set_balancer id inner (mg_http (in_manager w))) (in_manager w);
                     in_open := in_open w; in_slots := <[id := slots]> (in_slots w) |}
| IDone open id rest w : in_open w = open ++ id :: rest ->
    istep limit w {| in_manager := in_manager w; in_open := open ++ rest; in_slots := in_slots w |}.

(** Each running port has the proxy its service has now. *)
Record ports_share (m : Manager) : Prop := {
  ps_proxies : proxies_ok (mg_http m);
  ps_shared : forall key h, mg_proxies m !! key = Some h -> hs_map (mg_http m) !! ph_service_name h = Some (ph_http h);
  ps_key : keyed m
}.

(** ** Lemmas *)

Lemma stop_proxy_http m key : mg_http (stop_proxy m key) = mg_http m.
Proof. unfold stop_proxy. by destruct (mg_proxies m !! key). Qed.

Lemma stop_removed_http desired m : mg_http (stop_removed desired m) = mg_http m.
Proof.
  unfold stop_removed. generalize ((retain (fun '(key, h) => stale desired key h) (map_iter (mg_proxies m))).*1). intros keys.
  revert m. induction keys as [|k keys IH]; intros m; [done|]. cbn [foldl]. by rewrite IH, stop_proxy_http.
Qed.

(** Starting keeps what is shared, and the new port shares its service's proxy. *)
Lemma start_proxy_shares start m key d :
  ports_share m -> plain_name (ds_name d) -> (exists group, key = service_key group (ds_name d)) ->
  ports_share (start_proxy start m (key, d)) /\ grows (mg_http m) (mg_http (start_proxy start m (key, d))).
Proof.
  intros [Hp Hs Hk] Hplain Hkey. cbn [start_proxy]. destruct (mg_proxies m !! key) as [h|] eqn:Hh.
  { split; [by split|by apply grows_refl]. }
  case_bool_decide; [split; [by split|by apply grows_refl]|].
  destruct (start key (ds_local_port d)) as [port task|e|]; try (split; [by split|by apply grows_refl]).
  pose proof (proxy_get_grows (ds_name d) (mg_http m) Hp) as Hg. cbn [mg_http]. split; [|done]. split; unfold keyed; cbn [mg_proxies mg_http].
  - apply Hg.
  - intros k h [[<- <-]|[_ Hkh]]%lookup_insert_Some; [apply proxy_get_same|]. by apply proxy_get_keeps, (Hs k).
  - intros k h [[<- <-]|[_ Hkh]]%lookup_insert_Some; [done|]. by apply Hk.
Qed.

Lemma start_all_shares start l m :
  ports_share m ->
  (forall key d, (key, d) ∈ l -> plain_name (ds_name d) /\ exists group, key = service_key group (ds_name d)) ->
  ports_share (foldl (start_proxy start) m l) /\ grows (mg_http m) (mg_http (foldl (start_proxy start) m l)).
Proof.
  revert m. induction l as [|[key d] l IH]; intros m Hm Hl; [split; [done|apply grows_refl, Hm]|].
  destruct (Hl key d) as [Hplain Hkey]; [by left|].
  destruct (start_proxy_shares start m key d Hm Hplain Hkey) as [Hm1 Hg1].
  destruct (IH _ Hm1) as [Hm2 Hg2]; [intros; apply Hl; by right|].
  split; [done|]. by eapply grows_trans.
Qed.

(** A pass drops a proxy only when its service is gone, and its port with it. *)
Lemma manage_pass_shares start s m :
  ports_share m -> Forall (fun svc => plain_name (svc_name svc)) (all_services (st_dynamic_config s)) ->
  ports_share (manage_pass start s m) /\ grows (mg_http m) (mg_http (manage_pass start s m)).
Proof.
  intros [Hp Hs Hk] Hplain. rewrite Forall_forall in Hplain. unfold manage_pass.
  pose proof (desired_services_spec s (mg_port_conflicts m)) as [Hsound _].
  destruct (desired_services s (mg_port_conflicts m)) as [desired conflicts]. cbn [fst] in *.
  assert (Hdes : forall key d, desired !! key = Some d ->
    plain_name (ds_name d) /\ (exists group, key = service_key group (ds_name d))
    /\ exists svc, svc ∈ all_services (st_dynamic_config s) /\ svc_name svc = ds_name d).
  { intros key d Hd. destruct (Hsound key d Hd) as (svc & (g & Hg & Hsvc & _ & _ & ->) & Hdd).
    unfold desired_for in Hdd. subst d. cbn [ds_name].
    assert (Hall : svc ∈ all_services (st_dynamic_config s)) by (apply elem_of_all_services; by exists g).
    split; [by apply Hplain|]. split; [by eexists|by exists svc]. }
  set (m1 := {| mg_proxies := mg_proxies m; mg_port_conflicts := conflicts |}).
  pose proof (stop_removed_proxies desired m1) as Hstop. pose proof (stop_removed_http desired m1) as Hhttp.
  set (m2 := stop_removed desired m1) in *. change (mg_http m1) with (mg_http m) in Hhttp.
  set (m3 := {| mg_proxies := mg_proxies m2; mg_ports := mg_ports m2; mg_http := proxy_retain _ (mg_http m2) |}).
  assert (Hg3 : grows (mg_http m) (mg_http m3)).
  { unfold m3. cbn [mg_http]. rewrite Hhttp. by apply proxy_retain_grows. }
  assert (Hkept : forall key h, mg_proxies m3 !! key = Some h -> mg_proxies m !! key = Some h /\ is_Some (desired !! key)).
  { intros key h Hh. unfold m3 in Hh. cbn [mg_proxies] in Hh. rewrite Hstop in Hh. change (mg_proxies m1) with (mg_proxies m) in Hh.
    destruct (mg_proxies m !! key) as [h'|]; [|done]. simpl in Hh. unfold stale in Hh.
    destruct (desired !! key) as [d|] eqn:Hd; [|done]. destruct (negb _); [done|]. injection Hh as ->. split; [done|by exists d]. }
  assert (Hm3 : ports_share m3).
  { split.
    - apply Hg3.
    - intros key h Hh. destruct (Hkept _ _ Hh) as [Hh0 [d Hd]]. destruct (Hk _ _ Hh0) as [Hpl (group & Hkey)].
      destruct (Hdes _ _ Hd) as (Hpl' & (group' & Hkey') & svc & Hsvc & Hname).
      assert (Heq : ph_service_name h = ds_name d) by (apply (service_key_plain group _ group'); congruence).
      unfold m3. cbn [mg_http]. rewrite Hhttp, proxy_retain_lookup, bool_decide_true; [by apply (Hs key)|].
      apply elem_of_list_to_set, list_elem_of_fmap. exists svc. split; [congruence|done].
    - intros key h Hh. by apply Hk, Hkept. }
  destruct (start_all_shares start (map_iter desired) m3 Hm3) as [Hm4 Hg4].
  { intros key d Hin%elem_of_map_iter. by destruct (Hdes _ _ Hin) as (? & ? & _). }
  split; [done|]. by eapply grows_trans.
Qed.

(** ** The invariant *)

Record ingress_ok (limit : string -> string -> option Z) (w : Ingress) : Prop := {
  io_shares : ports_share (in_manager w);
  io_slots : forall id p, hs_store (mg_http (in_manager w)) !! id = Some p ->
    slots_ok (hp_balancer p, slots_of id w) /\ under_limit (limit (hp_service_name p)) (hp_balancer p, slots_of id w);
  io_unused : forall id, hs_store (mg_http (in_manager w)) !! id = None -> slots_of id w = []
}.

Lemma new_balancer_slots limit : slots_ok (default_inner, []) /\ under_limit limit (default_inner, []).
Proof. split; [intros id; simpl; by rewrite lookup_empty|]. by intros id max _ Hm. Qed.

Lemma ingress_grows limit w m open :
  ingress_ok limit w -> ports_share m -> grows (mg_http (in_manager w)) (mg_http m) ->
  ingress_ok limit {| in_manager := m; in_open := open; in_slots := in_slots w |}.
Proof.
  intros [_ Hslots Hunused] Hm Hg. split; cbn [in_manager]; [done| |].
  - intros id p Hp. apply (gr_new _ _ Hg) in Hp as [Hp|[Hnone [name ->]]]; [by apply Hslots|].
    change (slots_of id _) with (slots_of id w). rewrite (Hunused _ Hnone). apply new_balancer_slots.
  - intros id Hnone. apply Hunused. destruct (hs_store (mg_http (in_manager w)) !! id) eqn:Hs; [|done].
    by rewrite (gr_keeps _ _ Hg _ _ Hs) in Hnone.
Qed.

Lemma istep_ok limit w w' : ingress_ok limit w -> istep limit w w' -> ingress_ok limit w'.
Proof.
  intros Hw Hstep. pose proof Hw as [[Hp Hs Hk] Hslots Hunused].
  destruct Hstep as [start s w Hplain|key h w Hh|service w got|id p inner slots w Hid Hst Hb|open id rest w Hopen].
  - destruct (manage_pass_shares start s (in_manager w) (io_shares _ _ Hw) Hplain). by apply ingress_grows.
  - apply ingress_grows; [done|by split|by apply grows_refl].
  - pose proof (proxy_get_grows service _ Hp) as Hg. apply ingress_grows; [done| |done].
    split; cbn [mg_http mg_proxies with_http]; [apply Hg| |done]. intros key h Hh. by apply proxy_get_keeps, (Hs key).
  - pose proof (Hslots _ _ Hst) as [H1 H2]. destruct (bstep_ok _ _ _ H1 H2 Hb) as [H1' H2'].
    assert (Hof : forall i, slots_of i {| in_manager := with_http (set_balancer id inner (mg_http (in_manager w))) (in_manager w);
        in_open := in_open w; in_slots := <[id := slots]> (in_slots w) |} = if decide (i = id) then slots else slots_of i w).
    { intros i. unfold slots_of. cbn [in_slots]. case_decide; [subst i; by rewrite lookup_insert_eq|by rewrite lookup_insert_ne]. }
    split; cbn [in_manager with_http mg_http].
    + split; cbn [mg_http mg_proxies with_http]; [by apply set_balancer_ok|exact Hs|exact Hk].
    + intros i q. rewrite Hof. cbn [hs_store set_balancer]. case_decide as Hi.
      * subst i. rewrite lookup_alter_eq, Hst. by intros [= <-].
      * rewrite lookup_alter_ne by done. apply Hslots.
    + intros i. rewrite Hof. cbn [hs_store set_balancer]. case_decide as Hi.
      * subst i. by rewrite lookup_alter_eq, Hst.
      * rewrite lookup_alter_ne by done. apply Hunused.
  - apply ingress_grows; [done|by split|by apply grows_refl].
Qed.

Lemma new_ingress_ok limit : ingress_ok limit new_ingress.
Proof.
  split; cbn [in_manager new_ingress].
  - split; cbn [mg_http mg_proxies new_manager]; [apply no_proxies_ok| |exact new_manager_keyed]; intros key h Hh; by rewrite lookup_empty in Hh.
  - intros id p Hp. cbn in Hp. by rewrite lookup_empty in Hp.
  - done.
Qed.

(** ** Property *)

(** C4: One proxy per service, whichever way a request enters. While services with
    slash-free names come and go, ports are started, stopped and moved, and requests
    enter by port and by [httpListen] and pick, give back and report nodes in any
    interleaving: a request that [httpListen] resolves to a service with a running
    port is handled as one on that port, with the same answer and the same effect; and
    the slots of a node counted by the service's balancer are those held by all of
    them together, never more than the service's [maxConnections] there. *)
Theorem one_proxy_per_service limit w (Hsteps : steps (istep limit) new_ingress w) :
  let r := mg_http (in_manager w) in
  (forall key h env now s uri_host req, mg_proxies (in_manager w) !! key = Some h ->
     Listener.dispatch (rq_method req) uri_host (rq_headers req) s = Handle (ph_service_name h) ->
     listener_request env now s uri_host req r = port_request env now s req h r)
  /\ (forall name id, hs_map r !! name = Some id ->
        exists p, hs_store r !! id = Some p /\ hp_service_name p = name
        /\ forall node, default 0%Z (active (hp_balancer p) !! node) = Balancer.held node (slots_of id w)
          /\ forall max, limit name node = Some max -> (0 <= max)%Z -> (Balancer.held node (slots_of id w) <= max)%Z).
Proof.
  assert (Hw : ingress_ok limit w).
  { eapply (steps_invariant (istep limit) (ingress_ok limit)); [apply istep_ok|apply new_ingress_ok|exact Hsteps]. }
  destruct Hw as [[[Hn _] Hs _] Hslots _]. cbv zeta. split.
  - intros key h env now s uri_host req Hh Hd. unfold listener_request, port_request. rewrite Hd.
    unfold proxy_get. by rewrite (Hs _ _ Hh).
  - intros name id Hid. destruct (Hn _ _ Hid) as (p & Hp & Hname). exists p. split; [done|]. split; [done|].
    destruct (Hslots _ _ Hp) as [H1 H2]. intros node. split; [by apply (slots_ok_default node (hp_balancer p, slots_of id w))|].
    subst name. exact (H2 node).
Qed.
End requests.

(** ** Witness *)

Module Examples.

#[local] Existing Instance Headers.Examples.list_headers.

Definition no_limit (service node : string) : option Z := None.
Definition state : SharedState := Proxy.Examples.state.
Definition backends : list Backend := service_backends "api" state.

(** The port of [api] is started, a connection comes by it and a request by
    [httpListen], and one of them picks node [a]. *)
Definition m : Manager := manage_pass Subscribe.Examples.start state new_manager.
Definition w1 : Ingress := {| in_manager := m; in_open := []; in_slots := ∅ |}.
Definition port : ProxyHandle :=
  {| ph_service_name := "api"; ph_requested_port := None; ph_task := 1; ph_http := 0 |}.
Definition w2 : Ingress := {| in_manager := m; in_open := [0]; in_slots := ∅ |}.
Definition got : nat * HttpProxies := proxy_get "api" (mg_http m).
Definition w3 : Ingress := {| in_manager := with_http got.2 m; in_open := got.1 :: [0]; in_slots := ∅ |}.
Definition picked : Inner := (pick backends [] 0 default_inner).2.
Definition w4 : Ingress :=
  {| in_manager := with_http (set_balancer 0 picked (mg_http (in_manager w3))) (in_manager w3);
     in_open := in_open w3; in_slots := <[0 := ["a"]]> (in_slots w3) |}.

Lemma reached : steps (istep no_limit) new_ingress w4.
Proof.
  apply (steps_step _ _ w3); [apply (steps_step _ _ w2); [apply (steps_step _ _ w1); [apply (steps_step _ _ new_ingress);
    [apply steps_refl|]|]|]|].
  - apply (IPass _ Subscribe.Examples.start state new_ingress). vm_compute. repeat constructor; set_solver.
  - apply (IPort _ "web/api" port w1). vm_compute. reflexivity.
  - apply (IListener _ "api" w2).
  - apply (IBalancer _ 0 (new_proxy "api") picked ["a"] w3); [vm_compute; left|vm_compute; reflexivity|].
    apply (BPick _ default_inner [] backends [] 0 0 "a"); [|vm_compute; reflexivity|vm_compute; reflexivity].
    vm_compute. repeat constructor.
Qed.

Lemma share_witness :
  in_open w4 = [0; 0] /\ exists p, hs_store (mg_http (in_manager w4)) !! 0 = Some p
  /\ default 0%Z (active (hp_balancer p) !! "a") = 1%Z.
Proof.
  split; [vm_compute; reflexivity|].
  destruct (one_proxy_per_service no_limit w4 reached) as [_ Hslots].
  destruct (Hslots "api" 0) as (p & Hp & _ & Hact); [vm_compute; reflexivity|].
  exists p. split; [exact Hp|]. destruct (Hact "a") as [Ha _]. rewrite Ha. vm_compute. reflexivity.
Defined.

(** A service that is removed and comes back gets a new proxy, with an idle balancer:
    requests that entered before keep the old one, and their slots no longer count
    against the limits. *)
Definition removed : SharedState := set_dynamic_config {| dc_version := 9; dc_service_groups := []; dc_routes := [] |} state.

Example readded_service_starts_over :
  let m' := manage_pass Subscribe.Examples.start state (manage_pass Subscribe.Examples.start removed (in_manager w4)) in
  hs_map (mg_http (in_manager w4)) !! "api" = Some 0 /\ hs_map (mg_http m') !! "api" = Some 1
  /\ hs_store (mg_http m') !! 1 = Some (new_proxy "api")
  /\ (hp_balancer <$> hs_store (mg_http m') !! 0) = Some picked.
Proof. vm_compute. split_and!; reflexivity. Qed.

End Examples.
