(* ===== verification/Serving.v ===== *)
(** * Serving connections until the drain ([run_listener] in [src/src/node/mod.rs],
    [run_proxy], [run_http_listener], [HttpProxy::serve_connection] and [serve_http1]
    under [src/src/subscribe], [dispatch_connection] in [src/src/gossip/mod.rs],
    [handle_mux_session] in [src/src/mux.rs], [graceful_drain] in [src/src/main.rs])

    Which tasks of a daemon hold an in-flight guard, and for how long. The tasks and
    the drain interleave freely; the count, its wake-ups and the wait are those of
    Waiting. A [select!] whose branches are both ready takes either. hyper's HTTP/1
    connection is the interface [Http1]. *)

From S2P Require Import Prelude NetAddr Dynamic Config State Messages Gossip Waiting.

(** ** One HTTP/1 connection *)

(** [h1_polls c r] says that polling [c] may come to [r]: [None] when the connection is
    over. After [graceful_shutdown] a connection starts no request, and is over once it
    is not in one. *)
Class Http1 := {
  h1 : Type;
  h1_new : h1;
  h1_busy : h1 -> bool;
  h1_closing : h1 -> bool;
  h1_polls : h1 -> option h1 -> Prop;
  graceful_shutdown : h1 -> h1;
  h1_new_idle : h1_busy h1_new = false /\ h1_closing h1_new = false;
  h1_graceful : forall c, h1_closing (graceful_shutdown c) = true /\ h1_busy (graceful_shutdown c) = h1_busy c;
  h1_keeps : forall c c', h1_polls c (Some c') -> h1_closing c' = h1_closing c;
  h1_drains : forall c c', h1_closing c = true -> h1_polls c (Some c') -> h1_busy c = true /\ h1_busy c' = true
}.

Section serving.
Context `{Http1} `{Notify}.

(** The connection, and whether [serve_http1] has seen the shutdown. *)
Record HttpTask := { ht_conn : h1; ht_noticed : bool }.

Definition new_http_task : HttpTask := {| ht_conn := h1_new; ht_noticed := false |}.

(** One poll of [serve_http1]: [poll] is what polling the connection comes to, and
    [token_first] whether the [select!] looks at the shutdown before the connection. *)
Definition serve_http1 (shutdown token_first : bool) (poll : h1 -> option h1) (t : HttpTask) : option HttpTask :=
  if ht_noticed t then c ← poll (ht_conn t); Some {| ht_conn := c; ht_noticed := true |}
  else
    c ← (if shutdown && token_first then Some (ht_conn t) else poll (ht_conn t));
    if shutdown then c ← poll (graceful_shutdown c); Some {| ht_conn := c; ht_noticed := true |}
    else Some {| ht_conn := c; ht_noticed := false |}.

(** What the tasks of a daemon are doing. *)
Inductive Job :=
| Receiving  (** an accepted peer: the handshake, and the wait for its first message *)
| Session    (** a mux session, between its streams *)
| Working    (** a TCP client, a message, a stream of a session, a reverse tunnel or an upgraded stream *)
| Http (t : HttpTask).

Definition guarded (j : Job) : bool := match j with Receiving | Session => false | Working | Http _ => true end.

(** What a listener does with a connection it accepts: [run_listener], the TCP service
    ports, and the HTTP ones with [httpListen]. *)
Inductive Listener := Peers | TcpPort | HttpPort.

Definition accepted (l : Listener) : Job :=
  match l with Peers => Receiving | TcpPort => Working | HttpPort => Http new_http_task end.

(** [dispatch_connection]: what a connection becomes with its first message. *)
Definition received (first : option (result Message string)) : option Job :=
  (fun h : Handler * bool => if h.2 then Working else Session) <$> dispatch_connection first.

Record Serving := {
  sv_shutdown : bool;
  sv_listeners : gmap nat Listener;
  sv_jobs : gmap nat Job;
  sv_drain : Drain
}.

Definition start_serving (listeners : gmap nat Listener) : Serving :=
  {| sv_shutdown := false; sv_listeners := listeners; sv_jobs := ∅; sv_drain := new_drain |}.

Definition set_drain (d : Drain) (w : Serving) : Serving :=
  {| sv_shutdown := sv_shutdown w; sv_listeners := sv_listeners w; sv_jobs := sv_jobs w; sv_drain := d |}.
Definition set_jobs (jobs : gmap nat Job) (w : Serving) : Serving :=
  {| sv_shutdown := sv_shutdown w; sv_listeners := sv_listeners w; sv_jobs := jobs; sv_drain := sv_drain w |}.

(** A task is spawned, with its guard if it has one. *)
Definition spawn (i : nat) (j : Job) (w : Serving) : option Serving :=
  match sv_jobs w !! i with
  | Some _ => None
  | None =>
      d ← (if guarded j then drain_act DTrack (sv_drain w) else Some (sv_drain w));
      Some (set_drain d (set_jobs (<[i := j]> (sv_jobs w)) w))
  end.

(** A task ends, and drops its guard if it has one. *)
Definition finish (i : nat) (w : Serving) : option Serving :=
  j ← sv_jobs w !! i;
  d ← (if guarded j then drain_act DDrop (sv_drain w) else Some (sv_drain w));
  Some (set_drain d (set_jobs (delete i (sv_jobs w)) w)).

Inductive SAct :=
| SShutdown
| SAccept (l i : nat)
| SStopListening (l : nat)
| SAcceptFails (l : nat)
| SReceive (i : nat) (first : option (result Message string))
| SStream (session i : nat)
| SReverse (i : nat)
| SUpgrade (conn i : nat)
| SPoll (i : nat) (token_first : bool) (poll : h1 -> option h1)
| SEnd (i : nat)
| SDrain (a : DrainAct).

(** The drain's call runs after the shutdown is signalled; a dropped guard's wake-up
    comes at any time. *)
Definition drain_turn (shutdown : bool) (a : DrainAct) : bool :=
  match a with DTrack | DDrop => false | DNotify => true | DRegister | DLook | DWake | DTimeout => shutdown end.

Definition sact (a : SAct) (w : Serving) : option Serving :=
  match a with
  | SShutdown => Some {| sv_shutdown := true; sv_listeners := sv_listeners w; sv_jobs := sv_jobs w; sv_drain := sv_drain w |}
  | SAccept l i => kind ← sv_listeners w !! l; spawn i (accepted kind) w
  | SStopListening l =>
      if sv_shutdown w
      then Some {| sv_shutdown := true; sv_listeners := delete l (sv_listeners w); sv_jobs := sv_jobs w; sv_drain := sv_drain w |}
      else None
  | SAcceptFails l =>
      Some {| sv_shutdown := sv_shutdown w; sv_listeners := delete l (sv_listeners w); sv_jobs := sv_jobs w; sv_drain := sv_drain w |}
  | SReceive i first =>
      match sv_jobs w !! i, first with
      | Some Receiving, None => if sv_shutdown w then finish i w else None
      | Some Receiving, Some _ =>
          match received first with
          | Some j => w ← finish i w; spawn i j w
          | None => finish i w
          end
      | _, _ => None
      end
  | SStream session i => match sv_jobs w !! session with Some Session => spawn i Working w | _ => None end
  | SReverse i => spawn i Working w
  | SUpgrade conn i =>
      match sv_jobs w !! conn with
      | Some (Http t) => if h1_busy (ht_conn t) then spawn i Working w else None
      | _ => None
      end
  | SPoll i token_first poll =>
      match sv_jobs w !! i with
      | Some (Http t) =>
          match serve_http1 (sv_shutdown w) token_first poll t with
          | Some t => Some (set_jobs (<[i := Http t]> (sv_jobs w)) w)
          | None => finish i w
          end
      | _ => None
      end
  | SEnd i => match sv_jobs w !! i with Some Working | Some Session => finish i w | _ => None end
  | SDrain a =>
      if drain_turn (sv_shutdown w) a then d ← drain_act a (sv_drain w); Some (set_drain d w) else None
  end.

(** A poll comes to what hyper may do. *)
Definition possible (a : SAct) : Prop :=
  match a with SPoll _ _ poll => forall c, h1_polls c (poll c) | _ => True end.

Definition sstep (w w' : Serving) : Prop := exists a, possible a /\ sact a w = Some w'.

(** ** Lemmas *)

Lemma dstep_one a d d' : drain_act a d = Some d' -> steps dstep d d'.
Proof. intros Ha. eapply steps_step; [apply steps_refl|by exists a]. Qed.

Lemma track_guards d d' : drain_act DTrack d = Some d' -> dr_guards d' = S (dr_guards d) /\ dr_phase d' = dr_phase d.
Proof. cbn [drain_act]. destruct (_ <? _)%Z; [|done]. intros [= <-]. by split. Qed.

Lemma drop_guards d d' : drain_act DDrop d = Some d' -> S (dr_guards d') = dr_guards d /\ dr_phase d' = dr_phase d.
Proof.
  simpl. destruct (dr_guards d) eqn:Hg; [done|]. intros [= <-]. unfold drop_count. destruct (drop_guard _).
  simpl. by rewrite Hg.
Qed.

(** The drain's own turn leaves the guards alone. *)
Lemma turn_guards shutdown a d d' : drain_turn shutdown a = true -> drain_act a d = Some d' -> dr_guards d' = dr_guards d.
Proof. destruct a; simpl; intros Ht Ha; repeat case_match; try done; by injection Ha as <-. Qed.

(** The tasks and the drain agree on the guards, and a connection told of the shutdown
    is closing. *)
Record serving_ok (w : Serving) : Prop := {
  so_drain : drain_ok (sv_drain w);
  so_guards : dr_guards (sv_drain w) = cnt guarded (sv_jobs w);
  so_closing : forall i t, sv_jobs w !! i = Some (Http t) -> ht_noticed t = true -> h1_closing (ht_conn t) = true
}.

Lemma spawn_ok i j w w' : serving_ok w -> (forall t, j = Http t -> ht_noticed t = false) -> spawn i j w = Some w' ->
  serving_ok w' /\ dr_phase (sv_drain w') = dr_phase (sv_drain w).
Proof.
  intros [Hd Hg Hc] Hj. unfold spawn. destruct (sv_jobs w !! i) eqn:Hi; [done|]. intros Hs.
  assert (Hdr : exists d, (if guarded j then drain_act DTrack (sv_drain w) else Some (sv_drain w)) = Some d
    /\ w' = set_drain d (set_jobs (<[i := j]> (sv_jobs w)) w)).
  { destruct (if guarded j then _ else _) as [d|]; [|done]. injection Hs as <-. by exists d. }
  destruct Hdr as (d & Hdr & ->). clear Hs.
  assert (Hclose : forall k t, <[i := j]> (sv_jobs w) !! k = Some (Http t) -> ht_noticed t = true -> h1_closing (ht_conn t) = true).
  { intros k t [[<- ->]|[_ Hk]]%lookup_insert_Some Hn; [by rewrite (Hj t) in Hn|by eapply Hc]. }
  destruct (guarded j) eqn:Hgj.
  - destruct (track_guards _ _ Hdr) as [Hg' Hp]. split; [split; simpl|done]; [by eapply dstep_ok; [|exists DTrack]| |done].
    rewrite cnt_insert_new, Hgj by done. lia.
  - injection Hdr as <-. split; [split; simpl|done]; [done| |done]. rewrite cnt_insert_new, Hgj by done. done.
Qed.

Lemma finish_ok i w w' : serving_ok w -> finish i w = Some w' ->
  serving_ok w' /\ dr_phase (sv_drain w') = dr_phase (sv_drain w).
Proof.
  intros [Hd Hg Hc]. unfold finish. destruct (sv_jobs w !! i) as [j|] eqn:Hi; [cbn [mbind option_bind]|done].
  pose proof (cnt_delete guarded _ _ _ Hi) as Hcnt.
  assert (Hclose : forall k t, delete i (sv_jobs w) !! k = Some (Http t) -> ht_noticed t = true -> h1_closing (ht_conn t) = true).
  { intros k t [_ Hk]%lookup_delete_Some Hn. by eapply Hc. }
  destruct (guarded j) eqn:Hgj.
  - destruct (drain_act DDrop (sv_drain w)) as [d|] eqn:Hdr; [simpl|done]. intros [= <-].
    destruct (drop_guards _ _ Hdr) as [Hg' Hp]. split; [split; simpl|done]; [by eapply dstep_ok; [|exists DDrop]|lia|done].
  - simpl. intros [= <-]. split; [split; simpl|done]; [done|lia|done].
Qed.

(** ** What a poll of [serve_http1] leaves *)

Lemma serve_http1_closing shutdown token_first poll t t' :
  (forall c, h1_polls c (poll c)) -> (ht_noticed t = true -> h1_closing (ht_conn t) = true) ->
  serve_http1 shutdown token_first poll t = Some t' ->
  (ht_noticed t' = true -> h1_closing (ht_conn t') = true)
  /\ (ht_noticed t = true -> h1_busy (ht_conn t) = true)
  /\ (shutdown = true \/ ht_noticed t = true -> ht_noticed t' = true /\ h1_busy (ht_conn t') = true).
Proof.
  intros Hpoll Hc. unfold serve_http1. destruct (ht_noticed t) eqn:Hn.
  { destruct (poll (ht_conn t)) as [c|] eqn:Hp; [|done]. simpl. intros [= <-]. simpl.
    pose proof (Hpoll (ht_conn t)) as Hr. rewrite Hp in Hr. destruct (h1_drains _ _ (Hc eq_refl) Hr).
    split; [|done]. intros _. by rewrite (h1_keeps _ _ Hr), Hc. }
  destruct (if shutdown && token_first then _ else _) as [c|]; [simpl|done].
  destruct shutdown; [|by intros [= <-]; split_and!; [done|done|intros []]].
  destruct (h1_graceful c) as [Hcl _]. destruct (poll (graceful_shutdown c)) as [c'|] eqn:Hp; [|done]. simpl. intros [= <-]. simpl.
  pose proof (Hpoll (graceful_shutdown c)) as Hr. rewrite Hp in Hr. destruct (h1_drains _ _ Hcl Hr) as [_ Hb].
  split; [|done]. intros _. by rewrite (h1_keeps _ _ Hr).
Qed.

Lemma sact_ok a w w' : possible a -> serving_ok w -> sact a w = Some w' ->
  serving_ok w' /\ ((forall b, a <> SDrain b) -> dr_phase (sv_drain w') = dr_phase (sv_drain w)).
Proof.
  intros Hpos Hw Ha. pose proof Hw as [Hd Hg Hc]. destruct a as [|l i|l|l|i first|session i|i|conn i|i tf poll|i|a]; cbn [sact mbind option_bind] in Ha.
  - injection Ha as <-. by split; [split|].
  - destruct (sv_listeners w !! l) as [kind|]; [simpl in Ha|done]. destruct (spawn_ok i (accepted kind) w w') as [? ?]; [done| |done|by split].
    by destruct kind; intros t [= <-].
  - case_match; [|done]. injection Ha as <-. by split; [split|].
  - injection Ha as <-. by split; [split|].
  - destruct (sv_jobs w !! i) as [[]|]; try done. destruct first as [first|].
    + destruct (received (Some first)) as [j|] eqn:Hr.
      * destruct (finish i w) as [w1|] eqn:Hf; [simpl in Ha|done]. destruct (finish_ok _ _ _ Hw Hf) as [Hw1 Hp1].
        destruct (spawn_ok i j w1 w') as [Hw' Hp']; [done| |done|split; [done|by rewrite Hp']].
        intros t ->. unfold received in Hr. destruct (dispatch_connection (Some first)) as [[h []]|]; done.
      * destruct (finish_ok _ _ _ Hw Ha); by split.
    + case_match; [|done]. destruct (finish_ok _ _ _ Hw Ha); by split.
  - destruct (sv_jobs w !! session) as [[]|]; try done. destruct (spawn_ok _ Working _ _ Hw ltac:(done) Ha); by split.
  - destruct (spawn_ok _ Working _ _ Hw ltac:(done) Ha); by split.
  - destruct (sv_jobs w !! conn) as [[| | |t]|]; try done. case_match; [|done].
    destruct (spawn_ok _ Working _ _ Hw ltac:(done) Ha); by split.
  - destruct (sv_jobs w !! i) as [[| | |t]|] eqn:Hi; try done.
    destruct (serve_http1 _ _ _ _) as [t'|] eqn:Hs; [|destruct (finish_ok _ _ _ Hw Ha); by split].
    injection Ha as <-. split; [|done].
    destruct (serve_http1_closing _ _ _ _ _ Hpos (Hc i t Hi) Hs) as [Hc' _]. split; simpl; [done| |].
    + pose proof (cnt_insert guarded (sv_jobs w) i (Http t') (Http t) Hi) as Hcnt. simpl in Hcnt. lia.
    + intros k u [[<- [= <-]]|[_ Hk]]%lookup_insert_Some; [done|by apply (Hc k)].
  - destruct (sv_jobs w !! i) as [[]|]; try done; destruct (finish_ok _ _ _ Hw Ha); by split.
  - destruct (drain_turn _ a) eqn:Ht; [|done]. destruct (drain_act a (sv_drain w)) as [d|] eqn:Hda; [simpl in Ha|done].
    injection Ha as <-. split; [|by intros Hno; destruct (Hno a)].
    split; simpl; [by eapply dstep_ok; [|exists a]| |done]. by rewrite (turn_guards _ _ _ _ Ht Hda).
Qed.

Lemma start_serving_ok listeners : serving_ok (start_serving listeners).
Proof.
  split; simpl; [apply new_drain_ok|unfold cnt; by rewrite map_filter_empty, map_size_empty|].
  intros i t Hi. by rewrite lookup_empty in Hi.
Qed.

Lemma serving_reachable listeners w : steps sstep (start_serving listeners) w -> serving_ok w.
Proof.
  intros Hs. eapply (steps_invariant sstep serving_ok); [|apply start_serving_ok|exact Hs].
  intros w1 w2 Hw (a & Hp & Ha). by eapply sact_ok.
Qed.

(** The drain reports true only at a look that reads a count of zero. *)
Lemma drained_by w w' : serving_ok w -> sstep w w' ->
  dr_phase (sv_drain w) <> DDone true -> dr_phase (sv_drain w') = DDone true ->
  sv_shutdown w = true /\ dr_guards (sv_drain w) = 0.
Proof.
  intros Hw (a & Hpos & Ha) Hno Hyes.
  destruct a as [|l i|l|l|i first|session i|i|conn i|i tf poll|i|a];
    try (destruct (sact_ok _ _ _ Hpos Hw Ha) as [_ Hp]; rewrite Hp in Hyes by done; done).
  cbn [sact] in Ha. destruct (drain_turn (sv_shutdown w) a) eqn:Ht; [|done].
  destruct (drain_act a (sv_drain w)) as [d|] eqn:Hda; [cbn in Ha|done]. injection Ha as <-. cbn [sv_drain set_drain] in Hyes.
  pose proof (so_drain _ Hw) as Hd. destruct (do_count _ Hd) as [Hc _]. destruct (sv_drain w) as [count n guards dropping phase].
  simpl in *. destruct a, phase; simpl in *; try done; repeat case_match; simplify_eq/=; try done. split; [done|lia].
Qed.

(** ** Property *)

(** C7: Stopping cuts nothing it counts. Whatever is accepted, received, requested and
    finished, in any order, before and after the shutdown: the drain reports that
    all connections are drained only once the shutdown was signalled and at a moment
    when no TCP client, message, stream, request nor upgraded stream is being served,
    only peers that have not sent a message and mux sessions between streams; when
    that is so, nothing more is needed for it to report so; and an HTTP connection
    that is polled after the shutdown goes on only with a request it is in, and once
    it saw the shutdown only with the one it was in. *)
Theorem drain_cuts_nothing listeners w (Hreach : steps sstep (start_serving listeners) w) :
  (forall w', sstep w w' -> dr_phase (sv_drain w) <> DDone true -> dr_phase (sv_drain w') = DDone true ->
     sv_shutdown w = true /\ forall i j, sv_jobs w !! i = Some j -> j = Receiving \/ j = Session)
  /\ ((forall i j, sv_jobs w !! i = Some j -> guarded j = false) -> dr_dropping (sv_drain w) = 0 ->
        dr_phase (sv_drain w) <> DDone false -> dr_phase (drain_runs 3 (sv_drain w)) = DDone true)
  /\ (forall i t token_first poll t', sv_shutdown w = true -> sv_jobs w !! i = Some (Http t) ->
        (forall c, h1_polls c (poll c)) -> serve_http1 true token_first poll t = Some t' ->
        ht_noticed t' = true /\ h1_busy (ht_conn t') = true /\ (ht_noticed t = true -> h1_busy (ht_conn t) = true)).
Proof.
  pose proof (serving_reachable listeners w Hreach) as Hw. pose proof Hw as [Hd Hg Hc]. split; [|split].
  - intros w' Hstep Hno Hyes. destruct (drained_by _ _ Hw Hstep Hno Hyes) as [Hsh Hz]. split; [done|].
    intros i j Hi. rewrite Hg, (cnt_delete _ _ _ _ Hi) in Hz. destruct j; simpl in Hz; auto; lia.
  - intros Hnone Hdrop Hto. apply drain_ends; [done| |done|done]. rewrite Hg.
    destruct (decide (0 < cnt guarded (sv_jobs w))) as [Hp|]; [|lia].
    apply cnt_pos in Hp as (i & j & Hi & Hj). by rewrite (Hnone i j Hi) in Hj.
  - intros i t tf poll t' Hsh Hi Hpoll Hs.
    destruct (serve_http1_closing _ _ _ _ _ Hpoll (Hc i t Hi) Hs) as (_ & Hbusy & Hafter). destruct Hafter; auto.
Qed.
End serving.

(** ** Witness *)

Module Examples.

#[local] Existing Instance Waiting.Examples.tokio_notify.

(** A connection that is in a request or not, and closing or not. *)
#[local] Program Instance keep_alive : Http1 := {|
  h1 := bool * bool;
  h1_new := (false, false);
  h1_busy := fst;
  h1_closing := snd;
  h1_polls c r := match r with
                  | Some c' => c'.2 = c.2 /\ (c.2 = true -> c.1 = true /\ c'.1 = true)
                  | None => True
                  end;
  graceful_shutdown c := (c.1, true)
|}.
Next Obligation. done. Qed.
Next Obligation. done. Qed.
Next Obligation. by intros c c' []. Qed.
Next Obligation. intros c c' Hc [_ Hd]. auto. Qed.

(** hyper reads a request; the request goes on, and a closing connection with none ends;
    the request is answered. *)
Definition begins (c : bool * bool) : option (bool * bool) := if c.2 then (if c.1 then Some c else None) else Some (true, false).
Definition answered (c : bool * bool) : option (bool * bool) := if c.2 then None else Some (false, false).

Definition run_sacts (acts : list SAct) (w : Serving) : option Serving :=
  foldl (fun (o : option Serving) a => w ← o; sact a w) (Some w) acts.

Lemma run_sacts_steps acts w w' : Forall possible acts -> run_sacts acts w = Some w' -> steps sstep w w'.
Proof.
  unfold run_sacts. revert w. induction acts as [|a acts IH]; simpl; intros w Hp Hw; [injection Hw as <-; apply steps_refl|].
  apply Forall_cons in Hp as [Ha Hp]. destruct (sact a w) as [w1|] eqn:Hs.
  - eapply steps_trans; [|by apply IH]. eapply steps_step; [apply steps_refl|by exists a].
  - exfalso. clear -Hw. induction acts as [|b acts IH]; simpl in Hw; [done|auto].
Qed.

Lemma begins_possible c : h1_polls c (begins c).
Proof. destruct c as [[] []]; vm_compute; auto. Qed.
Lemma answered_possible c : h1_polls c (answered c).
Proof. destruct c as [[] []]; vm_compute; auto. Qed.

Definition listening : gmap nat Listener := {[0 := HttpPort; 1 := TcpPort]}.
Definition start : Serving := start_serving listening.

(** A request is in progress when the shutdown is signalled; the drain waits for it. *)
Definition until_asleep : list SAct :=
  [SAccept 0 10; SPoll 10 false begins; SShutdown; SPoll 10 true begins; SDrain DRegister; SDrain DLook].
Definition waiting : Serving := default start (run_sacts until_asleep start).

(** It is answered, its connection ends, and the drain is woken. *)
Definition until_drained : list SAct :=
  until_asleep ++ [SPoll 10 false answered; SDrain DNotify; SDrain DWake; SDrain DRegister].
Definition woken : Serving := default start (run_sacts until_drained start).
Definition drained : Serving := default start (sact (SDrain DLook) woken).

Lemma cuts_witness :
  dr_phase (sv_drain waiting) = DAsleep
  /\ dr_phase (sv_drain drained) = DDone true
  /\ sv_shutdown woken = true /\ forall i j, sv_jobs woken !! i = Some j -> j = Receiving \/ j = Session.
Proof.
  split; [vm_compute; reflexivity|]. split; [vm_compute; reflexivity|].
  destruct (drain_cuts_nothing listening woken) as [Hdone _].
  - apply (run_sacts_steps until_drained); [|vm_compute; reflexivity].
    unfold until_drained, until_asleep. cbn [app].
    repeat (apply Forall_cons; split; [first [exact I|exact begins_possible|exact answered_possible]|]). apply Forall_nil, I.
  - apply (Hdone drained); [exists (SDrain DLook); split; [exact I|vm_compute; reflexivity]|vm_compute; discriminate|vm_compute; reflexivity].
Defined.

(** The drain does not wait for the listeners: one whose [select!] finds a connection
    ready beside the shutdown may accept it after the drain read zero, and the daemon
    exits with that client being served. *)
Example accepted_after_drained :
  dr_phase (sv_drain drained) = DDone true
  /\ exists w, sact (SAccept 1 11) drained = Some w /\ sv_jobs w !! 11 = Some Working
     /\ dr_phase (sv_drain w) = DDone true.
Proof.
  split; [vm_compute; reflexivity|]. destruct (sact (SAccept 1 11) drained) as [w|] eqn:Hw; [|vm_compute in Hw; discriminate].
  exists w. split; [done|]. vm_compute in Hw. injection Hw as <-. split; vm_compute; reflexivity.
Qed.

End Examples.
