(* ===== verification/Path.v ===== *)
(** * From a subscriber to the service ([src/src/subscribe/http.rs], [TunnelConnector];
    [src/src/mux.rs], opening and serving sessions; the handshake of Proxy and Tunnel
    put together)

    What one end writes is what the other reads: the subscriber that asks for a tunnel,
    possibly a relay, and the node that answers. *)

From S2P Require Import Prelude NetAddr Dynamic Config State Balancer Messages Gossip Tunnel Mux Proxy Headers Trace.

#[local] Open Scope stouter_scope.

(** ** Sessions *)

(** [MuxHandle::open_stream]: what the driver answers. A driver that is gone, before the
    request reaches it or after, is a closed session. *)
Definition handle_open_stream {Stream} (sent : bool) (answer : option (option Stream)) : option Stream :=
  if sent then default None answer else None.

(** [establish_mux_session]; [tx] is the new handle. *)
Definition establish_mux_session (connect : string -> result conn string) (tls : conn -> result conn string)
    (send : conn -> Message -> bool) (addr : string) (tx : nat) : result nat string :=
  let? tcp := map_err (fun _ => "mux connect to " +:+ addr) (connect addr) in
  let? stream := map_err (fun _ => "mux TLS connect") (tls tcp) in
  if send stream MuxTunnel then Ok tx else Err "send MuxTunnel".

(** [handle_mux_session]: each stream, by its first message, is a tunnel in a task of
    its own, until the session ends or fails. *)
Fixpoint handle_mux_session (env : TunnelEnv) (inbound : list (option (result (result Message string) string)))
    (s : SharedState) : list (string * TunnelEnd * StreamPool conn) :=
  match inbound with
  | Some (Ok first) :: inbound => handle_mux_stream env first s :: handle_mux_session env inbound s
  | Some (Err _) :: _ | None :: _ | [] => []
  end.

(** ** The HTTP client's connector *)

Definition connector_call (env : EstablishEnv) (service_name : string) (s : SharedState) (uri : Uri) (p : Pools)
    : result (Method * Tunnel) string * Pools :=
  match node_id_from_uri uri with
  | None => (Err "invalid upstream node address", p)
  | Some node =>
      match st_known_nodes s !! node with
      | None => (Err ("unknown node " +:+ node), p)
      | Some n => establish_tunnel env n service_name p
      end
  end.

Section path.
Context `{MapIter}.

(** A candidate is a known node that the configuration has an instance for: the last
    entry of that identity. *)
Lemma backend_instance name s b :
  index_ok s -> kn_wf (st_known_nodes s) -> b ∈ service_backends name s ->
  st_known_nodes s !! b_id b = Some (b_node b)
  /\ exists svc, find_first (fun x => bool_decide (svc_instance x = (b_id b, name))) (reverse (all_services (st_dynamic_config s)))
       = Some svc
     /\ svc ∈ all_services (st_dynamic_config s) /\ svc_instance svc = (b_id b, name).
Proof.
  intros [Hindex _] Hwf (node & svc & n & Hi & Hk & ->)%elem_of_service_backends.
  assert (Hid : b_id (backend_for svc n) = node) by apply (Hwf _ _ Hk). rewrite Hid. split; [done|].
  rewrite Hindex in Hi. rewrite (proj1 (indexes_spec _)) in Hi. exists svc. split; [done|].
  apply find_first_elem_of in Hi as [Hin He]. split; [by apply elem_of_reverse|]. by apply bool_decide_eq_true in He.
Qed.

(** The upstream connection of a request goes to the node the balancer chose. *)
Lemma connector_dials_backend `{UriHostLaw} env name s b rest uri p :
  index_ok s -> kn_wf (st_known_nodes s) -> b ∈ service_backends name s ->
  utf8_ok (bytes_of (b_id b)) = true -> node_uri (b_id b) (String "/" rest) = Some uri ->
  connector_call env name s uri p = establish_tunnel env (b_node b) name p.
Proof.
  intros Hindex Hwf Hb Hutf Huri. destruct (backend_instance name s b Hindex Hwf Hb) as [Hk _].
  unfold connector_call. by rewrite (node_uri_roundtrip _ _ _ Hutf Huri), Hk.
Qed.

(** ** The handshake, end to end *)

(** What the asking side reads from a node: the handler's bytes, then the bytes of
    whatever it bridged to; [backend] is what the service on a port sends. *)
Definition node_bytes (env : TunnelEnv) (n : SharedState) (backend : Z -> string) (msg : Message) : string :=
  match msg with
  | TunnelRequest node service timestamp_ms =>
      let '(out, e, _) := handle_tunnel env node service timestamp_ms n in
      out +:+ match e with Proxied port => backend port | e => after e end
  | _ => ""
  end.

Definition in_time (env : TunnelEnv) (timestamp_ms : Z) : Prop :=
  exists now, te_now_ms env = Some now /\ (Z.abs (now - timestamp_ms) <= MAX_SKEW_MS)%Z.

(** The streams on which a request for node [id] gets to [n]: a connection to [n]
    itself (dialled, pooled, a stream of a session, or one it dialled), or to a relay
    that has a reverse connection of the node, forwards the request on it and copies
    what comes back. *)
Inductive leads_to (id service : string) (timestamp_ms : Z) (env : TunnelEnv) (n : SharedState) (backend : Z -> string)
    : string -> Prop :=
| ToNode : leads_to id service timestamp_ms env n backend (node_bytes env n backend (TunnelRequest id service timestamp_ms))
| ToRelay renv relay c pool : id <> node_id (st_config relay) -> st_shutdown relay = false -> in_time renv timestamp_ms ->
    take_loop id (st_reverse_pool relay) Tunnel.POOL_WAIT_TIMEOUT (te_waits renv) = (Some c, pool) ->
    te_forward renv c (TunnelRequest id service timestamp_ms) = true ->
    leads_to id service timestamp_ms env n backend (te_answer renv c) ->
    leads_to id service timestamp_ms env n backend
      (node_bytes renv relay (fun _ => "") (TunnelRequest id service timestamp_ms)).

Lemma skew_in_time env timestamp_ms now :
  te_now_ms env = Some now -> (MAX_SKEW_MS <? abs_diff now timestamp_ms)%Z = false <-> in_time env timestamp_ms.
Proof.
  intros Hnow. unfold in_time, abs_diff. rewrite Hnow, Z.ltb_ge. split; [eauto|]. by intros (n & [= <-] & Hn).
Qed.

Lemma refused_not_ok msg rest : check_tunnel (send_tunnel_error msg +:+ "") <> Ok rest.
Proof. intros Heq. pose proof (check_tunnel_error_not_ok msg "") as Hbad. by rewrite Heq in Hbad. Qed.

(** What the asker reads from the node itself. *)
Lemma node_bytes_check env n backend service timestamp_ms rest :
  check_tunnel (node_bytes env n backend (TunnelRequest (node_id (st_config n)) service timestamp_ms)) = Ok rest <->
  st_shutdown n = false /\ in_time env timestamp_ms
  /\ exists svc, st_service_index n !! (node_id (st_config n), service) = Some svc
     /\ is_ok (te_connect env (svc_node_port svc)) = true /\ rest = backend (svc_node_port svc).
Proof.
  unfold node_bytes, handle_tunnel, refuse_if_draining. destruct (st_shutdown n).
  { split; [by intros ?%refused_not_ok|by intros [? _]]. }
  destruct (te_now_ms env) as [now|] eqn:Hnow; cycle 1.
  { split; [done|]. unfold in_time. rewrite Hnow. by intros (_ & (? & ? & _) & _). }
  pose proof (skew_in_time env timestamp_ms now Hnow) as Hskew.
  destruct (MAX_SKEW_MS <? abs_diff now timestamp_ms)%Z.
  { split; [by intros ?%refused_not_ok|]. intros (_ & Ht & _). by apply Hskew in Ht. }
  rewrite str_eqb_refl, andb_false_r. unfold connect_local_service.
  assert (Ht : in_time env timestamp_ms) by by apply Hskew.
  destruct (st_service_index n !! _) as [svc|]; cycle 1.
  { split; [by intros ?%refused_not_ok|]. by intros (_ & _ & ? & ? & _). }
  destruct (te_connect env (svc_node_port svc)) as [[]|e] eqn:Hc.
  - rewrite check_tunnel_success. split.
    + intros [= <-]. split; [done|]. split; [done|]. exists svc. by rewrite Hc.
    + intros (_ & _ & svc' & [= <-] & _ & ->). done.
  - split; [by intros ?%refused_not_ok|]. intros (_ & _ & svc' & [= <-] & Hok & _). by rewrite Hc in Hok.
Qed.

(** A relay hands on exactly what it gets. *)
Lemma relay_bytes_check renv relay id service timestamp_ms c pool :
  id <> "" -> id <> node_id (st_config relay) -> st_shutdown relay = false -> in_time renv timestamp_ms ->
  take_loop id (st_reverse_pool relay) Tunnel.POOL_WAIT_TIMEOUT (te_waits renv) = (Some c, pool) ->
  te_forward renv c (TunnelRequest id service timestamp_ms) = true ->
  check_tunnel (node_bytes renv relay (fun _ => "") (TunnelRequest id service timestamp_ms)) = check_tunnel (te_answer renv c).
Proof.
  intros Hid Hne Hdrain Ht Htake Hfwd. pose proof Ht as (now & Hnow & _).
  unfold node_bytes, handle_tunnel, refuse_if_draining. rewrite Hdrain, Hnow, (proj2 (skew_in_time _ _ _ Hnow) Ht).
  destruct (str_is_empty id) eqn:He; [by destruct id|]. rewrite (proj2 (str_eqb_false _ _) Hne). cbn [negb andb].
  unfold relay_tunnel. rewrite Htake, Hfwd. cbn [negb]. pose proof (relay_answer_transparent (te_answer renv c)) as Hr.
  destruct (relay_answer (te_answer renv c)) as [out e]. destruct Hr as [Hr He']. rewrite <- Hr. by destruct e.
Qed.

(** C3: A tunnel ends at the instance that was balanced to. The subscriber asks for a
    candidate of a service, directly or through a relay, and the node that answers has
    the same configuration: the subscriber reads success exactly when that node is not
    draining, its clock agrees within 30 seconds and the port of the service's instance
    on that very node takes the connection; and then the bytes it reads next are that
    instance's own. *)
Theorem tunnel_reaches_instance s b name t env timestamp_ms nenv n backend
    (Hindex : index_ok s) (Hwf : kn_wf (st_known_nodes s)) (Hb : b ∈ service_backends name s)
    (Hnode : node_id (st_config n) = b_id b) (Hid : b_id b <> "")
    (Hsame : index_ok n /\ st_dynamic_config n = st_dynamic_config s)
    (Hsend : ee_send env t (TunnelRequest (b_id b) name timestamp_ms) = true)
    (Hpath : leads_to (b_id b) name timestamp_ms nenv n backend (ee_answer env t)) :
  exists svc, svc ∈ all_services (st_dynamic_config s) /\ svc_instance svc = (b_id b, name)
  /\ forall rest, send_and_check_tunnel env t (TunnelRequest (b_id b) name timestamp_ms) = Ok rest <->
       st_shutdown n = false /\ in_time nenv timestamp_ms
       /\ is_ok (te_connect nenv (svc_node_port svc)) = true /\ rest = backend (svc_node_port svc).
Proof.
  destruct (backend_instance name s b Hindex Hwf Hb) as (_ & svc & Hfind & Hin & Hinst).
  exists svc. split; [done|]. split; [done|]. intros rest.
  assert (Hsvc : st_service_index n !! (node_id (st_config n), name) = Some svc).
  { destruct Hsame as [[Hn _] Hdc]. by rewrite Hn, Hdc, (proj1 (indexes_spec _)), Hnode. }
  assert (Hcheck : send_and_check_tunnel env t (TunnelRequest (b_id b) name timestamp_ms) = Ok rest
    <-> check_tunnel (ee_answer env t) = Ok rest).
  { unfold send_and_check_tunnel. rewrite Hsend. cbn [negb]. destruct (check_tunnel _) as [r|[]]; split; congruence. }
  rewrite Hcheck. clear Hcheck Hsend. induction Hpath as [|renv relay c pool Hne Hdrain Ht Htake Hfwd _ IH].
  - rewrite <- Hnode at 1. rewrite node_bytes_check, Hsvc. split.
    + intros (? & ? & ? & [= <-] & ? & ->). done.
    + intros (? & ? & ? & ->). eauto 6.
  - by rewrite (relay_bytes_check _ _ _ _ _ _ _ Hid Hne Hdrain Ht Htake Hfwd).
Qed.
End path.

(** ** Witness *)

Module Examples.

Definition config (id : string) : Config :=
  {| mode := Node; bind := "0.0.0.0:8080"; advertise_addr := None; node_id := id; outbound_only := true;
     reverse_pool_size := None; known_nodes := []; dynamic_config := dynamic_config Config.Examples.config;
     subscribe_filter := None; tls_dir := None; admin_cns := []; api_port_opt := None; tracing := None; http_listen := None |}.

Definition s : SharedState := Proxy.Examples.state.
Definition b : Backend := nth 1 (service_backends "api" s) inhabitant.
(** Node [b] can only dial out; the relay holds its connection 3. *)
Definition n : SharedState := new_state (config "b") "stouter.json" true.
Definition relay : SharedState := set_pools {["b" := [3]]} ∅ (new_state (config "r") "stouter.json" true).
Definition backend (port : Z) : string := "hello from " +:+ show port.
Definition request : Message := TunnelRequest "b" "api" 1000.
Definition nenv : TunnelEnv :=
  {| te_now_ms := Some 1500%Z; te_connect _ := Ok tt; te_waits := []; te_forward _ _ := true; te_answer _ := "" |}.
Definition renv : TunnelEnv :=
  {| te_now_ms := Some 1200%Z; te_connect _ := Err "refused"; te_waits := []; te_forward _ _ := true;
     te_answer _ := node_bytes nenv n backend request |}.
Definition env : EstablishEnv :=
  {| ee_now_ms := Some 1000%Z; ee_mux _ := None; ee_waits := []; ee_connect _ := Ok 9; ee_tls c := Ok c;
     ee_send _ _ := true; ee_answer _ := node_bytes renv relay (fun _ => "") request |}.

Lemma path_witness :
  exists svc, svc_instance svc = ("b", "api")
  /\ send_and_check_tunnel env (TMesh 9) request = Ok (backend (svc_node_port svc)).
Proof.
  assert (Hp : leads_to "b" "api" 1000 nenv n backend (ee_answer env (TMesh 9))).
  { apply (ToRelay _ _ _ _ _ _ renv relay 3 {["b" := []]}); [discriminate|reflexivity| |vm_compute; reflexivity|reflexivity|apply ToNode].
    exists 1200%Z. split; [reflexivity|]. vm_compute. discriminate. }
  assert (Hid : b_id b = "b") by (vm_compute; reflexivity).
  destruct (tunnel_reaches_instance s b "api" (TMesh 9) env 1000 nenv n backend) as (svc & _ & Hi & Hs).
  - unfold s, Proxy.Examples.state. split; reflexivity.
  - intros id x Hx. unfold s, Proxy.Examples.state, Proxy.Examples.known in Hx. cbn in Hx.
    apply lookup_insert_Some in Hx as [[<- <-]|[_ Hx]]; [reflexivity|].
    by apply lookup_singleton_Some in Hx as [<- <-].
  - unfold b. apply list_elem_of_In, nth_In. vm_compute. repeat constructor.
  - vm_compute. reflexivity.
  - vm_compute. discriminate.
  - split; [apply index_ok_new|vm_compute; reflexivity].
  - reflexivity.
  - exact Hp.
  - exists svc. split; [exact Hi|]. apply Hs. split; [reflexivity|]. split; [|split; reflexivity].
    exists 1500%Z. split; [reflexivity|]. vm_compute. discriminate.
Defined.

End Examples.
