(* ===== verification/Cli.v ===== *)
(** * The command line ([src/src/main.rs])

    Commands that change the configuration, on the local file or by an admin
    request to a remote daemon, with the exit codes; moving a service from one
    cluster to another; and what a daemon does when it is asked to stop. A daemon
    is the [World] of Gossip it answers from; daemons are found by address, so a
    command given the same address twice talks to the same daemon. *)

From S2P Require Import Prelude NetAddr Dynamic Config State Messages Gossip.

(** ** Requests *)

(** What becomes of one request: it is answered, it never reaches the daemon (no
    certificates, no connection), or the daemon handles it and the answer is lost. *)
Inductive Transport := Delivered | NotDelivered (e : string) | AnswerLost (e : string).

Abbreviation Net := (gmap string World).

Section cli.
Context `{MapIter} `{HttpCrate}.

Definition admin_result (r : AdminResult) : result Z (AdminErrCode * string) :=
  match r with ROk v => Ok v | RErr code message => Err (code, message) end.

(** [try_admin_rpc]: the daemon at [target] handles [op] for the certificate [cn]. *)
Definition try_admin_rpc (tr : Transport) (save : SaveOutcome) (cn : option string) (target : string)
    (op : AdminOp) (net : Net) : result (result Z (AdminErrCode * string)) string * Net :=
  match tr, net !! target with
  | NotDelivered e, _ => (Err e, net)
  | _, None => (Err ("connect to " +:+ target), net)
  | _, Some w =>
      let '(w', r, _) := handle_admin_request save cn op w in
      (match tr with AnswerLost e => Err e | _ => Ok (admin_result r) end, <[target := w']> net)
  end.

(** [run_admin_rpc]: the version, an error, or the process's exit code. *)
Inductive RpcOutcome := RpcVersion (v : Z) | RpcError (e : string) | RpcExit (exit_code : Z).

Definition exit_code (code : AdminErrCode) : Z :=
  match code with
  | Unauthorized => 3
  | Validation | NotFound => 2
  | Internal => 1
  end.

Definition run_admin_rpc (tr : Transport) (save : SaveOutcome) (cn : option string) (target : string)
    (op : AdminOp) (net : Net) : RpcOutcome * Net :=
  let '(r, net) := try_admin_rpc tr save cn target op net in
  (match r with
   | Err e => RpcError e
   | Ok (Ok v) => RpcVersion v
   | Ok (Err (code, _)) => RpcExit (exit_code code)
   end, net).

(** [fetch_remote_dynamic_config]. *)
Definition fetch_remote_dynamic_config (tr : Transport) (target : string) (net : Net) : result DynamicConfig string :=
  match tr, net !! target with
  | (NotDelivered e | AnswerLost e), _ => Err e
  | Delivered, None => Err ("connect to " +:+ target)
  | Delivered, Some w => Ok (st_dynamic_config (w_state w))
  end.

(** [parse_key_value]. *)
Definition parse_key_value (arg : string) : result (string * string) string :=
  match split_once "=" arg with
  | Some (k, v) => if str_is_empty k then Err ("'" +:+ arg +:+ "' must look like key=value") else Ok (k, v)
  | None => Err ("'" +:+ arg +:+ "' must look like key=value")
  end.

Definition with_node (node : string) (s : Service) : Service :=
  {| svc_name := svc_name s; svc_node_id := node; svc_node_port := svc_node_port s;
     svc_domains := svc_domains s; svc_weight := svc_weight s; svc_max_connections := svc_max_connections s;
     svc_protocol := svc_protocol s; svc_request_timeout_ms := svc_request_timeout_ms s;
     svc_health_path := svc_health_path s; svc_labels := svc_labels s; svc_meta := svc_meta s;
     svc_local_port := svc_local_port s |}.

(** ** Commands that change the configuration *)

(** Each of these commands is written out in [main] with the same steps; they are
    one definition per step here. [route set] has parsed its routes.

    The arguments of [service add], [service rename], [service remove] and
    [route set]/[route clear]; [--node] defaults to this node. The service's own
    [svc_node_id] is not an argument: it is filled in. *)
Inductive Command :=
| CmdAdd (group : string) (node : option string) (svc : Service)
| CmdRename (group from to : string) (node : option string)
| CmdRemove (group name : string) (node : option string)
| CmdRoutes (service : string) (routes : list Route).

(** [service add] checks its health path before anything else. *)
Definition check_args (cmd : Command) : result unit string :=
  match cmd with
  | CmdAdd _ _ svc => match option_map validate_health_path (svc_health_path svc) with Some r => r | None => Ok tt end
  | _ => Ok tt
  end.

(** With [--remote]: the request, for the local configuration [cfg]. *)
Definition command_op (cfg : Config) (cmd : Command) : AdminOp :=
  match cmd with
  | CmdAdd group node svc => service_add group (with_node (default (node_id cfg) node) svc)
  | CmdRename group from to node => ServiceRename group (default (node_id cfg) node) from to
  | CmdRemove group name node => ServiceRemove group (default (node_id cfg) node) name
  | CmdRoutes service routes => RoutesSet service routes
  end.

Definition run_remote (tr : Transport) (save : SaveOutcome) (cn : option string) (target : string)
    (disk : option Config) (cmd : Command) (net : Net) : result RpcOutcome string * Net :=
  match check_args cmd with
  | Err e => (Err e, net)
  | Ok _ =>
      let '(out, net) := run_admin_rpc tr save cn target (command_op (default default_config disk) cmd) net in
      (Ok out, net)
  end.

(** Without it: the mutation of the loaded configuration. *)
Definition local_mutation (cfg : Config) (cmd : Command) : DynamicConfig * result Z MutateErr :=
  let dc := dynamic_config cfg in
  match cmd with
  | CmdAdd group node svc =>
      let '(dc, v) := upsert_service group (with_node (default (node_id cfg) node) svc) dc in (dc, Ok v)
  | CmdRename group from to node => rename_service group (default (node_id cfg) node) from to dc
  | CmdRemove group name node => remove_service group (default (node_id cfg) node) name dc
  | CmdRoutes service routes => set_routes service routes dc
  end.

(** [service add] starts from the defaults when the file cannot be loaded. *)
Definition load_for (cmd : Command) (disk : option Config) : result Config string :=
  match disk, cmd with
  | Some cfg, _ => Ok cfg
  | None, CmdAdd _ _ _ => Ok default_config
  | None, _ => Err "load"
  end.

(** Saving over the file; unlike [persist_state] it does not need to load it first. *)
Definition save_config (save : SaveOutcome) (cfg : Config) (disk : option Config) : option Config * result unit string :=
  match save with
  | Saved => (Some cfg, Ok tt)
  | SaveFailed => (disk, Err "save")
  | SaveCorrupted => (None, Err "save")
  end.

(** [broadcast_config]: one attempt per bootstrap peer, from a fresh state. *)
Definition broadcast_config (tls_ok : bool) (path : string) (cfg : Config) : result (list (string * Message)) string :=
  let broadcast tls := broadcast_message (new_state cfg path tls) (ConfigUpdate (dynamic_config cfg)) in
  match tls_dir cfg with
  | Some _ => if tls_ok then Ok (broadcast true) else Err "tls"
  | None => Ok (broadcast false)
  end.

(** The file afterwards, what is sent, and the new version or an error. *)
Definition run_local (save : SaveOutcome) (tls_ok : bool) (path : string) (cmd : Command) (disk : option Config)
    : option Config * list (string * Message) * result Z string :=
  match (let? _ := check_args cmd in load_for cmd disk) with
  | Err e => (disk, [], Err e)
  | Ok cfg =>
      match local_mutation cfg cmd with
      | (_, Err e) => (disk, [], Err (MutateErr_fmt e))
      | (dc, Ok version) =>
          let cfg := with_dynamic_config cfg dc in
          let '(disk, saved) := save_config save cfg disk in
          match (let? _ := saved in broadcast_config tls_ok path cfg) with
          | Err e => (disk, [], Err e)
          | Ok sent => (disk, sent, Ok version)
          end
      end
  end.

(** ** Stopping a daemon *)

Definition set_shutdown (s : SharedState) : SharedState :=
  {| st_config := st_config s; st_dynamic_config := st_dynamic_config s;
     st_known_nodes := st_known_nodes s; st_service_index := st_service_index s;
     st_routes := st_routes s; st_local_health := st_local_health s;
     st_bootstrap_peers := st_bootstrap_peers s; st_config_path := st_config_path s;
     st_reverse_pool := st_reverse_pool s; st_tunnel_pool := st_tunnel_pool s; st_tls := st_tls s;
     st_shutdown := true; st_in_flight := st_in_flight s |}.

(** [graceful_drain], up to the wait for connections in flight: listeners and
    background loops are told to stop, then peers that this node leaves. *)
Definition graceful_drain (s : SharedState) : SharedState * list (string * Message) :=
  let s := set_shutdown s in
  (s, if str_is_empty (node_id (st_config s)) then []
      else broadcast_message s (NodeLeave (node_id (st_config s)))).

(** ** Moving a service *)

Record MoveArgs := {
  mv_group : string;
  mv_name : string;
  mv_node : string;      (** the owner, this node by default *)
  mv_to_group : option string;
  mv_to_node : option string;
  mv_from : string;
  mv_to : string
}.

Definition dest_group (a : MoveArgs) : string := default (mv_group a) (mv_to_group a).
Definition dest_node (a : MoveArgs) : string := default (mv_node a) (mv_to_node a).

Record MoveEnv := {
  me_fetch : Transport;
  me_add : Transport;
  me_remove : Transport;
  me_rollback : Transport;
  me_save : SaveOutcome;
  me_from_cn : option string;
  me_to_cn : option string
}.

(** The source's entry: the first group of the name, the first instance in it. *)
Definition find_source (a : MoveArgs) (dc : DynamicConfig) : option Service :=
  g ← find_first (fun g => str_eqb (grp_name g) (mv_group a)) (dc_service_groups dc);
  find_first (fun s => str_eqb (svc_name s) (mv_name a) && str_eqb (svc_node_id s) (mv_node a)) (grp_services g).

(** The last step: the source's removal, undone at the destination when it fails. *)
Definition remove_or_roll_back (env : MoveEnv) (a : MoveArgs) (add_version : Z) (net : Net)
    : result (Z * Z) string * Net :=
  let '(removed, net) := try_admin_rpc (me_remove env) (me_save env) (me_from_cn env) (mv_from a)
      (ServiceRemove (mv_group a) (mv_node a) (mv_name a)) net in
  match removed with
  | Ok (Ok remove_version) => (Ok (remove_version, add_version), net)
  | outcome =>
      let '(_, net) := try_admin_rpc (me_rollback env) (me_save env) (me_to_cn env) (mv_to a)
          (ServiceRemove (dest_group a) (dest_node a) (mv_name a)) net in
      (Err (match outcome with
            | Ok (Err (_, msg)) => "move failed: " +:+ msg
            | _ => "move failed"
            end), net)
  end.

(** The versions of both clusters after the removal and the addition. *)
Definition service_move (env : MoveEnv) (a : MoveArgs) (net : Net) : result (Z * Z) string * Net :=
  match fetch_remote_dynamic_config (me_fetch env) (mv_from a) net with
  | Err e => (Err e, net)
  | Ok src_dc =>
      match find_source a src_dc with
      | None => (Err ("service '" +:+ mv_name a +:+ "' on node '" +:+ mv_node a +:+ "' not found in group '"
                       +:+ mv_group a +:+ "' on " +:+ mv_from a), net)
      | Some src_svc =>
          let '(added, net) := try_admin_rpc (me_add env) (me_save env) (me_to_cn env) (mv_to a)
              (service_add (dest_group a) (with_node (dest_node a) src_svc)) net in
          match added with
          | Err e => (Err e, net)
          | Ok (Err (_, msg)) => (Err ("add to " +:+ mv_to a +:+ " failed: " +:+ msg), net)
          | Ok (Ok add_version) => remove_or_roll_back env a add_version net
          end
      end
  end.

(** ** Lemmas *)

(** The entry a daemon's configuration has. *)
Definition entry (net : Net) (target group node name : string) : option Service :=
  w ← net !! target; lookup_service (w_dc w) group node name.

Definition same_entries (net net' : Net) (target : string) : Prop :=
  forall g n x, entry net' target g n x = entry net target g n x.

(** Only the entry at the key may differ, and it is [o] now. *)
Definition entry_set (net net' : Net) (target : string) (key : string * string * string) (o : option Service) : Prop :=
  forall g n x, entry net' target g n x = if decide ((g, n, x) = key) then o else entry net target g n x.

Lemma handle_admin_dc save cn op w :
  let '(w', r, _) := handle_admin_request save cn op w in
  (exists v, r = ROk v /\ admin_mutation op (w_dc w) = (w_dc w', Ok v))
  \/ (exists code msg, r = RErr code msg /\ w_dc w' = w_dc w).
Proof.
  unfold handle_admin_request, w_dc. destruct (negb _); [right; eauto|]. destruct (bool_decide _); [right; eauto|].
  pose proof (admin_mutation_version op (w_dc w)) as Hv. unfold w_dc in Hv.
  destruct (admin_mutation op _) as [dc [v|e]]; [left; by exists v|].
  right. eexists _, _. split; [done|]. by simpl in *.
Qed.

Lemma entry_insert_ne net target w t g n x : t <> target -> entry (<[target := w]> net) t g n x = entry net t g n x.
Proof. intros Hne. unfold entry. by rewrite lookup_insert_ne. Qed.

(** One request: the daemon's configuration is as it was, or mutated once. *)
Lemma rpc_spec tr save cn target op net :
  let '(r, net') := try_admin_rpc tr save cn target op net in
  (forall t, t <> target -> same_entries net net' t)
  /\ match r with
     | Ok (Ok v) => exists dc dc', (forall g n x, entry net target g n x = lookup_service dc g n x)
         /\ (forall g n x, entry net' target g n x = lookup_service dc' g n x) /\ admin_mutation op dc = (dc', Ok v)
     | _ => same_entries net net' target
            \/ (exists e, tr = AnswerLost e) /\ exists dc dc' v,
                 (forall g n x, entry net target g n x = lookup_service dc g n x)
                 /\ (forall g n x, entry net' target g n x = lookup_service dc' g n x) /\ admin_mutation op dc = (dc', Ok v)
     end.
Proof.
  unfold try_admin_rpc. destruct tr as [|e|e]; [|by split; [|left]|].
  - destruct (net !! target) as [w|] eqn:Hw; [|by split; [|left]].
    pose proof (handle_admin_dc save cn op w) as Hd. destruct (handle_admin_request save cn op w) as [[w' r] sent].
    split; [intros t Ht g n x; by apply entry_insert_ne|].
    destruct Hd as [(v & -> & Hm)|(code & msg & -> & Hm)]; simpl.
    + exists (w_dc w), (w_dc w'). unfold entry. by rewrite Hw, lookup_insert_eq.
    + left. intros g n x. unfold entry. by rewrite lookup_insert_eq, Hw; simpl; rewrite Hm.
  - destruct (net !! target) as [w|] eqn:Hw; [|by split; [|left]].
    pose proof (handle_admin_dc save cn op w) as Hd. destruct (handle_admin_request save cn op w) as [[w' r] sent].
    split; [intros t Ht g n x; by apply entry_insert_ne|].
    destruct Hd as [(v & -> & Hm)|(code & msg & -> & Hm)].
    + right. split; [by eexists|]. exists (w_dc w), (w_dc w'), v. unfold entry. by rewrite Hw, lookup_insert_eq.
    + left. intros g n x. unfold entry. by rewrite lookup_insert_eq, Hw; simpl; rewrite Hm.
Qed.

Lemma find_source_lookup a dc :
  find_source a dc = lookup_service dc (mv_group a) (mv_node a) (mv_name a).
Proof. reflexivity. Qed.

Lemma service_add_maps group svc dc dc' v :
  admin_mutation (service_add group svc) dc = (dc', Ok v) ->
  maps_to dc dc' group (svc_node_id svc) (svc_name svc) (Some svc).
Proof.
  simpl. destruct (option_map _ _) as [[]|]; try done;
    intros [= <- _]; destruct svc; exact (upsert_service_maps group _ dc).
Qed.

Lemma service_remove_maps group node name dc dc' v :
  admin_mutation (ServiceRemove group node name) dc = (dc', Ok v) -> maps_to dc dc' group node name None.
Proof. simpl. intros Hr. pose proof (remove_service_maps group node name dc) as Hm. rewrite Hr in Hm. apply Hm. Qed.

(** A request that sets the entry at a key to [o], when it takes effect. *)
Lemma rpc_entry tr save cn target op net key o
    (Hop : forall dc dc' v, admin_mutation op dc = (dc', Ok v) -> maps_to dc dc' key.1.1 key.1.2 key.2 o) :
  let '(r, net') := try_admin_rpc tr save cn target op net in
  (forall t, t <> target -> same_entries net net' t)
  /\ match r with
     | Ok (Ok v) => entry_set net net' target key o
     | _ => same_entries net net' target \/ (exists e, tr = AnswerLost e) /\ entry_set net net' target key o
     end.
Proof.
  pose proof (rpc_spec tr save cn target op net) as Hr. destruct (try_admin_rpc _ _ _ _ _ _) as [r net'].
  destruct Hr as [Hother Hr]. split; [done|].
  assert (Hset : (exists dc dc' v, (forall g n x, entry net target g n x = lookup_service dc g n x)
    /\ (forall g n x, entry net' target g n x = lookup_service dc' g n x) /\ admin_mutation op dc = (dc', Ok v)) ->
    entry_set net net' target key o).
  { intros (dc & dc' & v & Hb & Ha & Hm) g n x. apply Hop in Hm. destruct key as [[kg kn] kx]. simpl in Hm.
    by rewrite Ha, Hb, Hm. }
  destruct r as [[v|[c m]]|e].
  - destruct Hr as (dc & dc' & ? & ? & ?). apply Hset. by exists dc, dc', v.
  - destruct Hr as [?|[? ?]]; [by left|right; auto].
  - destruct Hr as [?|[? ?]]; [by left|right; auto].
Qed.

Lemma lookup_service_name dc group node name svc : lookup_service dc group node name = Some svc -> svc_name svc = name.
Proof.
  intros (g & _ & Hf)%lookup_service_group. apply find_first_elem_of in Hf as [_ Hi].
  apply is_instance_key in Hi. unfold svc_key in Hi. congruence.
Qed.

Definition answered (tr : Transport) : Prop := match tr with AnswerLost _ => False | _ => True end.

(** Adding an entry that was free and taking it away again changes nothing. *)
Lemma entry_set_undo net net1 net2 target key svc :
  entry net target key.1.1 key.1.2 key.2 = None ->
  entry_set net net1 target key (Some svc) -> entry_set net1 net2 target key None -> same_entries net net2 target.
Proof.
  intros Hfree H1 H2 g n x. rewrite H2, H1. case_decide as Hk; [|done]. subst key. simpl in Hfree. by rewrite Hfree.
Qed.

Lemma same_entries_trans net net1 net2 target :
  same_entries net net1 target -> same_entries net1 net2 target -> same_entries net net2 target.
Proof. intros H1 H2 g n x. by rewrite H2, H1. Qed.

Lemma entry_set_same_l net net1 net2 target key o :
  same_entries net net1 target -> entry_set net1 net2 target key o -> entry_set net net2 target key o.
Proof. intros H1 H2 g n x. rewrite H2. case_decide; [done|apply H1]. Qed.

Lemma entry_set_same_r net net1 net2 target key o :
  entry_set net net1 target key o -> same_entries net1 net2 target -> entry_set net net2 target key o.
Proof. intros H1 H2 g n x. by rewrite H2, H1. Qed.

Lemma fetched_source tr a net dc svc :
  fetch_remote_dynamic_config tr (mv_from a) net = Ok dc -> find_source a dc = Some svc ->
  entry net (mv_from a) (mv_group a) (mv_node a) (mv_name a) = Some svc.
Proof.
  rewrite find_source_lookup. unfold fetch_remote_dynamic_config, entry. intros Hf Hs.
  destruct tr; try done. destruct (net !! mv_from a) as [w|]; [|done]. simpl. unfold w_dc. congruence.
Qed.

(** The entries a move reads, writes and leaves. *)
Definition src_key (a : MoveArgs) : string * string * string := (mv_group a, mv_node a, mv_name a).
Definition dst_key (a : MoveArgs) : string * string * string := (dest_group a, dest_node a, mv_name a).

(** *** What the rollback can rely on *)

(** The daemon takes admin requests from this certificate. *)
Definition may_admin (cn : option string) (w : World) : bool :=
  match cn with
  | Some cn => any (fun a => str_eqb a cn) (admin_cns (st_config (w_state w)))
  | None => false
  end && negb (bool_decide (mode (st_config (w_state w)) = Subscribe)).

Lemma handle_admin_may save cn op w : may_admin cn w = true ->
  let '(w', r, _) := handle_admin_request save cn op w in
  may_admin cn w' = true /\ w_dc w' = (admin_mutation op (w_dc w)).1
  /\ is_ok (admin_result r) = is_ok (admin_mutation op (w_dc w)).2.
Proof.
  unfold may_admin at 1. intros [Ha Hm]%andb_true_iff. unfold handle_admin_request. rewrite Ha. cbn [negb].
  apply negb_true_iff in Hm. rewrite Hm. unfold w_dc.
  destruct (admin_mutation op _) as [dc [v|e]]; (split; [|done]); unfold may_admin; cbn; by rewrite Ha, Hm.
Qed.

Lemma handle_admin_ok save cn op w w' v sent :
  handle_admin_request save cn op w = (w', ROk v, sent) -> may_admin cn w = true.
Proof.
  unfold handle_admin_request, may_admin. destruct (match cn with Some _ => _ | None => _ end); [|done].
  cbn [negb andb]. by destruct (bool_decide _).
Qed.

(** A daemon that did one request of a certificate does the next. *)
Lemma rpc_ok_may tr save cn target op net v net' :
  try_admin_rpc tr save cn target op net = (Ok (Ok v), net') ->
  exists w, net' !! target = Some w /\ may_admin cn w = true.
Proof.
  unfold try_admin_rpc. destruct tr as [|e|e]; [| done |]; destruct (net !! target) as [w|]; try done;
    destruct (handle_admin_request save cn op w) as [[w' r] sent] eqn:Hh; [|done].
  intros [= Hr <-]. destruct r as [z|code msg]; [|done]. exists w'. rewrite lookup_insert_eq. split; [done|].
  pose proof (handle_admin_ok _ _ _ _ _ _ _ Hh) as Hm. pose proof (handle_admin_may save cn op w Hm) as Hk.
  rewrite Hh in Hk. apply Hk.
Qed.

Lemma rpc_elsewhere tr save cn target op net t :
  t <> target -> (try_admin_rpc tr save cn target op net).2 !! t = net !! t.
Proof.
  intros Ht. unfold try_admin_rpc. destruct tr as [|e|e]; [|done|]; (destruct (net !! target) as [w|]; [|done]);
    destruct (handle_admin_request save cn op w) as [[w' r] sent]; cbn [snd]; by apply lookup_insert_ne.
Qed.

(** A removal that reaches a daemon that has the entry takes it away. *)
Lemma rpc_removes tr save cn target group node name net w svc :
  match tr with NotDelivered _ => False | _ => True end ->
  net !! target = Some w -> may_admin cn w = true -> entry net target group node name = Some svc ->
  entry_set net (try_admin_rpc tr save cn target (ServiceRemove group node name) net).2 target (group, node, name) None.
Proof.
  intros Htr Hw Hm Hsvc. pose proof (handle_admin_may save cn (ServiceRemove group node name) w Hm) as Hh.
  unfold try_admin_rpc. rewrite Hw. destruct (handle_admin_request _ _ _ _) as [[w' r] sent].
  destruct Hh as (_ & Hdc & _). intros g n x. unfold entry in *. rewrite Hw in *. simpl in Hsvc |- *.
  assert (Hl : lookup_service (w_dc w') g n x
    = if decide ((g, n, x) = (group, node, name)) then None else lookup_service (w_dc w) g n x).
  { rewrite Hdc. cbn [admin_mutation]. pose proof (remove_service_maps group node name (w_dc w)) as Hr.
    destruct (remove_service group node name (w_dc w)) as [dc [v|e]]; [apply Hr|].
    destruct Hr as [Hnone _]. congruence. }
  destruct tr; [|done|]; simpl; by rewrite lookup_insert_eq.
Qed.

(** The routes of a daemon's configuration. *)
Definition routes_at (net : Net) (target : string) : option (list Route) := (fun w => dc_routes (w_dc w)) <$> net !! target.

Lemma rpc_routes tr save cn target op net
    (Hop : forall dc, dc_routes (admin_mutation op dc).1 = dc_routes dc) t :
  routes_at (try_admin_rpc tr save cn target op net).2 t = routes_at net t.
Proof.
  destruct (decide (t = target)) as [->|Ht]; [|unfold routes_at; by rewrite rpc_elsewhere].
  unfold try_admin_rpc, routes_at. destruct (net !! target) as [w|] eqn:Hw; cycle 1.
  { destruct tr; simpl; by rewrite Hw. }
  pose proof (handle_admin_dc save cn op w) as Hd. destruct (handle_admin_request save cn op w) as [[w' r] sent].
  assert (Hr : dc_routes (w_dc w') = dc_routes (w_dc w)).
  { destruct Hd as [(v & _ & Hm)|(_ & _ & _ & ->)]; [|done]. specialize (Hop (w_dc w)). by rewrite Hm in Hop. }
  destruct tr; cbn [snd]; rewrite ?lookup_insert_eq, ?Hw; simpl; by rewrite ?Hr.
Qed.

Lemma remove_routes group node name dc : dc_routes (admin_mutation (ServiceRemove group node name) dc).1 = dc_routes dc.
Proof.
  simpl. pose proof (remove_service_maps group node name dc) as Hr.
  destruct (remove_service group node name dc) as [dc' [v|e]]; [apply Hr|]. by destruct Hr as (_ & -> & _).
Qed.

Lemma add_routes group svc dc : dc_routes (admin_mutation (service_add group svc) dc).1 = dc_routes dc.
Proof. simpl. by destruct (option_map _ _) as [[]|]. Qed.

(** Once the service is added, the removal takes it from the source, or nothing
    does and the addition is undone if the rollback reaches the destination. *)
Lemma remove_or_roll_back_spec env a v svc net net1
    (Hdistinct : mv_from a <> mv_to a) (Hremove : answered (me_remove env))
    (Hfree : entry net (mv_to a) (dest_group a) (dest_node a) (mv_name a) = None)
    (Hsrc : same_entries net net1 (mv_from a))
    (Hdst : entry_set net net1 (mv_to a) (dst_key a) (Some svc))
    (Hmay : exists w, net1 !! mv_to a = Some w /\ may_admin (me_to_cn env) w = true) :
  let '(r, net') := remove_or_roll_back env a v net1 in
  match r with
  | Ok _ => entry_set net net' (mv_from a) (src_key a) None /\ entry_set net net' (mv_to a) (dst_key a) (Some svc)
  | Err _ => same_entries net net' (mv_from a)
      /\ (same_entries net net' (mv_to a)
          \/ (exists e, me_rollback env = NotDelivered e) /\ entry_set net net' (mv_to a) (dst_key a) (Some svc))
  end.
Proof.
  unfold remove_or_roll_back.
  set (op := ServiceRemove (mv_group a) (mv_node a) (mv_name a)).
  pose proof (rpc_entry (me_remove env) (me_save env) (me_from_cn env) (mv_from a) op net1 (src_key a) None) as Hr.
  pose proof (rpc_elsewhere (me_remove env) (me_save env) (me_from_cn env) (mv_from a) op net1 (mv_to a)
    (not_eq_sym Hdistinct)) as Hto.
  destruct (try_admin_rpc (me_remove env) _ _ _ _ net1) as [removed net2]. cbn [snd] in Hto.
  destruct Hr as [Hoth2 Hr]; [intros dc1 dc2 w; apply service_remove_maps|].
  assert (Hdst2 : entry_set net net2 (mv_to a) (dst_key a) (Some svc)).
  { eapply entry_set_same_r; [exact Hdst|]. by apply Hoth2, not_eq_sym. }
  destruct Hmay as (w & Hw & Hmay). rewrite <- Hto in Hw.
  assert (Hentry : entry net2 (mv_to a) (dest_group a) (dest_node a) (mv_name a) = Some svc)
    by (rewrite Hdst2; by rewrite decide_True).
  pose proof (fun Hd => rpc_removes (me_rollback env) (me_save env) (me_to_cn env) _ _ _ _ _ _ _ Hd Hw Hmay Hentry) as Hundo.
  pose proof (rpc_elsewhere (me_rollback env) (me_save env) (me_to_cn env) (mv_to a)
    (ServiceRemove (dest_group a) (dest_node a) (mv_name a)) net2 (mv_from a) Hdistinct) as Hfrom.
  destruct removed as [[rv|[c m]]|e]; [split; [by eapply entry_set_same_l|done]|..].
  all: destruct Hr as [Hr|[[e' He] _]]; [|by rewrite He in Hremove].
  all: destruct (me_rollback env) as [|e1|e1] eqn:Hroll; [specialize (Hundo I)| |specialize (Hundo I)].
  all: destruct (try_admin_rpc _ _ _ _ _ net2) as [rolled net3] eqn:Hback; cbn [snd] in *.
  all: (split; [intros g n x; unfold entry; rewrite Hfrom; exact (same_entries_trans _ _ _ _ Hsrc Hr g n x)|]).
  all: try (left; exact (entry_set_undo _ net2 _ _ (dst_key a) _ Hfree Hdst2 Hundo)).
  all: right; (split; [by eexists|]); unfold try_admin_rpc in Hback; injection Hback as _ <-; done.
Qed.

(** What a move leaves alone, whatever happens. *)
Lemma move_elsewhere env a net :
  let '(r, net') := service_move env a net in
  (forall t, routes_at net' t = routes_at net t)
  /\ (forall t, t <> mv_from a -> t <> mv_to a -> net' !! t = net !! t).
Proof.
  assert (Hstep : forall tr save cn target op n,
    (target = mv_from a \/ target = mv_to a) -> (forall dc, dc_routes (admin_mutation op dc).1 = dc_routes dc) ->
    (forall t, routes_at n t = routes_at net t) /\ (forall t, t <> mv_from a -> t <> mv_to a -> n !! t = net !! t) ->
    (forall t, routes_at (try_admin_rpc tr save cn target op n).2 t = routes_at net t)
    /\ (forall t, t <> mv_from a -> t <> mv_to a -> (try_admin_rpc tr save cn target op n).2 !! t = net !! t)).
  { intros tr save cn target op n Ht Hop [Hr Ho]. split.
    - intros t. by rewrite rpc_routes.
    - intros t Hf Hto. rewrite rpc_elsewhere; [by apply Ho|]. by destruct Ht as [->| ->]. }
  unfold service_move. destruct (fetch_remote_dynamic_config _ _ _) as [dc|e]; [|done].
  destruct (find_source a dc) as [svc|]; [|done].
  pose proof (Hstep (me_add env) (me_save env) (me_to_cn env) (mv_to a)
    (service_add (dest_group a) (with_node (dest_node a) svc)) net (or_intror eq_refl) (add_routes _ _)
    (conj (fun _ => eq_refl) (fun _ _ _ => eq_refl))) as H1.
  destruct (try_admin_rpc (me_add env) _ _ _ _ net) as [added net1]. cbn [snd] in H1.
  destruct added as [[av|[c m]]|e]; [|done|done]. unfold remove_or_roll_back.
  pose proof (Hstep (me_remove env) (me_save env) (me_from_cn env) (mv_from a) _ net1 (or_introl eq_refl)
    (remove_routes (mv_group a) (mv_node a) (mv_name a)) H1) as H2.
  destruct (try_admin_rpc (me_remove env) _ _ _ _ net1) as [removed net2]. cbn [snd] in H2.
  pose proof (Hstep (me_rollback env) (me_save env) (me_to_cn env) (mv_to a) _ net2 (or_intror eq_refl)
    (remove_routes (dest_group a) (dest_node a) (mv_name a)) H2) as H3.
  destruct removed as [[rv|[c m]]|e]; [done|..];
    destruct (try_admin_rpc (me_rollback env) _ _ _ _ net2) as [rolled net3]; exact H3.
Qed.

(** ** Properties *)

Lemma broadcast_new cfg path tls msg :
  broadcast_message (new_state cfg path tls) msg = (fun addr => (addr, msg)) <$> known_nodes cfg.
Proof.
  unfold broadcast_message, peer_addrs. simpl.
  assert (map_values (∅ : gmap string NodeInfo) = []) as ->; [|done].
  apply list.elem_of_nil_inv. intros n [k Hk]%elem_of_map_values. by rewrite lookup_empty in Hk.
Qed.

(** Checked arguments or not, the mutation is the remote operation's. *)
Lemma local_mutation_eq cfg cmd :
  match check_args cmd with
  | Ok _ => local_mutation cfg cmd = admin_mutation (command_op cfg cmd) (dynamic_config cfg)
  | Err e => admin_mutation (command_op cfg cmd) (dynamic_config cfg) = (dynamic_config cfg, Err (Invalid e))
  end.
Proof.
  destruct cmd as [group node svc|group from to node|group name node|service routes]; try reflexivity.
  simpl. destruct svc as [? ? ? ? ? ? ? ? [path|] ? ? ?]; [|reflexivity].
  simpl. by destruct (validate_health_path path) as [[]|].
Qed.

(** A daemon running on the file takes a mutation of its configuration up at the next poll. *)
Lemma poll_adopts s cfg dc op v :
  st_dynamic_config s = dynamic_config cfg -> (0 <= dc_version (dynamic_config cfg) < u64_max)%Z ->
  admin_mutation op (dynamic_config cfg) = (dc, Ok v) ->
  let w := (config_poll Saved {| w_state := s; w_disk := Some (with_dynamic_config cfg dc) |}).1 in
  w_dc w = dc /\ index_ok (w_state w).
Proof.
  intros Hs Hv Hop. pose proof (admin_mutation_version op (dynamic_config cfg)) as Hver. rewrite Hop in Hver.
  destruct Hver as [Hdc Heq]. rewrite wrap64_succ_gt in Heq by done. unfold config_poll. simpl. rewrite Hs.
  assert ((dc_version (dynamic_config cfg) <? dc_version dc)%Z = true) as -> by (apply Z.ltb_lt; lia).
  assert ((dc_version dc <=? dc_version (dynamic_config cfg))%Z = false) as -> by (apply Z.leb_gt; lia).
  split; [done|apply index_ok_rebuild].
Qed.

(** C23: A command on the local file does what the same command does on a remote
    daemon: it is refused for the same reason, leaving the file alone, or replaces
    the file's configuration by the mutated one and offers it to every peer, unless
    saving or the certificates fail. A daemon that runs the file's configuration
    takes the new one up at its next poll. *)
Theorem run_local_spec save tls_ok path cmd disk cfg
    (Hload : load_for cmd disk = Ok cfg) :
  let '(disk', sent, r) := run_local save tls_ok path cmd disk in
  match admin_mutation (command_op cfg cmd) (dynamic_config cfg) with
  | (_, Err e) => disk' = disk /\ sent = [] /\ r = Err (MutateErr_fmt e)
  | (dc, Ok v) =>
      match save with
      | Saved =>
          disk' = Some (with_dynamic_config cfg dc)
          /\ (if bool_decide (tls_dir cfg = None) || tls_ok
              then r = Ok v /\ sent = (fun addr => (addr, ConfigUpdate dc)) <$> known_nodes cfg
              else is_ok r = false /\ sent = [])
          /\ (forall s, st_dynamic_config s = dynamic_config cfg ->
                (0 <= dc_version (dynamic_config cfg) < u64_max)%Z ->
                let w := (config_poll Saved {| w_state := s; w_disk := disk' |}).1 in
                w_dc w = dc /\ index_ok (w_state w))
      | SaveFailed => disk' = disk /\ is_ok r = false /\ sent = []
      | SaveCorrupted => disk' = None /\ is_ok r = false /\ sent = []
      end
  end.
Proof.
  pose proof (local_mutation_eq cfg cmd) as Hm. unfold run_local.
  destruct (check_args cmd) as [[]|e]; [|by rewrite Hm].
  rewrite Hload, Hm. destruct (admin_mutation _ _) as [dc [v|e]] eqn:Hop; [|done].
  destruct save; [|done..]. simpl. unfold broadcast_config. rewrite !broadcast_new. simpl.
  destruct (tls_dir cfg) as [dir|], tls_ok; simpl; (split; [done|]; split; [done|]); intros s Hs Hv;
    exact (poll_adopts s cfg dc _ v Hs Hv Hop).
Qed.

(** A peer that hears a node drain no longer lists it. *)
Lemma drain_forgotten save now peer s addr msg w :
  (addr, msg) ∈ (graceful_drain s).2 ->
  st_known_nodes (w_state (handle_gossip_message save now peer msg w).1) !! node_id (st_config s) = None
  /\ st_shutdown (graceful_drain s).1 = true.
Proof.
  unfold graceful_drain. simpl. destruct (str_is_empty _); [by intros ?%not_elem_of_nil|].
  intros (a & [= -> ->] & _)%list_elem_of_fmap. split; [|done]. simpl. apply lookup_delete_eq.
Qed.

(** C22: Moving a service between two clusters never loses it. As long as the
    answers to the addition and the removal are not lost, and the destination had
    no entry of that identity, a move either succeeds, and the service is in the
    destination, unchanged but for its node, and gone from the source; or fails,
    and the source is as it was. The destination is then as it was too, unless the
    rollback could not even be delivered, and then it has the service and nothing else
    new. No other entry of either cluster changes, nor any route, nor any other daemon. *)
Theorem service_move_spec env a net
    (Hdistinct : mv_from a <> mv_to a)
    (Hanswered : answered (me_add env) /\ answered (me_remove env))
    (Hfree : entry net (mv_to a) (dest_group a) (dest_node a) (mv_name a) = None) :
  let '(r, net') := service_move env a net in
  match r with
  | Ok _ => exists svc, entry net (mv_from a) (mv_group a) (mv_node a) (mv_name a) = Some svc
      /\ entry_set net net' (mv_from a) (src_key a) None
      /\ entry_set net net' (mv_to a) (dst_key a) (Some (with_node (dest_node a) svc))
  | Err _ => same_entries net net' (mv_from a)
      /\ (same_entries net net' (mv_to a)
          \/ (exists e, me_rollback env = NotDelivered e)
             /\ exists svc, entry net (mv_from a) (mv_group a) (mv_node a) (mv_name a) = Some svc
                  /\ entry_set net net' (mv_to a) (dst_key a) (Some (with_node (dest_node a) svc)))
  end
  /\ (forall t, routes_at net' t = routes_at net t)
  /\ (forall t, t <> mv_from a -> t <> mv_to a -> net' !! t = net !! t).
Proof.
  destruct Hanswered as [Hadd Hremove]. pose proof (move_elsewhere env a net) as Hrest. unfold service_move in *.
  destruct (fetch_remote_dynamic_config (me_fetch env) (mv_from a) net) as [dc|e] eqn:Hf;
    [|split; [split; [done|by left]|done]].
  destruct (find_source a dc) as [svc|] eqn:Hs; [|split; [split; [done|by left]|done]].
  assert (Hsvc : entry net (mv_from a) (mv_group a) (mv_node a) (mv_name a) = Some svc)
    by by eapply fetched_source.
  assert (Hname : svc_name svc = mv_name a) by (rewrite find_source_lookup in Hs; by eapply lookup_service_name).
  pose proof (rpc_entry (me_add env) (me_save env) (me_to_cn env) (mv_to a)
    (service_add (dest_group a) (with_node (dest_node a) svc)) net (dst_key a)
    (Some (with_node (dest_node a) svc))) as Ha.
  pose proof (rpc_ok_may (me_add env) (me_save env) (me_to_cn env) (mv_to a)
    (service_add (dest_group a) (with_node (dest_node a) svc)) net) as Hmay.
  destruct (try_admin_rpc (me_add env) _ _ _ _ net) as [added net1].
  destruct Ha as [Hoth1 Ha].
  { intros dc1 dc2 v Hm%service_add_maps. simpl in Hm. by rewrite Hname in Hm. }
  destruct added as [[av|[c m]]|e].
  - pose proof (remove_or_roll_back_spec env a av _ net net1 Hdistinct Hremove Hfree (Hoth1 _ Hdistinct) Ha
      (Hmay _ _ eq_refl)) as Hr.
    destruct (remove_or_roll_back env a av net1) as [[v|e] net']; (split; [|done]); [by exists svc|].
    destruct Hr as [? [?|[? ?]]]; (split; [done|]); [by left|right; split; [done|by exists svc]].
  - destruct Ha as [Ha|[[e He] _]]; [|by rewrite He in Hadd]. split; [|done]. split; [by apply Hoth1|by left].
  - destruct Ha as [Ha|[[e' He] _]]; [|by rewrite He in Hadd]. split; [|done]. split; [by apply Hoth1|by left].
Qed.
End cli.

(** ** Witness, and how a move can lose the service *)

Module Examples.

#[local] Existing Instance Dynamic.Examples.http_crate.

Definition net : Net :=
  {["east:1" := Gossip.Examples.world "a" (Gossip.Examples.dc 3 "api");
    "west:1" := Gossip.Examples.world "b" (Gossip.Examples.dc 5 "web")]}.

Definition args (to : string) : MoveArgs :=
  {| mv_group := "web"; mv_name := "api"; mv_node := "a"; mv_to_group := None; mv_to_node := None;
     mv_from := "east:1"; mv_to := to |}.

Definition env (remove : Transport) : MoveEnv :=
  {| me_fetch := Delivered; me_add := Delivered; me_remove := remove; me_rollback := Delivered; me_save := Saved;
     me_from_cn := Some "ops"; me_to_cn := Some "ops" |}.

Definition has (net : Net) (target : string) : bool := bool_decide (is_Some (entry net target "web" "a" "api")).

Lemma move_witness :
  let '(r, net') := service_move (env Delivered) (args "west:1") net in
  r = Ok (4, 6)%Z /\ has net' "east:1" = false /\ has net' "west:1" = true
  /\ exists svc, entry net "east:1" "web" "a" "api" = Some svc.
Proof.
  pose proof (service_move_spec (env Delivered) (args "west:1") net) as Hm.
  destruct (service_move (env Delivered) (args "west:1") net) as [r net'] eqn:Hr.
  vm_compute in Hr. injection Hr as <- <-. split; [reflexivity|]. split; [vm_compute; reflexivity|].
  split; [vm_compute; reflexivity|].
  destruct Hm as [(svc & Hsvc & _) _]; [discriminate|split; exact I|vm_compute; reflexivity|].
  exists svc. exact Hsvc.
Defined.

Lemma run_local_witness :
  let cmd := CmdRemove "web" "api" (Some "a") in
  let '(disk, sent, r) := run_local Saved true "stouter.json" cmd (Some (Gossip.Examples.config "a" (Gossip.Examples.dc 3 "api"))) in
  r = Ok 4%Z /\ sent.*1 = ["b:8080"] /\ option_map (fun c => dc_version (dynamic_config c)) disk = Some 4%Z.
Proof.
  pose proof (run_local_spec Saved true "stouter.json" (CmdRemove "web" "api" (Some "a"))
    (Some (Gossip.Examples.config "a" (Gossip.Examples.dc 3 "api")))
    (Gossip.Examples.config "a" (Gossip.Examples.dc 3 "api")) eq_refl) as Hl.
  cbv zeta. destruct (run_local _ _ _ _ _) as [[disk sent] r].
  destruct (admin_mutation _ _) as [dc [v|e]] eqn:Hop; vm_compute in Hop; [injection Hop as <- <-|discriminate Hop].
  destruct Hl as (Hd & [Hr Hs] & _). split; [exact Hr|]. rewrite Hs, Hd. split; reflexivity.
Defined.

(** The removal never reaches the source: the rollback takes the copy away; and stays
    when that is not delivered either. *)
Example rolled_back :
  let run rollback := service_move {| me_fetch := Delivered; me_add := Delivered; me_remove := NotDelivered "no route";
    me_rollback := rollback; me_save := Saved; me_from_cn := Some "ops"; me_to_cn := Some "ops" |} (args "west:1") net in
  has (run Delivered).2 "west:1" = false /\ has (run (NotDelivered "no route")).2 "west:1" = true
  /\ has (run Delivered).2 "east:1" = true.
Proof. vm_compute. auto. Qed.

(** [service add] on a configuration file that exists but does not parse replaces
    all of it by the defaults and the service. *)
Example add_overwrites_unreadable :
  let '(disk, _, r) := run_local Saved true "stouter.json"
    (CmdAdd "web" (Some "a") (with_node "" (Dynamic.Examples.service "api" "a" Http))) None in
  is_ok r = true /\ option_map (fun c => (node_id c, known_nodes c)) disk = Some ("", []).
Proof. vm_compute. auto. Qed.

(** The removal is done but its answer is lost: the rollback takes the service
    away from the destination too, and no cluster has it any more. *)
Example lost_answer_loses_service :
  let '(r, net') := service_move (env (AnswerLost "connection reset")) (args "west:1") net in
  is_ok r = false /\ has net' "east:1" = false /\ has net' "west:1" = false.
Proof. vm_compute. auto. Qed.

(** A move within one daemon to the same group and node removes the service and
    reports success. *)
Example move_onto_itself_removes :
  let '(r, net') := service_move (env Delivered) (args "east:1") net in
  r = Ok (5, 4)%Z /\ has net' "east:1" = false.
Proof. vm_compute. auto. Qed.

(** The removal never reaches the source, and the destination had the service
    already: the rollback removes it there. *)
Example rollback_removes_existing :
  let net := <["west:1" := Gossip.Examples.world "b" (Gossip.Examples.dc 5 "api")]> net in
  let '(r, net') := service_move (env (NotDelivered "no route")) (args "west:1") net in
  is_ok r = false /\ has net "west:1" = true /\ has net' "west:1" = false.
Proof. vm_compute. auto. Qed.

End Examples.
