(* ===== verification/Telemetry.v ===== *)
(** * Span export ([src/src/telemetry.rs])

    Requests record spans into a bounded queue without waiting; one task takes
    them out, batches them and posts the batches to the collector. [Exporter] is
    what the queue and the task hold between two events, with the counters they
    keep; the tasks' interleaving is a list of [Event]s. What the collector answers
    is an input; the HTTP client is hyper's. A time is nanoseconds since the epoch. *)

From Stdlib Require Import SpecFloat.
From S2P Require Import Prelude NetAddr Dynamic Config Json ConfigFmt.

#[local] Open Scope stouter_scope.

Definition QUEUE_CAPACITY : nat := 4096.
Definition MAX_BATCH : nat := 512.

(** ** Spans *)

Inductive SpanKind := Client.
Definition span_kind_number (k : SpanKind) : Z := match k with Client => 3 end.

Inductive AttrValue := Str (s : string) | Int (n : Z).
Abbreviation Attributes := (list (string * AttrValue)).

Record SpanEvent := { ev_time : Z; ev_name : string; ev_attributes : Attributes }.

Record SpanRecord := {
  sp_trace_id : string;
  sp_span_id : string;
  sp_parent_span_id : option string;
  sp_name : string;
  sp_kind : SpanKind;
  sp_start : Z;
  sp_end : Z;
  sp_attributes : Attributes;
  sp_events : list SpanEvent;
  sp_error : option string
}.

(** The span of a proxied request ([handle] in [src/src/subscribe/http.rs]): the id
    sent upstream is the span's, so that the backend's own span is its child. *)
Definition error_type (proxy_error : option string) (status : Z) : option string :=
  match proxy_error with
  | Some e => Some e
  | None => if (400 <=? status)%Z then Some (show status) else None
  end.

Definition request_span (method path service route : string) (status : Z) (tried : nat)
    (node proxy_error : option string) (trace_id upstream_span_id : string) (incoming_span_id : option string)
    (start_wall elapsed : Z) (events : list SpanEvent) : SpanRecord :=
  {| sp_trace_id := trace_id;
     sp_span_id := upstream_span_id;
     sp_parent_span_id := incoming_span_id;
     sp_name := method +:+ " " +:+ service;
     sp_kind := Client;
     sp_start := start_wall;
     sp_end := start_wall + elapsed;
     sp_attributes :=
       [("http.request.method", Str method); ("url.path", Str path); ("url.scheme", Str "http");
        ("network.protocol.version", Str "1.1"); ("http.response.status_code", Int status);
        ("stouter.service", Str service); ("stouter.route", Str route);
        ("stouter.attempts", Int (Z.of_nat tried))]
       ++ match node with Some node => [("server.address", Str node)] | None => [] end
       ++ match error_type proxy_error status with Some e => [("error.type", Str e)] | None => [] end;
     sp_events := events;
     sp_error := error_type proxy_error status |}.

(** ** OTLP JSON *)

Definition unix_nanos (t : Z) : string := show (Z.max 0 t).

Definition encode_attributes (attrs : Attributes) : Value :=
  VArr ((fun '(key, value) =>
    json_obj [("key", VStr key);
              ("value", match value with
                        | Str s => json_obj [("stringValue", VStr s)]
                        | Int n => json_obj [("intValue", VStr (show n))]
                        end)]) <$> attrs).

Definition encode_event (e : SpanEvent) : Value :=
  json_obj [("timeUnixNano", VStr (unix_nanos (ev_time e))); ("name", VStr (ev_name e));
            ("attributes", encode_attributes (ev_attributes e))].

Definition encode_span (span : SpanRecord) : Value :=
  let v := json_obj
    [("traceId", VStr (sp_trace_id span));
     ("spanId", VStr (sp_span_id span));
     ("name", VStr (sp_name span));
     ("kind", VNum (span_kind_number (sp_kind span)));
     ("startTimeUnixNano", VStr (unix_nanos (sp_start span)));
     ("endTimeUnixNano", VStr (unix_nanos (sp_end span)));
     ("attributes", encode_attributes (sp_attributes span));
     ("status", match sp_error span with
                | Some message => json_obj [("code", VNum 2); ("message", VStr message)]
                | None => json_obj []
                end)] in
  let v := match sp_parent_span_id span with
           | Some parent => json_set "parentSpanId" (VStr parent) v
           | None => v
           end in
  match sp_events span with
  | [] => v
  | events => json_set "events" (VArr (encode_event <$> events)) v
  end.

Section exporter.
Context `{JsonText} (CARGO_PKG_VERSION : string).

Definition encode_request (resource : Attributes) (spans : list SpanRecord) : Value :=
  json_obj
    [("resourceSpans", VArr [json_obj
       [("resource", json_obj [("attributes", encode_attributes resource)]);
        ("scopeSpans", VArr [json_obj
           [("scope", json_obj [("name", VStr "stouter"); ("version", VStr CARGO_PKG_VERSION)]);
            ("spans", VArr (encode_span <$> spans))]])]])].

Definition resource_attributes (service_name node_id : string) : Attributes :=
  [("service.name", Str service_name); ("telemetry.sdk.name", Str "stouter");
   ("telemetry.sdk.language", Str "rust"); ("telemetry.sdk.version", Str CARGO_PKG_VERSION)]
  ++ (if str_is_empty node_id then [] else [("service.instance.id", Str node_id)]).

(** [str::parse::<u64>]. *)
Definition parse_u64 (s : string) : option Z :=
  let digits := match strip_prefix "+" s with Some rest => rest | None => s end in
  match read_number 10 u64_max None true digits with
  | Some (v, EmptyString) => Some v
  | _ => None
  end.

Definition rejected_spans (body : string) : Z :=
  match json_parse body with
  | None => 0
  | Some v =>
      match json_index (json_index v "partialSuccess") "rejectedSpans" with
      | VStr s => default 0%Z (parse_u64 s)
      | VNum n => if (0 <=? n)%Z && (n <=? u64_max)%Z then n else 0
      | _ => 0
      end
  end.

(** ** The tracer and the exporter task *)

(** [str::trim_end_matches('/')]. *)
Fixpoint trim_slashes (l : list ascii) : list ascii :=
  match l with
  | c :: l' => if Ascii.eqb c "/" then trim_slashes l' else l
  | [] => []
  end.
Definition endpoint (cfg : TracingConfig) : string :=
  list_to_str (reverse (trim_slashes (reverse (str_to_list (tc_otlp_endpoint cfg))))) +:+ "/v1/traces".

(** [rand::random::<f64>()] is drawn only if the ratio leaves a choice. *)
Definition sample_new_trace (sample_ratio random : spec_float) : bool :=
  SFleb f64_one sample_ratio || (SFltb f64_zero sample_ratio && SFltb random sample_ratio).

Inductive Command := Span (span : SpanRecord) | Flush (ack : nat).

Record Exporter := {
  x_queue : list Command;
  x_batch : list SpanRecord;
  x_failing : bool;
  x_running : bool;
  x_posted : list (list SpanRecord);  (** the batches posted, in order: a request each, if the endpoint parses *)
  x_acked : list nat;
  x_exported : Z;
  x_queue_full : Z;
  x_rejected : Z;
  x_export_failed : Z
}.

Definition start : Exporter :=
  {| x_queue := []; x_batch := []; x_failing := false; x_running := true; x_posted := []; x_acked := [];
     x_exported := 0; x_queue_full := 0; x_rejected := 0; x_export_failed := 0 |}.

(** What a POST comes to: an error before or instead of an answer (a bad endpoint,
    a time-out, a connection), or an answer with its status and body. *)
Inductive Answer := NoAnswer (e : string) | Answered (status : Z) (body : string).

(** The collector's verdict: how many spans it rejected, or an error. *)
Definition post_result (a : Answer) : result Z string :=
  match a with
  | NoAnswer e => Err e
  | Answered status body =>
      if (200 <=? status)%Z && (status <? 300)%Z then Ok (rejected_spans body)
      else Err ("collector answered " +:+ show status +:+ ": " +:+ body)
  end.

(** [export]: post the batch and empty it, whatever becomes of it. *)
Definition export (a : Answer) (x : Exporter) : Exporter :=
  match x_batch x with
  | [] => x
  | spans =>
      let count := Z.of_nat (length spans) in
      let '(failing, exported, rejected, failed) :=
        match post_result a with
        | Ok rejected => (false, saturating_sub count rejected, rejected, 0%Z)
        | Err _ => (true, 0%Z, 0%Z, count)
        end in
      {| x_queue := x_queue x; x_batch := []; x_failing := failing; x_running := x_running x;
         x_posted := x_posted x ++ [spans]; x_acked := x_acked x; x_exported := x_exported x + exported;
         x_queue_full := x_queue_full x; x_rejected := x_rejected x + rejected;
         x_export_failed := x_export_failed x + failed |}
  end.

Definition set_queue (q : list Command) (x : Exporter) : Exporter :=
  {| x_queue := q; x_batch := x_batch x; x_failing := x_failing x; x_running := x_running x;
     x_posted := x_posted x; x_acked := x_acked x; x_exported := x_exported x; x_queue_full := x_queue_full x;
     x_rejected := x_rejected x; x_export_failed := x_export_failed x |}.
Definition set_batch (b : list SpanRecord) (x : Exporter) : Exporter :=
  {| x_queue := x_queue x; x_batch := b; x_failing := x_failing x; x_running := x_running x;
     x_posted := x_posted x; x_acked := x_acked x; x_exported := x_exported x; x_queue_full := x_queue_full x;
     x_rejected := x_rejected x; x_export_failed := x_export_failed x |}.
Definition count_full (x : Exporter) : Exporter :=
  {| x_queue := x_queue x; x_batch := x_batch x; x_failing := x_failing x; x_running := x_running x;
     x_posted := x_posted x; x_acked := x_acked x; x_exported := x_exported x;
     x_queue_full := x_queue_full x + 1; x_rejected := x_rejected x; x_export_failed := x_export_failed x |}.
Definition acknowledge (ack : nat) (x : Exporter) : Exporter :=
  {| x_queue := x_queue x; x_batch := x_batch x; x_failing := x_failing x; x_running := x_running x;
     x_posted := x_posted x; x_acked := x_acked x ++ [ack]; x_exported := x_exported x;
     x_queue_full := x_queue_full x; x_rejected := x_rejected x; x_export_failed := x_export_failed x |}.
Definition stop (x : Exporter) : Exporter :=
  {| x_queue := x_queue x; x_batch := x_batch x; x_failing := x_failing x; x_running := false;
     x_posted := x_posted x; x_acked := x_acked x; x_exported := x_exported x; x_queue_full := x_queue_full x;
     x_rejected := x_rejected x; x_export_failed := x_export_failed x |}.

(** [Tracer::record]. *)
Definition record (span : SpanRecord) (x : Exporter) : Exporter :=
  if length (x_queue x) <? QUEUE_CAPACITY then set_queue (x_queue x ++ [Span span]) x else count_full x.

(** The send of [Tracer::flush], once there is room for it. *)
Definition flush (ack : nat) (x : Exporter) : Exporter :=
  if length (x_queue x) <? QUEUE_CAPACITY then set_queue (x_queue x ++ [Flush ack]) x else x.

(** One turn of [run_exporter]'s loop on a command: the oldest of the queue. *)
Definition receive (a : Answer) (x : Exporter) : Exporter :=
  match x_queue x with
  | [] => x
  | Span span :: q =>
      let x := set_batch (x_batch x ++ [span]) (set_queue q x) in
      if MAX_BATCH <=? length (x_batch x) then export a x else x
  | Flush ack :: q => acknowledge ack (export a (set_queue q x))
  end.

(** Every handle is gone and the queue is empty: export what is left, and end. *)
Definition close (a : Answer) (x : Exporter) : Exporter :=
  match x_queue x with [] => stop (export a x) | _ => x end.

Inductive Event :=
| Record_ (span : SpanRecord)
| Flush_ (ack : nat)
| Receive (a : Answer)
| Tick (a : Answer)
| Close (a : Answer).

Definition handle (e : Event) (x : Exporter) : Exporter :=
  match e with
  | Record_ span => record span x
  | Flush_ ack => flush ack x
  | Receive a => if x_running x then receive a x else x
  | Tick a => if x_running x then export a x else x
  | Close a => if x_running x then close a x else x
  end.

Definition run (es : list Event) (x : Exporter) : Exporter := foldl (fun x e => handle e x) x es.

(** ** Nothing is lost unseen *)

Definition room (x : Exporter) : bool := length (x_queue x) <? QUEUE_CAPACITY.

(** The spans the queue took, and the ones it had no room for. *)
Fixpoint accepted (es : list Event) (x : Exporter) : list SpanRecord :=
  match es with
  | [] => []
  | e :: es => match e with Record_ span => if room x then [span] else [] | _ => [] end ++ accepted es (handle e x)
  end.

Fixpoint refused (es : list Event) (x : Exporter) : nat :=
  match es with
  | [] => 0
  | e :: es => match e with Record_ _ => if room x then 0 else 1 | _ => 0 end + refused es (handle e x)
  end.

Definition span_of (c : Command) : option SpanRecord := match c with Span span => Some span | Flush _ => None end.
Definition queued (x : Exporter) : list SpanRecord := omap span_of (x_queue x).

(** Everything the exporter has been given, oldest first. *)
Definition all_spans (x : Exporter) : list SpanRecord := concat (x_posted x) ++ x_batch x ++ queued x.

Definition posted_count (x : Exporter) : Z := Z.of_nat (length (concat (x_posted x))).

Record exporter_ok (x : Exporter) : Prop := {
  ok_queue : length (x_queue x) <= QUEUE_CAPACITY;
  ok_batch : length (x_batch x) < MAX_BATCH;
  ok_posted : Forall (fun spans => 0 < length spans <= MAX_BATCH) (x_posted x);
  ok_counts : (x_exported x + x_export_failed x <= posted_count x
               <= x_exported x + x_export_failed x + x_rejected x)%Z
}.

Lemma parse_u64_range s v : parse_u64 s = Some v -> (0 <= v <= u64_max)%Z.
Proof.
  unfold parse_u64. intros Hv. destruct (read_number _ _ _ _ _) as [[n [|]]|] eqn:Hn; simplify_eq.
  by apply read_number_range in Hn.
Qed.

Lemma rejected_spans_nonneg body : (0 <= rejected_spans body)%Z.
Proof.
  unfold rejected_spans. destruct (json_parse body) as [v|]; [|done]. destruct (json_index _ _); try done.
  - destruct (_ && _) eqn:Hn; [|done]. bool_hyps. lia.
  - destruct (parse_u64 s) as [n|] eqn:Hp; [|done]. simpl. by apply parse_u64_range in Hp as [? _].
Qed.

Lemma export_all_spans a x : all_spans (export a x) = all_spans x.
Proof.
  unfold export, all_spans. destruct (x_batch x) as [|s l] eqn:Hb; [by rewrite Hb|].
  destruct (match post_result a with Ok _ => _ | Err _ => _ end) as [[[fl ex] rj] fd]. unfold queued.
  cbn [x_posted x_batch x_queue]. rewrite concat_app, <- !app_assoc. simpl. by rewrite app_nil_r.
Qed.

Lemma export_batch a x : x_batch (export a x) = [].
Proof.
  unfold export. destruct (x_batch x) eqn:Hb; [done|].
  by destruct (match post_result a with Ok _ => _ | Err _ => _ end) as [[[fl ex] rj] fd].
Qed.

Lemma export_queue a x : x_queue (export a x) = x_queue x.
Proof.
  unfold export. destruct (x_batch x); [done|].
  by destruct (match post_result a with Ok _ => _ | Err _ => _ end) as [[[fl ex] rj] fd].
Qed.

Lemma export_posted a x : exists l, x_posted (export a x) = x_posted x ++ l.
Proof.
  unfold export. destruct (x_batch x) as [|s b]; [exists []; by rewrite app_nil_r|].
  destruct (match post_result a with Ok _ => _ | Err _ => _ end) as [[[fl ex] rj] fd]. by exists [s :: b].
Qed.

(** A batch that may be full is posted whole. *)
Lemma export_ok a x :
  length (x_queue x) <= QUEUE_CAPACITY -> length (x_batch x) <= MAX_BATCH ->
  Forall (fun spans => 0 < length spans <= MAX_BATCH) (x_posted x) ->
  (x_exported x + x_export_failed x <= posted_count x <= x_exported x + x_export_failed x + x_rejected x)%Z ->
  exporter_ok (export a x).
Proof.
  intros Hq Hb Hp Hc. unfold export. destruct (x_batch x) as [|s l] eqn:Hbx.
  { split; try done. rewrite Hbx. simpl. unfold MAX_BATCH. lia. }
  destruct (match post_result a with Ok _ => _ | Err _ => _ end) as [[[fl ex] rj] fd] eqn:Hr.
  assert (Hlen : (ex + fd <= Z.of_nat (length (s :: l)) <= ex + fd + rj)%Z).
  { destruct (post_result a) as [r|e] eqn:Ha; injection Hr as <- <- <- <-; cbn [length]; [|lia].
    assert (0 <= r)%Z; [|unfold saturating_sub; lia]. unfold post_result in Ha. destruct a; [done|].
    destruct (_ && _); [|done]. injection Ha as <-. apply rejected_spans_nonneg. }
  split; cbn [x_queue x_batch x_posted x_exported x_export_failed x_rejected]; [done|simpl; unfold MAX_BATCH; lia| |].
  - apply Forall_app. split; [done|]. constructor; [|constructor]. split; [simpl; lia|done].
  - unfold posted_count in *. cbn [x_posted]. rewrite concat_app, length_app, Nat2Z.inj_add.
    replace (concat [s :: l]) with (s :: l) by (cbn; by rewrite app_nil_r). lia.
Qed.

Lemma handle_ok e x : exporter_ok x -> exporter_ok (handle e x).
Proof.
  intros Hx. pose proof Hx as [Hq Hb Hp Hc]. destruct e as [span|ack|a|a|a]; cbn [handle].
  - unfold record. destruct (_ <? _) eqn:Hr; [|by split]. split; try done. simpl. rewrite length_app. simpl.
    apply Nat.ltb_lt in Hr. lia.
  - unfold flush. destruct (_ <? _) eqn:Hr; [|done]. split; try done. simpl. rewrite length_app. simpl.
    apply Nat.ltb_lt in Hr. lia.
  - destruct (x_running x); [|done]. unfold receive. destruct (x_queue x) as [|[span|ack] q] eqn:Hqx; [done|..].
    + cbn [x_batch set_batch set_queue]. destruct (_ <=? _) eqn:Hl; rewrite length_app in Hl; cbn [length] in Hl.
      * apply export_ok; cbn [x_queue x_batch x_posted set_batch set_queue]; try done; [cbn [length] in Hq; lia|].
        rewrite length_app. simpl. lia.
      * apply Nat.leb_gt in Hl. split; cbn [x_queue x_batch x_posted set_batch set_queue]; try done; [cbn [length] in Hq; lia|].
        rewrite length_app. simpl. lia.
    + assert (Hx' : exporter_ok (export a (set_queue q x))).
      { apply export_ok; cbn [x_queue x_batch x_posted set_queue]; try done; [cbn [length] in Hq; lia|lia]. }
      by destruct Hx'; split.
  - destruct (x_running x); [|done]. apply export_ok; try done. lia.
  - destruct (x_running x); [|done]. unfold close. destruct (x_queue x) eqn:Hqx; [|done].
    assert (Hx' : exporter_ok (export a x)) by (apply export_ok; rewrite ?Hqx; try done; lia).
    by destruct Hx'; split.
Qed.

Lemma handle_all_spans e x :
  all_spans (handle e x)
  = all_spans x ++ match e with Record_ span => if room x then [span] else [] | _ => [] end.
Proof.
  destruct e as [span|ack|a|a|a]; cbn [handle]; rewrite ?app_nil_r.
  - unfold record, room. destruct (_ <? _); [|by rewrite app_nil_r]. unfold all_spans, queued. simpl.
    by rewrite omap_app, !app_assoc.
  - unfold flush. destruct (_ <? _); [|done]. unfold all_spans, queued. simpl. by rewrite omap_app, app_nil_r.
  - destruct (x_running x); [|done]. unfold receive. destruct (x_queue x) as [|[span|ack] q] eqn:Hq; [done|..].
    + assert (Hs : all_spans (set_batch (x_batch x ++ [span]) (set_queue q x)) = all_spans x).
      { unfold all_spans, queued. simpl. rewrite Hq. simpl. by rewrite <- !app_assoc. }
      destruct (_ <=? _); [by rewrite export_all_spans|exact Hs].
    + change (all_spans (acknowledge ack ?y)) with (all_spans y). rewrite export_all_spans.
      unfold all_spans, queued. simpl. by rewrite Hq.
  - destruct (x_running x); [apply export_all_spans|done].
  - destruct (x_running x); [|done]. unfold close. destruct (x_queue x); [|done]. apply export_all_spans.
Qed.

Lemma run_snoc es e x : run (es ++ [e]) x = handle e (run es x).
Proof. unfold run. by rewrite foldl_app. Qed.

Lemma run_all_spans es x : all_spans (run es x) = all_spans x ++ accepted es x.
Proof.
  revert x. induction es as [|e es IH]; intros x; simpl; [by rewrite app_nil_r|].
  by rewrite IH, handle_all_spans, app_assoc.
Qed.

Lemma run_ok es x : exporter_ok x -> exporter_ok (run es x).
Proof. revert x. induction es as [|e es IH]; intros x Hx; simpl; [done|]. by apply IH, handle_ok. Qed.

Lemma start_ok : exporter_ok start.
Proof. split; simpl; unfold QUEUE_CAPACITY, MAX_BATCH, posted_count; simpl; try lia. constructor. Qed.

Lemma export_queue_full a x : x_queue_full (export a x) = x_queue_full x.
Proof.
  unfold export. destruct (x_batch x); [done|].
  by destruct (match post_result a with Ok _ => _ | Err _ => _ end) as [[[fl ex] rj] fd].
Qed.

Lemma handle_queue_full e x :
  x_queue_full (handle e x)
  = (x_queue_full x + Z.of_nat (match e with Record_ _ => if room x then 0 else 1 | _ => 0 end))%Z.
Proof.
  destruct e as [span|ack|a|a|a]; cbn [handle].
  - unfold record, room. destruct (_ <? _); simpl; lia.
  - unfold flush. destruct (_ <? _); simpl; lia.
  - rewrite Z.add_0_r. destruct (x_running x); [|done]. unfold receive.
    destruct (x_queue x) as [|[span|ack] q]; [done| |].
    + by destruct (_ <=? _); rewrite ?export_queue_full.
    + change (x_queue_full (acknowledge ack ?y)) with (x_queue_full y). by rewrite export_queue_full.
  - rewrite Z.add_0_r. destruct (x_running x); [apply export_queue_full|done].
  - rewrite Z.add_0_r. destruct (x_running x); [|done]. unfold close. destruct (x_queue x); [|done].
    apply export_queue_full.
Qed.

Lemma run_queue_full es x : x_queue_full (run es x) = (x_queue_full x + Z.of_nat (refused es x))%Z.
Proof.
  revert x. induction es as [|e es IH]; intros x; simpl; [lia|]. rewrite IH, handle_queue_full. lia.
Qed.

(** What a flush is still waiting for, or has obtained. *)
Definition flushing (ack : nat) (before : list SpanRecord) (x : Exporter) : Prop :=
  (exists q1 q2, x_queue x = (q1 ++ Flush ack :: q2) /\ (Flush ack ∉ q1) /\ (ack ∉ x_acked x)
     /\ (concat (x_posted x) ++ x_batch x ++ omap span_of q1) = before)
  \/ before `prefix_of` concat (x_posted x).

Lemma prefix_export a before x : before `prefix_of` concat (x_posted x) -> before `prefix_of` concat (x_posted (export a x)).
Proof. intros Hp. destruct (export_posted a x) as [l ->]. rewrite concat_app. by apply prefix_app_r. Qed.

Lemma export_acked a x : x_acked (export a x) = x_acked x.
Proof.
  unfold export. destruct (x_batch x); [done|].
  by destruct (match post_result a with Ok _ => _ | Err _ => _ end) as [[[fl ex] rj] fd].
Qed.

Lemma export_sent a x : concat (x_posted (export a x)) = concat (x_posted x) ++ x_batch x.
Proof.
  unfold export. destruct (x_batch x) as [|s l] eqn:Hb; [by rewrite app_nil_r|].
  destruct (match post_result a with Ok _ => _ | Err _ => _ end) as [[[fl ex] rj] fd]. simpl.
  rewrite concat_app. simpl. by rewrite app_nil_r.
Qed.

Lemma export_flushing a ack before x : flushing ack before x -> flushing ack before (export a x).
Proof.
  intros [(q1 & q2 & Hq & Hn & Ha & Hb)|Hp]; [|by right; apply prefix_export].
  left. exists q1, q2. rewrite export_queue, export_acked, export_batch, export_sent.
  split_and!; try done. by rewrite <- app_assoc.
Qed.

Lemma receive_flushing a ack before x : flushing ack before x -> flushing ack before (receive a x).
Proof.
  unfold receive. intros [(q1 & q2 & Hq & Hn & Ha & Hb)|Hp].
  - rewrite Hq. destruct q1 as [|[span|ack'] q1]; cbn [app].
    + right. simpl. rewrite export_sent. simpl. simpl in Hb. rewrite app_nil_r in Hb. by rewrite <- Hb.
    + assert (Hf : flushing ack before (set_batch (x_batch x ++ [span]) (set_queue (q1 ++ Flush ack :: q2) x))).
      { left. exists q1, q2. simpl. split_and!; [done|set_solver|done|]. rewrite <- Hb. simpl. by rewrite <- !app_assoc. }
      destruct (_ <=? _); [by apply export_flushing|exact Hf].
    + left. exists q1, q2. simpl. rewrite export_queue, export_acked, export_batch, export_sent.
      split_and!; [done|set_solver|set_solver|]. simpl. rewrite <- app_assoc. exact Hb.
  - right. destruct (x_queue x) as [|[span|ack'] q]; [done| |].
    + destruct (_ <=? _); [by apply prefix_export|done].
    + simpl. by apply prefix_export.
Qed.

Lemma handle_flushing e ack before x : flushing ack before x -> flushing ack before (handle e x).
Proof.
  intros Hf. assert (Hpush : forall c, flushing ack before (set_queue (x_queue x ++ [c]) x)).
  { intros c. destruct Hf as [(q1 & q2 & Hq & Hn & Ha & Hb)|Hp]; [|by right].
    left. exists q1, (q2 ++ [c]). simpl. by rewrite Hq, <- app_assoc. }
  destruct e as [span|ack'|a|a|a]; cbn [handle].
  - unfold record. destruct (_ <? _); [apply Hpush|exact Hf].
  - unfold flush. destruct (_ <? _); [apply Hpush|exact Hf].
  - destruct (x_running x); [by apply receive_flushing|done].
  - destruct (x_running x); [by apply export_flushing|done].
  - destruct (x_running x); [|done]. unfold close. destruct (x_queue x); [|done].
    destruct (export_flushing a ack before x Hf) as [Hl|Hp]; [by left|by right].
Qed.

Lemma run_flushing es ack before x : flushing ack before x -> flushing ack before (run es x).
Proof. revert x. induction es as [|e es IH]; intros x Hf; simpl; [done|]. by apply IH, handle_flushing. Qed.

(** A flush nobody asked for is neither queued nor acknowledged. *)
Lemma unasked es ack x :
  Flush_ ack ∉ es -> Flush ack ∉ x_queue x -> ack ∉ x_acked x ->
  (Flush ack ∉ x_queue (run es x)) /\ (ack ∉ x_acked (run es x)).
Proof.
  revert x. induction es as [|e es IH]; intros x Hes Hq Ha; simpl; [done|].
  apply not_elem_of_cons in Hes as [He Hes]. apply IH; [done|..].
  - destruct e as [span|ack'|a|a|a]; cbn [handle].
    + unfold record. destruct (_ <? _); simpl; set_solver.
    + unfold flush. destruct (_ <? _); simpl; set_solver.
    + destruct (x_running x); [|done]. unfold receive. destruct (x_queue x) as [|[span|ack'] q] eqn:Hx; [by rewrite Hx| |].
      * destruct (_ <=? _); rewrite ?export_queue; simpl; set_solver.
      * simpl. rewrite export_queue. simpl. set_solver.
    + destruct (x_running x); by rewrite ?export_queue.
    + destruct (x_running x); [|done]. unfold close. destruct (x_queue x) eqn:Hx; simpl; by rewrite ?export_queue, ?Hx.
  - destruct e as [span|ack'|a|a|a]; cbn [handle].
    + unfold record. by destruct (_ <? _).
    + unfold flush. by destruct (_ <? _).
    + destruct (x_running x); [|done]. unfold receive. destruct (x_queue x) as [|[span|ack'] q] eqn:Hx; [done| |].
      * by destruct (_ <=? _); rewrite ?export_acked.
      * simpl. rewrite export_acked. simpl. set_solver.
    + destruct (x_running x); by rewrite ?export_acked.
    + destruct (x_running x); [|done]. unfold close. destruct (x_queue x); simpl; by rewrite ?export_acked.
Qed.

(** ** The encoding loses nothing *)

Lemma show_inj a b : show a = show b -> a = b.
Proof. unfold show. apply (inj pretty). Qed.

Lemma encode_attributes_inj a1 a2 : encode_attributes a1 = encode_attributes a2 -> a1 = a2.
Proof.
  unfold encode_attributes. intros Ha. injection Ha as Ha. revert a2 Ha.
  induction a1 as [|[k1 v1] a1 IH]; intros [|[k2 v2] a2] Ha; try discriminate; [done|].
  cbn in Ha. destruct v1, v2; try discriminate; injection Ha as -> Hv Hl; f_equal; try (by apply IH).
  - by rewrite Hv.
  - by rewrite (show_inj _ _ Hv).
Qed.

Definition event_after_epoch (e : SpanEvent) : Prop := (0 <= ev_time e)%Z.
Definition span_after_epoch (s : SpanRecord) : Prop :=
  (0 <= sp_start s)%Z /\ (0 <= sp_end s)%Z /\ Forall event_after_epoch (sp_events s).

Lemma unix_nanos_inj a b : (0 <= a)%Z -> (0 <= b)%Z -> unix_nanos a = unix_nanos b -> a = b.
Proof. unfold unix_nanos. intros Ha Hb Hs%show_inj. lia. Qed.

Lemma encode_event_inj e1 e2 :
  event_after_epoch e1 -> event_after_epoch e2 -> encode_event e1 = encode_event e2 -> e1 = e2.
Proof.
  intros H1 H2 He. assert (Hf : forall k, json_index (encode_event e1) k = json_index (encode_event e2) k) by by rewrite He.
  pose proof (Hf "timeUnixNano") as Ht. pose proof (Hf "name") as Hn. pose proof (Hf "attributes") as Ha.
  destruct e1 as [t1 n1 a1], e2 as [t2 n2 a2].
  change (VStr (unix_nanos t1) = VStr (unix_nanos t2)) in Ht. change (VStr n1 = VStr n2) in Hn.
  change (encode_attributes a1 = encode_attributes a2) in Ha.
  injection Ht as Ht%unix_nanos_inj; [|done..]. injection Hn as Hn. apply encode_attributes_inj in Ha. by subst.
Qed.

Lemma cons_inj {A} (x y : A) l l' : x :: l = y :: l' -> x = y /\ l = l'.
Proof. intros Hc. by injection Hc. Qed.

Lemma encode_events_inj es1 es2 :
  Forall event_after_epoch es1 -> Forall event_after_epoch es2 -> encode_event <$> es1 = encode_event <$> es2 -> es1 = es2.
Proof.
  intros H1. revert es2. induction H1 as [|e1 es1 He1 Hes1 IH]; intros [|e2 es2] H2 He; try discriminate; [done|].
  apply Forall_cons in H2 as [He2 Hes2]. apply cons_inj in He as [He Hes].
  f_equal; [by apply encode_event_inj|by apply IH].
Qed.

(** The fields of an encoded span. *)
Lemma encode_span_fields s :
  json_index (encode_span s) "traceId" = VStr (sp_trace_id s)
  /\ json_index (encode_span s) "spanId" = VStr (sp_span_id s)
  /\ json_index (encode_span s) "parentSpanId" = from_option VStr VNull (sp_parent_span_id s)
  /\ json_index (encode_span s) "name" = VStr (sp_name s)
  /\ json_index (encode_span s) "startTimeUnixNano" = VStr (unix_nanos (sp_start s))
  /\ json_index (encode_span s) "endTimeUnixNano" = VStr (unix_nanos (sp_end s))
  /\ json_index (encode_span s) "attributes" = encode_attributes (sp_attributes s)
  /\ json_index (json_index (encode_span s) "status") "message" = from_option VStr VNull (sp_error s)
  /\ json_index (encode_span s) "events" =
       match sp_events s with [] => VNull | es => VArr (encode_event <$> es) end.
Proof.
  unfold encode_span. destruct s as [? ? [p|] ? ? ? ? ? [|e es] [m|]]; cbn [sp_parent_span_id sp_events sp_error];
    split_and!; reflexivity.
Qed.

(** From any state: the spans there are when the flush is asked for. *)
Lemma flush_acked es ack x :
  Flush ack ∉ x_queue x -> ack ∉ x_acked x -> room x = true -> ack ∈ x_acked (run (Flush_ ack :: es) x) ->
  all_spans x `prefix_of` concat (x_posted (run (Flush_ ack :: es) x)).
Proof.
  intros Hq Ha Hroom Hacked. assert (Hf : flushing ack (all_spans x) (run (Flush_ ack :: es) x)).
  { apply (run_flushing es). left. exists (x_queue x), []. simpl. unfold flush. unfold room in Hroom. by rewrite Hroom. }
  destruct Hf as [(q1 & q2 & _ & _ & Hn & _)|Hp]; [by destruct Hn|exact Hp].
Qed.

(** ** Properties *)

(** C29: The exporter neither loses, duplicates nor reorders a span it accepted: the
    spans in the requests made, the batch and the queue are the ones recorded while
    the queue had room, in order; the others are counted. Requests are never empty
    and hold at most 512 spans, the queue at most 4096 commands. What is counted as
    exported or failed was posted, and what was posted is counted, as rejected at
    the collector's word. *)
Theorem exporter_conserves es :
  let x := run es start in
  concat (x_posted x) ++ x_batch x ++ queued x = accepted es start
  /\ x_queue_full x = Z.of_nat (refused es start)
  /\ Forall (fun spans => 0 < length spans <= MAX_BATCH) (x_posted x)
  /\ length (x_batch x) < MAX_BATCH /\ length (x_queue x) <= QUEUE_CAPACITY
  /\ (x_exported x + x_export_failed x <= posted_count x
      <= x_exported x + x_export_failed x + x_rejected x)%Z.
Proof.
  cbv zeta. destruct (run_ok es start start_ok) as [Hq Hb Hp Hc].
  split_and!; try done; [exact (run_all_spans es start)|by rewrite run_queue_full|apply Hc|apply Hc].
Qed.

(** C30: A flush that is acknowledged has exported everything recorded before it: by
    then the spans the queue had accepted are all in requests already made, whatever
    else the exporter did in between. *)
Theorem flush_exports_all es1 ack es2
    (Hfresh : Flush_ ack ∉ es1) (Hroom : room (run es1 start) = true)
    (Hacked : ack ∈ x_acked (run (es1 ++ Flush_ ack :: es2) start)) :
  accepted es1 start `prefix_of` concat (x_posted (run (es1 ++ Flush_ ack :: es2) start)).
Proof.
  destruct (unasked es1 ack start Hfresh) as [Hq Ha]; [apply not_elem_of_nil..|].
  unfold run in Hacked. unfold run. rewrite foldl_app in *. rewrite <- (run_all_spans es1 start : _ = accepted es1 start).
  by apply flush_acked.
Qed.

(** The OTLP encoding loses nothing: spans that happened after the epoch and are
    encoded alike are the same, down to their events and attributes. *)
Theorem otlp_injective spans1 spans2
    (H1 : Forall span_after_epoch spans1) (H2 : Forall span_after_epoch spans2)
    (Heq : encode_span <$> spans1 = encode_span <$> spans2) : spans1 = spans2.
Proof.
  revert spans2 H2 Heq. induction H1 as [|s1 l1 (Hs1 & He1 & Hev1) Hl1 IH]; intros [|s2 l2] H2 Heq; try discriminate; [done|].
  apply Forall_cons in H2 as [(Hs2 & He2 & Hev2) Hl2]. apply cons_inj in Heq as [Hs Hl].
  f_equal; [|by apply IH]. clear IH Hl.
  destruct (encode_span_fields s1) as (A1 & A2 & A3 & A4 & A5 & A6 & A7 & A8 & A9).
  destruct (encode_span_fields s2) as (B1 & B2 & B3 & B4 & B5 & B6 & B7 & B8 & B9).
  rewrite Hs in *. destruct s1 as [t1 i1 p1 n1 [] st1 e1 a1 ev1 er1], s2 as [t2 i2 p2 n2 [] st2 e2 a2 ev2 er2]; simpl in *.
  assert (p1 = p2) as -> by (destruct p1, p2; simpl in *; congruence).
  assert (er1 = er2) as -> by (destruct er1, er2; simpl in *; congruence).
  assert (ev1 = ev2) as ->.
  { apply encode_events_inj; [done..|]. destruct ev1, ev2; simpl in *; congruence. }
  assert (a1 = a2) as -> by (apply encode_attributes_inj; congruence).
  assert (st1 = st2) as -> by (apply unix_nanos_inj; [done..|congruence]).
  assert (e1 = e2) as -> by (apply unix_nanos_inj; [done..|congruence]).
  congruence.
Qed.
End exporter.

(** ** Witnesses *)

Module Examples.

#[local] Existing Instance ConfigFmt.Examples.json_text.

Definition span (name : string) : SpanRecord :=
  request_span "GET" "/v1" name "-" 503 1 (Some "n1") None "4bf92f3577b34da6a3ce929d0e0e4736" "00f067aa0ba902b7"
    None 1700000000123456789 5000000 [{| ev_time := 1700000000124456789; ev_name := "retry"; ev_attributes := [] |}].

(** A span recorded before the flush is in the request made before its acknowledgement,
    which fails here; the one after waits. *)
Lemma flush_witness :
  let es1 := [Record_ (span "api")] in
  let es2 := [Record_ (span "web"); Receive (NoAnswer ""); Receive (NoAnswer "timed out")] in
  let x := run (es1 ++ Flush_ 7 :: es2) start in
  x_acked x = [7] /\ x_export_failed x = 1%Z /\ [span "api"] `prefix_of` concat (x_posted x).
Proof.
  cbv zeta. split; [vm_compute; reflexivity|]. split; [vm_compute; reflexivity|].
  apply (flush_exports_all [Record_ (span "api")] 7
    [Record_ (span "web"); Receive (NoAnswer ""); Receive (NoAnswer "timed out")]).
  - intros [Hf|Hf%not_elem_of_nil]%elem_of_cons; [discriminate Hf|exact Hf].
  - vm_compute. reflexivity.
  - vm_compute. left.
Defined.

Lemma otlp_witness : encode_span <$> [span "api"] <> encode_span <$> [span "web"].
Proof.
  assert (Hs : forall n, Forall span_after_epoch [span n]).
  { intros n. constructor; [|constructor]. split; [discriminate|]. split; [discriminate|]. constructor; [discriminate|constructor]. }
  intros Heq. apply (otlp_injective [span "api"] [span "web"] (Hs _) (Hs _)) in Heq. discriminate Heq.
Defined.

(** A ratio of 1 samples every trace and one of 0 none, whatever is drawn. *)
Example sampling (random : spec_float) :
  sample_new_trace f64_one random = true /\ sample_new_trace f64_zero random = false.
Proof. split; reflexivity. Qed.

Example endpoint_example :
  endpoint {| tc_otlp_endpoint := "http://c:4318//"; tc_sample_ratio := f64_one; tc_service_name := "mesh" |}
  = "http://c:4318/v1/traces".
Proof. vm_compute. reflexivity. Qed.

(** The test of [rejected_spans]: a count as a string, as a number, or none. *)
Definition partial (v : Value) : string := Sample.write (VObj [("partialSuccess", VObj [("rejectedSpans", v)])]).
Example rejected_examples :
  rejected_spans (partial (VStr "3")) = 3%Z /\ rejected_spans (partial (VNum 2)) = 2%Z
  /\ rejected_spans (Sample.write (VObj [])) = 0%Z.
Proof. vm_compute. auto. Qed.

End Examples.
