(* ===== verification/Pki.v ===== *)
(** * Certificates and private key files ([src/src/pki.rs])

    Which material a daemon starts with, what issuing a certificate writes, and
    who can read a private key at each moment. Keys and certificates are rcgen's
    and rustls-pemfile's, behind the interface [Rcgen]; a file has its contents and
    its permission bits. Files opened by another process beforehand are outside
    the model. *)

From S2P Require Import Prelude.

#[local] Open Scope stouter_scope.

Definition MESH_SERVER_NAME : string := "stouter-node".

(** The parameters the program sets on a certificate. *)
Record CertParams := {
  cp_san : list string;
  cp_is_ca : bool;
  cp_common_name : string;
  cp_not_before : Z * Z * Z;
  cp_not_after : Z * Z * Z
}.

Class Rcgen := {
  key_pair : Type;
  certificate : Type;
  generate_for : string -> result key_pair string;      (** from randomness *)
  serialize_pem : key_pair -> string;
  serialize_der : key_pair -> string;
  from_pem : string -> option key_pair;
  self_signed : CertParams -> key_pair -> result certificate string;
  signed_by : CertParams -> key_pair -> certificate -> key_pair -> result certificate string;
  cert_der : certificate -> string;
  cert_pem : certificate -> string;
  from_ca_cert_der : string -> option CertParams;
  pem_certs : string -> option string;                  (** the first certificate of a PEM file *)
  pem_key : string -> option string                     (** its private key *)
}.

(** What is written in PEM is read back, and a CA that was self-signed can be again. *)
Class RcgenLaws (R : Rcgen) : Prop := {
  pem_cert_roundtrip : forall c, pem_certs (cert_pem c) = Some (cert_der c);
  pem_pair_roundtrip : forall k, from_pem (serialize_pem k) = Some k;
  pem_key_roundtrip : forall k, pem_key (serialize_pem k) = Some (serialize_der k);
  self_signed_again : forall p k c, self_signed p k = Ok c ->
    exists p' c', from_ca_cert_der (cert_der c) = Some p' /\ self_signed p' k = Ok c'
}.

Record PkiMaterial := { ca_cert_der : string; node_cert_der : string; node_key : string }.

(** ** Files *)

Record File := { f_contents : string; f_mode : Z }.
Abbreviation Files := (gmap string File).

(** What may go wrong, by path; [umask] of the process. *)
Record PkiEnv := {
  umask : Z;
  create_dir_ok : string -> bool;
  readable : string -> bool;
  open_ok : string -> bool;
  chmod_ok : string -> bool;
  written : string -> option nat;   (** the bytes that make it, when a write fails *)
  sync_ok : string -> bool
}.

Definition join (dir name : string) : string := dir +:+ "/" +:+ name.
Definition exists_ (path : string) (fs : Files) : bool := bool_decide (is_Some (fs !! path)).
Definition read_to_string (env : PkiEnv) (path : string) (fs : Files) : result string string :=
  if readable env path then match fs !! path with Some f => Ok (f_contents f) | None => Err ("read " +:+ path) end
  else Err ("read " +:+ path).

(** [OpenOptions]: truncated, or created with [mode] less the umask. *)
Definition open_truncated (env : PkiEnv) (mode : Z) (path : string) (fs : Files) : Files :=
  <[path := {| f_contents := "";
               f_mode := match fs !! path with Some f => f_mode f | None => Z.land mode (Z.lnot (umask env)) end |}]> fs.
Definition set_contents (path data : string) (fs : Files) : Files :=
  match fs !! path with
  | Some f => <[path := {| f_contents := data; f_mode := f_mode f |}]> fs
  | None => fs
  end.
Definition set_mode (path : string) (mode : Z) (fs : Files) : Files :=
  match fs !! path with
  | Some f => <[path := {| f_contents := f_contents f; f_mode := mode |}]> fs
  | None => fs
  end.

(** Each operation gives the states it goes through, oldest first. *)
Abbreviation States := (list Files).
Definition final (fs : Files) (tr : States) : Files := default fs (last tr).

(** [std::fs::write]. *)
Definition fs_write (env : PkiEnv) (path data : string) (fs : Files) : States * result unit string :=
  if open_ok env path then
    let fs1 := open_truncated env 438 path fs in
    match written env path with
    | Some n => ([fs1; set_contents path (String.substring 0 n data) fs1], Err ("write " +:+ path))
    | None => ([fs1; set_contents path data fs1], Ok tt)
    end
  else ([], Err ("write " +:+ path)).

Definition write_private_key (env : PkiEnv) (path pem : string) (fs : Files) : States * result unit string :=
  let failed := Err ("write " +:+ path) in
  if open_ok env path then
    let fs1 := open_truncated env 384 path fs in
    if chmod_ok env path then
      let fs2 := set_mode path 384 fs1 in
      match written env path with
      | Some n => ([fs1; fs2; set_contents path (String.substring 0 n pem) fs2], failed)
      | None =>
          let fs3 := set_contents path pem fs2 in
          ([fs1; fs2; fs3], if sync_ok env path then Ok tt else failed)
      end
    else ([fs1], failed)
  else ([], failed).

(** [warn_if_readable_by_others]: whether it warns. *)
Definition warn_if_readable_by_others (path : string) (fs : Files) : bool :=
  match fs !! path with Some f => negb (Z.land (Z.land (f_mode f) 511) 63 =? 0)%Z | None => false end.

(** ** Material *)

Section pki.
Context `{Rcgen} (env : PkiEnv).

Definition of_option {A} (e : string) (o : option A) : result A string :=
  match o with Some a => Ok a | None => Err e end.

Definition pem_to_der (pem : string) : result string string := of_option "no certificate in PEM" (pem_certs pem).
Definition pem_to_private_key (pem : string) : result string string := of_option "no private key in PEM" (pem_key pem).

Definition ca_params : CertParams :=
  {| cp_san := []; cp_is_ca := true; cp_common_name := "stouter-cluster-ca";
     cp_not_before := (2024, 1, 1)%Z; cp_not_after := (2044, 1, 1)%Z |}.
Definition node_params (node_id : string) : CertParams :=
  {| cp_san := [MESH_SERVER_NAME]; cp_is_ca := false; cp_common_name := node_id;
     cp_not_before := (2024, 1, 1)%Z; cp_not_after := (2034, 1, 1)%Z |}.

Definition generate_ca (seed cert_path key_path : string) (fs : Files)
    : States * result (string * certificate * key_pair) string :=
  match (let? key := generate_for seed in let? cert := self_signed ca_params key in Ok (key, cert)) with
  | Err e => ([], Err e)
  | Ok (key, cert) =>
      let '(tr1, r1) := fs_write env cert_path (cert_pem cert) fs in
      match r1 with
      | Err e => (tr1, Err e)
      | Ok _ =>
          let '(tr2, r2) := write_private_key env key_path (serialize_pem key) (final fs tr1) in
          (tr1 ++ tr2, match r2 with Err e => Err e | Ok _ => Ok (cert_der cert, cert, key) end)
      end
  end.

Definition load_ca (cert_path key_path : string) (fs : Files) : result (string * certificate * key_pair) string :=
  let? cert_pem := read_to_string env cert_path fs in
  let? key_pem := read_to_string env key_path fs in
  let? der := pem_to_der cert_pem in
  let? key := of_option "parse CA key" (from_pem key_pem) in
  let? params := of_option "parse CA cert params" (from_ca_cert_der der) in
  let? cert := self_signed params key in
  Ok (der, cert, key).

Definition generate_node_cert (seed node_id : string) (ca_cert : certificate) (ca_key : key_pair)
    : result (string * string) string :=
  let? key := generate_for seed in
  let? cert := signed_by (node_params node_id) key ca_cert ca_key in
  Ok (cert_der cert, serialize_der key).

Definition load_issued (ca_cert_path node_cert_path node_key_path : string) (fs : Files) : result PkiMaterial string :=
  let? ca_pem := read_to_string env ca_cert_path fs in
  let? node_cert_pem := read_to_string env node_cert_path fs in
  let? node_key_pem := read_to_string env node_key_path fs in
  let? ca := pem_to_der ca_pem in
  let? cert := pem_to_der node_cert_pem in
  let? key := pem_to_private_key node_key_pem in
  Ok {| ca_cert_der := ca; node_cert_der := cert; node_key := key |}.

(** A fresh node certificate under a CA. *)
Definition with_node_cert (seed node_id : string) (ca : result (string * certificate * key_pair) string)
    : result PkiMaterial string :=
  let? (der, cert, key) := ca in
  let? (node_der, node_key) := generate_node_cert seed node_id cert key in
  Ok {| ca_cert_der := der; node_cert_der := node_der; node_key := node_key |}.

(** [load_or_create]; [ca_seed] and [seed] are the randomness of the keys. *)
Definition load_or_create (ca_seed seed tls_dir node_id : string) (fs : Files) : States * result PkiMaterial string :=
  if negb (create_dir_ok env tls_dir) then ([], Err ("create TLS directory " +:+ tls_dir)) else
  let ca_cert_path := join tls_dir "ca.crt" in
  let ca_key_path := join tls_dir "ca.key" in
  let node_cert_path := join tls_dir "node.crt" in
  let node_key_path := join tls_dir "node.key" in
  if exists_ ca_cert_path fs && exists_ ca_key_path fs then
    ([], with_node_cert seed node_id (load_ca ca_cert_path ca_key_path fs))
  else if exists_ ca_cert_path fs && exists_ node_cert_path fs && exists_ node_key_path fs then
    ([], load_issued ca_cert_path node_cert_path node_key_path fs)
  else
    let '(tr, ca) := generate_ca ca_seed ca_cert_path ca_key_path fs in
    (tr, with_node_cert seed node_id ca).

(** [issue_cert_to_dir]. *)
Definition issue_cert_to_dir (seed tls_dir node_id out_dir : string) (fs : Files) : States * result unit string :=
  let ca_cert_path := join tls_dir "ca.crt" in
  let ca_key_path := join tls_dir "ca.key" in
  if negb (exists_ ca_cert_path fs) || negb (exists_ ca_key_path fs) then
    ([], Err ("CA not found in " +:+ tls_dir +:+ "; start the daemon once to generate it"))
  else
    match (let? (_, ca_cert, ca_key) := load_ca ca_cert_path ca_key_path fs in
           let? key := generate_for seed in
           let? cert := signed_by (node_params node_id) key ca_cert ca_key in
           if create_dir_ok env out_dir then
             let? ca_pem := read_to_string env ca_cert_path fs in Ok (key, cert, ca_pem)
           else Err ("create output directory " +:+ out_dir)) with
    | Err e => ([], Err e)
    | Ok (key, cert, ca_pem) =>
        let '(tr1, r1) := fs_write env (join out_dir "ca.crt") ca_pem fs in
        match r1 with
        | Err _ => (tr1, Err "write ca.crt")
        | Ok _ =>
            let fs1 := final fs tr1 in
            let '(tr2, r2) := fs_write env (join out_dir "node.crt") (cert_pem cert) fs1 in
            match r2 with
            | Err _ => (tr1 ++ tr2, Err "write node.crt")
            | Ok _ =>
                let fs2 := final fs1 tr2 in
                let '(tr3, r3) := write_private_key env (join out_dir "node.key") (serialize_pem key) fs2 in
                (tr1 ++ tr2 ++ tr3, match r3 with Err _ => Err "write node.key" | Ok _ => Ok tt end)
            end
        end
    end.

(** ** Paths *)

Lemma join_inj dir a b : join dir a = join dir b -> a = b.
Proof.
  unfold join. intros Hj. apply (f_equal str_to_list) in Hj. rewrite !str_to_list_app in Hj.
  apply app_inv_head, app_inv_head in Hj. by apply str_to_list_inj.
Qed.

Lemma join_ne dir a b : a <> b -> join dir a <> join dir b.
Proof. intros Hne Hj. by apply Hne, (join_inj dir). Qed.

(** ** What a write does *)

(** Only the file at [path] differs. *)
Definition others_kept (path : string) (fs fs' : Files) : Prop := forall q, q <> path -> fs' !! q = fs !! q.

(** What the file at [path] holds is what it held, nothing, or its owner's alone. *)
Definition protected (path : string) (fs fs' : Files) : Prop :=
  match fs' !! path with
  | Some f => fs' !! path = fs !! path \/ f_contents f = "" \/ f_mode f = 384%Z
  | None => True
  end.

(** The file holds the first bytes of [data], all of them or fewer. *)
Definition holds_part (data : string) (file : option File) : Prop :=
  exists f n, file = Some f /\ f_contents f = String.substring 0 n data.

(** Every file but [key] is as it was, or holds a part of what may be written there. *)
Definition public_elsewhere (key : string) (may : string -> string -> Prop) (fs fs' : Files) : Prop :=
  forall q, q <> key -> fs' !! q = fs !! q \/ exists data, may q data /\ holds_part data (fs' !! q).

(** [pem] is written nowhere but to [key], and there only while nobody else can read it. *)
Definition key_guarded (key pem : string) (may : string -> string -> Prop) (fs fs' : Files) : Prop :=
  protected key fs fs'
  /\ (fs' !! key = fs !! key \/ holds_part pem (fs' !! key))
  /\ public_elsewhere key may fs fs'.

Ltac each_state := repeat (apply Forall_cons_2; [by auto|]); apply Forall_nil_2.

Lemma holds_all data f : f_contents f = data -> holds_part data (Some f).
Proof. intros Hf. exists f, (String.length data). by rewrite substring_all. Qed.

Lemma holds_none data f : f_contents f = "" -> holds_part data (Some f).
Proof. intros Hf. exists f, 0. by destruct data. Qed.

Lemma fs_write_states path data fs :
  let '(tr, r) := fs_write env path data fs in
  Forall (fun fs' => others_kept path fs fs' /\ holds_part data (fs' !! path)) tr
  /\ (r = Ok tt -> exists f, final fs tr !! path = Some f /\ f_contents f = data).
Proof.
  unfold fs_write. destruct (open_ok env path); [|by split; [constructor|]].
  set (fs1 := open_truncated env 438 path fs).
  assert (Hset : forall d, exists f, set_contents path d fs1 = <[path := f]> fs /\ f_contents f = d).
  { intros d. unfold set_contents, fs1, open_truncated. rewrite lookup_insert_eq, insert_insert_eq. by eexists. }
  assert (Hk : forall f, others_kept path fs (<[path := f]> fs)) by (intros f q Hq; by rewrite lookup_insert_ne).
  assert (H1 : others_kept path fs fs1 /\ holds_part data (fs1 !! path)).
  { split; [apply Hk|]. unfold fs1, open_truncated. rewrite lookup_insert_eq. by apply holds_none. }
  destruct (written env path) as [n|].
  - destruct (Hset (String.substring 0 n data)) as (f & -> & Hf). split; [|done].
    apply Forall_cons_2; [done|]. apply Forall_cons_2; [|apply Forall_nil_2].
    split; [apply Hk|]. rewrite lookup_insert_eq. by exists f, n.
  - destruct (Hset data) as (f & -> & Hf). split.
    + apply Forall_cons_2; [done|]. apply Forall_cons_2; [|apply Forall_nil_2].
      split; [apply Hk|]. rewrite lookup_insert_eq. by apply holds_all.
    + intros _. exists f. split; [|done]. unfold final. simpl. apply lookup_insert_eq.
Qed.

Lemma write_private_key_states path pem fs :
  let '(tr, r) := write_private_key env path pem fs in
  Forall (fun fs' => others_kept path fs fs' /\ protected path fs fs' /\ holds_part pem (fs' !! path)) tr
  /\ (r = Ok tt -> final fs tr !! path = Some {| f_contents := pem; f_mode := 384 |}).
Proof.
  unfold write_private_key. destruct (open_ok env path); [|by split; [constructor|]].
  set (fs1 := open_truncated env 384 path fs).
  assert (Hk : forall f, others_kept path fs (<[path := f]> fs)) by (intros f q Hq; by rewrite lookup_insert_ne).
  assert (H1 : others_kept path fs fs1 /\ protected path fs fs1 /\ holds_part pem (fs1 !! path)).
  { split; [apply Hk|]. unfold protected, fs1, open_truncated. rewrite lookup_insert_eq.
    split; [by right; left|by apply holds_none]. }
  destruct (chmod_ok env path); [|by split; [each_state|]].
  assert (Hset : set_mode path 384 fs1 = <[path := {| f_contents := ""; f_mode := 384 |}]> fs).
  { unfold set_mode, fs1, open_truncated. rewrite lookup_insert_eq. by rewrite insert_insert_eq. }
  assert (Hwr : forall d, set_contents path d (<[path := {| f_contents := ""; f_mode := 384 |}]> fs)
    = <[path := {| f_contents := d; f_mode := 384 |}]> fs).
  { intros d. unfold set_contents. rewrite lookup_insert_eq. by rewrite insert_insert_eq. }
  assert (H2 : forall n d, d = String.substring 0 n pem ->
    others_kept path fs (<[path := {| f_contents := d; f_mode := 384 |}]> fs)
    /\ protected path fs (<[path := {| f_contents := d; f_mode := 384 |}]> fs)
    /\ holds_part pem (<[path := {| f_contents := d; f_mode := 384 |}]> fs !! path)).
  { intros n d Hd. split; [apply Hk|]. unfold protected. rewrite lookup_insert_eq. split; [by right; right|].
    by exists {| f_contents := d; f_mode := 384 |}, n. }
  rewrite Hset. destruct (written env path) as [n|]; rewrite !Hwr; (split; [repeat (apply Forall_cons_2; [|])|]).
  all: try done; try apply Forall_nil_2.
  - apply (H2 0). by destruct pem.
  - by apply (H2 n).
  - apply (H2 0). by destruct pem.
  - apply (H2 (String.length pem)). by rewrite substring_all.
  - intros _. unfold final. simpl. apply lookup_insert_eq.
Qed.

(** A state that only part of the steps led to. *)
Lemma final_holds (P : Files -> Prop) fs tr : P fs -> Forall P tr -> P (final fs tr).
Proof.
  intros Hfs Htr. unfold final. destruct (last tr) as [x|] eqn:Hl; [|done]. simpl.
  rewrite Forall_forall in Htr. apply Htr. apply last_Some in Hl as [l ->]. set_solver.
Qed.

Lemma final_kept path (P : Files -> Prop) fs tr :
  Forall (fun fs' => others_kept path fs fs' /\ P fs') tr -> others_kept path fs (final fs tr).
Proof. intros Htr. apply final_holds; [done|]. eapply Forall_impl; [exact Htr|]. by intros fs' []. Qed.

Lemma final_app fs tr1 tr2 : final fs (tr1 ++ tr2) = final (final fs tr1) tr2.
Proof. unfold final. rewrite last_app. by destruct (last tr2). Qed.

(** Writing elsewhere what may be written there, before the key. *)
Definition before_key (key : string) (may : string -> string -> Prop) (fs fs' : Files) : Prop :=
  fs' !! key = fs !! key /\ public_elsewhere key may fs fs'.

Lemma before_key_refl key may fs : before_key key may fs fs.
Proof. split; [done|]. intros q _. by left. Qed.

Lemma before_key_guarded key pem may fs fs' : before_key key may fs fs' -> key_guarded key pem may fs fs'.
Proof.
  intros [Hk Hp]. split_and!; [|by left|done]. unfold protected. rewrite Hk. destruct (fs !! key); [by left|done].
Qed.

Lemma fs_write_before_key key (may : string -> string -> Prop) path data fs fs1 :
  path <> key -> may path data -> before_key key may fs fs1 ->
  Forall (before_key key may fs) (fs_write env path data fs1).1.
Proof.
  intros Hne Hmay [Hk Hp]. pose proof (fs_write_states path data fs1) as Hw.
  destruct (fs_write _ _ _ _) as [tr r]. destruct Hw as [Hw _]. cbn [fst].
  eapply Forall_impl; [exact Hw|]. intros fs' [Ho Hd]. split.
  - by rewrite (Ho key (not_eq_sym Hne)).
  - intros q Hq. destruct (decide (q = path)) as [->|Hqp]; [right; by exists data|]. rewrite (Ho q Hqp). by apply Hp.
Qed.

Lemma write_private_key_guarded key pem may fs fs1 :
  before_key key may fs fs1 -> Forall (key_guarded key pem may fs) (write_private_key env key pem fs1).1.
Proof.
  intros [Hk Hp]. pose proof (write_private_key_states key pem fs1) as Hw.
  destruct (write_private_key _ _ _ _) as [tr r]. destruct Hw as [Hw _]. cbn [fst].
  eapply Forall_impl; [exact Hw|]. intros fs' (Ho & Hpr & Hd). split_and!.
  - unfold protected in *. by rewrite <- Hk.
  - by right.
  - intros q Hq. rewrite (Ho q Hq). by apply Hp.
Qed.

Lemma key_crt_ne dir : join dir "ca.key" <> join dir "ca.crt".
Proof. by apply join_ne. Qed.
Lemma node_key_crt_ne dir : join dir "node.key" <> join dir "ca.crt" /\ join dir "node.key" <> join dir "node.crt".
Proof. split; by apply join_ne. Qed.

(** What may be written beside the CA's key: its certificate, to [ca.crt]. *)
Definition ca_public (ca_seed dir : string) (path data : string) : Prop :=
  path = join dir "ca.crt" /\ exists key cert, generate_for ca_seed = Ok key /\ self_signed ca_params key = Ok cert
    /\ data = cert_pem cert.

(** And beside a node's: the CA's certificate as [dir] has it, and the one signed for the node. *)
Definition node_public (seed dir node out : string) (fs : Files) (path data : string) : Prop :=
  (path = join out "ca.crt" /\ read_to_string env (join dir "ca.crt") fs = Ok data)
  \/ path = join out "node.crt" /\ exists der ca_cert ca_key key cert,
      load_ca (join dir "ca.crt") (join dir "ca.key") fs = Ok (der, ca_cert, ca_key)
      /\ generate_for seed = Ok key /\ signed_by (node_params node) key ca_cert ca_key = Ok cert /\ data = cert_pem cert.

Lemma generate_ca_states seed dir fs :
  let '(tr, r) := generate_ca seed (join dir "ca.crt") (join dir "ca.key") fs in
  match generate_for seed with
  | Ok key => Forall (key_guarded (join dir "ca.key") (serialize_pem key) (ca_public seed dir) fs) tr
  | Err _ => tr = []
  end
  /\ match r with
     | Ok (der, cert, key) =>
         generate_for seed = Ok key /\ self_signed ca_params key = Ok cert /\ der = cert_der cert
         /\ (exists f, final fs tr !! join dir "ca.crt" = Some f /\ f_contents f = cert_pem cert)
         /\ final fs tr !! join dir "ca.key" = Some {| f_contents := serialize_pem key; f_mode := 384 |}
     | Err _ => True
     end.
Proof.
  unfold generate_ca. destruct (generate_for seed) as [key|e] eqn:Hkey; [|by split].
  destruct (self_signed ca_params key) as [cert|e] eqn:Hcert; [|by split].
  assert (Hb : Forall (before_key (join dir "ca.key") (ca_public seed dir) fs) (fs_write env (join dir "ca.crt") (cert_pem cert) fs).1).
  { apply fs_write_before_key; [apply not_eq_sym, key_crt_ne| |apply before_key_refl]. split; [done|]. by exists key, cert. }
  pose proof (fs_write_states (join dir "ca.crt") (cert_pem cert) fs) as Hw.
  destruct (fs_write _ _ _ _) as [tr1 r1]. destruct Hw as [_ Hok]. cbn [fst] in Hb.
  assert (Hg1 : Forall (key_guarded (join dir "ca.key") (serialize_pem key) (ca_public seed dir) fs) tr1)
    by (eapply Forall_impl; [exact Hb|]; intros; by apply before_key_guarded).
  apply (final_holds _ fs) in Hb; [|apply before_key_refl].
  destruct r1 as [[]|e]; [|by split]. destruct (Hok eq_refl) as (f & Hf & Hd).
  pose proof (write_private_key_guarded _ (serialize_pem key) _ _ _ Hb) as Hg2.
  pose proof (write_private_key_states (join dir "ca.key") (serialize_pem key) (final fs tr1)) as Hw.
  destruct (write_private_key _ _ _ _) as [tr2 r2]. destruct Hw as (Hk2 & Hok2). cbn [fst] in Hg2.
  split; [by apply Forall_app|].
  destruct r2 as [[]|e]; [|done]. split_and!; try done; rewrite final_app; [|by apply Hok2].
  exists f. split; [|done]. rewrite (final_kept _ _ _ _ Hk2); [done|]. apply not_eq_sym, key_crt_ne.
Qed.

(** C28: A private key the program makes is never readable by others, and is written
    nowhere else. At every state the files go through while a daemon starts or a
    certificate is issued, whatever fails: the key file holds what it held before,
    or a first part of the new key, and unless that part is empty it has mode 0600,
    so a file that others could read is emptied and tightened before the key goes
    in; and every other file holds what it held before, but for the certificates the
    operation writes beside the key: [ca.crt], and for an issued one [node.crt], each
    with a first part of that certificate. *)
Theorem private_keys_protected ca_seed seed dir out node fs :
  match generate_for ca_seed with
  | Ok key => Forall (key_guarded (join dir "ca.key") (serialize_pem key) (ca_public ca_seed dir) fs)
                (load_or_create ca_seed seed dir node fs).1
  | Err _ => (load_or_create ca_seed seed dir node fs).1 = []
  end
  /\ match generate_for seed with
     | Ok key => Forall (key_guarded (join out "node.key") (serialize_pem key) (node_public seed dir node out fs) fs)
                   (issue_cert_to_dir seed dir node out fs).1
     | Err _ => (issue_cert_to_dir seed dir node out fs).1 = []
     end.
Proof.
  split.
  - unfold load_or_create. destruct (negb _); [by destruct (generate_for ca_seed)|].
    destruct (_ && _); [by destruct (generate_for ca_seed)|]. destruct (_ && _); [by destruct (generate_for ca_seed)|].
    pose proof (generate_ca_states ca_seed dir fs) as Hg. destruct (generate_ca _ _ _ _) as [tr ca]. apply Hg.
  - unfold issue_cert_to_dir. destruct (_ || _); [by destruct (generate_for seed)|].
    destruct (load_ca _ _ fs) as [[[der ca_cert] ca_key]|e] eqn:Hca; [|by destruct (generate_for seed)].
    destruct (generate_for seed) as [key|e] eqn:Hkey; [|done].
    destruct (signed_by _ key ca_cert ca_key) as [cert|e] eqn:Hcert; [|done].
    destruct (create_dir_ok env out); [|done].
    destruct (read_to_string env (join dir "ca.crt") fs) as [pem|e] eqn:Hpem; [|done].
    destruct (node_key_crt_ne out) as [Hne1 Hne2]. apply not_eq_sym in Hne1, Hne2.
    set (may := node_public seed dir node out fs). set (path := join out "node.key") in *.
    assert (Hg : forall tr, Forall (before_key path may fs) tr -> Forall (key_guarded path (serialize_pem key) may fs) tr)
      by (intros tr Hb; eapply Forall_impl; [exact Hb|]; intros; by apply before_key_guarded).
    assert (H1 := fs_write_before_key path may _ pem fs fs Hne1 ltac:(by left) (before_key_refl path may fs)).
    destruct (fs_write _ _ pem _) as [tr1 r1]. cbn [fst] in H1. destruct r1 as [[]|]; [|by apply Hg].
    assert (H2 := fs_write_before_key path may _ (cert_pem cert) fs (final fs tr1) Hne2
      ltac:(right; split; [done|by exists der, ca_cert, ca_key, key, cert]) (final_holds _ _ _ (before_key_refl path may fs) H1)).
    pose proof (final_holds _ (final fs tr1) _ (final_holds _ _ _ (before_key_refl path may fs) H1) H2) as H3.
    destruct (fs_write _ _ (cert_pem cert) _) as [tr2 r2]. cbn [fst] in H2, H3.
    destruct r2 as [[]|]; [|by apply Hg, Forall_app].
    pose proof (write_private_key_guarded path (serialize_pem key) may fs _ H3) as H4.
    destruct (write_private_key _ _ _ _) as [tr3 r3]. cbn [fst] in H4 |- *. rewrite !Forall_app. auto.
Qed.

Lemma exists_some path fs f : fs !! path = Some f -> exists_ path fs = true.
Proof. intros Hf. unfold exists_. rewrite Hf. apply bool_decide_eq_true. by eexists. Qed.

Lemma read_some path fs f : readable env path = true -> fs !! path = Some f -> read_to_string env path fs = Ok (f_contents f).
Proof. intros Hr Hf. unfold read_to_string. by rewrite Hr, Hf. Qed.

(** What a first start leaves: a CA that was made and written, which loads again. *)
Lemma start_makes_ca `{!RcgenLaws _} ca_seed seed dir node fs tr m
    (Hread : forall path, readable env path = true)
    (Hnew : exists_ (join dir "ca.crt") fs = false)
    (Hstart : load_or_create ca_seed seed dir node fs = (tr, Ok m)) :
  exists key ca params again,
    generate_for ca_seed = Ok key /\ self_signed ca_params key = Ok ca
    /\ from_ca_cert_der (cert_der ca) = Some params /\ self_signed params key = Ok again
    /\ with_node_cert seed node (Ok (cert_der ca, ca, key)) = Ok m /\ create_dir_ok env dir = true
    /\ exists_ (join dir "ca.crt") (final fs tr) = true /\ exists_ (join dir "ca.key") (final fs tr) = true
    /\ load_ca (join dir "ca.crt") (join dir "ca.key") (final fs tr) = Ok (cert_der ca, again, key).
Proof.
  unfold load_or_create in Hstart. destruct (create_dir_ok env dir) eqn:Hdir; [|done]. cbn [negb] in Hstart.
  rewrite Hnew in Hstart. simpl in Hstart. pose proof (generate_ca_states ca_seed dir fs) as Hg.
  destruct (generate_ca _ _ _ _) as [tr' made]. injection Hstart as <- Hm. destruct Hg as [_ Hg].
  destruct made as [[[der ca] key]|e]; [|done]. destruct Hg as (Hkey & Hcert & -> & (f & Hf & Hpem) & Hkf).
  destruct (self_signed_again _ _ _ Hcert) as (params & again & Hp' & Hc'). exists key, ca, params, again.
  split_and!; try done; [by apply (exists_some _ _ _ Hf)|by apply (exists_some _ _ _ Hkf)|].
  unfold load_ca. rewrite (read_some _ _ _ (Hread _) Hf), (read_some _ _ _ (Hread _) Hkf), Hpem. cbn [f_contents].
  unfold pem_to_der. rewrite pem_cert_roundtrip. cbn [of_option]. rewrite pem_pair_roundtrip. cbn [of_option].
  by rewrite Hp'; cbn [of_option]; rewrite Hc'.
Qed.

(** The cluster's CA survives restarts. Once a start has made a CA, the next
    start, for any node, finds it: it writes nothing and makes a node certificate
    under the same CA certificate and key. *)
Theorem restart_keeps_ca `{!RcgenLaws _} ca_seed seed dir node fs tr m ca_seed' seed' node'
    (Hread : forall path, readable env path = true)
    (Hnew : exists_ (join dir "ca.crt") fs = false)
    (Hstart : load_or_create ca_seed seed dir node fs = (tr, Ok m)) :
  exists key cert, generate_for ca_seed = Ok key
  /\ load_or_create ca_seed' seed' dir node' (final fs tr)
     = ([], with_node_cert seed' node' (Ok (ca_cert_der m, cert, key))).
Proof.
  destruct (start_makes_ca _ _ _ _ _ _ _ Hread Hnew Hstart)
    as (key & ca & params & again & Hkey & _ & _ & _ & Hm & Hdir & H1 & H2 & Hload).
  exists key, again. split; [done|]. unfold load_or_create. rewrite Hdir, H1, H2, Hload. cbn [negb andb].
  simpl in Hm. destruct (generate_node_cert seed node ca key) as [[nd nk]|]; [|done]. by injection Hm as <-.
Qed.

(** The three files a successful [cert issue] leaves. *)
Lemma issued_files seed dir node out fs tr (Hissue : issue_cert_to_dir seed dir node out fs = (tr, Ok tt)) :
  exists der ca_cert ca_key key cert ca_pem,
    load_ca (join dir "ca.crt") (join dir "ca.key") fs = Ok (der, ca_cert, ca_key)
    /\ generate_for seed = Ok key /\ signed_by (node_params node) key ca_cert ca_key = Ok cert
    /\ create_dir_ok env out = true /\ pem_certs ca_pem = Some der
    /\ (exists f, final fs tr !! join out "ca.crt" = Some f /\ f_contents f = ca_pem)
    /\ (exists f, final fs tr !! join out "node.crt" = Some f /\ f_contents f = cert_pem cert)
    /\ final fs tr !! join out "node.key" = Some {| f_contents := serialize_pem key; f_mode := 384 |}
    /\ final fs tr !! join out "ca.key" = fs !! join out "ca.key".
Proof.
  unfold issue_cert_to_dir in Hissue. destruct (_ || _); [done|].
  destruct (load_ca _ _ fs) as [[[der ca_cert] ca_key]|] eqn:Hca; [|done].
  destruct (generate_for seed) as [key|] eqn:Hkey; [|done].
  destruct (signed_by _ key ca_cert ca_key) as [cert|] eqn:Hcert; [|done].
  destruct (create_dir_ok env out) eqn:Hdir; [|done].
  destruct (read_to_string env (join dir "ca.crt") fs) as [ca_pem|] eqn:Hpem; [|done].
  assert (Hder : pem_certs ca_pem = Some der).
  { unfold load_ca in Hca. rewrite Hpem in Hca. destruct (read_to_string env (join dir "ca.key") fs); [|done].
    unfold pem_to_der in Hca. destruct (pem_certs ca_pem) as [d|]; [|done]. simpl in Hca.
    repeat case_match; simplify_eq. done. }
  exists der, ca_cert, ca_key, key, cert, ca_pem. do 5 (split; [done|]).
  pose proof (fs_write_states (join out "ca.crt") ca_pem fs) as Hw. destruct (fs_write _ _ ca_pem _) as [tr1 r1].
  destruct Hw as [Hk1 Hf1]. destruct r1 as [[]|]; [|done]. destruct (Hf1 eq_refl) as (f1 & Hf & Hd1).
  pose proof (fs_write_states (join out "node.crt") (cert_pem cert) (final fs tr1)) as Hw.
  destruct (fs_write _ _ (cert_pem cert) _) as [tr2 r2]. destruct Hw as [Hk2 Hf2]. destruct r2 as [[]|]; [|done].
  destruct (Hf2 eq_refl) as (f2 & Hf' & Hd2).
  pose proof (write_private_key_states (join out "node.key") (serialize_pem key) (final (final fs tr1) tr2)) as Hw.
  destruct (write_private_key _ _ _ _) as [tr3 r3]. destruct Hw as (Hk3 & Hf3). destruct r3 as [[]|]; [|done].
  injection Hissue as <-. specialize (Hf3 eq_refl). rewrite !final_app. apply final_kept in Hk1, Hk2, Hk3.
  split_and!; [exists f1|exists f2|done|].
  - split; [|done]. rewrite Hk3, Hk2 by (by apply join_ne). done.
  - split; [|done]. by rewrite Hk3 by (by apply join_ne).
  - by rewrite Hk3, Hk2, Hk1 by (by apply join_ne).
Qed.

(** What [cert issue] writes is what the other node starts with: a directory
    without a CA key, once a certificate was issued into it, loads without writing
    anything. *)
Lemma issued_loads `{!RcgenLaws _} seed dir node out fs tr ca_seed' seed' node'
    (Hread : forall path, readable env path = true)
    (Hout : exists_ (join out "ca.key") fs = false)
    (Hissue : issue_cert_to_dir seed dir node out fs = (tr, Ok tt)) :
  exists der ca_cert ca_key key cert,
    load_ca (join dir "ca.crt") (join dir "ca.key") fs = Ok (der, ca_cert, ca_key)
    /\ generate_for seed = Ok key /\ signed_by (node_params node) key ca_cert ca_key = Ok cert
    /\ load_or_create ca_seed' seed' out node' (final fs tr)
       = ([], Ok {| ca_cert_der := der; node_cert_der := cert_der cert; node_key := serialize_der key |}).
Proof.
  destruct (issued_files _ _ _ _ _ _ Hissue) as
    (der & ca_cert & ca_key & key & cert & pem & Hca & Hkey & Hcert & Hdir & Hder & (f1 & H1 & Hd1) & (f2 & H2 & Hd2) & H3 & H4).
  exists der, ca_cert, ca_key, key, cert. split_and!; [done..|].
  assert (H5 : exists_ (join out "ca.key") (final fs tr) = false) by (unfold exists_ in *; by rewrite H4).
  unfold load_or_create. rewrite Hdir, (exists_some _ _ _ H1), H5, (exists_some _ _ _ H2), (exists_some _ _ _ H3).
  cbn [negb andb]. unfold load_issued.
  rewrite (read_some _ _ _ (Hread _) H1), (read_some _ _ _ (Hread _) H2), (read_some _ _ _ (Hread _) H3), Hd1, Hd2.
  cbn [f_contents]. unfold pem_to_der, pem_to_private_key. rewrite Hder, pem_cert_roundtrip, pem_key_roundtrip. done.
Qed.

End pki.

(** ** Witnesses *)

Module Examples.

#[local] Instance rcgen : Rcgen :=
  {| key_pair := string;
     certificate := string * string;
     generate_for s := Ok s;
     serialize_pem k := "key " +:+ k;
     serialize_der k := k;
     from_pem := strip_prefix "key ";
     self_signed p k := Ok (cp_common_name p, k);
     signed_by p k ca ca_key := Ok (cp_common_name p, ca_key);
     Pki.cert_der c := c.1 +:+ "/" +:+ c.2;
     cert_pem c := "crt " +:+ (c.1 +:+ "/" +:+ c.2);
     from_ca_cert_der _ := Some ca_params;
     pem_certs := strip_prefix "crt ";
     pem_key := strip_prefix "key " |}.

#[local] Instance rcgen_laws : RcgenLaws rcgen.
Proof.
  split.
  - intros c. by apply strip_prefix_Some.
  - intros k. by apply strip_prefix_Some.
  - intros k. by apply strip_prefix_Some.
  - intros p k c _. by eexists _, _.
Qed.

Definition env : PkiEnv :=
  {| umask := 18; create_dir_ok _ := true; readable _ := true; open_ok _ := true; chmod_ok _ := true;
     written _ := None; sync_ok _ := true |}.

Definition started : Files := final ∅ (load_or_create env "ca-seed" "seed" "tls" "n1" ∅).1.

Lemma restart_witness :
  exists key cert, load_or_create env "other" "seed2" "tls" "n1" started
    = ([], with_node_cert "seed2" "n1" (Ok ("stouter-cluster-ca/ca-seed", cert, key))).
Proof.
  destruct (restart_keeps_ca env "ca-seed" "seed" "tls" "n1" ∅ (load_or_create env "ca-seed" "seed" "tls" "n1" ∅).1
    {| ca_cert_der := "stouter-cluster-ca/ca-seed"; node_cert_der := "n1/ca-seed"; node_key := "seed" |}
    "other" "seed2" "n1") as (key & cert & _ & Hl).
  - reflexivity.
  - reflexivity.
  - vm_compute. reflexivity.
  - exists key, cert. exact Hl.
Defined.

Definition issued : Files := final started (issue_cert_to_dir env "n2-seed" "tls" "n2" "out" started).1.

(** A node that was given its CA certificate but not its key: the start does not
    stop, it makes a CA of its own over the cluster's certificate. *)
Example partial_material_overwrites_ca :
  let fs := delete "out/node.key" issued in
  option_map f_contents (fs !! "out/ca.crt") = Some "crt stouter-cluster-ca/ca-seed"
  /\ option_map f_contents (final fs (load_or_create env "own" "seed" "out" "n2" fs).1 !! "out/ca.crt")
     = Some "crt stouter-cluster-ca/own".
Proof. vm_compute. auto. Qed.

(** [warn_if_readable_by_others]: 0644 is warned about, 0600 is not. *)
Example warns :
  warn_if_readable_by_others "k" {["k" := {| f_contents := "key"; f_mode := 420 |}]} = true
  /\ warn_if_readable_by_others "k" {["k" := {| f_contents := "key"; f_mode := 384 |}]} = false.
Proof. vm_compute. auto. Qed.

End Examples.
