(* ===== verification/Api.v ===== *)
(** * What a daemon shows of itself ([src/src/subscribe/api.rs], [src/src/metrics.rs])

    The REST API of a subscriber and the gauges of the metrics endpoint, read off
    the shared state. The router that finds an endpoint for a path, the rendering of
    the metrics and the sockets are axum's and the Prometheus exporter's; [Endpoint]
    is what the router decided. *)

From Stdlib Require Import SpecFloat.
From S2P Require Import Prelude NetAddr Dynamic Config Json ConfigFmt State Mux Proxy Subscribe.

(** ** The REST API *)

Inductive Endpoint := HealthCheck | PrometheusMetrics | ListServices | GetService (name : string).

(** The routes, all for GET. [{name}] is what [Path] extracts. *)
Definition api_routes : list (string * (string -> Endpoint)) :=
  [("/__health", fun _ => HealthCheck); ("/metrics", fun _ => PrometheusMetrics);
   ("/services", fun _ => ListServices); ("/services/{name}", GetService)].

Inductive Reply := Json (status : Z) (body : Value) | Text (body : string).

Section api.
Context `{MapIter}.

(** One service, as [list_services] and [get_service] show it. *)
Definition service_entry (name : string) (info : ServiceInfo) : Value :=
  json_obj [("name", VStr name); ("port", VNum (si_port info));
            ("address", VStr ("127.0.0.1:" +:+ show (si_port info)));
            ("domains", VArr (VStr <$> si_domains info)); ("meta", to_value vmap (si_meta info))].

Definition list_services (ports : gmap string ServiceInfo) : list Value :=
  (fun '(name, info) => service_entry name info) <$> map_iter ports.

Definition get_service (name : string) (ports : gmap string ServiceInfo) : Z * Value :=
  if str_is_empty name then (400%Z, json_obj [("error", VStr "missing service name")])
  else match ports !! name with
       | Some info => (200%Z, service_entry name info)
       | None => (404%Z, json_obj [("error", VStr ("service '" +:+ name +:+ "' not found"))])
       end.

(** One node and one proxy, as [health_check] shows them. *)
Definition node_entry (s : SharedState) (node : NodeInfo) : Value :=
  json_obj [("id", VStr (ni_id node)); ("addr", VStr (ni_addr node));
            ("relay", match ni_relay node with Some relay => VStr relay | None => VNull end);
            ("tunnel_pool", VNum (Z.of_nat (count (connect_addr node) (st_tunnel_pool s))));
            ("reverse_pool", VNum (Z.of_nat (count (ni_id node) (st_reverse_pool s))))].

Definition proxy_entry (name : string) (info : ServiceInfo) : Value :=
  json_obj [("name", VStr name); ("port", VNum (si_port info));
            ("address", VStr ("127.0.0.1:" +:+ show (si_port info)))].

Definition health_check (s : SharedState) (ports : gmap string ServiceInfo) : Z * Value :=
  let nodes := st_known_nodes s in
  let node_count := size nodes in
  let connected_nodes := node_entry s <$> map_values nodes in
  let proxied_services := (fun '(name, info) => proxy_entry name info) <$> map_iter ports in
  let healthy := 0 <? node_count in
  (if healthy then 200%Z else 503%Z,
   json_obj [("status", VStr (if healthy then "healthy" else "degraded"));
             ("node_id", VStr (node_id (st_config s)));
             ("nodes", json_obj [("count", VNum (Z.of_nat node_count)); ("peers", VArr connected_nodes)]);
             ("proxies", json_obj [("count", VNum (Z.of_nat (size ports))); ("services", VArr proxied_services)])]).

(** The handlers; [render] is the metrics handle's. *)
Definition api (render : string) (s : SharedState) (ports : gmap string ServiceInfo) (e : Endpoint) : Reply :=
  match e with
  | HealthCheck => let '(status, body) := health_check s ports in Json status body
  | PrometheusMetrics => Text render
  | ListServices => Json 200 (VArr (list_services ports))
  | GetService name => let '(status, body) := get_service name ports in Json status body
  end.

(** ** The gauges

    A gauge is its name with its labels; [set] keeps the last value. *)

Abbreviation GaugeKey := (string * list (string * string))%type.
Abbreviation Gauges := (gmap GaugeKey spec_float).

Definition f64_of_nat (n : nat) : spec_float := f64_of_Z (Z.of_nat n).

Definition node_gauges (s : SharedState) (node : NodeInfo) : list (GaugeKey * spec_float) :=
  let connect_addr := connect_addr node in
  (if str_is_empty connect_addr then []
   else [(("stouter_tunnel_pool_size", [("addr", connect_addr)]), f64_of_nat (count connect_addr (st_tunnel_pool s)))])
  ++ [(("stouter_reverse_pool_size", [("node_id", ni_id node)]), f64_of_nat (count (ni_id node) (st_reverse_pool s)))].

Definition service_gauge (s : SharedState) (key : string * string) : GaugeKey * spec_float :=
  let '(node_id, service) := key in
  (("stouter_service_healthy", [("service", service); ("node_id", node_id)]),
   if service_unhealthy s node_id service then f64_of_Z 0 else f64_of_Z 1).

(** What one turn of [run_gauge_loop] sets, in order. *)
Definition published (s : SharedState) (mux : MuxPool) : list (GaugeKey * spec_float) :=
  [(("stouter_in_flight_connections", []), f64_of_Z (st_in_flight s));
   (("stouter_known_nodes", []), f64_of_nat (size (st_known_nodes s)));
   (("stouter_config_version", []), f64_of_Z (dc_version (st_dynamic_config s)))]
  ++ (map_values (st_known_nodes s) ≫= node_gauges s)
  ++ (service_gauge s <$> map_keys (st_service_index s))
  ++ [(("stouter_mux_sessions", []), f64_of_nat (session_count mux))].

Definition gauge_pass (s : SharedState) (mux : MuxPool) (gauges : Gauges) : Gauges :=
  foldl (fun gs '(k, v) => <[k := v]> gs) gauges (published s mux).

(** ** What a client reads back *)

(** An entry, as a client of the API reads it. *)
Definition read_entry (v : Value) : option (string * ServiceInfo) :=
  match of_value vstring (json_index v "name"), of_value vu16 (json_index v "port"),
        of_value (vlist vstring) (json_index v "domains"), of_value vmap (json_index v "meta") with
  | Some name, Some port, Some domains, Some meta =>
      Some (name, {| si_port := port; si_domains := domains; si_meta := meta |})
  | _, _, _, _ => None
  end.

Definition ports_valid (ports : gmap string ServiceInfo) : Prop :=
  map_Forall (fun _ info => valid vu16 (si_port info)) ports.

Lemma read_service_entry name info : valid vu16 (si_port info) -> read_entry (service_entry name info) = Some (name, info).
Proof.
  intros Hport. unfold read_entry. destruct info as [port domains meta]. cbn [si_port] in Hport.
  change (json_index (service_entry _ _) "name") with (to_value vstring name).
  change (json_index (service_entry _ _) "port") with (to_value vu16 port).
  change (json_index (service_entry _ _) "domains") with (to_value (vlist vstring) domains).
  change (json_index (service_entry _ _) "meta") with (to_value vmap meta).
  rewrite (of_to (f := vu16) port Hport), (of_to (f := vmap) meta I).
  rewrite (of_to (f := vlist vstring) domains); [done|]. apply total.
Qed.

Lemma read_list ports : ports_valid ports -> mapM read_entry (list_services ports) = Some (map_iter ports).
Proof.
  intros Hports. unfold list_services. apply mapM_fmap_Forall_Some.
  apply Forall_forall. intros [name info] Hin%elem_of_map_iter. apply read_service_entry. by eapply Hports.
Qed.

(** What each gauge that a turn sets is set to. *)
Definition gauge_value (s : SharedState) (mux : MuxPool) (k : GaugeKey) : spec_float :=
  match k with
  | (name, []) =>
      if str_eqb name "stouter_in_flight_connections" then f64_of_Z (st_in_flight s)
      else if str_eqb name "stouter_known_nodes" then f64_of_nat (size (st_known_nodes s))
      else if str_eqb name "stouter_config_version" then f64_of_Z (dc_version (st_dynamic_config s))
      else f64_of_nat (session_count mux)
  | (name, [(_, x)]) =>
      if str_eqb name "stouter_tunnel_pool_size" then f64_of_nat (count x (st_tunnel_pool s))
      else f64_of_nat (count x (st_reverse_pool s))
  | (_, [(_, service); (_, node_id)]) =>
      if service_unhealthy s node_id service then f64_of_Z 0 else f64_of_Z 1
  | _ => f64_of_Z 0
  end.

Lemma published_value s mux k v : (k, v) ∈ published s mux -> v = gauge_value s mux k.
Proof.
  unfold published. rewrite !elem_of_app, !elem_of_cons, !list_elem_of_bind, list_elem_of_fmap, !elem_of_nil.
  intros [[Hk|[Hk|[Hk|[]]]]|[(node & Hk & _)|[([node service] & Hk & _)|[Hk|[]]]]]; try (by unfold service_gauge in *; simplify_eq).
  unfold node_gauges in Hk. apply elem_of_app in Hk as [Hk|Hk%list_elem_of_singleton]; [|by simplify_eq].
  destruct (str_is_empty _); [by apply not_elem_of_nil in Hk|]. apply list_elem_of_singleton in Hk. by simplify_eq.
Qed.

(** Setting gauges in turn, each to its one value. *)
Lemma set_all_lookup (value : GaugeKey -> spec_float) (l : list (GaugeKey * spec_float)) (gauges : Gauges) k :
  (forall k v, (k, v) ∈ l -> v = value k) ->
  foldl (fun (gs : Gauges) '(k, v) => <[k := v]> gs) gauges l !! k
  = if decide (k ∈ l.*1) then Some (value k) else gauges !! k.
Proof.
  intros Hl. induction l as [|[k' v'] l IH] using rev_ind.
  { rewrite decide_False by apply not_elem_of_nil. done. }
  rewrite foldl_app, fmap_app. cbn [foldl fmap list_fmap fst].
  assert (Hv : v' = value k') by (apply Hl, elem_of_app; right; by apply list_elem_of_singleton).
  destruct (decide (k = k')) as [->|Hne].
  - rewrite lookup_insert_eq, decide_True, Hv; [done|]. apply elem_of_app. right. by apply list_elem_of_singleton.
  - rewrite lookup_insert_ne by done. rewrite IH by (intros; apply Hl, elem_of_app; by left).
    destruct (decide (k ∈ l.*1)) as [Hin|Hin]; [rewrite decide_True; [done|apply elem_of_app; by left]|].
    rewrite decide_False; [done|]. by intros [?|?%list_elem_of_singleton]%elem_of_app.
Qed.

Lemma gauge_pass_lookup s mux gauges k :
  gauge_pass s mux gauges !! k
  = if decide (k ∈ (published s mux).*1) then Some (gauge_value s mux k) else gauges !! k.
Proof. apply set_all_lookup, published_value. Qed.

Lemma gauge_set s mux gauges k v : (k, v) ∈ published s mux -> gauge_pass s mux gauges !! k = Some v.
Proof.
  intros Hin. rewrite gauge_pass_lookup, decide_True.
  - by rewrite (published_value _ _ _ _ Hin).
  - apply list_elem_of_fmap. by exists (k, v).
Qed.

(** ** Properties *)

(** The REST API tells the truth about the running proxies. A client that reads
    [/services] gets exactly the manager's table, ports, domains and metadata
    included; [/services/{name}] answers 200 with that service's entry exactly when
    one of its proxies runs, and 404 otherwise; and the health check is 200 exactly
    when some node is known. *)
Theorem api_spec render s m (Hm : manager_ok m) (Hports : ports_valid (mg_ports m)) :
  (exists vs l, api render s (mg_ports m) ListServices = Json 200 (VArr vs)
     /\ mapM read_entry vs = Some l /\ l ≡ₚ map_to_list (mg_ports m)
     /\ forall name, name <> "" ->
          (forall info, mg_ports m !! name = Some info ->
             exists v, api render s (mg_ports m) (GetService name) = Json 200 v /\ v ∈ vs
               /\ read_entry v = Some (name, info))
          /\ ((exists v, api render s (mg_ports m) (GetService name) = Json 200 v)
              <-> exists key h, mg_proxies m !! key = Some h /\ ph_service_name h = name)
          /\ (mg_ports m !! name = None -> exists v, api render s (mg_ports m) (GetService name) = Json 404 v))
  /\ (exists status body, api render s (mg_ports m) HealthCheck = Json status body
      /\ (status = 200%Z <-> exists id node, st_known_nodes s !! id = Some node)
      /\ (status <> 200%Z -> status = 503%Z)).
Proof.
  split.
  - exists (list_services (mg_ports m)), (map_iter (mg_ports m)). split; [done|].
    split; [by apply read_list|]. split; [apply map_iter_perm|]. intros name Hname.
    assert (He : str_is_empty name = false) by (destruct name; done).
    cbn [api]. unfold get_service. rewrite He. rewrite <- (mo_ports m Hm name). split; [|split].
    + intros info Hi. rewrite Hi. exists (service_entry name info). split; [done|]. split.
      * apply list_elem_of_fmap. exists (name, info). split; [done|]. by apply elem_of_map_iter.
      * apply read_service_entry. by eapply Hports.
    + split; [|by intros [info ->]; eexists].
      destruct (mg_ports m !! name) as [info|]; [by eexists|intros [? ?]; discriminate].
    + intros ->. by eexists.
  - cbn [api]. unfold health_check. do 2 eexists. split; [reflexivity|].
    assert (Hsize : (0 <? size (st_known_nodes s)) = true <-> exists id node, st_known_nodes s !! id = Some node).
    { rewrite Nat.ltb_lt, <- Nat.neq_0_lt_0, map_size_ne_0_lookup. unfold is_Some. naive_solver. }
    destruct (0 <? size (st_known_nodes s)); naive_solver.
Qed.

(** After a turn of the gauge loop every gauge of the present state has its
    value: counts of connections, nodes, pooled connections and sessions, the
    configuration's version, and 1 or 0 for every configured service as this daemon
    sees its health. Gauges of nodes and services that are gone keep their last value. *)
Theorem gauge_pass_spec s mux gauges :
  let gauges' := gauge_pass s mux gauges in
  gauges' !! ("stouter_in_flight_connections", []) = Some (f64_of_Z (st_in_flight s))
  /\ gauges' !! ("stouter_known_nodes", []) = Some (f64_of_nat (size (st_known_nodes s)))
  /\ gauges' !! ("stouter_config_version", []) = Some (f64_of_Z (dc_version (st_dynamic_config s)))
  /\ gauges' !! ("stouter_mux_sessions", []) = Some (f64_of_nat (session_count mux))
  /\ (forall id node, st_known_nodes s !! id = Some node ->
        gauges' !! ("stouter_reverse_pool_size", [("node_id", ni_id node)])
          = Some (f64_of_nat (count (ni_id node) (st_reverse_pool s)))
        /\ (connect_addr node <> "" ->
            gauges' !! ("stouter_tunnel_pool_size", [("addr", connect_addr node)])
              = Some (f64_of_nat (count (connect_addr node) (st_tunnel_pool s)))))
  /\ (forall id service, is_Some (st_service_index s !! (id, service)) ->
        gauges' !! ("stouter_service_healthy", [("service", service); ("node_id", id)])
          = Some (if service_unhealthy s id service then f64_of_Z 0 else f64_of_Z 1))
  /\ (forall k, k ∉ (published s mux).*1 -> gauges' !! k = gauges !! k).
Proof.
  cbv zeta. split_and!; [apply gauge_set; set_solver..| | |].
  - intros id node Hnode.
    assert (Hin : forall g, g ∈ node_gauges s node -> g ∈ published s mux).
    { intros g Hg. unfold published. apply elem_of_app. right. apply elem_of_app. left. apply list_elem_of_bind.
      exists node. split; [done|]. apply elem_of_map_values. by exists id. }
    split; [|intros Haddr]; apply gauge_set, Hin; unfold node_gauges; apply elem_of_app; [right; by apply list_elem_of_singleton|left].
    destruct (connect_addr node); [done|]. by apply list_elem_of_singleton.
  - intros id service Hs. apply gauge_set. unfold published. apply elem_of_app. right. apply elem_of_app. right.
    apply elem_of_app. left. apply list_elem_of_fmap. exists (id, service). split; [done|]. by apply elem_of_map_keys.
  - intros k Hk. by rewrite gauge_pass_lookup, decide_False.
Qed.
End api.

(** ** Witness *)

Module Examples.

Definition m : Manager :=
  start_proxy Subscribe.Examples.start new_manager
    ("web/api", {| ds_name := "api"; ds_domains := ["api.test"]; ds_meta := {["traefik.scheme" := "h2c"]};
                   ds_local_port := Some 15001%Z |}).

Lemma api_witness :
  exists v, api "" Proxy.Examples.state (mg_ports m) (GetService "api") = Json 200 v
  /\ read_entry v = Some ("api", {| si_port := 15001; si_domains := ["api.test"];
                                    si_meta := {["traefik.scheme" := "h2c"]} |}).
Proof.
  assert (Hm : manager_ok m) by apply start_proxy_ok, Subscribe.Examples.new_manager_ok.
  assert (Hp : ports_valid (mg_ports m)) by (apply map_Forall_insert_2; [split; done|apply map_Forall_empty]).
  destruct (api_spec "" Proxy.Examples.state m Hm Hp) as [(vs & l & _ & _ & _ & Hget) _].
  destruct (Hget "api") as [Hget' _]; [done|].
  destruct (Hget' _ eq_refl) as (v & Hv & _ & Hread). by exists v.
Defined.

(** A node that left keeps its last gauge. *)
Example departed_node_keeps_gauge :
  let key := ("stouter_reverse_pool_size", [("node_id", "gone")]) in
  gauge_pass Proxy.Examples.state ∅ {[key := f64_of_nat 3]} !! key = Some (f64_of_nat 3).
Proof. vm_compute. reflexivity. Qed.

End Examples.
