(* ===== verification/Tls.v ===== *)
(** * Who is at the other end ([src/src/tls.rs])

    The TLS configuration a daemon builds from its certificates, the streams it
    accepts and dials, and the common name an accepted peer is known by, which is
    what admin requests are authorized by. Handshakes and certificate parsing are
    rustls' and x509-parser's, behind the interface [Rustls]. *)

From S2P Require Import Prelude NetAddr Dynamic Config Json State Messages Gossip Pki.

#[local] Open Scope stouter_scope.

Record ServerConfig := { sc_root : string; sc_chain : list string; sc_key : string }.
Record ClientConfig := { cc_root : string; cc_chain : list string; cc_key : string }.

Class Rustls := {
  Peer : Type;                                               (** whoever connects *)
  dialled : ClientConfig -> string -> Peer;                  (** a client of ours, expecting a server name *)
  root_ok : string -> bool;                                  (** [RootCertStore::add] *)
  client_verifier : string -> result unit string;            (** [WebPkiClientVerifier] on a root *)
  single_cert_ok : list string -> string -> bool;            (** [with_single_cert], [with_client_auth_cert] *)
  valid_server_name : string -> bool;
  server_handshake : ServerConfig -> Peer -> result (option (list string)) string; (** [peer_certificates] *)
  client_handshake : ClientConfig -> string -> ServerConfig -> result unit string;
  subject_common_names : string -> option (list (option string)); (** of a certificate that parses; [as_str] *)
  issued : string -> string -> bool;                         (** a leaf under a root, now *)
  holds_key : Peer -> string -> Prop                         (** the private key of a certificate *)
}.

(** ** Streams *)

Inductive MeshStream := TlsServer (peer_cn : option string) | TlsClient.

Definition peer_cn (stream : MeshStream) : option string :=
  match stream with TlsServer cn => cn | TlsClient => None end.

Record TlsContext := { acceptor : ServerConfig; connector : ClientConfig; server_name : string }.

Section tls.
Context `{Rustls}.

Definition peer_leaf_cn (certs : option (list string)) : option string :=
  let* chain := certs in
  let* leaf := head chain in
  let* names := subject_common_names leaf in
  let* first := head names in
  first.

(** [TlsContext::new]. *)
Definition TlsContext_new (pki : PkiMaterial) : result TlsContext string :=
  let root := ca_cert_der pki in
  let chain := [node_cert_der pki] in
  let key := node_key pki in
  if negb (root_ok root) then Err "add CA cert to root store" else
  let? _ := map_err (fun e => "build client verifier: " +:+ e) (client_verifier root) in
  if negb (single_cert_ok chain key) then Err "build server TLS config" else
  if negb (single_cert_ok chain key) then Err "build client TLS config" else
  if negb (valid_server_name MESH_SERVER_NAME) then Err "parse mesh server name" else
  Ok {| acceptor := {| sc_root := root; sc_chain := chain; sc_key := key |};
        connector := {| cc_root := root; cc_chain := chain; cc_key := key |};
        server_name := MESH_SERVER_NAME |}.

Definition accept (ctx : TlsContext) (peer : Peer) : result MeshStream string :=
  let? certs := map_err (fun _ => "TLS accept") (server_handshake (acceptor ctx) peer) in
  Ok (TlsServer (peer_leaf_cn certs)).

(** [connect] to a server, by its configuration. *)
Definition connect (ctx : TlsContext) (server : ServerConfig) : result MeshStream string :=
  let? _ := map_err (fun _ => "TLS connect") (client_handshake (connector ctx) (server_name ctx) server) in
  Ok TlsClient.

(** The peer that a [connect] of [ctx] is to the server. *)
Definition as_peer (ctx : TlsContext) : Peer := dialled (connector ctx) (server_name ctx).

(** [SharedState::tls_accept]. *)
Definition tls_accept (s : SharedState) (ctx : TlsContext) (peer : Peer) : result MeshStream string :=
  tls_wrap s (accept ctx) peer.

Lemma TlsContext_new_ok m ctx : TlsContext_new m = Ok ctx ->
  acceptor ctx = {| sc_root := ca_cert_der m; sc_chain := [node_cert_der m]; sc_key := node_key m |}
  /\ connector ctx = {| cc_root := ca_cert_der m; cc_chain := [node_cert_der m]; cc_key := node_key m |}
  /\ server_name ctx = MESH_SERVER_NAME.
Proof.
  unfold TlsContext_new. destruct (root_ok _); [|done]. destruct (client_verifier _); [|done].
  destruct (single_cert_ok _ _); [|done]. destruct (valid_server_name _); [|done]. simpl. by intros [= <-].
Qed.
End tls.

(** ** What the libraries promise *)

Class TlsLaws (R : Rcgen) (T : Rustls) (clock : CertParams -> bool) : Prop := {
  (** mTLS: a handshake we accept has a leaf under our root, whose key the peer holds. *)
  client_cert_required : forall sc peer certs, server_handshake sc peer = Ok certs ->
    exists leaf rest, certs = Some (leaf :: rest) /\ issued (sc_root sc) leaf = true /\ holds_key peer leaf;
  (** Two sides with leaves under each other's root, their own keys and the name
      the client expects come together, and the server sees the client's chain. *)
  handshakes_complete : forall root sk ck sp cp ca1 ca1_key ca2 ca2_key c1 c2,
    signed_by sp sk ca1 ca1_key = Ok c1 -> MESH_SERVER_NAME ∈ cp_san sp -> issued root (cert_der c1) = true ->
    signed_by cp ck ca2 ca2_key = Ok c2 -> issued root (cert_der c2) = true ->
    let sc := {| sc_root := root; sc_chain := [cert_der c1]; sc_key := serialize_der sk |} in
    let cc := {| cc_root := root; cc_chain := [cert_der c2]; cc_key := serialize_der ck |} in
    server_handshake sc (dialled cc MESH_SERVER_NAME) = Ok (Some [cert_der c2])
    /\ client_handshake cc MESH_SERVER_NAME sc = Ok tt;
  (** A certificate's subject is the one it was signed with. *)
  subject_written : forall p k ca ca_key c, signed_by p k ca ca_key = Ok c ->
    subject_common_names (cert_der c) = Some [Some (cp_common_name p)];
  (** A certificate signed in the CA's name with its key is under the CA's own
      certificate, while both are valid, also when the CA was made again from it. *)
  issued_by_ca : forall ca_p ca_key ca p k c, self_signed ca_p ca_key = Ok ca -> cp_is_ca ca_p = true ->
    clock ca_p = true -> clock p = true ->
    (signed_by p k ca ca_key = Ok c
     \/ exists p' again, from_ca_cert_der (cert_der ca) = Some p' /\ self_signed p' ca_key = Ok again
          /\ signed_by p k again ca_key = Ok c) ->
    issued (cert_der ca) (cert_der c) = true
}.

(** ** Properties *)

Section identity.
Context `{HttpCrate} `{R : Rcgen} `{T : Rustls} (clock : CertParams -> bool) (env : PkiEnv).
Context `{!RcgenLaws R} `{!TlsLaws R T clock}.

(** [cn] is what the first common name of a leaf under the root says. *)
Definition named_under (root : string) (leaf cn : string) : Prop :=
  issued root leaf = true /\ exists rest, subject_common_names leaf = Some (Some cn :: rest).

(** The certificate by which [ctx] knows [peer] as [cn]: the leaf it showed in the
    handshake, whose key it holds, which is under the root and says [cn]. *)
Definition showed (ctx : TlsContext) (root : string) (peer : Peer) (cn : string) : Prop :=
  exists leaf rest, server_handshake (acceptor ctx) peer = Ok (Some (leaf :: rest))
    /\ holds_key peer leaf /\ named_under root leaf cn.

Lemma accepted_name s ctx m peer stream cn :
  TlsContext_new m = Ok ctx -> tls_accept s ctx peer = Ok stream -> peer_cn stream = Some cn ->
  showed ctx (ca_cert_der m) peer cn.
Proof.
  intros (Hacc & _ & _)%TlsContext_new_ok. unfold showed, tls_accept, tls_wrap. destruct (st_tls s); [|done].
  unfold accept. rewrite Hacc. destruct (server_handshake _ peer) as [certs|e] eqn:Hh; [|done]. simpl.
  intros [= <-]. cbn [peer_cn]. destruct (client_cert_required _ _ _ Hh) as (leaf & rest & -> & Hi & Hk).
  unfold peer_leaf_cn. simpl. destruct (subject_common_names leaf) as [[|first names]|] eqn:Hn; try done. simpl.
  intros ->. exists leaf, rest. split; [done|]. split; [done|]. split; [done|]. by exists names.
Qed.

(** C5: Only the cluster's administrators change its configuration through a daemon.
    Whatever peer connects and whatever it asks, unless the request is answered
    Unauthorized with nothing changed and nothing sent, this very peer showed, in
    the mutual TLS handshake of the connection the request came on, a leaf
    certificate under the daemon's CA whose private key it holds, and the leaf's
    common name is in [adminCns]. *)
Theorem admin_requires_certificate m ctx s peer stream save op w
    (Hctx : TlsContext_new m = Ok ctx) (Haccept : tls_accept s ctx peer = Ok stream) :
  handle_admin_request save (peer_cn stream) op w
    = (w, RErr Unauthorized "client cert CN not in adminCns allowlist", [])
  \/ exists cn, showed ctx (ca_cert_der m) peer cn /\ cn ∈ admin_cns (st_config (w_state w)).
Proof.
  unfold handle_admin_request. destruct (peer_cn stream) as [cn|] eqn:Hcn; [|by left].
  destruct (any _ _) eqn:Ha; [right|by left].
  exists cn. split; [by eapply accepted_name|].
  apply any_true in Ha as (a & Hin & <-%str_eqb_true). done.
Qed.

(** C25: An identity issued by [cert issue] is the one the daemon sees. A daemon that
    made its CA on its first start accepts a node whose directory was filled by
    [cert issue --node N] from there, both sides complete the handshake, and the
    daemon knows the peer as [N]: its admin requests are authorized exactly when [N]
    is in [adminCns]. *)
Theorem issued_identity_seen ca_seed seed dir node fs tr m seed' N out tr' s1 s2 N' tr2 m' ctx ctx' s
    (Hread : forall path, readable env path = true)
    (Hnew : exists_ (join dir "ca.crt") fs = false)
    (Hstart : load_or_create env ca_seed seed dir node fs = (tr, Ok m))
    (Hissue : issue_cert_to_dir env seed' dir N out (final fs tr) = (tr', Ok tt))
    (Hout : exists_ (join out "ca.key") (final fs tr) = false)
    (Hload : load_or_create env s1 s2 out N' (final (final fs tr) tr') = (tr2, Ok m'))
    (Hctx : TlsContext_new m = Ok ctx) (Hctx' : TlsContext_new m' = Ok ctx')
    (Hclock : clock ca_params = true /\ clock (node_params node) = true /\ clock (node_params N) = true)
    (Htls : st_tls s = true) :
  tls_accept s ctx (as_peer ctx') = Ok (TlsServer (Some N)) /\ connect ctx' (acceptor ctx) = Ok TlsClient
  /\ forall save op w,
       (handle_admin_request save (peer_cn (TlsServer (Some N))) op w).1.2
         <> RErr Unauthorized "client cert CN not in adminCns allowlist"
       <-> N ∈ admin_cns (st_config (w_state w)).
Proof.
  destruct (start_makes_ca _ _ _ _ _ _ _ _ Hread Hnew Hstart)
    as (key & ca & params & again & _ & Hca & Hparams & Hagain & Hm & _ & _ & _ & Hloaded).
  destruct (issued_loads env _ _ _ _ _ _ s1 s2 N' Hread Hout Hissue)
    as (der & ca2 & key2 & nkey & cert & Hload2 & _ & Hcert & Hl). rewrite Hload in Hl. injection Hl as _ ->.
  rewrite Hloaded in Hload2. injection Hload2 as <- <- <-.
  simpl in Hm. unfold generate_node_cert in Hm. destruct (generate_for seed) as [skey|] eqn:Hskey; [|done].
  destruct (signed_by (node_params node) skey ca key) as [scert|] eqn:Hscert; [|done]. injection Hm as <-.
  apply TlsContext_new_ok in Hctx as (Hacc & _ & _). apply TlsContext_new_ok in Hctx' as (_ & Hcon & Hname).
  cbn [ca_cert_der node_cert_der node_key] in *. destruct Hclock as (Hc1 & Hc2 & Hc3).
  destruct (handshakes_complete (cert_der ca) skey nkey (node_params node) (node_params N) ca key again key scert cert)
    as [Hs Hc]; [done|by apply elem_of_cons; left|by apply (issued_by_ca ca_params key ca (node_params node) skey); auto|done| |].
  { apply (issued_by_ca ca_params key ca (node_params N) nkey); try done. right. by exists params, again. }
  split; [|split].
  - unfold tls_accept, tls_wrap, accept, as_peer. rewrite Htls, Hacc, Hcon, Hname, Hs. simpl.
    by rewrite (subject_written _ _ _ _ _ Hcert).
  - unfold connect. by rewrite Hcon, Hacc, Hname, Hc.
  - intros save op w. cbn [peer_cn]. unfold handle_admin_request.
    assert (Hany : any (fun a => str_eqb a N) (admin_cns (st_config (w_state w))) = true
      <-> N ∈ admin_cns (st_config (w_state w))).
    { rewrite any_true. split; [by intros (a & Hin & <-%str_eqb_true)|]. intros Hin. exists N.
      split; [done|]. apply str_eqb_refl. }
    rewrite <- Hany. destruct (any _ _); cbn [negb]; [|split; [intros Hn; by destruct Hn|done]].
    split; [done|]. intros _. destruct (bool_decide _); [discriminate|].
    destruct (admin_mutation _ _) as [dc [v|err]]; [discriminate|]. by destruct err.
Qed.
End identity.

(** ** Witnesses *)

Module Examples.

#[local] Existing Instance Dynamic.Examples.http_crate.

(** A certificate here is its common name, its own key and the key that signed it. *)
Definition Cert : Type := string * string * string.
Definition der (c : Cert) : string := Sample.bits (encode c).
Definition undo (s : string) : option Cert := decode (Sample.unbits s).

Lemma undo_der c : undo (der c) = Some c.
Proof. unfold undo, der. rewrite Sample.unbits_bits. apply decode_encode. Qed.

#[local] Instance rcgen : Rcgen :=
  {| key_pair := string;
     certificate := Cert;
     generate_for s := Ok s;
     serialize_pem k := "key " +:+ k;
     serialize_der k := k;
     from_pem := strip_prefix "key ";
     self_signed p k := Ok (cp_common_name p, k, k);
     signed_by p k ca ca_key := Ok (cp_common_name p, k, ca_key);
     cert_der := der;
     cert_pem c := "crt " +:+ der c;
     from_ca_cert_der _ := Some ca_params;
     pem_certs := strip_prefix "crt ";
     pem_key := strip_prefix "key " |}.

#[local] Instance rcgen_laws : RcgenLaws rcgen.
Proof. split; intros; try by apply strip_prefix_Some. by eexists _, _. Qed.

Definition same_ca (root leaf : string) : bool :=
  match undo root, undo leaf with Some (_, _, k1), Some (_, _, k2) => str_eqb k1 k2 | _, _ => false end.

Definition own_key (leaf key : string) : bool :=
  match undo leaf with Some (_, k, _) => str_eqb k key | None => false end.

#[local] Instance rustls : Rustls :=
  {| Peer := ClientConfig * string;
     dialled cc name := (cc, name);
     root_ok _ := true;
     client_verifier _ := Ok tt;
     single_cert_ok _ _ := true;
     valid_server_name _ := true;
     server_handshake sc p :=
       match cc_chain p.1 with
       | leaf :: rest => if same_ca (sc_root sc) leaf && own_key leaf (cc_key p.1) then Ok (Some (leaf :: rest)) else Err "bad certificate"
       | [] => Err "no certificate"
       end;
     client_handshake cc name sc :=
       if str_eqb name MESH_SERVER_NAME && any (same_ca (cc_root cc)) (sc_chain sc) then Ok tt else Err "bad certificate";
     subject_common_names leaf := (fun c => [Some c.1.1]) <$> undo leaf;
     issued := same_ca;
     holds_key p leaf := own_key leaf (cc_key p.1) = true |}.

#[local] Instance tls_laws : TlsLaws rcgen rustls (fun _ => true).
Proof.
  split; simpl.
  - intros sc [[root [|leaf rest] key] name] certs; simpl; [done|].
    destruct (same_ca _ _) eqn:Hs; [|done]. destruct (own_key _ _) eqn:Hk; [|done].
    intros [= <-]. by exists leaf, rest.
  - intros root sk ck sp cp ca1 k1 ca2 k2 c1 c2 _ _ H1 [= <-] H2. rewrite H1, H2. unfold own_key.
    rewrite undo_der, str_eqb_refl. done.
  - intros p k ca ca_key c [= <-]. by rewrite undo_der.
  - intros ca_p ca_key ca p k c [= <-] _ _ _ [[= <-]|(p' & again & _ & _ & [= <-])]; unfold same_ca;
      rewrite !undo_der; apply str_eqb_refl.
Qed.

Definition env : PkiEnv := Pki.Examples.env.
Definition start := load_or_create env "ca-seed" "seed" "tls" "n1" ∅.
Definition issue := issue_cert_to_dir env "ops-seed" "tls" "ops" "out" (final ∅ start.1).
Definition loaded := load_or_create env "x" "y" "out" "laptop" (final (final ∅ start.1) issue.1).

Definition material (cn seed : string) : PkiMaterial :=
  {| ca_cert_der := der ("stouter-cluster-ca", "ca-seed", "ca-seed"); node_cert_der := der (cn, seed, "ca-seed"); node_key := seed |}.
Definition context (m : PkiMaterial) : TlsContext :=
  {| acceptor := {| sc_root := ca_cert_der m; sc_chain := [node_cert_der m]; sc_key := node_key m |};
     connector := {| cc_root := ca_cert_der m; cc_chain := [node_cert_der m]; cc_key := node_key m |};
     server_name := MESH_SERVER_NAME |}.

Definition s : SharedState := w_state Gossip.Examples.world0.

Lemma identity_witness :
  tls_accept s (context (material "n1" "seed")) (as_peer (context (material "ops" "ops-seed")))
  = Ok (TlsServer (Some "ops")).
Proof.
  destruct (issued_identity_seen (fun _ => true) env "ca-seed" "seed" "tls" "n1" ∅ start.1 (material "n1" "seed")
    "ops-seed" "ops" "out" issue.1 "x" "y" "laptop" loaded.1 (material "ops" "ops-seed")
    (context (material "n1" "seed")) (context (material "ops" "ops-seed")) s) as [Hs _]; cycle -1.
  { exact Hs. }
  all: first [by split_and! | by intros | vm_compute; reflexivity].
Defined.

(** A stranger with the administrator's certificate and another key, or with a
    certificate of another CA, is refused; the administrator is known. *)
Lemma admin_witness :
  let with_cert c key : Peer := ({| cc_root := ""; cc_chain := [der c]; cc_key := key |}, "") in
  tls_accept s (context (material "n1" "seed")) (with_cert ("ops", "ops-seed", "ca-seed") "guess") = Err "TLS accept"
  /\ tls_accept s (context (material "n1" "seed")) (with_cert ("ops", "guess", "other-ca") "guess") = Err "TLS accept"
  /\ exists cn, showed (context (material "n1" "seed")) (der ("stouter-cluster-ca", "ca-seed", "ca-seed"))
                  (as_peer (context (material "ops" "ops-seed"))) cn
       /\ cn ∈ admin_cns (st_config (w_state Gossip.Examples.world0)).
Proof.
  split; [vm_compute; reflexivity|]. split; [vm_compute; reflexivity|].
  destruct (admin_requires_certificate (fun _ => true) (material "n1" "seed") (context (material "n1" "seed")) s
    (as_peer (context (material "ops" "ops-seed"))) (TlsServer (Some "ops")) Saved Gossip.Examples.added
    Gossip.Examples.world0) as [Hr|Hr]; [vm_compute; reflexivity|vm_compute; reflexivity|exfalso|exact Hr].
  vm_compute in Hr. discriminate Hr.
Defined.

End Examples.
