(* ===== verification/Cluster.v ===== *)
(** * Replication across the cluster ([src/src/gossip/mod.rs], every daemon together)

    Many daemons and the messages between them, each daemon running Gossip's
    handlers. The network keeps every message ever sent and may deliver any of them
    to anyone, any number of times and in any order, so losing, repeating and
    reordering are all covered. Two results: as long as changes are made where the
    newest configuration is, a version number identifies a configuration across the
    whole cluster; and rounds of syncs over a connected topology bring everyone to
    the newest one, in at most as many rounds as there are nodes. *)

From S2P Require Import Prelude NetAddr Dynamic Config State Messages Gossip.

(** ** Daemons and messages *)

Record Cluster := { cl_nodes : gmap string World; cl_sent : list Message }.

Definition put (id : string) (w : World) (msgs : list Message) (c : Cluster) : Cluster :=
  {| cl_nodes := <[id := w]> (cl_nodes c); cl_sent := cl_sent c ++ msgs |}.

Definition config_of (m : Message) : option DynamicConfig :=
  match m with Sync config _ | ConfigUpdate config => Some config | _ => None end.

(** A configuration some daemon runs or some message carries. *)
Definition held (c : Cluster) (dc : DynamicConfig) : Prop :=
  (exists id w, cl_nodes c !! id = Some w /\ w_dc w = dc)
  \/ (exists m, m ∈ cl_sent c /\ config_of m = Some dc).

(** [w] has the newest configuration there is, and room for another version. *)
Definition newest_at (c : Cluster) (w : World) : Prop :=
  (0 <= w_version w < u64_max)%Z /\ forall dc, held c dc -> (dc_version dc <= w_version w)%Z.

Section cluster.
Context `{MapIter} `{HttpCrate}.

(** A change (an admin request, an edit of the file found by the poll) is made at a
    daemon that is up to date; everything else happens in any order. A daemon may
    restart from its file when what it holds is still around, and its file may be
    edited or damaged at any time. *)
Inductive cstep : Cluster -> Cluster -> Prop :=
| CSync id w c : cl_nodes c !! id = Some w ->
    cstep c (put id w [on_wire (build_sync_msg (w_state w))] c)
| CAnnounce id w msg c : cl_nodes c !! id = Some w -> config_of msg = None -> cstep c (put id w [msg] c)
| CReceive id w save now peer msg c : cl_nodes c !! id = Some w -> msg ∈ cl_sent c ->
    cstep c (put id (handle_gossip_message save now peer msg w).1
               (option_list (on_wire <$> (handle_gossip_message save now peer msg w).2)) c)
| CReply id w save now addr reply c : cl_nodes c !! id = Some w -> reply ∈ cl_sent c ->
    cstep c (put id (handle_sync_reply save now addr reply w) [] c)
| CAdmin id w save cn op c : cl_nodes c !! id = Some w -> newest_at c w ->
    cstep c (put id (handle_admin_request save cn op w).1.1 (handle_admin_request save cn op w).2.*2 c)
| CPoll id w save c : cl_nodes c !! id = Some w -> newest_at c w ->
    cstep c (put id (config_poll save w).1 (config_poll save w).2.*2 c)
| CEdit id w disk c : cl_nodes c !! id = Some w ->
    cstep c (put id {| w_state := w_state w; w_disk := disk |} [] c)
| CRestart id w cfg path tls c : cl_nodes c !! id = Some w -> w_disk w = Some cfg ->
    held c (dynamic_config cfg) ->
    cstep c (put id {| w_state := new_state cfg path tls; w_disk := w_disk w |} [] c).

(** One version number, one configuration. *)
Definition agreed (c : Cluster) : Prop :=
  forall dc dc', held c dc -> held c dc' -> dc_version dc = dc_version dc' -> dc = dc'.

(** ** What the handlers do to the configuration *)

Lemma config_of_on_wire m : config_of (on_wire m) = config_of m.
Proof. by destruct m. Qed.

Lemma apply_message_dc save now msg w :
  w_dc (apply_message save now msg w) = match config_of msg with Some dc => newer_config (w_dc w) dc | None => w_dc w end.
Proof.
  destruct msg; try done; cbn [apply_message config_of].
  - apply merge_sync_spec.
  - unfold newer_config, w_dc. by destruct (_ <? _)%Z.
  - destruct (negb _); [done|]. pose proof (update_known_nodes_frame (node_join now id addr) (w_state w)) as [Hd _].
    destruct (update_known_nodes _ _) as [[|] s]; exact Hd.
Qed.

Lemma gossip_message_dc save now peer msg w :
  w_dc (handle_gossip_message save now peer msg w).1
  = match config_of msg with Some dc => newer_config (w_dc w) dc | None => w_dc w end.
Proof. destruct msg; try apply apply_message_dc. apply merge_sync_spec. Qed.

Lemma gossip_message_reply save now peer msg w r :
  (handle_gossip_message save now peer msg w).2 = Some r ->
  config_of r = Some (w_dc (handle_gossip_message save now peer msg w).1).
Proof. destruct msg; try done. by intros [= <-]. Qed.

Lemma sync_reply_dc save now addr reply w :
  w_dc (handle_sync_reply save now addr reply w) = w_dc w
  \/ exists dc, config_of reply = Some dc /\ w_dc (handle_sync_reply save now addr reply w) = newer_config (w_dc w) dc.
Proof. destruct reply; try by left. right. eexists. split; [done|]. apply merge_sync_spec. Qed.

Lemma broadcast_config_of s dc m : m ∈ (broadcast_message s (ConfigUpdate dc)).*2 -> config_of m = Some dc.
Proof.
  unfold broadcast_message. intros ([addr m'] & -> & Hin)%list_elem_of_fmap.
  apply list_elem_of_fmap in Hin as (a & Heq & _). by simplify_eq.
Qed.

(** A change, where it is made: none, or a higher version, and what is sent is it. *)
Definition changes (w w' : World) (sent : list (string * Message)) : Prop :=
  (w_dc w' = w_dc w \/ (w_version w < w_version w')%Z) /\ forall m, m ∈ sent.*2 -> config_of m = Some (w_dc w').

Lemma admin_changes save cn op w :
  (0 <= w_version w < u64_max)%Z ->
  changes w (handle_admin_request save cn op w).1.1 (handle_admin_request save cn op w).2.
Proof.
  intros Hv. split; [by apply (gstep_ok _ _ (SAdmin save cn op w))|].
  unfold handle_admin_request. destruct (negb _); [by intros m ?%not_elem_of_nil|].
  destruct (bool_decide _); [by intros m ?%not_elem_of_nil|].
  destruct (admin_mutation _ _) as [dc [v|e]]; [|by intros m ?%not_elem_of_nil].
  intros m Hm. by apply broadcast_config_of in Hm.
Qed.

Lemma poll_changes save w :
  (0 <= w_version w < u64_max)%Z -> changes w (config_poll save w).1 (config_poll save w).2.
Proof.
  intros Hv. split; [by apply (gstep_ok _ _ (SPoll save w))|].
  unfold config_poll. destruct (w_disk w) as [cfg|]; [|by intros m ?%not_elem_of_nil].
  destruct (_ || _); [|by intros m ?%not_elem_of_nil]. intros m Hm. by apply broadcast_config_of in Hm.
Qed.

(** ** Agreement *)

Lemma put_held id w msgs c dc :
  held (put id w msgs c) dc -> held c dc \/ dc = w_dc w \/ exists m, m ∈ msgs /\ config_of m = Some dc.
Proof.
  intros [(id' & w' & Hw & <-)|(m & Hm & Hdc)]; cbn [cl_nodes cl_sent put] in *.
  - apply lookup_insert_Some in Hw as [[_ ->]|[_ Hw]]; [by right; left|left; left; eauto].
  - apply elem_of_app in Hm as [Hm|Hm]; [left; right; eauto|right; right; eauto].
Qed.

Lemma node_held c id w : cl_nodes c !! id = Some w -> held c (w_dc w).
Proof. intros Hw. left. eauto. Qed.

Lemma message_held c m dc : m ∈ cl_sent c -> config_of m = Some dc -> held c dc.
Proof. intros Hm Hdc. right. eauto. Qed.

Lemma newer_held c dc dc' : held c dc -> held c dc' -> held c (newer_config dc dc').
Proof. intros H1 H2. unfold newer_config. by destruct (_ <? _)%Z. Qed.

(** A step adds no configuration, or one whose version is higher than all. *)
Definition adds (c c' : Cluster) : Prop :=
  (forall dc, held c' dc -> held c dc)
  \/ exists new, (forall dc, held c dc -> (dc_version dc < dc_version new)%Z)
       /\ forall dc, held c' dc -> held c dc \/ dc = new.

Lemma put_adds_none id w msgs c :
  held c (w_dc w) -> (forall m dc, m ∈ msgs -> config_of m = Some dc -> held c dc) -> adds c (put id w msgs c).
Proof. intros Hw Hm. left. intros dc [?|[->|(m & ? & ?)]]%put_held; eauto. Qed.

Lemma put_changes id w w' sent c :
  cl_nodes c !! id = Some w -> newest_at c w -> changes w w' sent -> adds c (put id w' sent.*2 c).
Proof.
  intros Hw [_ Hmax] [[Heq|Hlt] Hsent].
  - apply put_adds_none; [rewrite Heq; by eapply node_held|]. intros m dc Hm%Hsent.
    rewrite Hm, Heq. intros [= <-]. by eapply node_held.
  - right. exists (w_dc w'). split; [intros dc Hdc%Hmax; unfold w_version in *; lia|].
    intros dc [?|[->|(m & Hm%Hsent & Hdc)]]%put_held; [by left|by right|]. right. congruence.
Qed.

Lemma cstep_adds c c' : cstep c c' -> adds c c'.
Proof.
  destruct 1 as [id w c Hw|id w msg c Hw Hmsg|id w save now peer msg c Hw Hmsg|id w save now addr reply c Hw Hmsg
    |id w save cn op c Hw Hnew|id w save c Hw Hnew|id w disk c Hw|id w cfg path tls c Hw Hdisk Hcfg].
  - apply put_adds_none; [by eapply node_held|]. intros m dc ->%list_elem_of_singleton [= <-]. by eapply node_held.
  - apply put_adds_none; [by eapply node_held|]. intros m dc ->%list_elem_of_singleton. by rewrite Hmsg.
  - assert (Hdc : held c (w_dc (handle_gossip_message save now peer msg w).1)).
    { rewrite gossip_message_dc. destruct (config_of msg) eqn:Hc; [|by eapply node_held].
      apply newer_held; [by eapply node_held|by eapply message_held]. }
    apply put_adds_none; [done|]. intros m dc Hm. destruct ((handle_gossip_message save now peer msg w).2) as [r|] eqn:Hr;
      [|by apply not_elem_of_nil in Hm]. apply list_elem_of_singleton in Hm as ->.
    rewrite config_of_on_wire, (gossip_message_reply _ _ _ _ _ _ Hr). by intros [= <-].
  - apply put_adds_none; [|by intros m dc ?%not_elem_of_nil].
    destruct (sync_reply_dc save now addr reply w) as [->|(dc & Hc & ->)]; [by eapply node_held|].
    apply newer_held; [by eapply node_held|by eapply message_held].
  - eapply put_changes; [done|done|]. apply admin_changes, Hnew.
  - eapply put_changes; [done|done|]. apply poll_changes, Hnew.
  - apply put_adds_none; [by eapply (node_held c id w)|by intros m dc ?%not_elem_of_nil].
  - apply put_adds_none; [done|by intros m dc ?%not_elem_of_nil].
Qed.

Lemma adds_agreed c c' : agreed c -> adds c c' -> agreed c'.
Proof.
  intros Hc [Hold|(new & Hlt & Hnew)] dc dc' H1 H2 Hv; [by apply Hc; try apply Hold|].
  destruct (Hnew dc H1) as [H1'| ->], (Hnew dc' H2) as [H2'| ->]; [by apply Hc| | |done].
  - apply Hlt in H1'. lia.
  - apply Hlt in H2'. lia.
Qed.

(** C1: A version number identifies a configuration, throughout the cluster and for
    ever, whatever the network does: if it does at the start, then after any sequence
    of steps in which configurations are changed only where the newest one is, any
    two daemons at the same version run the same configuration, and so does whoever
    adopts a message of that version. *)
Theorem versions_identify_configs c0 c (Hstart : agreed c0) (Hsteps : steps cstep c0 c) : agreed c.
Proof.
  eapply (steps_invariant cstep agreed); [|exact Hstart|exact Hsteps]. intros c1 c2 H1 H2. by eapply adds_agreed, cstep_adds.
Qed.

(** ** Convergence *)

(** One daemon syncing with another, with what the clocks and the files do. *)
Record Exchange := {
  x_from : string;
  x_to : string;
  x_save_from : Saves;
  x_save_to : Saves;
  x_now : Z;
  x_peer : string;  (** the address it connects from *)
  x_addr : string;  (** the address it connects to *)
  x_answered : bool (** the reply arrives in time *)
}.

Definition exchange (nodes : gmap string World) (x : Exchange) : gmap string World :=
  match nodes !! x_from x, nodes !! x_to x with
  | Some a, Some b =>
      let '(a', b') := sync_exchange (x_save_from x) (x_save_to x) (x_now x) (x_now x) (x_peer x) (x_addr x) a b in
      <[x_to x := b']> (if x_answered x then <[x_from x := a']> nodes else nodes)
  | _, _ => nodes
  end.

Definition round (nodes : gmap string World) (xs : list Exchange) : gmap string World := foldl exchange nodes xs.

(** [dc] is the configuration of highest version, and the only one of that version. *)
Record newest (nodes : gmap string World) (dc : DynamicConfig) : Prop := {
  nw_held : exists id w, nodes !! id = Some w /\ w_dc w = dc;
  nw_max : forall id w, nodes !! id = Some w -> w_dc w = dc \/ (w_version w < dc_version dc)%Z
}.

(** The daemons that run it. *)
Definition holders (nodes : gmap string World) (dc : DynamicConfig) : gset string :=
  dom (filter (fun kv => w_dc kv.2 = dc) nodes).

(** Who syncs with whom in a round, to the end; a round is connected when that joins any two daemons. *)
Definition linked (xs : list Exchange) (i j : string) : Prop :=
  exists x, x ∈ xs /\ x_answered x = true /\ (x_from x = i /\ x_to x = j \/ x_from x = j /\ x_to x = i).
Definition connected (ids : gset string) (link : string -> string -> Prop) : Prop :=
  forall i j, i ∈ ids -> j ∈ ids -> rtc (fun u v => u ∈ ids /\ v ∈ ids /\ link u v) i j.

Lemma elem_of_holders nodes dc id : id ∈ holders nodes dc <-> exists w, nodes !! id = Some w /\ w_dc w = dc.
Proof.
  unfold holders. rewrite elem_of_dom. unfold is_Some. setoid_rewrite map_lookup_filter_Some. naive_solver.
Qed.

Lemma newer_config_max dc dc' : (dc' = dc \/ (dc_version dc' < dc_version dc)%Z) -> newer_config dc dc' = dc.
Proof. unfold newer_config. intros [->|Hlt]; [by rewrite Z.ltb_irrefl|]. by rewrite (proj2 (Z.ltb_ge _ _)) by lia. Qed.

Lemma newer_config_max' dc dc' : (dc' = dc \/ (dc_version dc' < dc_version dc)%Z) -> newer_config dc' dc = dc.
Proof. unfold newer_config. intros [->|Hlt]; [by rewrite Z.ltb_irrefl|]. by rewrite (proj2 (Z.ltb_lt _ _)). Qed.

(** In an exchange both sides end with the newest configuration if one had it, and
    with an older one otherwise. *)
Lemma sync_exchange_newest save_a save_b now_a now_b peer addr a b dc :
  (w_dc a = dc \/ (w_version a < dc_version dc)%Z) -> (w_dc b = dc \/ (w_version b < dc_version dc)%Z) ->
  let '(a', b') := sync_exchange save_a save_b now_a now_b peer addr a b in
  (w_dc a' = dc \/ (w_version a' < dc_version dc)%Z) /\ (w_dc b' = dc \/ (w_version b' < dc_version dc)%Z)
  /\ (w_dc a = dc \/ w_dc b = dc -> w_dc a' = dc /\ w_dc b' = dc).
Proof.
  intros Ha Hb. pose proof (sync_exchange_dc save_a save_b now_a now_b peer addr a b) as Hx.
  destruct (sync_exchange _ _ _ _ _ _ a b) as [a' b']. destruct Hx as [Ha' Hb']. unfold w_version in *.
  rewrite Ha', Hb'. split; [|split].
  - unfold newer_config. repeat case_match; tauto.
  - unfold newer_config. repeat case_match; tauto.
  - intros [<-|<-].
    + rewrite (newer_config_max' _ _ Hb). split; [by apply newer_config_max; left|done].
    + rewrite (newer_config_max _ _ Ha). split; [by apply newer_config_max'|done].
Qed.

(** An exchange of which the reply is lost leaves the one who asked as it was. *)
Lemma exchange_insert nodes x a b :
  nodes !! x_from x = Some a -> nodes !! x_to x = Some b ->
  exchange nodes x =
    let '(a', b') := sync_exchange (x_save_from x) (x_save_to x) (x_now x) (x_now x) (x_peer x) (x_addr x) a b in
    <[x_to x := b']> (<[x_from x := if x_answered x then a' else a]> nodes).
Proof.
  intros Ha Hb. unfold exchange. rewrite Ha, Hb. destruct (sync_exchange _ _ _ _ _ _ a b) as [a' b'].
  destruct (x_answered x); [done|]. by rewrite (insert_id nodes (x_from x) a).
Qed.

(** What an exchange does to the daemons: none is lost, the newest stays the newest,
    who held it still does, and if one side did, both do when the reply arrives. *)
Lemma exchange_spec nodes x dc :
  newest nodes dc ->
  newest (exchange nodes x) dc /\ dom (exchange nodes x) = dom nodes
  /\ holders nodes dc ⊆ holders (exchange nodes x) dc
  /\ (x_answered x = true -> x_from x ∈ dom nodes -> x_to x ∈ dom nodes -> x_from x ∈ holders nodes dc \/ x_to x ∈ holders nodes dc ->
      x_from x ∈ holders (exchange nodes x) dc /\ x_to x ∈ holders (exchange nodes x) dc).
Proof.
  intros Hnew. pose proof Hnew as [Hheld Hmax].
  destruct (nodes !! x_from x) as [a|] eqn:Ha, (nodes !! x_to x) as [b|] eqn:Hb;
    try (unfold exchange; rewrite Ha, ?Hb; split; [done|]; split; [done|]; split; [done|];
         rewrite !elem_of_dom, Ha, Hb; by intros _ [] []).
  rewrite (exchange_insert nodes x a b Ha Hb).
  pose proof (sync_exchange_newest (x_save_from x) (x_save_to x) (x_now x) (x_now x) (x_peer x) (x_addr x) a b dc
    (Hmax _ _ Ha) (Hmax _ _ Hb)) as Hx.
  destruct (sync_exchange _ _ _ _ _ _ a b) as [a1 b']. destruct Hx as (Ha1 & Hb' & Hfull).
  set (a' := if x_answered x then a1 else a).
  assert (Ha' : w_dc a' = dc \/ (w_version a' < dc_version dc)%Z) by (unfold a'; destruct (x_answered x); [done|by apply (Hmax (x_from x))]).
  assert (Hka : w_dc a = dc -> w_dc a' = dc) by (unfold a'; destruct (x_answered x); [intros; by apply Hfull; left|done]).
  set (nodes' := <[x_to x := b']> _).
  assert (Hl : forall id w, nodes' !! id = Some w ->
    id = x_to x /\ w = b' \/ id = x_from x /\ id <> x_to x /\ w = a' \/ id <> x_to x /\ id <> x_from x /\ nodes !! id = Some w).
  { unfold nodes'. intros id w [[<- <-]|[Hne [[<- <-]|[Hne' Hw]]%lookup_insert_Some]]%lookup_insert_Some; eauto 6. }
  assert (Hkeep : holders nodes dc ⊆ holders nodes' dc).
  { intros id (w & Hw & Hdc)%elem_of_holders. apply elem_of_holders. unfold nodes'.
    destruct (decide (id = x_to x)) as [->|Hne]; [|destruct (decide (id = x_from x)) as [->|Hne']].
    - rewrite lookup_insert_eq. exists b'. split; [done|]. apply Hfull. right. congruence.
    - rewrite lookup_insert_ne, lookup_insert_eq by done. exists a'. split; [done|]. apply Hka. congruence.
    - rewrite !lookup_insert_ne by done. eauto. }
  split; [split|split; [|split; [done|]]].
  - destruct Hheld as (id & w & Hw & Hdc). assert (Hin : id ∈ holders nodes' dc) by (apply Hkeep, elem_of_holders; eauto).
    apply elem_of_holders in Hin as (w' & ? & ?). eauto.
  - intros id w [[-> ->]|[(-> & _ & ->)|(_ & _ & Hw)]]%Hl; eauto.
  - unfold nodes'. rewrite !dom_insert_L. apply set_eq. intros id. rewrite !elem_of_union, !elem_of_singleton.
    split; [intros [->|[->|?]]|auto]; [apply elem_of_dom; by eexists|apply elem_of_dom; by eexists|done].
  - intros Hans _ _ Hone.
    assert (Hdc : w_dc a' = dc /\ w_dc b' = dc).
    { unfold a'. rewrite Hans. apply Hfull. destruct Hone as [(w & Hw & <-)%elem_of_holders|(w & Hw & <-)%elem_of_holders]; [left|right]; congruence. }
    destruct Hdc as [Hda Hdb].
    rewrite !elem_of_holders. unfold nodes'. rewrite lookup_insert_eq. split; [|by exists b'].
    destruct (decide (x_from x = x_to x)) as [->|Hne]; [rewrite lookup_insert_eq; by exists b'|].
    rewrite lookup_insert_ne, lookup_insert_eq by done. by exists a'.
Qed.
Lemma round_spec xs nodes dc :
  newest nodes dc ->
  newest (round nodes xs) dc /\ dom (round nodes xs) = dom nodes /\ holders nodes dc ⊆ holders (round nodes xs) dc
  /\ forall x, x ∈ xs -> x_answered x = true -> x_from x ∈ dom nodes -> x_to x ∈ dom nodes ->
       x_from x ∈ holders nodes dc \/ x_to x ∈ holders nodes dc ->
       x_from x ∈ holders (round nodes xs) dc /\ x_to x ∈ holders (round nodes xs) dc.
Proof.
  revert nodes. induction xs as [|x xs IH]; intros nodes Hnew.
  { split_and!; try done. by intros x ?%not_elem_of_nil. }
  destruct (exchange_spec nodes x dc Hnew) as (Hnew' & Hdom & Hkeep & Hboth).
  destruct (IH _ Hnew') as (Hn & Hd & Hk & Hb). change (round nodes (x :: xs)) with (round (exchange nodes x) xs).
  rewrite Hd, Hdom in *. split_and!; [done|done|set_solver|].
  intros x' [->|Hin]%elem_of_cons Hans Hfrom Hto Hone.
  - destruct (Hboth Hans Hfrom Hto Hone). split; by apply Hk.
  - apply Hb; [done|done|done|done|]. destruct Hone; [left|right]; by apply Hkeep.
Qed.

(** A path that leaves a set leaves it somewhere. *)
Lemma rtc_leaves {A} (R : A -> A -> Prop) (P : A -> Prop) `{!forall a, Decision (P a)} i j :
  rtc R i j -> P i -> ~ P j -> exists u v, R u v /\ P u /\ ~ P v.
Proof.
  induction 1 as [|i k j Hik _ IH]; intros Hi Hj; [done|]. destruct (decide (P k)); [by apply IH|by exists i, k].
Qed.

Lemma round_grows xs nodes dc :
  newest nodes dc -> connected (dom nodes) (linked xs) ->
  holders nodes dc = dom nodes \/ size (holders nodes dc) < size (holders (round nodes xs) dc).
Proof.
  intros Hnew Hpath. destruct (round_spec xs nodes dc Hnew) as (_ & _ & Hkeep & Hboth).
  assert (Hsub : holders nodes dc ⊆ dom nodes).
  { intros id (w & Hw & _)%elem_of_holders. apply elem_of_dom. eauto. }
  destruct (decide (dom nodes ⊆ holders nodes dc)) as [Hall|Hnot]; [left; set_solver|right].
  apply subset_size. split; [done|]. intros Hback. apply Hnot. intros j Hj.
  destruct (decide (j ∈ holders nodes dc)) as [|Hout]; [done|exfalso].
  destruct (nw_held _ _ Hnew) as (i & w & Hw & Hdc). assert (Hi : i ∈ holders nodes dc) by (apply elem_of_holders; eauto).
  destruct (rtc_leaves _ (fun k => k ∈ holders nodes dc) i j (Hpath i j (Hsub _ Hi) Hj) Hi Hout)
    as (u & v & (Hud & Hvd & x & Hx & Hans & Hends) & Hu & Hv).
  apply Hv, Hback. destruct Hends as [[<- <-]|[<- <-]]; apply (Hboth x Hx Hans); auto.
Qed.

(** ** The sync loop

    What a daemon meets when it dials an address: nobody ([None]), or a daemon that
    takes its message, and whose reply arrives in time or not. *)
Record Reach := {
  rc_to : string;
  rc_save_from : Saves;
  rc_save_to : Saves;
  rc_now : Z;
  rc_peer : string;
  rc_answered : bool
}.

Definition exchange_with (id addr : string) (r : Reach) : Exchange :=
  {| x_from := id; x_to := rc_to r; x_save_from := rc_save_from r; x_save_to := rc_save_to r; x_now := rc_now r;
     x_peer := rc_peer r; x_addr := addr; x_answered := rc_answered r |}.

(** One turn of [run_sync_loop]: the peers as they are known at its start, one after
    the other. *)
Definition sync_turn (reach : string -> option Reach) (nodes : gmap string World) (id : string) : gmap string World :=
  match nodes !! id with
  | None => nodes
  | Some w => round nodes (omap (fun addr => exchange_with id addr <$> reach addr) (peer_addrs (w_state w)))
  end.

(** Everyone's turns, in some order. *)
Definition sync_round (net : string -> string -> option Reach) (nodes : gmap string World) (ids : list string)
    : gmap string World :=
  foldl (fun nodes id => sync_turn (net id) nodes id) nodes ids.

Definition sync_rounds (nodes : gmap string World) (l : list ((string -> string -> option Reach) * list string))
    : gmap string World :=
  foldl (fun nodes '(net, ids) => sync_round net nodes ids) nodes l.

(** A daemon reaches another at one of its bootstrap addresses, one way or the other. *)
Definition boot_link (net : string -> string -> option Reach) (nodes : gmap string World) (u v : string) : Prop :=
  exists w addr r, nodes !! u = Some w /\ addr ∈ st_bootstrap_peers (w_state w) /\ net u addr = Some r /\ rc_to r = v
    /\ rc_answered r = true.
Definition joined (net : string -> string -> option Reach) (nodes : gmap string World) (u v : string) : Prop :=
  boot_link net nodes u v \/ boot_link net nodes v u.

Lemma bootstrap_in_peers s addr : addr ∈ st_bootstrap_peers s -> addr ∈ peer_addrs s.
Proof.
  unfold peer_addrs. generalize (st_bootstrap_peers s). induction (map_values (st_known_nodes s)) as [|n ns IH];
    intros addrs Hin; [done|]. cbn [foldl]. apply IH. destruct (_ && _); [|done]. apply elem_of_app. by left.
Qed.

Lemma merge_sync_boot save now config nodes contact w :
  st_bootstrap_peers (w_state (merge_sync save now config nodes contact w)) = st_bootstrap_peers (w_state w).
Proof.
  unfold merge_sync. set (w1 := if (_ <? _)%Z then _ else w).
  assert (H1 : st_bootstrap_peers (w_state w1) = st_bootstrap_peers (w_state w)) by (unfold w1; by destruct (_ <? _)%Z).
  unfold update_known_nodes. destruct (merge_nodes _ _ _ _) as [[|] kn]; exact H1.
Qed.

(** What never changes: who there is, and their bootstrap peers. *)
Definition same_boot (nodes nodes' : gmap string World) : Prop :=
  forall id, st_bootstrap_peers ∘ w_state <$> nodes' !! id = st_bootstrap_peers ∘ w_state <$> nodes !! id.

Lemma exchange_boot nodes x : same_boot nodes (exchange nodes x).
Proof.
  intros id. destruct (nodes !! x_from x) as [a|] eqn:Ha; [|unfold exchange; by rewrite Ha].
  destruct (nodes !! x_to x) as [b|] eqn:Hb; [|unfold exchange; by rewrite Ha, Hb].
  rewrite (exchange_insert nodes x a b Ha Hb). unfold sync_exchange, handle_gossip_message, build_sync_msg.
  cbn [on_wire handle_sync_reply]. destruct (decide (id = x_to x)) as [->|Hne].
  - rewrite lookup_insert_eq, Hb. simpl. by rewrite merge_sync_boot.
  - rewrite lookup_insert_ne by done. destruct (decide (id = x_from x)) as [->|Hne']; [|by rewrite lookup_insert_ne].
    rewrite lookup_insert_eq, Ha. simpl. destruct (x_answered x); [|done]. by rewrite merge_sync_boot.
Qed.

Lemma round_boot nodes xs : same_boot nodes (round nodes xs).
Proof.
  revert nodes. induction xs as [|x xs IH]; intros nodes id; [done|].
  etransitivity; [apply (IH (exchange nodes x) id)|apply exchange_boot].
Qed.

Lemma same_boot_Some nodes nodes' id w :
  same_boot nodes nodes' -> nodes !! id = Some w ->
  exists w', nodes' !! id = Some w' /\ st_bootstrap_peers (w_state w') = st_bootstrap_peers (w_state w).
Proof.
  intros Hs Hw. specialize (Hs id). rewrite Hw in Hs. destruct (nodes' !! id) as [w'|]; [|done]. exists w'.
  split; [done|]. by injection Hs.
Qed.

(** Everyone's turns are a round of exchanges that includes every bootstrap link. *)
Lemma sync_round_exchanges net nodes ids :
  exists xs, sync_round net nodes ids = round nodes xs
  /\ forall u v, u ∈ ids -> boot_link net nodes u v -> linked xs u v.
Proof.
  revert nodes. induction ids as [|id ids IH]; intros nodes.
  { exists []. split; [done|]. by intros u v ?%not_elem_of_nil. }
  unfold sync_round. cbn [foldl]. fold (sync_round net (sync_turn (net id) nodes id) ids). unfold sync_turn.
  destruct (nodes !! id) as [w|] eqn:Hw.
  - set (xs0 := omap _ _). destruct (IH (round nodes xs0)) as (xs & Hr & Hl). exists (xs0 ++ xs).
    split; [rewrite Hr; symmetry; apply foldl_app|]. intros u v Hu (wu & addr & r & Hwu & Haddr & Hreach & Hto & Hans).
    apply elem_of_cons in Hu as [->|Hu].
    + exists (exchange_with id addr r). split; [|split; [done|by left]]. apply elem_of_app. left. apply list_elem_of_omap.
      exists addr. rewrite Hreach. split; [|done]. apply bootstrap_in_peers. congruence.
    + destruct (same_boot_Some _ _ _ _ (round_boot nodes xs0) Hwu) as (wu' & Hwu' & Hb).
      destruct (Hl u v Hu) as (x & Hx & Hends); [|exists x; split; [apply elem_of_app; by right|done]].
      exists wu', addr, r. by rewrite Hb.
  - destruct (IH nodes) as (xs & Hr & Hl). exists xs. split; [done|].
    intros u v [->|Hu]%elem_of_cons Hb; [|by apply Hl]. destruct Hb as (wu & ? & ? & Hwu & _). congruence.
Qed.

(** A round joins everyone: each daemon has a turn, and the bootstrap links that work
    leave no daemon apart. *)
Definition joins (nodes : gmap string World) (r : (string -> string -> option Reach) * list string) : Prop :=
  (forall id, id ∈ dom nodes -> id ∈ r.2) /\ connected (dom nodes) (joined r.1 nodes).

Lemma joins_boot nodes nodes' r : same_boot nodes nodes' -> dom nodes' = dom nodes -> joins nodes r -> joins nodes' r.
Proof.
  intros Hs Hd [Hids Hconn]. split; rewrite Hd; [done|]. intros i j Hi Hj. specialize (Hconn i j Hi Hj).
  assert (Hb : forall u v, boot_link r.1 nodes u v -> boot_link r.1 nodes' u v).
  { intros u v (w & addr & x & Hw & Haddr & Hx & Hto). destruct (same_boot_Some _ _ _ _ Hs Hw) as (w' & Hw' & Heq).
    exists w', addr, x. by rewrite Heq. }
  clear Hi Hj. induction Hconn as [|i k j (Hi & Hk & Hl) _ IH]; [apply rtc_refl|]. eapply rtc_l; [|exact IH].
  split_and!; [done|done|]. destruct Hl; [left|right]; by apply Hb.
Qed.

Lemma sync_round_grows nodes dc r :
  newest nodes dc -> joins nodes r ->
  let nodes' := sync_round r.1 nodes r.2 in
  newest nodes' dc /\ dom nodes' = dom nodes /\ same_boot nodes nodes' /\ holders nodes dc ⊆ holders nodes' dc
  /\ (holders nodes dc = dom nodes \/ size (holders nodes dc) < size (holders nodes' dc)).
Proof.
  intros Hnew [Hids Hconn]. destruct (sync_round_exchanges r.1 nodes r.2) as (xs & Hr & Hl). cbv zeta. rewrite Hr.
  destruct (round_spec xs nodes dc Hnew) as (Hn & Hd & Hk & _). split_and!; [done|done|apply round_boot|done|].
  apply round_grows; [done|]. intros i j Hi Hj. specialize (Hconn i j Hi Hj). clear Hi Hj.
  induction Hconn as [|i k j (Hi & Hk' & Hlink) _ IH]; [apply rtc_refl|]. eapply rtc_l; [|exact IH].
  split_and!; [done|done|]. destruct Hlink as [Hlink|Hlink]; apply Hl in Hlink; auto.
  destruct Hlink as (x & Hx & Hends). exists x. split; [done|]. tauto.
Qed.

Lemma holders_dom nodes dc : holders nodes dc ⊆ dom nodes.
Proof. intros id (w & Hw & _)%elem_of_holders. apply elem_of_dom. eauto. Qed.

Lemma sync_rounds_spec l nodes dc :
  newest nodes dc -> Forall (joins nodes) l ->
  let nodes' := sync_rounds nodes l in
  newest nodes' dc /\ dom nodes' = dom nodes /\ same_boot nodes nodes'
  /\ (holders nodes' dc = dom nodes \/ length l < size (holders nodes' dc)).
Proof.
  intros Hnew. cbv zeta. induction l as [|r l IH] using rev_ind; intros Hconn.
  { split_and!; [done|done|done|right]. destruct (nw_held _ _ Hnew) as (id & w & Hw & Hdc).
    assert (Hin : id ∈ holders nodes dc) by (apply elem_of_holders; eauto).
    cbn [sync_rounds foldl length]. apply Nat.neq_0_lt_0. intros Hz%size_empty_iff. set_solver. }
  apply Forall_app in Hconn as [Hconn Hr]. rewrite Forall_singleton in Hr. destruct (IH Hconn) as (Hn & Hd & Hs & Hh).
  unfold sync_rounds. rewrite foldl_app. cbn [foldl]. fold (sync_rounds nodes l). destruct r as [net ids].
  destruct (sync_round_grows _ dc _ Hn (joins_boot _ _ _ Hs Hd Hr)) as (Hn' & Hd' & Hs' & Hk & Hg).
  cbn [fst snd] in *. rewrite Hd in *. split_and!; [done|done|intros id; etransitivity; [apply Hs'|apply Hs]|].
  pose proof (holders_dom (sync_round net (sync_rounds nodes l) ids) dc) as Hsub. rewrite Hd' in Hsub.
  destruct Hh as [Hh|Hh]; [left; set_solver|].
  destruct Hg as [Hall|Hlt]; [left; set_solver|right]. rewrite length_app. simpl. lia.
Qed.

(** C2: Gossip terminates. Starting from a newest configuration, after as many rounds
    of the sync loop as there are daemons less one, every daemon runs it, and further
    rounds change nothing; in each round every daemon has its turn, in any order, and
    the bootstrap addresses that work join all of them, in whatever topology. Other
    syncs may fail, before or after the other side took the message, and so may saving
    to the files. *)
Theorem gossip_converges nodes dc l
    (Hnew : newest nodes dc) (Hjoins : Forall (joins nodes) l) (Hlen : size nodes <= S (length l)) :
  dom (sync_rounds nodes l) = dom nodes /\ forall id w, sync_rounds nodes l !! id = Some w -> w_dc w = dc.
Proof.
  destruct (sync_rounds_spec l nodes dc Hnew Hjoins) as (Hn & Hd & _ & Hh). split; [done|]. intros id w Hw.
  assert (Hin : id ∈ dom nodes) by (rewrite <- Hd; apply elem_of_dom; eauto).
  assert (Hall : holders (sync_rounds nodes l) dc = dom nodes).
  { destruct Hh as [Hh|Hh]; [done|]. pose proof (holders_dom (sync_rounds nodes l) dc) as Hsub. rewrite Hd in Hsub.
    apply set_eq, set_equiv_subseteq. apply set_subseteq_size_equiv in Hsub; [by apply set_equiv_subseteq in Hsub|].
    rewrite size_dom. lia. }
  rewrite <- Hall in Hin. apply elem_of_holders in Hin as (w' & Hw' & Hdc). congruence.
Qed.
End cluster.

(** ** Witnesses *)

Module Examples.

#[local] Existing Instance Dynamic.Examples.http_crate.

Definition dc := Gossip.Examples.dc.
Definition world (id : string) (v : Z) (name : string) : World :=
  {| w_state := new_state (Gossip.Examples.config id (dc v name)) "stouter.json" true; w_disk := None |}.

(** Two daemons in agreement; the first is asked for a change, and the second hears of it. *)
Definition c0 : Cluster := {| cl_nodes := {["a" := world "a" 3 "old"; "b" := world "b" 3 "old"]}; cl_sent := [] |}.
Definition removal : AdminOp := ServiceRemove "web" "a" "old".
Definition changed : World * AdminResult * list (string * Message) :=
  handle_admin_request Saved (Some "ops") removal (world "a" 3 "old").
Definition c1 : Cluster := put "a" changed.1.1 changed.2.*2 c0.
Definition c2 : Cluster :=
  put "b" (handle_gossip_message Saved 0 "a:1" (ConfigUpdate (w_dc changed.1.1)) (world "b" 3 "old")).1 [] c1.

Lemma held_c0 x : held c0 x -> x = dc 3 "old".
Proof.
  intros [(id & w & Hw & <-)|(m & Hm & _)]; [|by apply not_elem_of_nil in Hm]. cbn [cl_nodes c0] in Hw.
  apply lookup_insert_Some in Hw as [[_ <-]|[_ Hw]]; [done|].
  by apply lookup_singleton_Some in Hw as [_ <-].
Qed.

Lemma agreement_witness :
  w_version changed.1.1 = 4%Z /\ w_dc <$> cl_nodes c2 !! "b" = Some (w_dc changed.1.1) /\ agreed c2.
Proof.
  split; [vm_compute; reflexivity|]. split; [vm_compute; reflexivity|].
  apply (versions_identify_configs c0 c2).
  - intros x y Hx%held_c0 Hy%held_c0 _. congruence.
  - apply (steps_step _ _ c1); [apply (steps_step _ _ c0); [apply steps_refl|]|].
    + apply (CAdmin "a" (world "a" 3 "old") Saved (Some "ops") removal c0); [reflexivity|].
      split; [vm_compute; split; [discriminate|reflexivity]|]. intros x ->%held_c0. vm_compute. discriminate.
    + apply (CReceive "b" (world "b" 3 "old") Saved 0 "a:1" (ConfigUpdate (w_dc changed.1.1)) c1); [reflexivity|].
      vm_compute. left.
Defined.

(** Three daemons that know each other only through [b]. *)
Definition nodes : gmap string World :=
  {["a" := world "a" 5 "api"; "b" := world "b" 3 "old"; "c" := world "c" 4 "mid"]}.
Definition net (from addr : string) : option Reach :=
  if str_eqb addr "b:8080"
  then Some {| rc_to := "b"; rc_save_from := SaveFailed; rc_save_to := Saved; rc_now := 0; rc_peer := from;
               rc_answered := true |}
  else None.
Definition turns := (net, ["c"; "b"; "a"]).

Lemma nodes_cases id w : nodes !! id = Some w ->
  id = "a" /\ w = world "a" 5 "api" \/ id = "b" /\ w = world "b" 3 "old" \/ id = "c" /\ w = world "c" 4 "mid".
Proof.
  unfold nodes. intros [[<- <-]|[_ [[<- <-]|[_ [<- <-]%lookup_singleton_Some]]%lookup_insert_Some]]%lookup_insert_Some; auto.
Qed.

Lemma nodes_joined : joins nodes turns.
Proof.
  assert (Hids : forall id, id ∈ dom nodes -> id = "a" \/ id = "b" \/ id = "c")
    by (intros id [w Hw]%elem_of_dom; apply nodes_cases in Hw; naive_solver).
  split; [intros id [->|[->| ->]]%Hids; repeat (first [left|right]); vm_compute; repeat constructor|].
  assert (Hstep : forall id, id ∈ dom nodes ->
    (fun u v => u ∈ dom nodes /\ v ∈ dom nodes /\ joined turns.1 nodes u v) id "b"
    /\ (fun u v => u ∈ dom nodes /\ v ∈ dom nodes /\ joined turns.1 nodes u v) "b" id).
  { intros id Hid. assert (Hb : "b" ∈ dom nodes) by (apply elem_of_dom; by eexists).
    assert (Hl : boot_link turns.1 nodes id "b").
    { apply elem_of_dom in Hid as [w Hw]. exists w, "b:8080". eexists. split; [done|].
      apply nodes_cases in Hw as [[-> ->]|[[-> ->]|[-> ->]]]; (split; [vm_compute; left|split; [reflexivity|split; reflexivity]]). }
    split; (split; [done|split; [done|]]); [by left|by right]. }
  intros i j Hi Hj. eapply rtc_l; [apply (Hstep i Hi)|]. apply rtc_once. apply (Hstep j Hj).
Qed.

Lemma converges_witness :
  w_dc <$> sync_rounds nodes [turns; turns] !! "c" = Some (dc 5 "api").
Proof.
  destruct (gossip_converges nodes (dc 5 "api") [turns; turns]) as [Hdom Hall].
  - split.
    + exists "a", (world "a" 5 "api"). split; reflexivity.
    + intros id w [[-> ->]|[[-> ->]|[-> ->]]]%nodes_cases; [by left|right; reflexivity|right; reflexivity].
  - repeat (apply Forall_cons_2; [apply nodes_joined|]). apply Forall_nil_2.
  - apply Nat.leb_le. reflexivity.
  - assert (Hc : "c" ∈ dom (sync_rounds nodes [turns; turns])) by (rewrite Hdom; apply elem_of_dom; by eexists).
    apply elem_of_dom in Hc as [w Hw]. rewrite Hw. simpl. f_equal. by apply (Hall "c" w).
Defined.

End Examples.
