(* ===== verification/Daemon.v ===== *)
(** * A daemon from start to stop ([main] without a command in [src/src/main.rs],
    [src/src/node/mod.rs], [run_subscribe] in [src/src/subscribe/mod.rs])

    What a daemon starts with and which tasks it spawns, accepting connections,
    and the shutdown. The tasks' own work is in the other files; which of them run is
    decided here. The file is what loading it gives, as in Gossip. *)

From Stdlib Require Import SpecFloat.
From S2P Require Import Prelude NetAddr Dynamic Config Json ConfigFmt State Messages Gossip Telemetry Pki Tls Cli.

#[local] Open Scope stouter_scope.

(** ** Starting *)

Inductive Task :=
| RunGaugeLoop
| RunSyncLoop
| RunMemberLog
| RunConfigPollLoop
| RunHealthChecks
| RunReversePoolLoop
| RunListener (bind : string)
| RunApi (port : Z)
| ManageProxies
| RunHttpListener (addr : string)
| FillTunnelPool
| MaintainMuxSessions.

#[export] Instance Task_eq_dec : EqDecision Task.
Proof. solve_decision. Defined.

(** [run_node]. *)
Definition run_node (c : Config) : list Task :=
  [RunSyncLoop; RunMemberLog; RunConfigPollLoop; RunHealthChecks]
  ++ (if outbound_only c then [RunReversePoolLoop] else [RunListener (bind c)]).

(** [run_subscribe]. *)
Definition run_subscribe (c : Config) : list Task :=
  [RunSyncLoop; RunMemberLog; RunConfigPollLoop]
  ++ (if bool_decide (mode c = NodeSubscribe) then [RunHealthChecks] else [])
  ++ [RunApi (api_port c); ManageProxies]
  ++ (match http_listen c with Some addr => [RunHttpListener addr] | None => [] end)
  ++ [FillTunnelPool; MaintainMuxSessions]
  ++ (if outbound_only c then [RunReversePoolLoop] else [RunListener (bind c)]).

Definition daemon_tasks (c : Config) : list Task :=
  RunGaugeLoop :: match mode c with Node => run_node c | Subscribe | NodeSubscribe => run_subscribe c end.

Record Tracer := { tr_endpoint : string; tr_resource : Attributes; tr_sample_ratio : spec_float }.

Record Daemon := { d_state : SharedState; d_tls : TlsContext; d_tracer : option Tracer; d_tasks : list Task }.

Section daemon.
Context `{HttpCrate} `{ShowF64} `{R : Rcgen} `{T : Rustls} (env : PkiEnv) (CARGO_PKG_VERSION : string).

Definition start_tracer (cfg : TracingConfig) (node_id : string) : Tracer :=
  {| tr_endpoint := endpoint cfg; tr_resource := resource_attributes CARGO_PKG_VERSION (tc_service_name cfg) node_id;
     tr_sample_ratio := tc_sample_ratio cfg |}.

(** [main] without a command, up to the daemon's tasks. *)
Definition start_daemon (ca_seed seed path : string) (loaded : option Config) (fs : Files)
    : States * result Daemon string :=
  match loaded with
  | None => ([], Err "load")
  | Some cfg =>
      match tls_dir cfg with
      | None => ([], Err ("tlsDir must be set in " +:+ path +:+ "; mTLS is required"))
      | Some dir =>
          let '(tr, material) := load_or_create env ca_seed seed dir (node_id cfg) fs in
          (tr, let? material := material in
               let? ctx := TlsContext_new material in
               let? tracer := match tracing cfg with
                              | Some t => let? _ := validate_tracing t in Ok (Some (start_tracer t (node_id cfg)))
                              | None => Ok None
                              end in
               Ok {| d_state := new_state cfg path true; d_tls := ctx; d_tracer := tracer;
                     d_tasks := daemon_tasks cfg |})
      end
  end.

(** ** Accepting connections

    What the listener's [select!] takes next: a connection, a failure to accept, or
    the shutdown. The loop is the same in [run_listener] and [run_subscribe]. *)
Inductive AcceptEvent := Connection (peer : Peer) (addr : string) | AcceptFailed (e : string) | ShutdownSignalled.

(** The connections handed to their own tasks, and how the loop ended, if it did. *)
Fixpoint accept_loop (s : SharedState) (ctx : TlsContext) (events : list AcceptEvent)
    : list (string * result MeshStream string) * option (result unit string) :=
  match events with
  | [] => ([], None)
  | Connection peer addr :: events =>
      let '(spawned, ended) := accept_loop s ctx events in ((addr, tls_accept s ctx peer) :: spawned, ended)
  | AcceptFailed e :: _ => ([], Some (Err "accept connection"))
  | ShutdownSignalled :: _ => ([], Some (Ok tt))
  end.

(** ** Stopping

    [graceful_drain] to its end: the NodeLeave, the wait for connections in flight
    ([reads] are the counts it reads before the timeout), and the flush of the
    tracer; the events after it are the exporter's. *)
Record Stopped := { sd_state : SharedState; sd_sent : list (string * Message); sd_drained : bool; sd_exporter : option Exporter }.

Definition shutdown `{MapIter} `{JsonText} (reads : list Z) (ack : nat) (exporter : option Exporter) (events : list Event)
    (s : SharedState) : Stopped :=
  let '(s, sent) := graceful_drain s in
  {| sd_state := s; sd_sent := sent; sd_drained := wait_zero reads;
     sd_exporter := (fun x => run (Flush_ ack :: events) x) <$> exporter |}.

(** ** What runs where *)

(** The ports of the loopback listeners a task opens. *)
Definition task_port (t : Task) : option Z :=
  match t with
  | RunApi port => Some port
  | RunHttpListener addr => addr ← parse_socket_addr addr;
      if is_loopback (sa_ip addr) || is_unspecified (sa_ip addr) then Some (sa_port addr) else None
  | _ => None
  end.

Lemma task_port_reserved c t p : t ∈ daemon_tasks c -> task_port t = Some p -> reserved_port c p.
Proof.
  unfold daemon_tasks, reserved_port. intros [->|Ht]%elem_of_cons Hp; [done|].
  assert (Hsub : mode c = Node \/ subscribes (mode c) = true) by (destruct (mode c); auto).
  destruct Hsub as [Hm|Hm].
  { rewrite Hm in Ht. unfold run_node in Ht. destruct (outbound_only c); repeat (apply elem_of_cons in Ht as [->|Ht]; [done|]);
      by apply not_elem_of_nil in Ht. }
  assert (Ht' : t ∈ run_subscribe c) by (by destruct (mode c)). clear Ht. unfold run_subscribe in Ht'.
  rewrite !elem_of_app in Ht'. destruct Ht' as [Ht|[Ht|[Ht|[Ht|[Ht|Ht]]]]].
  - repeat (apply elem_of_cons in Ht as [->|Ht]; [done|]); by apply not_elem_of_nil in Ht.
  - destruct (bool_decide _); repeat (apply elem_of_cons in Ht as [->|Ht]; [done|]); by apply not_elem_of_nil in Ht.
  - apply elem_of_cons in Ht as [->|Ht]; [left; split; [done|by injection Hp]|].
    apply list_elem_of_singleton in Ht as ->. done.
  - destruct (http_listen c) as [addr|] eqn:Hl; [|by apply not_elem_of_nil in Ht].
    apply list_elem_of_singleton in Ht as ->. cbn [task_port] in Hp.
    destruct (parse_socket_addr addr) as [a|] eqn:Ha; [|done]. simpl in Hp.
    destruct (_ || _) eqn:Hloop; [|done]. injection Hp as <-. right. exists addr, a. done.
  - repeat (apply elem_of_cons in Ht as [->|Ht]; [done|]); by apply not_elem_of_nil in Ht.
  - destruct (outbound_only c); apply list_elem_of_singleton in Ht as ->; done.
Qed.

Lemma start_daemon_ok ca_seed seed path loaded fs tr d :
  start_daemon ca_seed seed path loaded fs = (tr, Ok d) ->
  exists cfg, loaded = Some cfg /\ is_Some (tls_dir cfg) /\ d_state d = new_state cfg path true
    /\ d_tasks d = daemon_tasks cfg.
Proof.
  unfold start_daemon. destruct loaded as [cfg|]; [|done]. destruct (tls_dir cfg) as [dir|] eqn:Hdir; [|done].
  destruct (load_or_create _ _ _ _ _ _) as [tr' [m|e]]; [|done]. destruct (TlsContext_new m); [|done].
  destruct (match tracing cfg with Some _ => _ | None => _ end); [|done]. intros [= _ <-]. exists cfg. rewrite Hdir. by eauto.
Qed.

(** ** The file and the memory

    A daemon and its file agree: what it would load is what it runs. *)
Definition in_sync (w : World) : Prop := exists cfg, w_disk w = Some cfg /\ dynamic_config cfg = w_dc w.

(** A step of a daemon whose saves succeed. *)
Inductive saved_step `{MapIter} : World -> World -> Prop :=
| SvGossip now peer msg w : saved_step w (handle_gossip_message Saved now peer msg w).1
| SvReply now addr reply w : saved_step w (handle_sync_reply Saved now addr reply w)
| SvAdmin cn op w : saved_step w (handle_admin_request Saved cn op w).1.1
| SvPoll w : saved_step w (config_poll Saved w).1.

Lemma adopt_in_sync dc w : in_sync w -> in_sync (adopt_config Saved dc w).
Proof. intros (cfg & Hd & _). eexists. unfold adopt_config. cbn [w_disk]. rewrite Hd. by split. Qed.

Lemma nodes_in_sync {A} (f : gmap string NodeInfo -> A * gmap string NodeInfo) (changed : bool) w :
  in_sync w ->
  in_sync (let w1 := {| w_state := (update_known_nodes f (w_state w)).2; w_disk := w_disk w |} in
           if changed then persist_state Saved w1 else w1).
Proof.
  intros (cfg & Hd & Hc). destruct (update_known_nodes_frame f (w_state w)) as (Hdc & _). cbv zeta.
  destruct changed.
  - eexists. unfold persist_state. cbn [w_disk w_state]. rewrite Hd. by split.
  - exists cfg. split; [done|]. unfold w_dc in *. cbn [w_state]. congruence.
Qed.

Lemma merge_in_sync now config nodes contact w : in_sync w -> in_sync (merge_sync Saved now config nodes contact w).
Proof.
  intros Hs. unfold merge_sync. set (w1 := if (_ <? _)%Z then _ else w).
  assert (H1 : in_sync w1) by (unfold w1; destruct (_ <? _)%Z; [by apply adopt_in_sync|done]).
  set (f := fun kn => _). pose proof (fun b => nodes_in_sync f b w1 H1) as Hn.
  destruct (update_known_nodes f (w_state w1)) as [b s']. exact (Hn b).
Qed.

Lemma apply_in_sync now msg w : in_sync w -> in_sync (apply_message Saved now msg w).
Proof.
  intros Hs. destruct msg; try done; cbn [apply_message].
  - by apply merge_in_sync.
  - destruct (_ <? _)%Z; [by apply adopt_in_sync|done].
  - destruct (negb _); [done|]. pose proof (fun b => nodes_in_sync (node_join now id addr) b w Hs) as Hn.
    destruct (update_known_nodes _ _) as [b s']. exact (Hn b).
Qed.

Lemma saved_step_in_sync `{MapIter} w w' : in_sync w -> saved_step w w' -> in_sync w'.
Proof.
  intros Hs Hstep. destruct Hstep as [now peer msg w|now addr reply w|cn op w|w].
  - destruct msg; try (by apply apply_in_sync). by apply merge_in_sync.
  - destruct reply; try done. by apply merge_in_sync.
  - unfold handle_admin_request. destruct (negb _); [done|]. destruct (bool_decide _); [done|].
    pose proof (admin_mutation_version op (st_dynamic_config (w_state w))) as Hv.
    destruct (admin_mutation _ _) as [dc [v|err]]; destruct Hs as (cfg & Hd & Hc).
    + eexists. cbn [fst w_disk]. rewrite Hd. by split.
    + exists cfg. cbn [fst w_disk]. split; [done|]. unfold w_dc in *. cbn [w_state]. subst dc.
      by rewrite set_dynamic_config_id.
  - unfold config_poll. destruct (w_disk w) as [cfg|] eqn:Hd; [|done]. destruct (_ || _); [|done].
    by apply adopt_in_sync.
Qed.

(** ** Properties *)

(** What runs after a start. A daemon that starts loaded its file and has a TLS
    directory, refuses plain connections from then on, and answers from indexes built
    from it. It syncs and polls its file in every mode, checks health exactly
    when it hosts services, and either listens or, outbound-only, keeps reverse
    connections. If its file passes validation, no service's fixed local port is one
    the daemon's own loopback listeners take. *)
Theorem start_daemon_spec ca_seed seed path loaded fs tr d
    (Hstart : start_daemon ca_seed seed path loaded fs = (tr, Ok d)) :
  exists cfg, loaded = Some cfg /\ st_config (d_state d) = cfg /\ is_Some (tls_dir cfg)
  /\ st_tls (d_state d) = true /\ index_ok (d_state d) /\ st_dynamic_config (d_state d) = dynamic_config cfg
  /\ RunSyncLoop ∈ d_tasks d /\ RunConfigPollLoop ∈ d_tasks d
  /\ (RunHealthChecks ∈ d_tasks d <-> mode cfg <> Subscribe)
  /\ (RunListener (bind cfg) ∈ d_tasks d <-> outbound_only cfg = false)
  /\ (RunReversePoolLoop ∈ d_tasks d <-> outbound_only cfg = true)
  /\ (validate cfg = Ok tt -> forall svc t p, svc ∈ all_services (dynamic_config cfg) ->
        svc_local_port svc = Some p -> t ∈ d_tasks d -> task_port t <> Some p).
Proof.
  destruct (start_daemon_ok _ _ _ _ _ _ _ Hstart) as (cfg & -> & Htls & Hstate & Htasks).
  exists cfg. rewrite Hstate, Htasks. do 5 (split; [done|]). split; [done|].
  split_and!; try (unfold daemon_tasks, run_node, run_subscribe;
    destruct (mode cfg), (outbound_only cfg), (http_listen cfg); set_solver).
  intros [_ _ _ _ _ _ Hport _ _ _]%validate_accepts svc t p Hsvc Hp Ht Htp.
  apply (Hport svc p Hsvc Hp). by eapply task_port_reserved.
Qed.

(** C21: A crash loses no acknowledged change. A daemon in step with its file, whose
    saves succeed, stays in step through any sequence of messages, syncs, admin
    requests and polls; started again from that file it runs the very configuration
    it ran, with the same indexes, hence at the version it last acknowledged. *)
Theorem restart_resumes `{MapIter} w w' ca_seed seed path fs tr d
    (Hsync : in_sync w) (Hsteps : steps saved_step w w')
    (Hstart : start_daemon ca_seed seed path (w_disk w') fs = (tr, Ok d)) :
  st_dynamic_config (d_state d) = w_dc w'
  /\ (index_ok (w_state w') -> st_service_index (d_state d) = st_service_index (w_state w')
        /\ st_routes (d_state d) = st_routes (w_state w')).
Proof.
  assert (Hs : in_sync w') by (eapply (steps_invariant saved_step in_sync); eauto using saved_step_in_sync).
  destruct Hs as (cfg & Hd & Hc). destruct (start_daemon_ok _ _ _ _ _ _ _ Hstart) as (cfg' & Hl & _ & -> & _).
  rewrite Hd in Hl. injection Hl as <-. split; [exact Hc|]. intros [Hi Hr]. rewrite Hi, Hr. simpl. by rewrite Hc.
Qed.

(** Stopping. Told to stop, a daemon lets every loop see it, tells each peer it
    knows that it leaves, reports itself drained exactly when a count of connections
    in flight reads zero in time, and, when the flush it then asks for is
    acknowledged, has exported every span recorded before. *)
Theorem shutdown_spec `{MapIter} `{JsonText} reads ack exporter events s :
  let r := shutdown reads ack exporter events s in
  st_shutdown (sd_state r) = true
  /\ (node_id (st_config s) <> "" -> sd_sent r = (fun addr => (addr, NodeLeave (node_id (st_config s)))) <$> peer_addrs s)
  /\ (sd_drained r = true <-> 0%Z ∈ reads)
  /\ (forall x x', exporter = Some x -> sd_exporter r = Some x' -> Flush ack ∉ x_queue x -> ack ∉ x_acked x ->
        room x = true -> ack ∈ x_acked x' -> all_spans x `prefix_of` concat (x_posted x')).
Proof.
  cbv zeta. split; [done|]. split; [|split].
  - intros Hid. unfold shutdown, graceful_drain. cbn [sd_sent st_config set_shutdown].
    destruct (node_id (st_config s)); done.
  - cbn [sd_drained shutdown graceful_drain]. induction reads as [|c reads IH]; cbn [wait_zero].
    { split; [done|by intros ?%not_elem_of_nil]. }
    rewrite elem_of_cons. destruct (Z.eqb_spec c 0) as [->|Hc]; [naive_solver|]. rewrite IH. naive_solver.
  - intros x x' -> [= <-] Hq Ha Hroom Hacked. by apply flush_acked.
Qed.
End daemon.

(** ** Witnesses *)

Module Examples.

#[local] Existing Instance Dynamic.Examples.http_crate.
#[local] Existing Instance Tls.Examples.rcgen.
#[local] Existing Instance Tls.Examples.rustls.
#[local] Instance show_f64 : ShowF64 := fun _ => "".

Definition cfg : Config := Gossip.Examples.config "a" (Gossip.Examples.dc 3 "old").
Definition started := start_daemon Pki.Examples.env "0.1.0" "ca-seed" "seed" "stouter.json" (Some cfg) ∅.

Lemma start_witness : exists d, started.2 = Ok d /\ st_tls (d_state d) = true /\ RunHealthChecks ∈ d_tasks d.
Proof.
  destruct started.2 as [d|e] eqn:Hd; [|vm_compute in Hd; discriminate Hd]. exists d. split; [done|].
  destruct (start_daemon_spec Pki.Examples.env "0.1.0" "ca-seed" "seed" "stouter.json" (Some cfg) ∅ started.1 d)
    as (c & Hc & _ & _ & Htls & _ & _ & _ & _ & Hhealth & _); [by rewrite <- Hd|].
  split; [exact Htls|]. apply Hhealth. injection Hc as <-. discriminate.
Defined.

(** A change is acknowledged, and the daemon is killed. *)
Definition w : World := {| w_state := new_state cfg "stouter.json" true; w_disk := Some cfg |}.
Definition w' : World := (handle_admin_request Saved (Some "ops") Gossip.Examples.added w).1.1.
Definition restarted :=
  start_daemon Pki.Examples.env "0.1.0" "x" "y" "stouter.json" (w_disk w')
    (final ∅ started.1).

Lemma resumes_witness : exists d, restarted.2 = Ok d /\ w_version w' = 4%Z /\ st_dynamic_config (d_state d) = w_dc w'.
Proof.
  destruct restarted.2 as [d|e] eqn:Hd; [|vm_compute in Hd; discriminate Hd]. exists d.
  split; [done|]. split; [vm_compute; reflexivity|].
  destruct (restart_resumes Pki.Examples.env "0.1.0" w w' "x" "y" "stouter.json" (final ∅ started.1) restarted.1 d)
    as [Hdc _]; [|apply (steps_step _ _ w); [apply steps_refl|apply SvAdmin]|by rewrite <- Hd|exact Hdc].
  exists cfg. split; reflexivity.
Defined.

(** The API's port is not kept from [httpListen], nor the daemon's own address from a
    service: both of these pass validation, and two tasks then want one port. *)
Definition clash (listen : option string) (port : option Z) : Config :=
  {| mode := NodeSubscribe; bind := "0.0.0.0:8080"; advertise_addr := None; node_id := "a"; outbound_only := false;
     reverse_pool_size := None; known_nodes := [];
     dynamic_config := {| dc_version := 1; dc_routes := [];
       dc_service_groups := [{| grp_name := "web"; grp_services :=
         [{| svc_name := "api"; svc_node_id := "b"; svc_node_port := 80; svc_domains := []; svc_weight := 1;
             svc_max_connections := None; svc_protocol := Tcp; svc_request_timeout_ms := None; svc_health_path := None;
             svc_labels := ∅; svc_meta := ∅; svc_local_port := port |}] |}] |};
     subscribe_filter := None; tls_dir := Some "tls"; admin_cns := []; api_port_opt := None; tracing := None;
     http_listen := listen |}.

Example http_listen_may_take_the_api_port :
  validate (clash (Some "127.0.0.1:5381") None) = Ok tt
  /\ omap task_port (daemon_tasks (clash (Some "127.0.0.1:5381") None)) = [5381%Z; 5381%Z].
Proof. vm_compute. auto. Qed.

Example local_port_may_take_the_bind_port :
  validate (clash None (Some 8080%Z)) = Ok tt /\ RunListener "0.0.0.0:8080" ∈ daemon_tasks (clash None (Some 8080%Z)).
Proof. split; [vm_compute; reflexivity|]. apply (bool_decide_unpack _). vm_compute. exact I. Qed.

End Examples.
