(* ===== verification/Report.v ===== *)
(** * What the command line reads and prints ([src/src/main.rs])

    The commands beside the ones of Cli: [init], [check], [status], the lists of
    services and routes, the routes given to [route set], and the certificates a
    command connects with. Output is the list of its lines. *)

From S2P Require Import Prelude NetAddr Dynamic Config Json ConfigFmt State Messages Gossip Pki Tls Cli.

#[local] Open Scope stouter_scope.

(** ** Text *)

(** A [char] begins at every byte but a continuation byte of UTF-8. *)
Definition chars (s : string) : nat :=
  length (retain (fun c => negb (Z.land (code c) 192 =? 128)%Z) (str_to_list s)).

(** [{:<n}]. *)
Definition pad (n : nat) (s : string) : string := s +:+ list_to_str (replicate (n - chars s) " "%char).

(** [str::trim_end]: the lines trimmed end in ASCII. *)
Fixpoint drop_spaces (l : list ascii) : list ascii :=
  match l with
  | c :: l' => if is_ascii_whitespace c then drop_spaces l' else l
  | [] => []
  end.
Definition trim_end (s : string) : string := list_to_str (reverse (drop_spaces (reverse (str_to_list s)))).

(** ** [status] *)

Definition service_marked (known_nodes : list NodeInfo) (svc : Service) : bool :=
  any (fun n => str_eqb (ni_id n) (svc_node_id svc) && is_unhealthy (ni_health n) (svc_name svc)) known_nodes.

Definition status_line (known_nodes : list NodeInfo) (svc : Service) : string :=
  trim_end ("    " +:+ pad 20 (svc_name svc) +:+ " node=" +:+ pad 20 (svc_node_id svc) +:+ " port="
            +:+ pad 6 (show (svc_node_port svc)) +:+ " " +:+ (if service_marked known_nodes svc then "UNHEALTHY" else "")).

Definition node_line (node : NodeInfo) : string :=
  match sh_unhealthy (ni_health node) with
  | [] => "  " +:+ pad 20 (ni_id node) +:+ " " +:+ ni_addr node
  | unhealthy => "  " +:+ pad 20 (ni_id node) +:+ " " +:+ pad 22 (ni_addr node) +:+ " unhealthy: "
                 +:+ String.concat ", " unhealthy
  end.

Definition print_status (mode node_id bind : string) (dc : DynamicConfig) (known_nodes : list NodeInfo) : list string :=
  ["Daemon:  running (" +:+ mode +:+ " mode)"; "Node ID: " +:+ node_id; "Bind:    " +:+ bind;
   "Config version: " +:+ show (dc_version dc); ""; "Services:"]
  ++ (dc_service_groups dc ≫= fun group =>
        ("  [" +:+ grp_name group +:+ "]") :: (status_line known_nodes <$> grp_services group))
  ++ (if is_nil (all_services dc) then ["  (none)"] else [])
  ++ [""; "Known nodes:"]
  ++ (if is_nil known_nodes then ["  (none)"] else [])
  ++ (node_line <$> known_nodes).

(** [status], once the daemon answered or did not. *)
Inductive StatusAnswer := NoDaemon | StatusFailed (e : string) | StatusAnswered (m : Message).

Definition status (target : string) (a : StatusAnswer) : result (list string) string :=
  match a with
  | NoDaemon => Ok ["No daemon running on " +:+ target]
  | StatusFailed e => Err e
  | StatusAnswered (StatusResponse mode id bind dc nodes) => Ok (print_status mode id bind dc nodes)
  | StatusAnswered _ => Ok ["Unexpected response from daemon"]
  end.

(** ** [service list] and [route list] *)

Definition service_line (group : ServiceGroup) (svc : Service) : string :=
  grp_name group +:+ "/" +:+ svc_name svc +:+ " -> node=" +:+ svc_node_id svc +:+ " port=" +:+ show (svc_node_port svc)
  +:+ " weight=" +:+ show (svc_weight svc)
  +:+ match svc_max_connections svc with Some m => " maxConnections=" +:+ show m | None => "" end
  +:+ (if is_tcp (svc_protocol svc) then "" else " protocol=http")
  +:+ match svc_request_timeout_ms svc with Some ms => " requestTimeoutMs=" +:+ show ms | None => "" end
  +:+ match svc_local_port svc with Some port => " localPort=" +:+ show port | None => "" end.

Definition service_list (dc : DynamicConfig) : list string :=
  if is_nil (all_services dc) then ["No services configured"]
  else dc_service_groups dc ≫= fun group => service_line group <$> grp_services group.

Section routes.
Context `{JsonText}.

Definition backend_text (b : RouteBackend) : string :=
  let labels := (fun k => k +:+ "=" +:+ default "" (rb_labels b !! k)) <$> btree_keys (rb_labels b) in
  (if is_nil labels then "*" else String.concat "," labels) +:+ " weight=" +:+ show (rb_weight b).

Definition route_line (i : nat) (route : Route) : string :=
  route_service route +:+ " " +:+ pad 10 (label route i) +:+ " match=" +:+ json_print (to_value vroute_match (route_matches route))
  +:+ " -> " +:+ String.concat " | " (backend_text <$> route_backends route).

Definition route_list (dc : DynamicConfig) : list string :=
  (if is_nil (dc_routes dc) then ["No routes configured"] else []) ++ imap route_line (dc_routes dc).

(** ** The routes of [route set]

    Inline JSON, or a file's. A route without a service is for the one named. *)
Definition with_service (service : string) (route : Value) : Value :=
  match route with
  | VObj fs => if has_key "service" fs then route else VObj (obj_insert "service" (VStr service) fs)
  | _ => route
  end.

Definition parse_routes `{HttpCrate} (read : string -> option string) (service arg : string) : result (list Route) string :=
  let? text := match strip_prefix "@" arg with
               | Some path => match read path with Some text => Ok text | None => Err ("read " +:+ path) end
               | None => Ok arg
               end in
  match option_map as_value (json_parse text) with
  | Some (VArr raw) =>
      match of_value (vlist vroute) (VArr (with_service service <$> raw)) with
      | Some routes => let? _ := validate_routes service routes in Ok routes
      | None => Err "invalid route"
      end
  | _ => Err "routes must be a JSON array"
  end.
End routes.

(** ** The commands that change the configuration

    One arm of [main] each: remotely or on the local file, and the line that is
    printed. What the outside does is a record. *)

Record CliEnv := {
  ce_transport : Transport;
  ce_remote_save : SaveOutcome;
  ce_cn : option string;    (** of the certificate the command connects with *)
  ce_save : SaveOutcome;
  ce_tls_ok : bool;
  ce_path : string
}.

(** What a command leaves: the file, the daemons, the messages sent and the outcome. *)
Record CliRun := {
  cr_disk : option Config;
  cr_net : Net;
  cr_sent : list (string * Message);
  cr_end : result (list string + Z) string  (** lines printed, or an exit code *)
}.

Section commands.
Context `{MapIter} `{HttpCrate}.

Definition run_command (env : CliEnv) (cmd : Command) (done : Z -> string) (remote : option string)
    (disk : option Config) (net : Net) : CliRun :=
  match remote with
  | Some target =>
      let '(r, net) := run_remote (ce_transport env) (ce_remote_save env) (ce_cn env) target disk cmd net in
      {| cr_disk := disk; cr_net := net; cr_sent := [];
         cr_end := match r with
                   | Ok (RpcVersion version) => Ok (inl [done version])
                   | Ok (RpcExit code) => Ok (inr code)
                   | Ok (RpcError e) | Err e => Err e
                   end |}
  | None =>
      let '(disk, sent, r) := run_local (ce_save env) (ce_tls_ok env) (ce_path env) cmd disk in
      {| cr_disk := disk; cr_net := net; cr_sent := sent;
         cr_end := let? version := r in Ok (inl [done version]) |}
  end.

Definition on_target (remote : option string) : string :=
  match remote with Some target => " on " +:+ target | None => "" end.

Definition service_add_command (env : CliEnv) (group : string) (node : option string) (svc : Service)
    (remote : option string) (disk : option Config) (net : Net) : CliRun :=
  run_command env (CmdAdd group node svc) (fun version =>
    "Service '" +:+ svc_name svc +:+ "' added to group '" +:+ group +:+ "'" +:+ on_target remote
    +:+ " (version " +:+ show version +:+ ")") remote disk net.

Definition service_rename_command (env : CliEnv) (group from to : string) (node : option string)
    (remote : option string) (disk : option Config) (net : Net) : CliRun :=
  run_command env (CmdRename group from to node) (fun version =>
    "Service '" +:+ from +:+ "' renamed to '" +:+ to +:+ "' in group '" +:+ group +:+ "'" +:+ on_target remote
    +:+ " (version " +:+ show version +:+ ")") remote disk net.

Definition service_remove_command (env : CliEnv) (group name : string) (node : option string)
    (remote : option string) (disk : option Config) (net : Net) : CliRun :=
  run_command env (CmdRemove group name node) (fun version =>
    "Service '" +:+ name +:+ "' removed from group '" +:+ group +:+ "'" +:+ on_target remote
    +:+ " (version " +:+ show version +:+ ")") remote disk net.

(** [route set], whose routes are read first, and [route clear] ([None]). *)
Definition route_set_command `{JsonText} (env : CliEnv) (read : string -> option string) (service : string)
    (routes : option string) (remote : option string) (disk : option Config) (net : Net) : CliRun :=
  match (match routes with Some arg => parse_routes read service arg | None => Ok [] end) with
  | Err e => {| cr_disk := disk; cr_net := net; cr_sent := []; cr_end := Err e |}
  | Ok routes =>
      run_command env (CmdRoutes service routes) (fun version =>
        "Set " +:+ show (Z.of_nat (length routes)) +:+ " route(s) for '" +:+ service +:+ "' (version "
        +:+ show version +:+ ")") remote disk net
  end.
End commands.

(** ** [check] and [init] *)

(** What is printed, and the exit code. *)
Definition check_command `{HttpCrate} `{ShowF64} (io : ConfigIo) (path : string) : list string * Z :=
  match check io path with
  | Ok _ => ([path +:+ " is valid"], 0%Z)
  | Err err => ([path +:+ ": " +:+ err], 1%Z)
  end.

(** The file afterwards, and what is sent: a node announces itself to the peers its
    file lists. *)
Definition init `{MapIter} (hostname : option string) (save : SaveOutcome) (tls_ok : bool) (path : string)
    (disk : option Config) : option Config * list (string * Message) * result (list string) string :=
  let cfg := default default_config disk in
  let cfg := {| mode := mode cfg; bind := bind cfg; advertise_addr := advertise_addr cfg;
                node_id := get_hostname hostname; outbound_only := outbound_only cfg;
                reverse_pool_size := reverse_pool_size cfg; known_nodes := known_nodes cfg;
                dynamic_config := dynamic_config cfg; subscribe_filter := subscribe_filter cfg; tls_dir := tls_dir cfg;
                admin_cns := admin_cns cfg; api_port_opt := api_port_opt cfg; tracing := tracing cfg;
                http_listen := http_listen cfg |} in
  let '(disk, saved) := save_config save cfg disk in
  let printed := ["Node initialized. node_id=" +:+ node_id cfg +:+ ", config saved to " +:+ path] in
  match saved with
  | Err e => (disk, [], Err e)
  | Ok _ =>
      match known_nodes cfg, tls_dir cfg with
      | [], _ => (disk, [], Ok printed)
      | _, Some _ =>
          if tls_ok then (disk, broadcast_message (new_state cfg path true) (NodeJoin (node_id cfg) (peer_addr cfg)), Ok printed)
          else (disk, [], Err "tls")
      | _, None => (disk, broadcast_message (new_state cfg path false) (NodeJoin (node_id cfg) (peer_addr cfg)), Ok printed)
      end
  end.

(** ** The certificates of a command

    [--cert-dir] before the configuration's directory. *)
Definition build_cli_tls `{Rcgen} `{Rustls} (env : PkiEnv) (ca_seed seed : string) (cfg : Config)
    (cert_dir : option string) (fs : Files) : States * result TlsContext string :=
  match (match cert_dir with Some dir => Some dir | None => tls_dir cfg end) with
  | None => ([], Err "TLS material not available: pass --cert-dir or set tlsDir in the local config")
  | Some dir =>
      let id := if str_is_empty (node_id cfg) then "stouter-cli" else node_id cfg in
      let '(tr, material) := load_or_create env ca_seed seed dir id fs in
      (tr, let? material := material in TlsContext_new material)
  end.

(** [cert issue]. *)
Definition cert_issue `{Rcgen} (env : PkiEnv) (path seed node out : string) (loaded : option Config) (fs : Files)
    : States * result (list string) string :=
  match loaded with
  | None => ([], Err "load")
  | Some cfg =>
      match tls_dir cfg with
      | None => ([], Err ("tlsDir is not set in " +:+ path))
      | Some dir =>
          let '(tr, r) := issue_cert_to_dir env seed dir node out fs in
          (tr, let? _ := r in
               Ok ["Certificate for '" +:+ node +:+ "' written to " +:+ out +:+ "/";
                   "Copy ca.crt, node.crt, and node.key to the node's tlsDir."])
      end
  end.

(** ** Properties *)

Section snapshot.
Context `{MapIter}.

Lemma any_fmap {A B} (p : B -> bool) (g : A -> B) l : any p (g <$> l) = any (fun x => p (g x)) l.
Proof. induction l as [|x l IH]; [done|]. simpl. by f_equal. Qed.

Lemma any_ext {A} (p q : A -> bool) l : (forall x, x ∈ l -> p x = q x) -> any p l = any q l.
Proof.
  intros Hpq. induction l as [|x l IH]; [done|]. simpl.
  rewrite (Hpq x) by (by left). f_equal. apply IH. intros y Hy. apply Hpq. by right.
Qed.

Lemma any_and {A} (p q : A -> bool) l : any (fun x => p x && q x) l = any q (retain p l).
Proof. induction l as [|x l IH]; [done|]. simpl. rewrite IH. by destruct (p x). Qed.

(** The entries of other nodes are the known ones. *)
Lemma snapshot_other s x :
  x <> node_id (st_config s) ->
  retain (fun n => str_eqb (ni_id n) x) (snapshot_nodes s)
  = retain (fun n => str_eqb (ni_id n) x) (map_values (st_known_nodes s)).
Proof.
  intros Hx. unfold snapshot_nodes. set (own := node_id (st_config s)) in *.
  destruct (str_is_empty own); [done|]. set (p := fun n => str_eqb (ni_id n) x).
  assert (Ho : forall n, str_eqb (ni_id n) own = true -> p n = false).
  { intros n Hn. apply str_eqb_false. apply str_eqb_true in Hn. congruence. }
  destruct (update_first _ _ _) as [l'|] eqn:Hu.
  - apply update_first_Some in Hu as (l1 & n & l2 & -> & -> & Hn & _).
    assert (Hp : p (with_health (st_local_health s) (with_addr (if outbound_only (st_config s) then "" else peer_addr (st_config s)) n)) = false)
      by exact (Ho n Hn).
    rewrite !retain_app. cbn [retain]. by rewrite Hp, (Ho n Hn).
  - rewrite retain_app. cbn [retain app]. rewrite Ho by apply str_eqb_refl. apply app_nil_r.
Qed.

Lemma known_marked (known : gmap string NodeInfo) x name :
  kn_wf known ->
  any (fun n => is_unhealthy (ni_health n) name) (retain (fun n => str_eqb (ni_id n) x) (map_values known))
  = match known !! x with Some n => is_unhealthy (ni_health n) name | None => false end.
Proof.
  intros Hwf. destruct (any _ _) eqn:Ha; symmetry.
  - apply any_true in Ha as (n & [Hn Hx]%elem_of_retain & Hu). apply elem_of_map_values in Hn as [id Hn].
    apply str_eqb_true in Hx. rewrite (Hwf id n Hn) in Hx. subst id. by rewrite Hn.
  - destruct (known !! x) as [n|] eqn:Hn; [|done]. apply any_false in Ha. rewrite Forall_forall in Ha. apply Ha, elem_of_retain.
    split; [apply elem_of_map_values; eauto|]. apply str_eqb_true, (Hwf x n Hn).
Qed.

Lemma snapshot_marked s x name :
  node_id (st_config s) <> "" -> kn_wf (st_known_nodes s) ->
  any (fun n => str_eqb (ni_id n) x && is_unhealthy (ni_health n) name) (snapshot_nodes s)
  = service_unhealthy s x name.
Proof.
  intros Hown Hwf. rewrite any_and. unfold service_unhealthy.
  destruct (str_eqb x (node_id (st_config s))) eqn:Hx; bool_hyps.
  - subst x. destruct (snapshot_self s Hown Hwf) as (addr & relay & Hs).
    rewrite <- (any_fmap (fun t => is_unhealthy t.2 name) (fun n => (ni_addr n, ni_relay n, ni_health n))), Hs.
    apply orb_false_r.
  - by rewrite snapshot_other, known_marked.
Qed.
End snapshot.

(** What [status] says of a daemon: the version and every service of the daemon's
    configuration, each with a line of its own, and UNHEALTHY there exactly when the
    daemon itself steers away from the service, be it on its own node or as another
    reports it. (A report of version 0 holds nothing, [Hlocal] and [Hknown].) *)
Theorem status_shows_health `{MapIter} s target mode id bind dc nodes
    (Hown : node_id (st_config s) <> "") (Hwf : kn_wf (st_known_nodes s))
    (Hlocal : health_on_wire (st_local_health s) = st_local_health s)
    (Hknown : map_Forall (fun _ n => health_on_wire (ni_health n) = ni_health n) (st_known_nodes s))
    (Hanswer : on_wire (handle_status_request s) = StatusResponse mode id bind dc nodes) :
  id = node_id (st_config s) /\ dc = st_dynamic_config s
  /\ (forall svc, service_marked nodes svc = service_unhealthy s (svc_node_id svc) (svc_name svc))
  /\ exists lines, status target (StatusAnswered (StatusResponse mode id bind dc nodes)) = Ok lines
      /\ ("Config version: " +:+ show (dc_version dc)) ∈ lines
      /\ (forall group svc, group ∈ dc_service_groups dc -> svc ∈ grp_services group ->
            status_line nodes svc ∈ lines)
      /\ (forall n, n ∈ nodes -> node_line n ∈ lines).
Proof.
  assert (Hsame : forall n, n ∈ snapshot_nodes s -> health_on_wire (ni_health n) = ni_health n).
  { intros n Hn. destruct (str_eqb (ni_id n) (node_id (st_config s))) eqn:Hi; bool_hyps.
    - destruct (snapshot_self s Hown Hwf) as (addr & relay & Hs).
      assert (Ht : (ni_addr n, ni_relay n, ni_health n) ∈ [(addr, relay, st_local_health s)]).
      { rewrite <- Hs. apply list_elem_of_fmap. exists n. split; [done|]. apply elem_of_retain. by rewrite str_eqb_true. }
      apply list_elem_of_singleton in Ht. by injection Ht as _ _ ->.
    - assert (Hr : n ∈ retain (fun m => str_eqb (ni_id m) (ni_id n)) (snapshot_nodes s)).
      { apply elem_of_retain. by rewrite str_eqb_refl. }
      rewrite snapshot_other in Hr by done. apply elem_of_retain in Hr as [[k Hk]%elem_of_map_values _].
      by apply (Hknown k). }
  injection Hanswer as <- <- <- <- <-. split; [done|]. split; [done|]. split.
  - intros svc. rewrite <- (snapshot_marked s) by done. unfold service_marked.
    rewrite any_fmap. apply any_ext. intros n Hn. unfold node_on_wire. cbn [ni_id ni_health]. by rewrite (Hsame n).
  - eexists. split; [reflexivity|]. unfold print_status. split; [|split].
    + do 3 right. by left.
    + intros group svc Hg Hs. apply elem_of_app. right. apply elem_of_app. left. apply list_elem_of_bind. exists group. split; [|done]. right. by apply list_elem_of_fmap_2.
    + intros n Hn. repeat (apply elem_of_app; right). by apply list_elem_of_fmap_2.
Qed.

(** ** Routes read *)

Section parse.
Context `{HttpCrate} `{JsonTextLaws}.

(** A route as it is written, and as it is written for one service. *)
Definition omit_service (r : Route) : Value :=
  VObj (retain (fun kv => negb (str_eqb kv.1 "service")) (fields_of (route_fields r))).
Definition route_text (r : Route) (v : Value) : Prop := v = to_value vroute r \/ v = omit_service r.

Lemma get_service_written r : get "service" (fields_of (route_fields r)) = Some (Some (VStr (route_service r))).
Proof.
  apply get_fields_of; [vm_compute; reflexivity|]. right. by left.
Qed.

Lemma get_omitted k k' (fs : list (string * Value)) :
  get k (retain (fun kv => negb (str_eqb kv.1 k')) fs) = if str_eqb k k' then Some None else get k fs.
Proof.
  unfold get. rewrite retain_retain. destruct (str_eqb k k') eqn:Hk; bool_hyps.
  - subst k'. rewrite retain_none; [done|]. apply Forall_forall. intros kv _. by destruct (str_eqb kv.1 k).
  - rewrite (retain_ext _ (fun kv => str_eqb kv.1 k)); [done|]. intros kv _.
    destruct (str_eqb kv.1 k) eqn:Hkv; rewrite ?andb_false_r, ?andb_true_r; [|done]. bool_hyps. subst k. by rewrite (proj2 (str_eqb_false _ _)).
Qed.

(** The entries of a route as it was written, with a service or without. *)
Lemma with_service_refines service (fs gs : list (string * Value)) :
  (forall k, k <> "service" -> get k gs = get k fs) ->
  get "service" fs = Some (Some (VStr service)) ->
  get "service" gs = Some None \/ get "service" gs = Some (Some (VStr service)) ->
  exists gs', with_service service (as_value (VObj gs)) = VObj gs' /\ refines fs gs'.
Proof.
  intros Hother Hfs Hgs. cbn [as_value with_service].
  change (map _ gs) with (prod_map id as_value <$> gs).
  pose proof (refines_obj gs) as Hr. set (G := as_map (prod_map id as_value <$> gs)) in *.
  assert (Hnd : NoDup G.*1) by apply as_map_insert.
  destruct (has_key "service" G) eqn:Hkey; eexists; (split; [reflexivity|]); intros k o Hk.
  - destruct (decide (k = "service")) as [->|Hne]; [|apply Hr; by rewrite Hother].
    destruct Hgs as [Hgs|Hgs]; [|apply Hr; congruence]. exfalso.
    apply Hr in Hgs. rewrite (get_nodup _ _ Hnd) in Hgs. apply has_key_true in Hkey.
    injection Hgs as Hgs. by apply not_elem_of_list_to_map_2 in Hgs.
  - destruct (obj_insert_map "service" (VStr service) G Hnd) as [Hnd' Hm].
    rewrite (get_nodup _ _ Hnd'), Hm. destruct (decide (k = "service")) as [->|Hne].
    + rewrite lookup_insert_eq. rewrite Hfs in Hk. by injection Hk as <-.
    + rewrite lookup_insert_ne, <- (get_nodup _ _ Hnd) by done. apply Hr. by rewrite Hother.
Qed.

Lemma with_service_reads r v :
  valid vroute r -> route_text r v ->
  of_value vroute (with_service (route_service r) (as_value v)) = Some r.
Proof.
  intros Hv Ht. pose proof (of_to (f := vroute) r Hv) as Hread. cbn [of_value to_value vroute vstruct as_fields] in Hread.
  assert (Hgs : exists gs, v = VObj gs /\ (forall k, k <> "service" -> get k gs = get k (fields_of (route_fields r)))
    /\ (get "service" gs = Some None \/ get "service" gs = Some (Some (VStr (route_service r))))).
  { destruct Ht as [->| ->]; eexists; (split; [reflexivity|]).
    - split; [done|]. right. apply get_service_written.
    - split; [|left; by rewrite get_omitted].
      intros k Hk. by rewrite get_omitted, (proj2 (str_eqb_false _ _) Hk). }
  destruct Hgs as (gs & -> & Hother & Hs).
  destruct (with_service_refines (route_service r) (fields_of (route_fields r)) gs Hother (get_service_written r) Hs)
    as (gs' & -> & Hr).
  cbn [of_value vroute vstruct as_fields]. by apply (read_route_refines _ _ _ Hr).
Qed.

(** The routes of [route set], inline or in a file. The routes of a service as
    [route list] and the API show them are read back as they are, whether or not each
    names the service; and nothing else is taken: what is read has the widths of its
    type and is what [set_routes] accepts, but for its target. *)
Theorem parse_routes_spec read service arg :
  (forall routes l path,
     Forall (fun r => valid vroute r /\ route_ok service r) routes -> Forall2 route_text routes l ->
     printable (VArr l) ->
     (arg = json_print (VArr l) /\ strip_prefix "@" arg = None
      \/ arg = String "@" path /\ read path = Some (json_print (VArr l))) ->
     parse_routes read service arg = Ok routes)
  /\ (forall routes, parse_routes read service arg = Ok routes ->
       Forall (fun r => valid vroute r /\ route_ok service r) routes).
Proof.
  split.
  - intros routes l path Hok Htext Hprint Harg. unfold parse_routes.
    assert (Hread : (match strip_prefix "@" arg with
      | Some path => match read path with Some text => Ok text | None => Err ("read " +:+ path) end
      | None => Ok arg end : result string string) = Ok (json_print (VArr l))).
    { destruct Harg as [[-> ->]|[-> Hp]]; [done|]. simpl. by rewrite Hp. }
    rewrite Hread, json_roundtrip by done. cbn [option_map as_value]. change (map as_value l) with (as_value <$> l).
    assert (Hroutes : mapM (of_value vroute) (with_service service <$> (as_value <$> l)) = Some routes).
    { apply mapM_Some. clear Hprint Harg Hread. induction Htext as [|r v routes l Ht _ IH]; [constructor|].
      apply Forall_cons in Hok as [[Hv Hr] Hok]. constructor; [|by apply IH]. rewrite <- (proj1 Hr). by apply with_service_reads. }
    cbn [of_value vlist]. rewrite Hroutes. enough (validate_routes service routes = Ok tt) as -> by done.
    apply validate_routes_ok. eapply Forall_impl; [exact Hok|]. by intros r [].
  - intros routes. unfold parse_routes. intros Hp.
    case_match; [|done]. destruct (option_map _ _) as [[| | | | |raw|]|]; try done.
    destruct (of_value _ _) as [rs|] eqn:Hrs; [|done]. destruct (validate_routes service rs) as [[]|] eqn:Hval; [|done].
    injection Hp as ->. apply of_valid in Hrs. apply validate_routes_ok in Hval.
    apply Forall_forall. intros r Hr. rewrite Forall_forall in Hval. cbn [valid vlist] in Hrs. rewrite Forall_forall in Hrs. auto.
Qed.

(** [route set] on the local file with what [route list] shows leaves exactly these
    routes for the service, and sends them to the peers. *)
Lemma route_set_command_spec `{MapIter} env read service arg routes disk cfg net version :
  parse_routes read service arg = Ok routes -> disk = Some cfg -> ce_save env = Saved ->
  (set_routes service routes (dynamic_config cfg)).2 = Ok version -> (is_Some (tls_dir cfg) -> ce_tls_ok env = true) ->
  let r := route_set_command env read service (Some arg) None disk net in
  exists cfg', cr_disk r = Some cfg'
  /\ dynamic_config cfg' = (set_routes service routes (dynamic_config cfg)).1
  /\ cr_end r = Ok (inl ["Set " +:+ show (Z.of_nat (length routes)) +:+ " route(s) for '" +:+ service +:+ "' (version "
                         +:+ show version +:+ ")"]).
Proof.
  intros Hparse -> Hsave Hset Htls. cbv zeta. unfold route_set_command, run_command, run_local. rewrite Hparse, Hsave.
  cbn [check_args load_for local_mutation]. destruct (set_routes _ _ _) as [dc r]. cbn [snd fst] in *. subst r.
  cbn [save_config]. unfold broadcast_config. cbn [tls_dir with_dynamic_config].
  destruct (tls_dir cfg) as [dir|]; [rewrite Htls by eauto|]; eexists; by split_and!.
Qed.
End parse.

(** ** Witnesses *)

Module Examples.

#[local] Existing Instance Dynamic.Examples.http_crate.
#[local] Existing Instance ConfigFmt.Examples.json_text.
#[local] Existing Instance ConfigFmt.Examples.json_text_laws.

(** Daemon [a], whose own [api] fails its check. *)
Definition reporting : SharedState := w_state (Gossip.Examples.world "a" (Gossip.Examples.dc 3 "api")).

Lemma status_witness :
  exists mode id bind dc nodes,
    on_wire (handle_status_request reporting) = StatusResponse mode id bind dc nodes
    /\ exists lines, status "a:8080" (StatusAnswered (StatusResponse mode id bind dc nodes)) = Ok lines
       /\ service_unhealthy reporting "a" "api" = true
       /\ "    api                  node=a                    port=8080   UNHEALTHY" ∈ lines.
Proof.
  do 5 eexists. split; [reflexivity|].
  destruct (status_shows_health reporting "a:8080" "nodesubscribe" "a" "0.0.0.0:8080" (Gossip.Examples.dc 3 "api")
    (node_on_wire <$> snapshot_nodes reporting)) as (_ & _ & _ & lines & Hs & _ & Hin & _).
  - discriminate.
  - intros id n Hn. vm_compute in Hn. discriminate.
  - reflexivity.
  - intros id n Hn. vm_compute in Hn. discriminate.
  - reflexivity.
  - exists lines. split; [exact Hs|]. split; [reflexivity|].
    apply (Hin {| grp_name := "web"; grp_services := [Dynamic.Examples.service "api" "a" Http] |}
             (Dynamic.Examples.service "api" "a" Http)); by left.
Defined.

Definition to_v2 : Route :=
  {| route_name := Some "canary"; route_service := "api";
     route_matches := {| rm_path_prefix := Some "/v2"; rm_method := None; rm_headers := ∅ |};
     route_backends := [{| rb_labels := {["version" := "v2"]}; rb_weight := 10 |}] |}.

(** The route written without its service, inline and in a file. *)
Lemma routes_witness :
  let text := json_print (VArr [omit_service to_v2]) in
  parse_routes (fun _ => None) "api" text = Ok [to_v2]
  /\ parse_routes (fun _ => Some text) "api" "@routes.json" = Ok [to_v2].
Proof.
  assert (Hok : Forall (fun r => valid vroute r /\ route_ok "api" r) [to_v2]).
  { constructor; [|constructor]. split; [|by apply (validate_route_ok "api" 0)].
    constructor; [split; done|constructor]. }
  assert (Htext : Forall2 route_text [to_v2] [omit_service to_v2]) by (constructor; [by right|constructor]).
  cbv zeta. split.
  - apply (proj1 (parse_routes_spec (fun _ => None) "api" (json_print (VArr [omit_service to_v2])))
             [to_v2] [omit_service to_v2] ""); [exact Hok|exact Htext|exact I|].
    left. split; [reflexivity|]. vm_compute. reflexivity.
  - apply (proj1 (parse_routes_spec (fun _ => Some (json_print (VArr [omit_service to_v2]))) "api" "@routes.json")
             [to_v2] [omit_service to_v2] "routes.json"); [exact Hok|exact Htext|exact I|].
    right. split; reflexivity.
Defined.

(** A configuration that is there but cannot be read is taken for a missing one:
    [init] replaces it by the defaults under the host's name. *)
Example init_replaces_unreadable :
  exists cfg, (init (Some "host") Saved true "stouter.json" None).1.1 = Some cfg
  /\ node_id cfg = "host" /\ known_nodes cfg = [] /\ tls_dir cfg = None /\ dynamic_config cfg = dynamic_config default_config.
Proof. eexists. split; [reflexivity|]. by split_and!. Qed.

End Examples.
