(* ===== verification/TestKit.v ===== *)
(** * What the sources' tests are written with

    The tests of the sources ([mod tests] in each file of [src/src]) are translated in
    the files after this one: a test function becomes a proposition of the same name,
    and holding it is a matter of computation. This checks the model against what the
    program's authors wrote down about it. Here are the assertions, and stand-ins for the
    libraries the tests call: JSON text as [serde_json] writes it, and the [http] crate's
    checks as far as the tests go. *)

From Stdlib Require Import SpecFloat.
From S2P Require Import Prelude NetAddr Json Dynamic Config ConfigFmt.
#[local] Open Scope stouter_scope.

(** ** Assertions

    [assert!(b)] is [b] itself (a boolean as a proposition) and [assert_eq!(a, b)] is
    [a = b]; a test asserts a conjunction. *)

(** [.unwrap()], whose failure fails the test. *)
Class Unwrap (T A : Type) := unwrap : T -> option A.
#[export] Instance unwrap_option {A} : Unwrap (option A) A := fun o => o.
#[export] Instance unwrap_result {A E} : Unwrap (result A E) A := fun r => ok r.

Notation "'let!' x := o 'in' k" :=
  (match unwrap o with Some x => k | None => False end)
  (at level 10, x pattern, o at level 100, k at level 200) : stouter_scope.

Definition is_err {A E} (r : result A E) : bool := negb (is_ok r).
Definition unwrap_err {A E} (r : result A E) : option E := match r with Ok _ => None | Err e => Some e end.

(** [str::contains] of a string. *)
Fixpoint contains (needle s : string) : bool :=
  starts_with needle s || match s with EmptyString => false | String _ s => contains needle s end.

(** A [for] loop of assertions. *)
Fixpoint each {A} (p : A -> Prop) (l : list A) : Prop :=
  match l with [] => True | x :: l => p x /\ each p l end.

Ltac run_test := vm_compute; repeat split.

(** ** JSON text *)

Definition dquote : ascii := "034".

(** JSON text is written here with ['] for the quotation mark. *)
Definition js (s : string) : string := str_map (fun c => if Ascii.eqb c "'" then dquote else c) s.

Definition newline : ascii := "010".

Fixpoint print_str (s : string) : string :=
  match s with
  | EmptyString => EmptyString
  | String c s =>
      let rest := print_str s in
      if Ascii.eqb c dquote || Ascii.eqb c "\" then String "\" (String c rest)
      else if Ascii.eqb c newline then "\n" +:+ rest
      else if Ascii.eqb c "013" then "\r" +:+ rest
      else if Ascii.eqb c "009" then "\t" +:+ rest
      else String c rest
  end.

Definition quoted (s : string) : string := String dquote (print_str s +:+ String dquote EmptyString).

Fixpoint spaces (n : nat) : string := match n with O => EmptyString | S n => String " " (spaces n) end.

(** The lines of an array or object: [indent] is [None] for [to_string], and the depth
    for [to_string_pretty]. *)
Definition block (open close : string) (indent : option nat) (items : list string) : string :=
  match items, indent with
  | [], _ => open +:+ close
  | _, None => open +:+ String.concat "," items +:+ close
  | _, Some d =>
      let nl := fun d => String newline (spaces (2 * d)) in
      open +:+ nl (S d) +:+ String.concat ("," +:+ nl (S d)) items +:+ nl d +:+ close
  end.

(** [None] for a double: no test prints one. *)
Fixpoint print (indent : option nat) (v : Value) : option string :=
  let inner := option_map S indent in
  match v with
  | VNull => Some "null"
  | VBool b => Some (if b then "true" else "false")
  | VNum n => Some (show n)
  | VFloat _ => None
  | VStr s => Some (quoted s)
  | VArr l =>
      let* items := (fix go (l : list Value) := match l with
                     | [] => Some []
                     | v :: l => let* s := print inner v in let* ss := go l in Some (s :: ss)
                     end) l in
      Some (block "[" "]" indent items)
  | VObj l =>
      let colon := match indent with None => ":" | Some _ => ": " end in
      let* items := (fix go (l : list (string * Value)) := match l with
                     | [] => Some []
                     | (k, v) :: l => let* s := print inner v in let* ss := go l in Some ((quoted k +:+ colon +:+ s) :: ss)
                     end) l in
      Some (block "{" "}" indent items)
  end.

Fixpoint skip_ws (s : string) : string :=
  match s with
  | String c s' => if any (Z.eqb (code c)) [32; 9; 10; 13]%Z then skip_ws s' else s
  | EmptyString => EmptyString
  end.

(** The rest of a string after its opening quotation mark. *)
Fixpoint parse_str (s : string) : option (string * string) :=
  match s with
  | EmptyString => None
  | String c s =>
      if Ascii.eqb c dquote then Some (EmptyString, s)
      else if Ascii.eqb c "\" then
        match s with
        | String e s =>
            let c := if Ascii.eqb e "n" then Some newline else if Ascii.eqb e "r" then Some ("013"%char)
                     else if Ascii.eqb e "t" then Some ("009"%char)
                     else if Ascii.eqb e dquote || Ascii.eqb e "\" || Ascii.eqb e "/" then Some e else None in
            let* c := c in let* (t, rest) := parse_str s in Some (String c t, rest)
        | EmptyString => None
        end
      else let* (t, rest) := parse_str s in Some (String c t, rest)
  end.

(** A number: an integer, or a decimal fraction as the nearest double. *)
Definition parse_num (s : string) : option (Value * string) :=
  let '(neg, s) := match s with String c s' => if Ascii.eqb c "-" then (true, s') else (false, s) | _ => (false, s) end in
  let sign := fun z => if neg : bool then (- z)%Z else z in
  match read_digits 10 s with
  | ([], _) => None
  | (int, String "." rest) =>
      match read_digits 10 rest with
      | ([], _) => None
      | (frac, rest) =>
          Some (VFloat (SFdiv 53 1024 (f64_of_Z (sign (digits_value 10 (int ++ frac))))
                                      (f64_of_Z (10 ^ Z.of_nat (length frac)))), rest)
      end
  | (int, rest) => Some (VNum (sign (digits_value 10 int)), rest)
  end.

Fixpoint parse (fuel : nat) (s : string) : option (Value * string) :=
  match fuel with
  | O => None
  | S fuel =>
      let elems := fix elems (n : nat) (s : string) :=
        match n with
        | O => None
        | S n =>
            let* (v, s) := parse fuel s in
            match skip_ws s with
            | String "," s => let* (vs, s) := elems n s in Some (v :: vs, s)
            | String "]" s => Some ([v], s)
            | _ => None
            end
        end in
      let members := fix members (n : nat) (s : string) :=
        match n, skip_ws s with
        | S n, String c s =>
            if negb (Ascii.eqb c dquote) then None
            else
              let* (k, s) := parse_str s in
              match skip_ws s with
              | String ":" s =>
                  let* (v, s) := parse fuel s in
                  match skip_ws s with
                  | String "," s => let* (kvs, s) := members n s in Some ((k, v) :: kvs, s)
                  | String "}" s => Some ([(k, v)], s)
                  | _ => None
                  end
              | _ => None
              end
        | _, _ => None
        end in
      match skip_ws s with
      | String "[" s =>
          match skip_ws s with
          | String "]" s => Some (VArr [], s)
          | s => let* (l, s) := elems fuel s in Some (VArr l, s)
          end
      | String "{" s =>
          match skip_ws s with
          | String "}" s => Some (VObj [], s)
          | s => let* (l, s) := members fuel s in Some (VObj l, s)
          end
      | s =>
          match strip_prefix "null" s, strip_prefix "true" s, strip_prefix "false" s with
          | Some s, _, _ => Some (VNull, s)
          | _, Some s, _ => Some (VBool true, s)
          | _, _, Some s => Some (VBool false, s)
          | _, _, _ =>
              match s with
              | String c s' => if Ascii.eqb c dquote
                               then let* (t, s) := parse_str s' in Some (VStr t, s)
                               else parse_num s
              | EmptyString => None
              end
          end
      end
  end.

Definition json_text_of (v : Value) : option string := print None v.

Definition parse_json (s : string) : option Value :=
  match parse (S (String.length s)) s with
  | Some (v, rest) => if str_is_empty (skip_ws rest) then Some v else None
  | None => None
  end.

(** [serde_json::to_string], [from_str] and [from_value] of a type with a format, and
    [json!] from its text. *)
Definition to_string {A} (f : Fmt A) (a : A) : option string := print None (to_value f a).
Definition from_str_as {A} (f : Fmt A) (s : string) : option A := let* v := parse_json s in of_value f v.
Definition json_as {A} (f : Fmt A) (s : string) : option A := from_str_as f (js s).
Definition back {A} (f : Fmt A) (a : A) : option A := let* s := to_string f a in from_str_as f s.

Definition json_text : JsonText :=
  {| json_parse := parse_json; json_print v := default "" (print None v);
     json_print_pretty v := default "" (print (Some 0) v);
     printable v := is_Some (print None v) |}.

Example text_read_back :
  let v := VObj [("a", VArr [VNum 1; VNull; VStr "x"]); ("b", VObj []); ("c", VObj [("d", VBool true)])] in
  print None v = Some (js "{'a':[1,null,'x'],'b':{},'c':{'d':true}}")
  /\ (print None v ≫= parse_json) = Some v /\ (print (Some 0) v ≫= parse_json) = Some v.
Proof. run_test. Qed.

(** ** The [http] crate, as far as the tests go *)

Fixpoint split_at (sep s : string) : option (string * string) :=
  match strip_prefix sep s with
  | Some rest => Some (EmptyString, rest)
  | None => match s with
            | EmptyString => None
            | String c s => let* (a, b) := split_at sep s in Some (String c a, b)
            end
  end.

(** The host of an authority, without its port. *)
Definition authority_host (a : string) : string :=
  match strip_prefix "[" a with
  | Some rest => "[" +:+ default rest (fst <$> split_once "]" rest) +:+ "]"
  | None => default a (fst <$> split_once ":" a)
  end.

Definition uri_host_of (uri : string) : option string * option string :=
  match split_at "://" uri with
  | Some (scheme, rest) => (Some scheme, Some (authority_host (default rest (fst <$> split_once "/" rest))))
  | None => (None, if starts_with "/" uri then None else Some (authority_host uri))
  end.

#[export] Instance http_crate : HttpCrate :=
  {| header_name_ok n := negb (str_is_empty n) && negb (any is_ascii_whitespace (str_to_list n));
     uri_parse s := if any is_ascii_whitespace (str_to_list s) then Err "invalid uri character" else Ok (uri_host_of s) |}.

#[export] Instance show_f64_blank : ShowF64 := fun _ => "".

(** ** Struct updates: [Config { mode, ..c }] and the like *)

Definition with_mode m '(Build_Config _ b a i o r k d f t n p tr h) := Build_Config m b a i o r k d f t n p tr h.
Definition with_bind b '(Build_Config m _ a i o r k d f t n p tr h) := Build_Config m b a i o r k d f t n p tr h.
Definition with_advertise_addr a '(Build_Config m b _ i o r k d f t n p tr h) := Build_Config m b a i o r k d f t n p tr h.
Definition with_node_id i '(Build_Config m b a _ o r k d f t n p tr h) := Build_Config m b a i o r k d f t n p tr h.
Definition with_outbound_only o '(Build_Config m b a i _ r k d f t n p tr h) := Build_Config m b a i o r k d f t n p tr h.
Definition with_reverse_pool_size r '(Build_Config m b a i o _ k d f t n p tr h) := Build_Config m b a i o r k d f t n p tr h.
Definition with_known_nodes k '(Build_Config m b a i o r _ d f t n p tr h) := Build_Config m b a i o r k d f t n p tr h.
Definition with_dynamic_config d '(Build_Config m b a i o r k _ f t n p tr h) := Build_Config m b a i o r k d f t n p tr h.
Definition with_subscribe_filter f '(Build_Config m b a i o r k d _ t n p tr h) := Build_Config m b a i o r k d f t n p tr h.
Definition with_admin_cns n '(Build_Config m b a i o r k d f t _ p tr h) := Build_Config m b a i o r k d f t n p tr h.
Definition with_api_port p '(Build_Config m b a i o r k d f t n _ tr h) := Build_Config m b a i o r k d f t n p tr h.
Definition with_tracing tr '(Build_Config m b a i o r k d f t n p _ h) := Build_Config m b a i o r k d f t n p tr h.
Definition with_http_listen h '(Build_Config m b a i o r k d f t n p tr _) := Build_Config m b a i o r k d f t n p tr h.

Definition with_domains d '(Build_Service n i po _ w mx pr rt h l me lp) := Build_Service n i po d w mx pr rt h l me lp.
Definition with_weight w '(Build_Service n i po d _ mx pr rt h l me lp) := Build_Service n i po d w mx pr rt h l me lp.
Definition with_protocol pr '(Build_Service n i po d w mx _ rt h l me lp) := Build_Service n i po d w mx pr rt h l me lp.
Definition with_health_path h '(Build_Service n i po d w mx pr rt _ l me lp) := Build_Service n i po d w mx pr rt h l me lp.
Definition with_labels l '(Build_Service n i po d w mx pr rt h _ me lp) := Build_Service n i po d w mx pr rt h l me lp.
Definition with_local_port lp '(Build_Service n i po d w mx pr rt h l me _) := Build_Service n i po d w mx pr rt h l me lp.

(** A service written out with its remaining fields at the values most tests give them. *)
Definition plain_service (name node : string) (port : Z) : Service :=
  Build_Service name node port [] 1 None Tcp None None ∅ ∅ None.

(** A float literal. *)
Definition f64 (s : string) : spec_float :=
  match parse_num s with Some (VFloat f, _) => f | Some (VNum n, _) => f64_of_Z n | _ => S754_nan end.
