(* ===== verification/ConfigTests.v ===== *)
(** * The tests of the configuration ([src/src/config.rs], [mod tests]) *)

From Stdlib Require Import SpecFloat.
From S2P Require Import Prelude NetAddr Json Dynamic Config ConfigFmt TestKit.
#[local] Open Scope stouter_scope.

(** ** Defaults and addresses *)

Definition config_default_values : Prop :=
  let cfg := default_config in
  bind cfg = "0.0.0.0:8080" /\ advertise_addr cfg = None /\ known_nodes cfg = []
  /\ dc_version (dynamic_config cfg) = 0%Z /\ dc_service_groups (dynamic_config cfg) = [].
Example passes_config_default_values : config_default_values.
Proof. run_test. Qed.

Definition peer_addr_falls_back_to_bind : Prop :=
  let cfg := with_bind "10.0.0.1:9090" (with_advertise_addr None default_config) in
  peer_addr cfg = "10.0.0.1:9090".
Example passes_peer_addr_falls_back_to_bind : peer_addr_falls_back_to_bind.
Proof. run_test. Qed.

Definition peer_addr_uses_advertise_when_set : Prop :=
  let cfg := with_bind "0.0.0.0:8080" (with_advertise_addr (Some "1.2.3.4:9090") default_config) in
  peer_addr cfg = "1.2.3.4:9090".
Example passes_peer_addr_uses_advertise_when_set : peer_addr_uses_advertise_when_set.
Proof. run_test. Qed.

Definition config_serde_round_trip : Prop :=
  let cfg := with_node_id "node1" (with_bind "10.0.0.1:8080" (with_advertise_addr (Some "external:8080")
               (with_known_nodes ["peer1:8080"] default_config))) in
  let! json := to_string vconfig cfg in
  let! restored := from_str_as vconfig json in
  node_id restored = "node1" /\ advertise_addr restored = Some "external:8080" /\ known_nodes restored = ["peer1:8080"].
Example passes_config_serde_round_trip : config_serde_round_trip.
Proof. run_test. Qed.

Definition config_serde_omits_advertise_addr_when_none : Prop :=
  let! json := to_string vconfig default_config in
  negb (contains "advertiseAddr" json).
Example passes_config_serde_omits_advertise_addr_when_none : config_serde_omits_advertise_addr_when_none.
Proof. run_test. Qed.

Definition nodesubscribe_mode_serde_round_trip : Prop :=
  let cfg := with_mode NodeSubscribe default_config in
  let! json := to_string vconfig cfg in
  contains (js "'nodeSubscribe'") json /\
  let! restored := from_str_as vconfig json in
  mode restored = NodeSubscribe.
Example passes_nodesubscribe_mode_serde_round_trip : nodesubscribe_mode_serde_round_trip.
Proof. run_test. Qed.

Definition admin_cns_round_trips_and_omitted_when_empty : Prop :=
  let cfg := default_config in
  let! json := to_string vconfig cfg in
  negb (contains "adminCns" json) /\
  let cfg := with_admin_cns ["admin-cli"] default_config in
  let! json := to_string vconfig cfg in
  contains (js "'adminCns':['admin-cli']") json /\
  let! restored := from_str_as vconfig json in
  admin_cns restored = ["admin-cli"].
Example passes_admin_cns_round_trips_and_omitted_when_empty : admin_cns_round_trips_and_omitted_when_empty.
Proof. run_test. Qed.

Definition local_target_rewrites_wildcard_v4 : Prop :=
  local_target (with_bind "0.0.0.0:60001" default_config) = "127.0.0.1:60001".
Example passes_local_target_rewrites_wildcard_v4 : local_target_rewrites_wildcard_v4.
Proof. run_test. Qed.

Definition local_target_rewrites_wildcard_v6 : Prop :=
  local_target (with_bind "[::]:60001" default_config) = "[::1]:60001".
Example passes_local_target_rewrites_wildcard_v6 : local_target_rewrites_wildcard_v6.
Proof. run_test. Qed.

Definition local_target_preserves_specific_address : Prop :=
  local_target (with_bind "10.0.0.5:60001" default_config) = "10.0.0.5:60001".
Example passes_local_target_preserves_specific_address : local_target_preserves_specific_address.
Proof. run_test. Qed.

Definition local_target_preserves_unparseable_bind : Prop :=
  local_target (with_bind "myhost:60001" default_config) = "myhost:60001".
Example passes_local_target_preserves_unparseable_bind : local_target_preserves_unparseable_bind.
Proof. run_test. Qed.

(** ** The subscribe filter *)

Definition subscribe_filter_is_empty : Prop :=
  sf_is_empty {| sf_service_groups := []; sf_services := [] |}
  /\ negb (sf_is_empty {| sf_service_groups := ["web"]; sf_services := [] |})
  /\ negb (sf_is_empty {| sf_service_groups := []; sf_services := ["api"] |}).
Example passes_subscribe_filter_is_empty : subscribe_filter_is_empty.
Proof. run_test. Qed.

Definition subscribe_filter_allows : Prop :=
  let f := {| sf_service_groups := ["web"]; sf_services := ["auth"] |} in
  allows f "web" "anything" /\ allows f "other" "auth" /\ negb (allows f "other" "api") /\ allows f "web" "auth".
Example passes_subscribe_filter_allows : subscribe_filter_allows.
Proof. run_test. Qed.

Definition web_filter : SubscribeFilter := {| sf_service_groups := ["web"]; sf_services := [] |}.

Definition subscribe_filter_invalid_on_node_mode : Prop :=
  let cfg := with_mode Node (with_subscribe_filter (Some web_filter) default_config) in
  is_err (validate cfg).
Example passes_subscribe_filter_invalid_on_node_mode : subscribe_filter_invalid_on_node_mode.
Proof. run_test. Qed.

Definition subscribe_filter_valid_on_subscribe_mode : Prop :=
  let cfg := with_mode Subscribe (with_subscribe_filter (Some web_filter) default_config) in
  is_ok (validate cfg).
Example passes_subscribe_filter_valid_on_subscribe_mode : subscribe_filter_valid_on_subscribe_mode.
Proof. run_test. Qed.

Definition subscribe_filter_valid_on_node_subscribe_mode : Prop :=
  let cfg := with_mode NodeSubscribe (with_subscribe_filter (Some web_filter) default_config) in
  is_ok (validate cfg).
Example passes_subscribe_filter_valid_on_node_subscribe_mode : subscribe_filter_valid_on_node_subscribe_mode.
Proof. run_test. Qed.

Definition outbound_only_accepted_on_node_subscribe_mode : Prop :=
  let cfg := with_mode NodeSubscribe (with_outbound_only true default_config) in
  is_ok (validate cfg).
Example passes_outbound_only_accepted_on_node_subscribe_mode : outbound_only_accepted_on_node_subscribe_mode.
Proof. run_test. Qed.

Definition subscribe_filter_serde_omits_empty_lists : Prop :=
  let! json := to_string vfilter web_filter in
  contains "serviceGroups" json /\ negb (contains "services" json).
Example passes_subscribe_filter_serde_omits_empty_lists : subscribe_filter_serde_omits_empty_lists.
Proof. run_test. Qed.

(** ** Validation *)

Definition group_of (services : list Service) : Config :=
  with_dynamic_config
    {| dc_version := 1; dc_service_groups := [{| grp_name := "web"; grp_services := services |}]; dc_routes := [] |}
    default_config.

(** [serde_json::json!] with these fields, read as a [Service]. *)
Definition instance_value (name node : string) (domains : list string) : Value :=
  VObj [("name", VStr name); ("nodeId", VStr node); ("nodePort", VNum 3000); ("domains", VArr (VStr <$> domains))].
Definition instance (name node : string) (domains : list string) : Service :=
  default (plain_service "" "" 0) (of_value vservice (instance_value name node domains)).

Example instance_reads : instance "api" "n1" ["d"] = with_domains ["d"] (plain_service "api" "n1" 3000).
Proof. run_test. Qed.

Definition validate_accepts_multi_instance_services_sharing_a_domain : Prop :=
  let cfg := group_of [instance "api" "n1" ["api.example.com"]; instance "api" "n2" ["api.example.com"]] in
  is_ok (validate cfg).
Example passes_validate_accepts_multi_instance : validate_accepts_multi_instance_services_sharing_a_domain.
Proof. run_test. Qed.

Definition on_port (svc : Service) (port : Z) : Service := with_local_port (Some port) svc.

Definition local_port_resolves_across_instances : Prop :=
  let cfg := group_of [on_port (instance "api" "n1" []) 15002; instance "api" "n2" [];
                       on_port (instance "api" "n3" []) 15002] in
  local_port_for (dynamic_config cfg) "api" = Ok (Some 15002%Z)
  /\ local_port_for (dynamic_config cfg) "other" = Ok None
  /\ is_ok (validate cfg) /\
  let cfg := group_of [on_port (instance "api" "n1" []) 15002; on_port (instance "api" "n2" []) 15003] in
  is_err (local_port_for (dynamic_config cfg) "api") /\ is_err (validate cfg).
Example passes_local_port_resolves_across_instances : local_port_resolves_across_instances.
Proof. run_test. Qed.

Definition local_ports_must_not_collide : Prop :=
  let two_services := group_of [on_port (instance "api" "n1" []) 15002; on_port (instance "web" "n1" []) 15002] in
  is_err (validate two_services) /\
  let subscriber svc := with_mode Subscribe (group_of [svc]) in
  let with_api := with_api_port (Some 15002%Z) (subscriber (on_port (instance "api" "n1" []) 15002)) in
  is_err (validate with_api)
  /\ is_err (validate (subscriber (on_port (instance "api" "n1" []) 5381)))
  /\ is_ok (validate (group_of [on_port (instance "api" "n1" []) 5381])) /\
  let with_listener := with_mode Subscribe (with_http_listen (Some "127.0.0.1:15002")
                         (group_of [on_port (instance "api" "n1" []) 15002])) in
  is_err (validate with_listener)
  /\ is_err (validate (group_of [on_port (instance "api" "n1" []) 0])).
Example passes_local_ports_must_not_collide : local_ports_must_not_collide.
Proof. run_test. Qed.

Definition http_listen_validation : Prop :=
  let ok := with_mode NodeSubscribe (with_http_listen (Some "127.0.0.1:15001") default_config) in
  is_ok (validate ok) /\
  let node_mode := with_mode Node (with_http_listen (Some "127.0.0.1:15001") default_config) in
  is_err (validate node_mode) /\
  let bad := with_mode Subscribe (with_http_listen (Some "localhost") default_config) in
  is_err (validate bad).
Example passes_http_listen_validation : http_listen_validation.
Proof. run_test. Qed.

Definition http_instance (name node : string) (labels : list (string * string)) : Service :=
  with_labels (list_to_map labels) (with_protocol Http (instance name node [])).

(** [route(serde_json::json!(..))]. *)
Definition route (json : string) : option Route := json_as vroute json.

Definition route_json_schema : Prop :=
  let! r := route "{'name': 'canary', 'service': 'api',
    'match': {'pathPrefix': '/v2', 'method': 'GET', 'headers': {'X-Canary': 'true'}},
    'backends': [{'labels': {'version': 'v2'}, 'weight': 9}, {'labels': {'version': 'v1'}}]}" in
  rm_path_prefix (route_matches r) = Some "/v2"
  /\ rb_weight <$> (route_backends r !! 1) = Some DEFAULT_WEIGHT /\
  let! json := to_string vroute r in
  contains (js "'match':{") json
  /\ from_str_as vroute json = Some r /\
  let! json := to_string vdynamic default_dynamic_config in
  negb (contains "routes" json).
Example passes_route_json_schema : route_json_schema.
Proof. run_test. Qed.

Definition path_prefix_matches_on_segment_boundaries : Prop :=
  path_has_prefix "/v2" "/v2" /\ path_has_prefix "/v2/users" "/v2" /\ negb (path_has_prefix "/v20" "/v2")
  /\ path_has_prefix "/v2/users" "/v2/" /\ negb (path_has_prefix "/v2" "/v2/") /\ path_has_prefix "/anything" "/".
Example passes_path_prefix_matches_on_segment_boundaries : path_prefix_matches_on_segment_boundaries.
Proof. run_test. Qed.

Definition route_match_requires_all_conditions : Prop :=
  let m := {| rm_path_prefix := Some "/api"; rm_method := Some "POST"; rm_headers := {["X-Canary" := "true"]} |} in
  let canary name := if str_eqb name "x-canary" then Some "true" else None in
  let none := fun _ : string => @None string in
  matches m "POST" "/api/x" canary /\ negb (matches m "GET" "/api/x" canary)
  /\ negb (matches m "POST" "/other" canary) /\ negb (matches m "POST" "/api/x" none)
  /\ matches default_route_match "GET" "/" none.
Example passes_route_match_requires_all_conditions : route_match_requires_all_conditions.
Proof. run_test. Qed.

Definition route_validation_errors : Prop :=
  let! ok := route "{'service': 'api', 'backends': [{'labels': {'v': '1'}}]}" in
  is_ok (validate_routes "api" [ok]) /\
  let cases :=
    ["{'service': 'web', 'backends': [{}]}";
     "{'service': 'api', 'backends': []}";
     "{'service': 'api', 'backends': [{'weight': 0}]}";
     "{'service': 'api', 'match': {'pathPrefix': 'v2'}, 'backends': [{}]}";
     "{'service': 'api', 'match': {'method': 'get'}, 'backends': [{}]}";
     "{'service': 'api', 'match': {'headers': {'bad header': 'x'}}, 'backends': [{}]}"] in
  each (fun case => let! r := route case in is_err (validate_routes "api" [r])) cases.
Example passes_route_validation_errors : route_validation_errors.
Proof. run_test. Qed.

Definition set_routes_replaces_one_service_in_place : Prop :=
  let dc := foldl (fun dc name => (upsert_service "g" (http_instance name "n1" []) dc).1) default_dynamic_config ["api"; "web"] in
  let r svc name := {| route_name := Some name; route_service := svc; route_matches := default_route_match;
                       route_backends := [{| rb_labels := ∅; rb_weight := default_weight |}] |} in
  let '(dc, v) := set_routes "api" [r "api" "a1"; r "api" "a2"] dc in is_ok v /\
  let '(dc, v) := set_routes "web" [r "web" "w1"] dc in is_ok v /\
  let '(dc, v) := set_routes "api" [r "api" "a3"] dc in is_ok v /\
  omap route_name (dc_routes dc) = ["a3"; "w1"] /\
  let '(dc, v) := set_routes "api" [] dc in is_ok v /\
  length (dc_routes dc) = 1.
Example passes_set_routes_replaces_one_service_in_place : set_routes_replaces_one_service_in_place.
Proof. run_test. Qed.

Definition is_invalid (r : result Z MutateErr) : bool := match r with Err (Invalid _) => true | _ => false end.

Definition routes_require_existing_http_service : Prop :=
  let dc := (upsert_service "g" (instance "tcp-svc" "n1" []) default_dynamic_config).1 in
  let r svc := {| route_name := None; route_service := svc; route_matches := default_route_match;
                  route_backends := [{| rb_labels := ∅; rb_weight := default_weight |}] |} in
  let '(dc, e) := set_routes "missing" [r "missing"] dc in is_invalid e /\
  let '(dc, e) := set_routes "tcp-svc" [r "tcp-svc"] dc in is_invalid e /\
  is_ok (set_routes "missing" [] dc).2 /\
  let routed cfg := with_dynamic_config {| dc_version := dc_version (dynamic_config cfg);
    dc_service_groups := dc_service_groups (dynamic_config cfg); dc_routes := [r "api"] |} cfg in
  is_err (validate (routed (group_of [http_instance "api" "n1" []; instance "api" "n2" []])))
  /\ is_ok (validate (routed (group_of [http_instance "api" "n1" []; with_protocol Http (instance "api" "n2" [])]))).
Example passes_routes_require_existing_http_service : routes_require_existing_http_service.
Proof. run_test. Qed.

Definition labels_match_requires_every_selector_pair : Prop :=
  let have : gmap string string := list_to_map [("version", "v2"); ("zone", "a")] in
  let want (pairs : list (string * string)) : gmap string string := list_to_map pairs in
  labels_match have (want []) /\ labels_match have (want [("version", "v2")])
  /\ negb (labels_match have (want [("version", "v1")]))
  /\ negb (labels_match have (want [("version", "v2"); ("tier", "x")])).
Example passes_labels_match_requires_every_selector_pair : labels_match_requires_every_selector_pair.
Proof. run_test. Qed.

Definition tracing_config_defaults_and_validation : Prop :=
  let! tc := json_as vtracing "{'otlpEndpoint': 'http://127.0.0.1:4318'}" in
  tc_sample_ratio tc = f64 "1.0" /\ tc_service_name tc = "stouter" /\ is_ok (validate_tracing tc)
  /\ each (fun '(endpoint, ratio) =>
       is_err (validate_tracing {| tc_otlp_endpoint := endpoint; tc_sample_ratio := f64 ratio;
                                   tc_service_name := tc_service_name tc |}))
       [("https://collector:4318", "1.0"); ("127.0.0.1:4318", "1.0"); ("not a url", "1.0");
        ("http://127.0.0.1:4318", "1.5"); ("http://127.0.0.1:4318", "-0.1")] /\
  let cfg := with_tracing (Some {| tc_otlp_endpoint := tc_otlp_endpoint tc; tc_sample_ratio := f64 "2.0";
                                   tc_service_name := tc_service_name tc |}) default_config in
  is_err (validate cfg).
Example passes_tracing_config_defaults_and_validation : tracing_config_defaults_and_validation.
Proof. run_test. Qed.

Definition service_meta_parses_and_is_omitted_when_empty : Prop :=
  let! svc := json_as vservice
    "{'name':'wp-grpc','nodeId':'min1','nodePort':9000,'domains':['wp-grpc.pecka.cloud'],'meta':{'traefik.scheme':'h2c'}}" in
  svc_meta svc !! "traefik.scheme" = Some "h2c" /\
  let! json := to_string vservice svc in
  contains (js "'meta':{'traefik.scheme':'h2c'}") json /\
  let! plain := json_as vservice "{'name':'a','nodeId':'n1','nodePort':1}" in
  map_is_empty (svc_meta plain) /\
  let! json := to_string vservice plain in
  negb (contains "meta" json).
Example passes_service_meta_parses_and_is_omitted_when_empty : service_meta_parses_and_is_omitted_when_empty.
Proof. run_test. Qed.

Definition crlf : string := String "013" (String "010" EmptyString).

Definition health_path_validation : Prop :=
  is_ok (validate_health_path "/healthz?full=1")
  /\ each (fun bad => is_err (validate_health_path bad))
       ["healthz"; "/a b"; "/a" +:+ crlf +:+ "Host: x"; "/ü"; ""] /\
  let svc := with_health_path (Some "/x y") (instance "api" "n1" []) in
  is_err (validate (group_of [svc])).
Example passes_health_path_validation : health_path_validation.
Proof. run_test. Qed.

Definition validate_rejects_same_service_twice_on_one_node : Prop :=
  is_err (validate (group_of [instance "api" "n1" []; instance "api" "n1" []])).
Example passes_validate_rejects_same_service_twice_on_one_node : validate_rejects_same_service_twice_on_one_node.
Proof. run_test. Qed.

Definition validate_rejects_domain_claimed_by_two_services : Prop :=
  is_err (validate (group_of [instance "api" "n1" ["x.example.com"]; instance "web" "n2" ["x.example.com"]])).
Example passes_validate_rejects_domain_claimed_by_two_services : validate_rejects_domain_claimed_by_two_services.
Proof. run_test. Qed.

Definition service_weight_defaults_and_omitted_when_default : Prop :=
  let! svc := json_as vservice "{'name':'api','nodeId':'n1','nodePort':3000}" in
  svc_weight svc = DEFAULT_WEIGHT /\
  let! json := to_string vservice svc in
  negb (contains "weight" json) /\
  let svc := with_weight 0%Z svc in
  let! json := to_string vservice svc in
  contains (js "'weight':0") json /\
  let! restored := from_str_as vservice json in
  svc_weight restored = 0%Z.
Example passes_service_weight_defaults_and_omitted_when_default : service_weight_defaults_and_omitted_when_default.
Proof. run_test. Qed.

(** ** Mutations *)

Definition api : Service := plain_service "api" "n1" 3000.
Definition ui : Service := plain_service "ui" "n1" 3000.

Definition upsert_service_creates_group_when_missing : Prop :=
  let '(dc, v) := upsert_service "web" (plain_service "api" "n1" 3000) default_dynamic_config in
  v = 1%Z /\ dc_version dc = 1%Z /\ length (dc_service_groups dc) = 1 /\
  let! g := dc_service_groups dc !! 0 in
  grp_name g = "web" /\ length (grp_services g) = 1.
Example passes_upsert_service_creates_group_when_missing : upsert_service_creates_group_when_missing.
Proof. run_test. Qed.

Definition upsert_service_appends_to_existing_group : Prop :=
  let '(dc, _) := upsert_service "web" (plain_service "api" "n1" 3000) default_dynamic_config in
  let '(dc, v) := upsert_service "web" (plain_service "ui" "n1" 3001) dc in
  v = 2%Z /\ length (dc_service_groups dc) = 1 /\
  let! g := dc_service_groups dc !! 0 in
  length (grp_services g) = 2.
Example passes_upsert_service_appends_to_existing_group : upsert_service_appends_to_existing_group.
Proof. run_test. Qed.

Definition upsert_service_replaces_existing_match_by_name_and_node : Prop :=
  let '(dc, _) := upsert_service "web" api default_dynamic_config in
  let '(dc, v) := upsert_service "web"
    {| svc_name := "api"; svc_node_id := "n1"; svc_node_port := 9999; svc_domains := ["x.example"]; svc_weight := 9;
       svc_max_connections := Some 5%Z; svc_protocol := Http; svc_request_timeout_ms := Some 100%Z;
       svc_health_path := Some "/h"; svc_labels := {["version" := "v2"]}; svc_meta := {["traefik.scheme" := "h2c"]};
       svc_local_port := None |} dc in
  v = 2%Z /\
  let! g := dc_service_groups dc !! 0 in
  length (grp_services g) = 1 /\
  let! svc := grp_services g !! 0 in
  svc_node_port svc = 9999%Z /\ svc_domains svc = ["x.example"]
  /\ svc_weight svc = 9%Z /\ svc_max_connections svc = Some 5%Z /\ svc_protocol svc = Http
  /\ svc_request_timeout_ms svc = Some 100%Z /\ svc_health_path svc = Some "/h"
  /\ svc_labels svc !! "version" = Some "v2" /\ svc_meta svc !! "traefik.scheme" = Some "h2c".
Example passes_upsert_service_replaces : upsert_service_replaces_existing_match_by_name_and_node.
Proof. run_test. Qed.

Definition upsert_service_keeps_same_name_on_different_nodes : Prop :=
  let '(dc, _) := upsert_service "web" (plain_service "api" "n1" 3000) default_dynamic_config in
  let '(dc, _) := upsert_service "web" (plain_service "api" "n2" 3000) dc in
  let! g := dc_service_groups dc !! 0 in
  length (grp_services g) = 2.
Example passes_upsert_service_keeps_same_name : upsert_service_keeps_same_name_on_different_nodes.
Proof. run_test. Qed.

Definition remove_service_success_bumps_version : Prop :=
  let '(dc, _) := upsert_service "web" api default_dynamic_config in
  let '(dc, r) := remove_service "web" "n1" "api" dc in
  let! v := r in
  v = 2%Z /\
  let! g := dc_service_groups dc !! 0 in
  grp_services g = [].
Example passes_remove_service_success_bumps_version : remove_service_success_bumps_version.
Proof. run_test. Qed.

Definition is_group_not_found (e : MutateErr) : bool := match e with GroupNotFound _ => true | _ => false end.
Definition is_service_not_found (e : MutateErr) : bool := match e with ServiceNotFound _ _ _ => true | _ => false end.
Definition is_duplicate_service (e : MutateErr) : bool := match e with DuplicateService _ _ _ => true | _ => false end.

Definition remove_service_missing_group_returns_err : Prop :=
  let! err := unwrap_err (remove_service "nope" "n1" "api" default_dynamic_config).2 in
  is_group_not_found err.
Example passes_remove_service_missing_group : remove_service_missing_group_returns_err.
Proof. run_test. Qed.

Definition remove_service_missing_service_returns_err : Prop :=
  let '(dc, _) := upsert_service "web" ui default_dynamic_config in
  let! err := unwrap_err (remove_service "web" "n1" "api" dc).2 in
  is_service_not_found err.
Example passes_remove_service_missing_service : remove_service_missing_service_returns_err.
Proof. run_test. Qed.

Definition remove_service_leaves_other_services_alone : Prop :=
  let '(dc, _) := upsert_service "web" (plain_service "api" "n1" 3000) default_dynamic_config in
  let '(dc, _) := upsert_service "web" (plain_service "api" "n2" 3000) dc in
  let '(dc, r) := remove_service "web" "n1" "api" dc in
  is_ok r /\
  let! g := dc_service_groups dc !! 0 in
  length (grp_services g) = 1 /\ svc_node_id <$> (grp_services g !! 0) = Some "n2".
Example passes_remove_service_leaves_others : remove_service_leaves_other_services_alone.
Proof. run_test. Qed.

Definition rename_service_success_bumps_version : Prop :=
  let '(dc, _) := upsert_service "web" api default_dynamic_config in
  let '(dc, r) := rename_service "web" "n1" "api" "api2" dc in
  let! v := r in
  v = 2%Z /\
  let! g := dc_service_groups dc !! 0 in
  svc_name <$> (grp_services g !! 0) = Some "api2".
Example passes_rename_service_success_bumps_version : rename_service_success_bumps_version.
Proof. run_test. Qed.

Definition rename_service_missing_group_returns_err : Prop :=
  let! err := unwrap_err (rename_service "nope" "n1" "api" "api2" default_dynamic_config).2 in
  is_group_not_found err.
Example passes_rename_service_missing_group : rename_service_missing_group_returns_err.
Proof. run_test. Qed.

Definition rename_service_missing_source_returns_err : Prop :=
  let '(dc, _) := upsert_service "web" ui default_dynamic_config in
  let! err := unwrap_err (rename_service "web" "n1" "api" "api2" dc).2 in
  is_service_not_found err.
Example passes_rename_service_missing_source : rename_service_missing_source_returns_err.
Proof. run_test. Qed.

Definition rename_service_conflicts_on_destination : Prop :=
  let '(dc, _) := upsert_service "web" (plain_service "api" "n1" 3000) default_dynamic_config in
  let '(dc, _) := upsert_service "web" (plain_service "api2" "n1" 3001) dc in
  let! err := unwrap_err (rename_service "web" "n1" "api" "api2" dc).2 in
  is_duplicate_service err.
Example passes_rename_service_conflicts : rename_service_conflicts_on_destination.
Proof. run_test. Qed.

(** ** The file

    The files of a temporary directory, on which every call succeeds; a link is not a
    file but its target's path by [canonicalize], so that it stays a link. *)

#[local] Existing Instance json_text.

Definition disk (link : string -> option string) : IoEnv :=
  {| canonicalize := link; random_hex := "0123456789abcdef"; new_mode := 420; process_owner := (1000%Z, 1000%Z);
     open_write := None; create_new := None; set_permissions := None; fchown_ok := true; write_all := None;
     sync_all := None; rename := None; remove_ok := true; open_truncate := None; write_in_place := None |}.

Definition save_in (env : IoEnv) (path : string) (c : Config) (fs : Fs) : option Fs :=
  let '(states, r) := save config_to_string env path c fs in
  match r with Ok _ => Some (default fs (last states)) | Err _ => None end.

(** [Config::load] after a save, from the path links resolve to. *)
Definition load_in (env : IoEnv) (path : string) (fs : Fs) : result Config string :=
  load (config_io (fun p => fl_data <$> fs !! write_target env p)) path.

Definition config_save_and_load : Prop :=
  let path_str := "/tmp/stouter_test_1.json" in
  let env := disk (fun p => None) in
  let svc := {| svc_name := "api"; svc_node_id := "host1"; svc_node_port := 3000;
                svc_domains := ["api.example.com"; "www.api.example.com"]; svc_weight := 1; svc_max_connections := None;
                svc_protocol := Tcp; svc_request_timeout_ms := None; svc_health_path := None; svc_labels := ∅;
                svc_meta := {["traefik.scheme" := "h2c"]}; svc_local_port := None |} in
  let cfg := with_node_id "host1" (with_dynamic_config
    {| dc_version := 5; dc_service_groups := [{| grp_name := "web"; grp_services := [svc] |}]; dc_routes := [] |}
    default_config) in
  let! fs := save_in env path_str cfg ∅ in
  let! loaded := load_in env path_str fs in
  dc_version (dynamic_config loaded) = 5%Z /\
  let! g := dc_service_groups (dynamic_config loaded) !! 0 in
  let! svc := grp_services g !! 0 in
  svc_name svc = "api" /\ svc_meta svc !! "traefik.scheme" = Some "h2c".
Example passes_config_save_and_load : config_save_and_load.
Proof. run_test. Qed.

(** Modes are written in decimal: [0o640] is 416, and [0o777] the nine bits of 511. *)
Definition save_replaces_through_a_symlink_keeping_mode_and_leaving_no_temp_files : Prop :=
  let real := "/tmp/d/real.json" in
  let link := "/tmp/d/stouter.json" in
  let env := disk (fun p => if str_eqb p link then Some real else Some p) in
  let! fs := save_in env real (with_node_id "before" default_config) ∅ in
  let fs := alter (with_permissions 416) real fs in
  let! fs := save_in env link (with_node_id "after" default_config) fs in
  fs !! link = None /\
  let! loaded := load_in env real fs in
  node_id loaded = "after" /\
  let! f := fs !! real in
  Z.land (fl_mode f) 511 = 416%Z
  /\ btree_keys fs = [real].
Example passes_save_replaces_through_a_symlink : save_replaces_through_a_symlink_keeping_mode_and_leaving_no_temp_files.
Proof. run_test. Qed.

Definition save_creates_a_missing_file : Prop :=
  let path := "/tmp/d/stouter.json" in
  let env := disk (fun p => None) in
  let! fs := save_in env path (with_node_id "n1" default_config) ∅ in
  let! loaded := load_in env path fs in
  node_id loaded = "n1".
Example passes_save_creates_a_missing_file : save_creates_a_missing_file.
Proof. run_test. Qed.
