(* ===== verification/BalancerTests.v ===== *)
(** * The tests of the balancer ([src/src/subscribe/balancer.rs], [mod tests])

    A balancer is its state, threaded through the test; a slot is dropped where Rust
    drops it. [now] is an arbitrary instant, here [0]. *)

From S2P Require Import Prelude Dynamic Config Balancer TestKit.
#[local] Open Scope stouter_scope.
#[local] Open Scope Z_scope.

(** [Instant::now()]. *)
Definition now : Z := 0.

Definition backend (id : string) (weight : Z) : Backend :=
  {| b_node := {| ni_id := id; ni_addr := ""; ni_relay := None; ni_last_seen := None; ni_health := default_health |};
     b_weight := weight; b_max_connections := None; b_request_timeout := None; b_labels := ∅ |}.

Definition limited (id : string) (max : Z) : Backend :=
  {| b_node := b_node (backend id 1); b_weight := 1; b_max_connections := Some max; b_request_timeout := None;
     b_labels := ∅ |}.

(** Pick once: the chosen node's id and its (held) slot. *)
Definition pick_one (b : Inner) (backends : list Backend) (tried : list string) (now : Z)
    : option (string * string) * Inner :=
  match pick backends tried now b with
  | (Chosen index slot, b) => (option_map (fun x => (b_id x, slot)) (backends !! index), b)
  | (_, b) => (None, b)
  end.

(** Pick [n] times with no retries, releasing each slot immediately. *)
Fixpoint picks (b : Inner) (backends : list Backend) (n : nat) (now : Z) : option (list string * Inner) :=
  match n with
  | O => Some ([], b)
  | S n =>
      match pick_one b backends [] now with
      | (Some (id, slot), b) => let* (ids, b) := picks (drop_slot slot b) backends n now in Some (id :: ids, b)
      | (None, _) => None
      end
  end.

Definition count (ids : list string) (id : string) : nat := length (retain (str_eqb id) ids).

(** [n] failures in a row. *)
Definition failures (n : nat) (id : string) (now : Z) (b : Inner) : Inner :=
  Nat.iter n (fun b => (record_failure id now b).2) b.

Definition at_capacity (p : Pick * Inner) : bool := match p.1 with AtCapacity => true | _ => false end.
Definition all_tried (p : Pick * Inner) : bool := match p.1 with AllTried => true | _ => false end.

Definition equal_weights_round_robin : Prop :=
  let backends := [backend "a" 1; backend "b" 1; backend "c" 1] in
  fst <$> picks default_inner backends 6 now = Some ["a"; "b"; "c"; "a"; "b"; "c"].
Example passes_equal_weights_round_robin : equal_weights_round_robin.
Proof. run_test. Qed.

Definition weights_split_traffic_proportionally_and_interleave : Prop :=
  let backends := [backend "a" 5; backend "b" 1; backend "c" 1] in
  let! (got, b) := picks default_inner backends 7 now in
  got = ["a"; "a"; "b"; "a"; "c"; "a"; "a"] /\
  let! (got, b) := picks b backends 700 now in
  count got "a" = 500%nat /\ count got "b" = 100%nat /\ count got "c" = 100%nat.
Example passes_weights_split_traffic : weights_split_traffic_proportionally_and_interleave.
Proof. run_test. Qed.

Definition canary_split : Prop :=
  let backends := [backend "stable" 9; backend "canary" 1] in
  let! (got, _) := picks default_inner backends 1000 now in
  count got "canary" = 100%nat.
Example passes_canary_split : canary_split.
Proof. run_test. Qed.

Definition zero_weight_drains_node : Prop :=
  let backends := [backend "a" 1; backend "b" 0] in
  let! (got, _) := picks default_inner backends 10 now in
  count got "b" = 0%nat.
Example passes_zero_weight_drains_node : zero_weight_drains_node.
Proof. run_test. Qed.

Definition all_drained_fails_open_to_equal_split : Prop :=
  let backends := [backend "a" 0; backend "b" 0] in
  fst <$> picks default_inner backends 4 now = Some ["a"; "b"; "a"; "b"].
Example passes_all_drained_fails_open : all_drained_fails_open_to_equal_split.
Proof. run_test. Qed.

Definition drained_node_used_as_retry_of_last_resort : Prop :=
  let backends := [backend "a" 1; backend "b" 0] in
  let! (id, _) := (pick_one default_inner backends ["a"] now).1 in
  id = "b".
Example passes_drained_node_used_as_retry : drained_node_used_as_retry_of_last_resort.
Proof. run_test. Qed.

Definition retry_skips_tried_nodes_and_ends_when_exhausted : Prop :=
  let backends := [backend "a" 10; backend "b" 1] in
  let '(picked, b) := pick_one default_inner backends ["a"] now in
  let! (id, slot) := picked in
  id = "b" /\ all_tried (pick backends ["a"; "b"] now (drop_slot slot b)).
Example passes_retry_skips_tried_nodes : retry_skips_tried_nodes_and_ends_when_exhausted.
Proof. run_test. Qed.

Definition ejects_after_consecutive_failures : Prop :=
  let backends := [backend "a" 1; backend "b" 1] in
  let '(d, b) := record_failure "a" now default_inner in d = None /\
  let '(d, b) := record_failure "a" now b in d = None /\
  let '(d, b) := record_failure "a" now b in d = Some BASE_EJECTION /\
  let! (got, b) := picks b backends 5 now in
  count got "a" = 0%nat /\
  let later := now + BASE_EJECTION in
  let! (got, _) := picks b backends 4 later in
  any (str_eqb "a") got.
Example passes_ejects_after_consecutive_failures : ejects_after_consecutive_failures.
Proof. run_test. Qed.

Definition success_resets_failure_count : Prop :=
  let b := record_success "a" (failures 2 "a" now default_inner) in
  let '(d, b) := record_failure "a" now b in d = None /\
  let '(d, b) := record_failure "a" now b in d = None /\
  bool_decide (is_Some (record_failure "a" now b).1).
Example passes_success_resets_failure_count : success_resets_failure_count.
Proof. run_test. Qed.

(** The loop of the next test: the ejections' lengths in seconds, the balancer and the time. *)
Fixpoint eject_again (n : nat) (b : Inner) (now : Z) : option (list Z * Inner * Z) :=
  match n with
  | O => Some ([], b, now)
  | S n =>
      let '(d, b) := record_failure "a" now (failures 2 "a" now b) in
      let* d := d in
      let* (ds, b, now) := eject_again n b (now + d) in
      Some (d / second :: ds, b, now)
  end.

Definition repeated_ejections_back_off_up_to_cap : Prop :=
  let! (durations, b, now) := eject_again 6 default_inner now in
  durations = [10; 20; 40; 80; 120; 120] /\
  let b := failures 2 "a" now (record_success "a" b) in
  (record_failure "a" now b).1 = Some BASE_EJECTION.
Example passes_repeated_ejections_back_off : repeated_ejections_back_off_up_to_cap.
Proof. run_test. Qed.

Definition failures_while_ejected_do_not_extend_ejection : Prop :=
  let b := failures 3 "a" now default_inner in
  each (fun n => (record_failure "a" now (failures n "a" now b)).1 = None) (seq 0 10) /\
  let b := failures 10 "a" now b in
  let '(picked, b) := pick_one b [backend "a" 1] [] now in
  let! (id, slot) := picked in
  id = "a" /\
  let b := drop_slot slot b in
  let! (got, _) := picks b [backend "a" 1; backend "b" 1] 2 (now + BASE_EJECTION) in
  any (str_eqb "a") got.
Example passes_failures_while_ejected : failures_while_ejected_do_not_extend_ejection.
Proof. run_test. Qed.

Definition all_ejected_fails_open : Prop :=
  let backends := [backend "a" 1; backend "b" 1] in
  let b := foldl (fun b id => failures (Z.to_nat EJECT_AFTER_FAILURES) id now b) default_inner ["a"; "b"] in
  fst <$> picks b backends 2 now = Some ["a"; "b"].
Example passes_all_ejected_fails_open : all_ejected_fails_open.
Proof. run_test. Qed.

Definition forgets_state_for_removed_nodes : Prop :=
  let b := failures (Z.to_nat EJECT_AFTER_FAILURES) "gone" now default_inner in
  let inner := retain_nodes [backend "a" 1] b in
  bool_decide (outliers inner !! "gone" = None) /\ bool_decide (current inner !! "gone" = None).
Example passes_forgets_state_for_removed_nodes : forgets_state_for_removed_nodes.
Proof. run_test. Qed.

Definition picking_from_a_subset_keeps_other_nodes_ejection_state : Prop :=
  let b := failures (Z.to_nat EJECT_AFTER_FAILURES) "a" now default_inner in
  let! (_, b) := picks b [backend "b" 1] 5 now in
  let backends := [backend "a" 1; backend "c" 1] in
  fst <$> picks b backends 4 now = Some ["c"; "c"; "c"; "c"].
Example passes_picking_from_a_subset : picking_from_a_subset_keeps_other_nodes_ejection_state.
Proof. run_test. Qed.

Definition connection_limit_is_a_hard_cap : Prop :=
  let backends := [limited "a" 2] in
  let '(s1, b) := pick_one default_inner backends [] now in
  let! (_, s1) := s1 in
  let '(s2, b) := pick_one b backends [] now in
  bool_decide (is_Some s2)
  /\ at_capacity (pick backends [] now b)
  /\ bool_decide (is_Some (pick_one (drop_slot s1 b) backends [] now).1).
Example passes_connection_limit_is_a_hard_cap : connection_limit_is_a_hard_cap.
Proof. run_test. Qed.

Definition full_backend_is_skipped_in_favour_of_others : Prop :=
  let backends := [limited "a" 1; backend "b" 1] in
  let '(picked, b) := pick_one default_inner backends [] now in
  let! (first, _) := picked in
  first = "a" /\ fst <$> picks b backends 4 now = Some ["b"; "b"; "b"; "b"].
Example passes_full_backend_is_skipped : full_backend_is_skipped_in_favour_of_others.
Proof. run_test. Qed.

Definition capacity_is_not_fail_open_even_when_others_are_ejected : Prop :=
  let backends := [limited "a" 1; backend "b" 1] in
  let b := failures (Z.to_nat EJECT_AFTER_FAILURES) "b" now default_inner in
  let '(held, b) := pick_one b backends [] now in
  bool_decide (is_Some held) /\
  let '(picked, b) := pick_one b backends [] now in
  let! (id, slot) := picked in
  id = "b" /\ at_capacity (pick [limited "a" 1] [] now (drop_slot slot b)).
Example passes_capacity_is_not_fail_open : capacity_is_not_fail_open_even_when_others_are_ejected.
Proof. run_test. Qed.

Definition slots_survive_node_leaving_and_rejoining : Prop :=
  let '(picked, b) := pick_one default_inner [limited "a" 1] [] now in
  let! (_, held) := picked in
  let b := retain_nodes [backend "b" 1] b in
  at_capacity (pick [limited "a" 1] [] now b)
  /\ bool_decide (active (drop_slot held b) = ∅).
Example passes_slots_survive_node_leaving : slots_survive_node_leaving_and_rejoining.
Proof. run_test. Qed.
