(* ===== verification/WireTests.v ===== *)
(** * The tests of the messages ([src/src/gossip/messages.rs], [mod tests])

    The bytes are those of [Json.Sample], which stands for MessagePack. *)

From S2P Require Import Prelude Dynamic Config Messages Json ConfigFmt Wire TestKit.
#[local] Open Scope stouter_scope.
#[local] Existing Instance Wire.Examples.msgpack.

(** Round-trip a message through the gossip wire encoding. *)
Definition msgpack_round_trip (msg : Message) : option Message :=
  let* bytes := ok (encode_message msg) in ok (from_slice bytes).

(** ** Readers of older versions *)

(** [Service] as it was before [weight] existed. *)
Record OldService := { os_name : string; os_node_id : string; os_node_port : Z; os_domains : list string }.
Record OldServiceGroup := { og_name : string; og_services : list OldService }.
Record OldDynamicConfig := { od_version : Z; od_service_groups : list OldServiceGroup }.
Inductive OldMessage := OldConfigUpdate (config : OldDynamicConfig).

Definition vold_service : Fmt OldService :=
  vstruct ["name"; "nodeId"; "nodePort"; "domains"]
    (fun s => [req vstring "name" (os_name s); req vstring "nodeId" (os_node_id s); req vu16 "nodePort" (os_node_port s);
               skip_if is_nil (vlist vstring) "domains" (os_domains s)])
    (fun fs =>
       let* name := field vstring "name" fs in
       let* node_id := field vstring "nodeId" fs in
       let* node_port := field vu16 "nodePort" fs in
       let* domains := field_or (vlist vstring) [] "domains" fs in
       Some {| os_name := name; os_node_id := node_id; os_node_port := node_port; os_domains := domains |})
    (fun _ => True).

Definition vold_group : Fmt OldServiceGroup :=
  vstruct ["name"; "services"]
    (fun g => [req vstring "name" (og_name g); req (vlist vold_service) "services" (og_services g)])
    (fun fs =>
       let* name := field vstring "name" fs in
       let* services := field (vlist vold_service) "services" fs in
       Some {| og_name := name; og_services := services |})
    (fun _ => True).

Definition vold_dynamic : Fmt OldDynamicConfig :=
  vstruct ["version"; "serviceGroups"]
    (fun d => [req vu64 "version" (od_version d); req (vlist vold_group) "serviceGroups" (od_service_groups d)])
    (fun fs =>
       let* version := field vu64 "version" fs in
       let* groups := field (vlist vold_group) "serviceGroups" fs in
       Some {| od_version := version; od_service_groups := groups |})
    (fun _ => True).

Definition vold_message : Fmt OldMessage :=
  venum "type" (fun '(OldConfigUpdate config) => ("configUpdate", [req vold_dynamic "config" config]))
    [("configUpdate", (["config"], fun fs => option_map OldConfigUpdate (field vold_dynamic "config" fs)))]
    (fun _ => True).

(** [rmp_serde::to_vec]: structs as arrays of the fields that are written; the
    [BTreeMap] fields stay maps. *)
Definition is_map_field (k : string) : bool := any (str_eqb k) ["labels"; "meta"; "headers"].

Fixpoint positional (v : Value) : Value :=
  match v with
  | VArr l => VArr (List.map positional l)
  | VObj l => VArr (List.map (fun kv => if is_map_field kv.1 then kv.2 else positional kv.2) l)
  | v => v
  end.

Definition to_vec {A} (f : Fmt A) (a : A) : string := pack (positional (to_value f a)).
Definition from_bytes {A} (f : Fmt A) (bytes : string) : option A := let* v := unpack bytes in of_value f v.

(** ** Compatibility *)

Definition weighted_config_update : Message :=
  ConfigUpdate
    {| dc_version := 7; dc_routes := [];
       dc_service_groups := [{| grp_name := "web"; grp_services :=
         [{| svc_name := "api"; svc_node_id := "host1"; svc_node_port := 3000; svc_domains := []; svc_weight := 4;
             svc_max_connections := None; svc_protocol := Tcp; svc_request_timeout_ms := None; svc_health_path := None;
             svc_labels := ∅; svc_meta := {["traefik.scheme" := "h2c"]}; svc_local_port := None |}] |}] |}.

Definition first_service (dc : DynamicConfig) : option Service :=
  let* g := dc_service_groups dc !! 0 in grp_services g !! 0.

Definition weight_survives_round_trip_with_empty_domains : Prop :=
  match msgpack_round_trip weighted_config_update with
  | Some (ConfigUpdate config) =>
      let! svc := first_service config in
      svc_domains svc = [] /\ svc_weight svc = 4%Z /\ svc_meta svc !! "traefik.scheme" = Some "h2c"
  | _ => False
  end.
Example passes_weight_survives_round_trip : weight_survives_round_trip_with_empty_domains.
Proof. run_test. Qed.

Definition old_reader_accepts_new_message : Prop :=
  let! bytes := encode_message weighted_config_update in
  let! (OldConfigUpdate config) := from_bytes vold_message bytes in
  od_version config = 7%Z /\
  let! g := od_service_groups config !! 0 in
  os_node_port <$> (og_services g !! 0) = Some 3000%Z.
Example passes_old_reader_accepts_new_message : old_reader_accepts_new_message.
Proof. run_test. Qed.

Definition new_reader_accepts_old_positional_message : Prop :=
  let old := OldConfigUpdate
    {| od_version := 3; od_service_groups := [{| og_name := "web"; og_services :=
         [{| os_name := "api"; os_node_id := "host1"; os_node_port := 3000; os_domains := [] |}] |}] |} in
  let bytes := to_vec vold_message old in
  match from_slice bytes with
  | Ok (ConfigUpdate config) =>
      let! svc := first_service config in
      svc_node_port svc = 3000%Z /\ svc_weight svc = DEFAULT_WEIGHT
  | _ => False
  end.
Example passes_new_reader_accepts_old : new_reader_accepts_old_positional_message.
Proof. run_test. Qed.

Definition positional_encoding_breaks_old_readers : Prop :=
  let bytes := to_vec (vmessage vnode) weighted_config_update in
  bool_decide (is_Some (unpack bytes)) /\ is_none (from_bytes vold_message bytes).
Example passes_positional_encoding_breaks_old_readers : positional_encoding_breaks_old_readers.
Proof. run_test. Qed.

(** ** Round trips *)

Definition node_join_round_trip : Prop :=
  match msgpack_round_trip (NodeJoin "n1" "1.2.3.4:8080") with
  | Some (NodeJoin id addr) => id = "n1" /\ addr = "1.2.3.4:8080"
  | _ => False
  end.
Example passes_node_join_round_trip : node_join_round_trip.
Proof. run_test. Qed.

Definition node_leave_round_trip : Prop :=
  match msgpack_round_trip (NodeLeave "n1") with Some (NodeLeave id) => id = "n1" | _ => False end.
Example passes_node_leave_round_trip : node_leave_round_trip.
Proof. run_test. Qed.

Definition config_update_round_trip : Prop :=
  let msg := ConfigUpdate
    {| dc_version := 42; dc_routes := [];
       dc_service_groups := [{| grp_name := "web"; grp_services := [plain_service "api" "host1" 3000] |}] |} in
  match msgpack_round_trip msg with
  | Some (ConfigUpdate config) => dc_version config = 42%Z /\ svc_name <$> first_service config = Some "api"
  | _ => False
  end.
Example passes_config_update_round_trip : config_update_round_trip.
Proof. run_test. Qed.

Definition sync_round_trip : Prop :=
  let msg := Sync {| dc_version := 1; dc_service_groups := []; dc_routes := [] |}
    [{| ni_id := "n1"; ni_addr := "10.0.0.1:8080"; ni_relay := None; ni_last_seen := None;
        ni_health := {| sh_version := 9; sh_unhealthy := ["api"] |} |}] in
  match msgpack_round_trip msg with
  | Some (Sync config nodes) =>
      dc_version config = 1%Z /\ length nodes = 1 /\
      let! n := nodes !! 0 in
      ni_id n = "n1" /\ sh_version (ni_health n) = 9%Z /\ sh_unhealthy (ni_health n) = ["api"]
  | _ => False
  end.
Example passes_sync_round_trip : sync_round_trip.
Proof. run_test. Qed.

Definition health_omitted_from_wire_until_reported : Prop :=
  let node health := {| ni_id := "n1"; ni_addr := ""; ni_relay := None; ni_last_seen := None; ni_health := health |} in
  let! json := to_string vnode (node default_health) in
  negb (contains "health" json) /\
  let! json := to_string vnode (node {| sh_version := 2; sh_unhealthy := [] |}) in
  contains (js "'health':{'version':2}") json.
Example passes_health_omitted_from_wire_until_reported : health_omitted_from_wire_until_reported.
Proof. run_test. Qed.

Definition tunnel_request_round_trip : Prop :=
  match msgpack_round_trip (TunnelRequest "host1" "web" 1234567890) with
  | Some (TunnelRequest node_id service_name timestamp_ms) =>
      node_id = "host1" /\ service_name = "web" /\ timestamp_ms = 1234567890%Z
  | _ => False
  end.
Example passes_tunnel_request_round_trip : tunnel_request_round_trip.
Proof. run_test. Qed.

Definition reverse_registration_round_trip : Prop :=
  match msgpack_round_trip (ReverseRegistration "nat-host" 1234567890) with
  | Some (ReverseRegistration node_id timestamp_ms) => node_id = "nat-host" /\ timestamp_ms = 1234567890%Z
  | _ => False
  end.
Example passes_reverse_registration_round_trip : reverse_registration_round_trip.
Proof. run_test. Qed.

Definition status_request_round_trip : Prop :=
  match msgpack_round_trip StatusRequest with Some StatusRequest => True | _ => False end.
Example passes_status_request_round_trip : status_request_round_trip.
Proof. run_test. Qed.

Definition status_response_round_trip : Prop :=
  let msg := StatusResponse "node" "host1" "0.0.0.0:8080" {| dc_version := 1; dc_service_groups := []; dc_routes := [] |} [] in
  match msgpack_round_trip msg with
  | Some (StatusResponse mode node_id _ _ _) => mode = "node" /\ node_id = "host1"
  | _ => False
  end.
Example passes_status_response_round_trip : status_response_round_trip.
Proof. run_test. Qed.

Definition mux_tunnel_round_trip : Prop :=
  match msgpack_round_trip MuxTunnel with Some MuxTunnel => True | _ => False end.
Example passes_mux_tunnel_round_trip : mux_tunnel_round_trip.
Proof. run_test. Qed.

Definition admin_request_service_add_round_trip : Prop :=
  let msg := AdminRequest (ServiceAdd "web" "api" "n1" 3000 ["api.example.com"] 5 (Some 50%Z) Http (Some 1500%Z)
               (Some "/healthz") {["version" := "v2"]} {["traefik.scheme" := "h2c"]} (Some 15002%Z)) in
  match msgpack_round_trip msg with
  | Some (AdminRequest (ServiceAdd group name owner_node_id port domains weight max_connections protocol
            request_timeout_ms health_path labels meta local_port)) =>
      group = "web" /\ name = "api" /\ owner_node_id = "n1" /\ port = 3000%Z /\ domains = ["api.example.com"]
      /\ weight = 5%Z /\ max_connections = Some 50%Z /\ protocol = Http /\ request_timeout_ms = Some 1500%Z
      /\ health_path = Some "/healthz" /\ labels !! "version" = Some "v2" /\ meta !! "traefik.scheme" = Some "h2c"
      /\ local_port = Some 15002%Z
  | _ => False
  end.
Example passes_admin_request_service_add : admin_request_service_add_round_trip.
Proof. run_test. Qed.

Definition admin_request_service_rename_round_trip : Prop :=
  match msgpack_round_trip (AdminRequest (ServiceRename "web" "n1" "api" "api2")) with
  | Some (AdminRequest (ServiceRename group owner_node_id from to)) =>
      group = "web" /\ owner_node_id = "n1" /\ from = "api" /\ to = "api2"
  | _ => False
  end.
Example passes_admin_request_service_rename : admin_request_service_rename_round_trip.
Proof. run_test. Qed.

Definition admin_request_service_remove_round_trip : Prop :=
  match msgpack_round_trip (AdminRequest (ServiceRemove "web" "n1" "api")) with
  | Some (AdminRequest (ServiceRemove group owner_node_id name)) =>
      group = "web" /\ owner_node_id = "n1" /\ name = "api"
  | _ => False
  end.
Example passes_admin_request_service_remove : admin_request_service_remove_round_trip.
Proof. run_test. Qed.

Definition admin_response_ok_round_trip : Prop :=
  match msgpack_round_trip (AdminResponse (ROk 42)) with
  | Some (AdminResponse (ROk new_version)) => new_version = 42%Z
  | _ => False
  end.
Example passes_admin_response_ok_round_trip : admin_response_ok_round_trip.
Proof. run_test. Qed.

Definition admin_response_err_round_trip : Prop :=
  match msgpack_round_trip (AdminResponse (RErr Unauthorized "nope")) with
  | Some (AdminResponse (RErr code message)) => code = Unauthorized /\ message = "nope"
  | _ => False
  end.
Example passes_admin_response_err_round_trip : admin_response_err_round_trip.
Proof. run_test. Qed.
