(* ===== verification/HttpTests.v ===== *)
(** * The tests of the HTTP proxy and its listener ([src/src/subscribe/http.rs] and
    [src/src/subscribe/listener.rs], [mod tests])

    Random numbers are written out. A URI is its scheme and host, so the path of
    [node_uri]'s test is left out. *)

From S2P Require Import Prelude Dynamic Config ConfigFmt Json Headers Trace Retry HttpProxy Listener Registry TestKit.
#[local] Open Scope stouter_scope.
#[local] Existing Instance Headers.Examples.list_headers.

(** ** Headers and addresses *)

(** [HeaderMap::append] of each pair, in order. *)
Definition headers (pairs : list (string * string)) : Headers.headers := pairs.
Definition no_headers : Headers.headers := headers [].

(** [h.keys()], sorted. *)
Definition sorted_keys (h : Headers.headers) : list string := sort_dedup (List.map fst (h : list (string * string))).

Definition node_uri_round_trips_any_node_id : Prop :=
  each (fun id =>
    let! uri := node_uri id "/a/b?c=d" in
    node_id_from_uri uri = Some id)
    ["n1"; "host-2.example.com"; "a_b"; String.concat "" (repeat "x" 100); "ünïcode"].
Example passes_node_uri_round_trips : node_uri_round_trips_any_node_id.
Proof. run_test. Qed.

Definition strips_hop_by_hop_and_connection_named_headers : Prop :=
  let h := headers [("connection", "keep-alive, x-secret"); ("keep-alive", "timeout=5"); ("x-secret", "1");
                    ("transfer-encoding", "chunked"); ("host", "api"); ("x-keep", "1")] in
  let h := strip_hop_by_hop h false in
  sorted_keys h = ["host"; "x-keep"].
Example passes_strips_hop_by_hop : strips_hop_by_hop_and_connection_named_headers.
Proof. run_test. Qed.

Definition upgrade_requests_keep_upgrade_headers : Prop :=
  let h := headers [("connection", "Upgrade"); ("upgrade", "websocket"); ("te", "x")] in
  is_upgrade h /\
  let h := strip_hop_by_hop h true in
  hm_get h "upgrade" = Some "websocket" /\ hm_get h "connection" = Some "upgrade" /\ negb (contains_key h "te").
Example passes_upgrade_requests_keep_upgrade_headers : upgrade_requests_keep_upgrade_headers.
Proof. run_test. Qed.

Definition not_an_upgrade_without_connection_token : Prop := negb (is_upgrade (headers [("upgrade", "websocket")])).
Example passes_not_an_upgrade : not_an_upgrade_without_connection_token.
Proof. run_test. Qed.

(** ** Trace context *)

Definition draws8 : list (list Z) := [[1; 35; 69; 103; 137; 171; 205; 239]%Z].
Definition draws16 : list (list Z) := [[1; 35; 69; 103; 137; 171; 205; 239; 254; 220; 186; 152; 118; 84; 50; 16]%Z].

Definition traceparent_parse_and_propagate : Prop :=
  let h := headers [("traceparent", "00-4bf92f3577b34da6a3ce929d0e0e4736-00f067aa0ba902b7-01")] in
  let! tc := from_headers h in
  trace_id tc = "4bf92f3577b34da6a3ce929d0e0e4736" /\
  let! child := child tc draws8 in
  trace_id child = trace_id tc /\ flags child = "01" /\ negb (str_eqb (span_id child) (span_id tc)) /\
  let header := to_header child in
  starts_with "00-4bf92f3577b34da6a3ce929d0e0e4736-" header /\ ends_with "-01" header /\ String.length header = 55.
Example passes_traceparent_parse_and_propagate : traceparent_parse_and_propagate.
Proof. run_test. Qed.

Definition invalid_traceparent_rejected : Prop :=
  each (fun bad => is_none (from_headers (headers [("traceparent", bad)])))
    ["00-00000000000000000000000000000000-00f067aa0ba902b7-01";
     "00-4bf92f3577b34da6a3ce929d0e0e4736-0000000000000000-01";
     "ff-4bf92f3577b34da6a3ce929d0e0e4736-00f067aa0ba902b7-01";
     "00-4BF92F3577B34DA6A3CE929D0E0E4736-00f067aa0ba902b7-01";
     "00-4bf92f3577b34da6a3ce929d0e0e4736-00f067aa0ba902b7-01-extra";
     "00-4bf92f-00f067aa0ba902b7-01";
     "garbage"] /\
  let h := headers [("traceparent", "01-4bf92f3577b34da6a3ce929d0e0e4736-00f067aa0ba902b7-01-extra")] in
  negb (is_none (from_headers h)).
Example passes_invalid_traceparent_rejected : invalid_traceparent_rejected.
Proof. run_test. Qed.

Definition sampled_flag_follows_trace_flags : Prop :=
  let! root := new_root true draws16 draws8 in
  is_sampled root /\
  let! unsampled := new_root false draws16 draws8 in
  negb (is_sampled unsampled) /\ ends_with "-00" (to_header unsampled) /\
  let tc := {| trace_id := trace_id unsampled; span_id := span_id unsampled; flags := "03" |} in
  is_sampled tc /\
  let! child := child unsampled draws8 in
  negb (is_sampled child).
Example passes_sampled_flag_follows_trace_flags : sampled_flag_follows_trace_flags.
Proof. run_test. Qed.

Definition new_root_is_valid : Prop :=
  let! tc := new_root true draws16 draws8 in
  let h := headers [("traceparent", to_header tc)] in
  from_headers h = Some tc.
Example passes_new_root_is_valid : new_root_is_valid.
Proof. run_test. Qed.

(** ** The retry budget *)

(** [(0..n).take_while(|_| budget.try_withdraw()).count()]. *)
Fixpoint withdrawals (n : nat) (budget : Z) : nat * Z :=
  match n with
  | O => (0, budget)
  | S n => match try_withdraw budget with
           | (true, budget) => let '(k, budget) := withdrawals n budget in (S k, budget)
           | (false, budget) => (0, budget)
           end
  end.

(** [n] requests, each of which asks for a retry. *)
Fixpoint retries_of (n : nat) (budget : Z) (retries : Z) : Z :=
  match n with
  | O => retries
  | S n => let '(granted, budget) := try_withdraw (deposit budget) in
           retries_of n budget (if granted then retries + 1 else retries)%Z
  end.

Definition retry_budget_caps_retries_at_ratio_after_burst : Prop :=
  let budget := new_budget in
  let '(burst, budget) := withdrawals 100 budget in
  burst = 20 /\ (Z.of_nat burst * ONE)%Z = RETRY_BUDGET_MAX /\
  let retries := retries_of 1000 budget 0 in
  (199 <=? retries)%Z && (retries <=? 200)%Z.
Example passes_retry_budget_caps_retries : retry_budget_caps_retries_at_ratio_after_burst.
Proof. run_test. Qed.

Definition retry_budget_banks_at_most_max : Prop :=
  let budget := N.iter 10000 deposit new_budget in
  let '(banked, _) := withdrawals 1000 budget in
  (Z.of_nat banked * ONE)%Z = RETRY_BUDGET_MAX.
Example passes_retry_budget_banks_at_most_max : retry_budget_banks_at_most_max.
Proof. run_test. Qed.

Definition only_idempotent_methods_and_gateway_statuses_retry : Prop :=
  is_idempotent "GET" /\ is_idempotent "PUT" /\ negb (is_idempotent "POST") /\ negb (is_idempotent "PATCH")
  /\ is_retryable_status 503 /\ negb (is_retryable_status 500) /\ negb (is_retryable_status 404).
Example passes_only_idempotent_methods_retry : only_idempotent_methods_and_gateway_statuses_retry.
Proof. run_test. Qed.

(** ** Routes *)

Definition routes (json : string) : option (list Route) := json_as (vlist vroute) json.

Definition picked_label (r : result (option RoutedTo) string) : option string := let* o := ok r in routed_label <$> o.

Definition first_matching_route_wins_and_unmatched_uses_default : Prop :=
  let! rs := routes "[
    {'name': 'canary', 'service': 'api', 'match': {'headers': {'x-canary': 'true'}},
     'backends': [{'labels': {'version': 'v2'}}]},
    {'name': 'v2-path', 'service': 'api', 'match': {'pathPrefix': '/v2'},
     'backends': [{'labels': {'version': 'v2'}}]},
    {'name': 'v1-path', 'service': 'api', 'match': {'pathPrefix': '/v2/legacy'},
     'backends': [{'labels': {'version': 'v1'}}]}]" in
  let canary := headers [("x-canary", "true")] in
  let random := fun _ : Z => 0%Z in
  picked_label (select_route rs "GET" "/x" canary random) = Some "canary"
  /\ picked_label (select_route rs "GET" "/v2/legacy/a" no_headers random) = Some "v2-path"
  /\ select_route rs "GET" "/other" no_headers random = Ok None.
Example passes_first_matching_route_wins : first_matching_route_wins_and_unmatched_uses_default.
Proof. run_test. Qed.

(** The number of requests that went to [v2], when the tickets come up in turn; [None]
    when the weight-0 subset was picked. *)
Fixpoint v2_picks (n : nat) (rs : list Route) (v2 : Z) : option Z :=
  match n with
  | O => Some v2
  | S n =>
      match select_route rs "GET" "/" no_headers (fun total => Z.of_nat n mod total)%Z with
      | Ok (Some picked) =>
          if negb (str_eqb (routed_label picked) "#0") then None
          else match routed_labels picked !! "version" with
               | Some version =>
                   if str_eqb version "v2" then v2_picks n rs (v2 + 1)%Z
                   else if str_eqb version "v1" then v2_picks n rs v2 else None
               | None => None
               end
      | _ => None
      end
  end.

Definition route_backends_split_by_weight : Prop :=
  let! rs := routes "[{'service': 'api', 'backends': [
    {'labels': {'version': 'v1'}, 'weight': 9},
    {'labels': {'version': 'v2'}, 'weight': 1},
    {'labels': {'version': 'v3'}, 'weight': 0}]}]" in
  let! v2 := v2_picks (Z.to_nat 10000) rs 0 in
  (800 <=? v2)%Z && (v2 <? 1200)%Z.
Example passes_route_backends_split_by_weight : route_backends_split_by_weight.
Proof. run_test. Qed.

(** ** The registry *)

(** [Arc::ptr_eq] of proxies is equality of their identifiers, and their balancers are
    theirs alone. *)
Definition registry_shares_one_proxy_and_balancer_per_service : Prop :=
  let proxies := no_proxies in
  let '(a, proxies) := proxy_get "api" proxies in
  let '(b, proxies) := proxy_get "api" proxies in
  a = b /\
  let '(web, proxies) := proxy_get "web" proxies in
  negb (a =? web) /\
  let proxies := proxy_retain (fun name => str_eqb name "web") proxies in
  let '(c, _) := proxy_get "api" proxies in
  negb (a =? c).
Example passes_registry_shares_one_proxy : registry_shares_one_proxy_and_balancer_per_service.
Proof. run_test. Qed.

(** ** The shared listener *)

Definition dc (json : string) : option DynamicConfig := json_as vdynamic json.

Definition sample : option DynamicConfig :=
  dc "{'version': 1, 'serviceGroups': [
      {'name': 'app', 'services': [
          {'name': 'inventory', 'nodeId': 'n2', 'nodePort': 5000, 'domains': ['stock.example.com']},
          {'name': 'orders', 'nodeId': 'n1', 'nodePort': 3000}]},
      {'name': 'ops', 'services': [
          {'name': 'logs', 'nodeId': 'n3', 'nodePort': 8000, 'domains': ['Inventory']}]}]}".

Definition resolves_names_before_domains_case_insensitively : Prop :=
  let! dc := sample in
  resolve_service "inventory" dc None = Some "inventory"
  /\ resolve_service "ORDERS" dc None = Some "orders"
  /\ resolve_service "stock.example.com" dc None = Some "inventory"
  /\ resolve_service "api.github.com" dc None = None.
Example passes_resolves_names_before_domains : resolves_names_before_domains_case_insensitively.
Proof. run_test. Qed.

Definition subscribe_filter_hides_services : Prop :=
  let! dc := sample in
  let filter := {| sf_service_groups := ["ops"]; sf_services := [] |} in
  resolve_service "inventory" dc (Some filter) = Some "logs"
  /\ resolve_service "orders" dc (Some filter) = None /\
  let empty := {| sf_service_groups := []; sf_services := [] |} in
  resolve_service "orders" dc (Some empty) = Some "orders".
Example passes_subscribe_filter_hides_services : subscribe_filter_hides_services.
Proof. run_test. Qed.

(** A request: the host of its URI, and its headers. *)
Definition req (uri : string) (host : option string) : option string * Headers.headers :=
  ((uri_host_of uri).2, match host with Some h => headers [("host", h)] | None => no_headers end).

Definition host_of (r : option string * Headers.headers) : option string := request_host r.1 r.2.

Definition request_host_prefers_absolute_url_then_host_header : Prop :=
  host_of (req "http://Inventory:80/items" (Some "other")) = Some "inventory"
  /\ host_of (req "/items" (Some "inventory:15001")) = Some "inventory"
  /\ host_of (req "/items" (Some "stock.example.com.")) = Some "stock.example.com"
  /\ host_of (req "/items" (Some "[::1]:15001")) = Some "[::1]"
  /\ host_of (req "/items" None) = None.
Example passes_request_host_prefers_absolute_url : request_host_prefers_absolute_url_then_host_header.
Proof. run_test. Qed.
