(* ===== verification/ProxyTests.v ===== *)
(** * The tests of the subscriber's candidates and REST API ([src/src/subscribe/proxy.rs]
    and [src/src/subscribe/api.rs], [mod tests])

    The router is axum's: the stand-in below does what the tests use of it. *)

From S2P Require Import Prelude Dynamic Config State Balancer Json Subscribe Proxy Api TestKit.
#[local] Open Scope stouter_scope.

(** ** Candidates *)

(** [Instant::now()]. *)
Definition now : Z := 1000000000.

Definition state_with (nodes : list (string * bool * list string)) : SharedState :=
  let services := (fun '(id, _, _) => plain_service "api" id 3000) <$> nodes in
  let cfg := with_node_id "sub" (with_dynamic_config
    {| dc_version := 1; dc_service_groups := [{| grp_name := "web"; grp_services := services |}]; dc_routes := [] |}
    default_config) in
  let state := new_state cfg "" false in
  (update_known_nodes (fun kn => (tt, foldl (fun kn '(id, live, unhealthy) =>
     <[id := {| ni_id := id; ni_addr := id +:+ ":1"; ni_relay := None;
                ni_last_seen := if live : bool then Some now else None;
                ni_health := {| sh_version := 1; sh_unhealthy := unhealthy |} |}]> kn) kn nodes)) state).2.

(** [find_service_nodes]. *)
Definition find_service_nodes (service_name : string) (state : SharedState) : list Backend :=
  prefer_healthy now (service_backends service_name state) service_name state.

Definition ids (backends : list Backend) : list string := b_id <$> backends.

Definition skips_nodes_reporting_service_unhealthy : Prop :=
  let state := state_with [("a", true, ["api"]); ("b", true, []); ("c", true, ["other"])] in
  ids (find_service_nodes "api" state) = ["b"; "c"].
Example passes_skips_nodes_reporting_service_unhealthy : skips_nodes_reporting_service_unhealthy.
Proof. run_test. Qed.

Definition all_unhealthy_fails_open : Prop :=
  let state := state_with [("a", true, ["api"]); ("b", true, ["api"])] in
  ids (find_service_nodes "api" state) = ["a"; "b"].
Example passes_all_unhealthy_fails_open : all_unhealthy_fails_open.
Proof. run_test. Qed.

Definition stale_nodes_dropped_before_health_filter : Prop :=
  let state := state_with [("a", true, ["api"]); ("b", false, [])] in
  ids (find_service_nodes "api" state) = ["a"].
Example passes_stale_nodes_dropped : stale_nodes_dropped_before_health_filter.
Proof. run_test. Qed.

Definition own_services_use_local_health_not_relayed_copy : Prop :=
  let state := state_with [("sub", true, []); ("b", true, [])] in
  let state := set_local_health {| sh_version := 1; sh_unhealthy := ["api"] |} state in
  ids (find_service_nodes "api" state) = ["b"].
Example passes_own_services_use_local_health : own_services_use_local_health_not_relayed_copy.
Proof. run_test. Qed.

(** ** The REST API *)

(** axum: the endpoint of a path, where [{name}] takes one segment, and the answers to a
    path or method without one. *)
Definition path_matches (pattern path : string) : option string :=
  match strip_suffix "{name}" pattern with
  | Some prefix =>
      match strip_prefix prefix path with
      | Some name => if str_is_empty name || str_contains "/" name then None else Some name
      | None => None
      end
  | None => if str_eqb pattern path then Some "" else None
  end.

Fixpoint endpoint_of (routes : list (string * (string -> Endpoint))) (path : string) : option Endpoint :=
  match routes with
  | [] => None
  | (pattern, e) :: routes =>
      match path_matches pattern path with Some name => Some (e name) | None => endpoint_of routes path end
  end.

(** What an app answers from: the routes, the state and the service ports. *)
Record App := { app_routes : list (string * (string -> Endpoint)); app_state : SharedState; app_ports : gmap string ServiceInfo }.

Definition test_routes : list (string * (string -> Endpoint)) :=
  retain (fun r => negb (str_eqb r.1 "/metrics")) api_routes.

Definition app_from (map : gmap string ServiceInfo) : App :=
  {| app_routes := test_routes; app_state := new_state default_config "" false; app_ports := map |}.

Definition make_app (entries : list (string * Z * list string)) : App :=
  app_from (list_to_map ((fun '(k, port, domains) => (k, {| si_port := port; si_domains := domains; si_meta := ∅ |})) <$> entries)).

Definition do_request (app : App) (method uri : string) : Z * Value :=
  match endpoint_of (app_routes app) uri with
  | None => (404%Z, VNull)
  | Some e =>
      if negb (str_eqb method "GET") then (405%Z, VNull)
      else match api "" (app_state app) (app_ports app) e with
           | Json status body => (status, body)
           | Text _ => (200%Z, VNull)
           end
  end.

Definition as_array (v : Value) : option (list Value) := match v with VArr l => Some l | _ => None end.
Definition as_str (v : Value) : option string := match v with VStr s => Some s | _ => None end.
Definition nth_of (v : Value) (i : nat) : Value := match v with VArr l => default VNull (l !! i) | _ => VNull end.

Definition get_services_empty : Prop :=
  let '(status, body) := do_request (make_app []) "GET" "/services" in
  status = 200%Z /\
  let! l := as_array body in
  l = [].
Example passes_get_services_empty : get_services_empty.
Proof. run_test. Qed.

Definition get_services_with_entries : Prop :=
  let '(status, body) := do_request (make_app [("web", 8080%Z, []); ("db", 5432%Z, [])]) "GET" "/services" in
  status = 200%Z /\
  let! l := as_array body in
  length l = 2.
Example passes_get_services_with_entries : get_services_with_entries.
Proof. run_test. Qed.

Definition get_single_service_found : Prop :=
  let '(status, body) := do_request (make_app [("web", 8080%Z, [])]) "GET" "/services/web" in
  status = 200%Z /\ json_index body "name" = VStr "web" /\ json_index body "port" = VNum 8080
  /\ json_index body "address" = VStr "127.0.0.1:8080".
Example passes_get_single_service_found : get_single_service_found.
Proof. run_test. Qed.

Definition get_single_service_not_found : Prop :=
  let '(status, body) := do_request (make_app []) "GET" "/services/missing" in
  status = 404%Z /\
  let! e := as_str (json_index body "error") in
  contains "missing" e.
Example passes_get_single_service_not_found : get_single_service_not_found.
Proof. run_test. Qed.

Definition post_returns_405 : Prop := (do_request (make_app []) "POST" "/services").1 = 405%Z.
Example passes_post_returns_405 : post_returns_405.
Proof. run_test. Qed.

Definition unknown_path_returns_404 : Prop := (do_request (make_app []) "GET" "/unknown").1 = 404%Z.
Example passes_unknown_path_returns_404 : unknown_path_returns_404.
Proof. run_test. Qed.

Definition get_service_with_domains : Prop :=
  let '(status, body) :=
    do_request (make_app [("web", 8080%Z, ["example.com"; "www.example.com"])]) "GET" "/services/web" in
  status = 200%Z /\ json_index body "name" = VStr "web" /\
  let! domains := as_array (json_index body "domains") in
  length domains = 2 /\ domains !! 0 = Some (VStr "example.com") /\ domains !! 1 = Some (VStr "www.example.com").
Example passes_get_service_with_domains : get_service_with_domains.
Proof. run_test. Qed.

Definition meta_services : gmap string ServiceInfo :=
  {["wp-grpc" := {| si_port := 9000; si_domains := ["wp-grpc.pecka.cloud"]; si_meta := {["traefik.scheme" := "h2c"]} |};
    "plain" := {| si_port := 9001; si_domains := []; si_meta := ∅ |}]}.

Definition services_expose_meta_for_integrations : Prop :=
  let '(status, body) := do_request (app_from meta_services) "GET" "/services/wp-grpc" in
  status = 200%Z /\ json_index body "meta" = json_obj [("traefik.scheme", VStr "h2c")] /\
  let '(_, body) := do_request (app_from meta_services) "GET" "/services" in
  let! list := as_array body in
  let by_name n := find_first (fun s => match json_index s "name" with VStr m => str_eqb m n | _ => false end) list in
  let! grpc := by_name "wp-grpc" in
  json_index (json_index grpc "meta") "traefik.scheme" = VStr "h2c" /\
  let! plain := by_name "plain" in
  json_index plain "meta" = json_obj [].
Example passes_services_expose_meta : services_expose_meta_for_integrations.
Proof. run_test. Qed.

Definition get_service_without_domains : Prop :=
  let '(status, body) := do_request (make_app [("web", 8080%Z, [])]) "GET" "/services/web" in
  status = 200%Z /\
  let! domains := as_array (json_index body "domains") in
  domains = [].
Example passes_get_service_without_domains : get_service_without_domains.
Proof. run_test. Qed.

Definition health_check_degraded_no_nodes : Prop :=
  let '(status, body) := do_request (make_app []) "GET" "/__health" in
  status = 503%Z /\ json_index body "status" = VStr "degraded"
  /\ json_index (json_index body "nodes") "count" = VNum 0 /\ json_index (json_index body "proxies") "count" = VNum 0.
Example passes_health_check_degraded_no_nodes : health_check_degraded_no_nodes.
Proof. run_test. Qed.

Definition health_check_reports_proxies : Prop :=
  let '(status, body) := do_request (make_app [("web", 8080%Z, [])]) "GET" "/__health" in
  status = 503%Z /\ json_index (json_index body "proxies") "count" = VNum 1
  /\ json_index (nth_of (json_index (json_index body "proxies") "services") 0) "name" = VStr "web".
Example passes_health_check_reports_proxies : health_check_reports_proxies.
Proof. run_test. Qed.

Definition health_check_healthy_with_nodes : Prop :=
  let shared := (update_known_nodes (fun nodes => (tt,
    <["peer1" := {| ni_id := "peer1"; ni_addr := "10.0.0.1:8080"; ni_relay := None; ni_last_seen := None;
                    ni_health := default_health |}]> nodes)) (new_state default_config "" false)).2 in
  let app := {| app_routes := retain (fun r => str_eqb r.1 "/__health") api_routes; app_state := shared; app_ports := ∅ |} in
  let '(status, body) := do_request app "GET" "/__health" in
  status = 200%Z /\ json_index body "status" = VStr "healthy"
  /\ json_index (json_index body "nodes") "count" = VNum 1
  /\ json_index (nth_of (json_index (json_index body "nodes") "peers") 0) "id" = VStr "peer1".
Example passes_health_check_healthy_with_nodes : health_check_healthy_with_nodes.
Proof. run_test. Qed.
