(* ===== verification/StateTests.v ===== *)
(** * The tests of a daemon's state ([mod tests] of [src/src/health.rs],
    [src/src/state.rs], [src/src/io.rs] and [src/src/gossip/mod.rs])

    Where a test opens a socket or waits, what the socket does and what the clock shows
    are written out; the assertions on real elapsed time are left out where the model
    has none. *)

From S2P Require Import Prelude Dynamic Config State Waiting Health Messages Gossip Json ConfigFmt Io TestKit.
#[local] Open Scope stouter_scope.

(** ** Health checks *)

(** [t.record(..)] of each outcome, with the answers. *)
Fixpoint records (service : string) (oks : list bool) (t : HealthTracker) : list bool * HealthTracker :=
  match oks with
  | [] => ([], t)
  | ok :: oks => let '(flip, t) := record service ok t in let '(flips, t) := records service oks t in (flip :: flips, t)
  end.

Definition unhealthy_after_consecutive_failures_and_recovers_on_success : Prop :=
  let t : HealthTracker := ∅ in
  let '(flip, t) := record "api" false t in negb flip /\ unhealthy t = [] /\
  let '(flip, t) := record "api" false t in flip /\ unhealthy t = ["api"] /\
  let '(flip, t) := record "api" false t in negb flip /\
  let '(flip, t) := record "api" true t in flip /\ unhealthy t = [] /\
  negb (record "api" true t).1.
Example passes_unhealthy_after_consecutive_failures : unhealthy_after_consecutive_failures_and_recovers_on_success.
Proof. run_test. Qed.

Definition single_failure_between_successes_does_not_flip : Prop :=
  let '(flips, t) := records "api" [true; false; true; false; true] ∅ in
  all negb flips /\ unhealthy t = [].
Example passes_single_failure_does_not_flip : single_failure_between_successes_does_not_flip.
Proof. run_test. Qed.

Definition retain_reports_change_only_when_unhealthy_service_dropped : Prop :=
  let '(_, t) := record "a" false ∅ in
  let '(_, t) := record "a" false t in
  let '(_, t) := record "b" true t in
  let '(changed, t) := retain_hosted ["a"] t in negb changed /\
  let '(changed, t) := retain_hosted [] t in changed /\ unhealthy t = [].
Example passes_retain_reports_change : retain_reports_change_only_when_unhealthy_service_dropped.
Proof. run_test. Qed.

(** Some wall-clock time, in milliseconds. *)
Definition wall_ms : Z := 1700000000000.

Definition versions_strictly_increase : Prop :=
  let v1 := next_version wall_ms 0 in
  (0 <? v1)%Z /\ (v1 <? next_version wall_ms v1)%Z /\ next_version wall_ms (u64_max - 1) = u64_max.
Example passes_versions_strictly_increase : versions_strictly_increase.
Proof. run_test. Qed.

(** A port with or without a listener, and a server that answers one request and closes. *)
Definition listening (up : bool) : ProbeEnv :=
  {| pe_connects := up; pe_respond := fun _ => None; pe_in_time := true |}.
Definition one_shot_server (response : string) : ProbeEnv :=
  {| pe_connects := true; pe_respond := fun _ => Some [response; ""]; pe_in_time := true |}.
Definition silent : ProbeEnv := {| pe_connects := true; pe_respond := fun _ => Some []; pe_in_time := false |}.
Definition port : Z := 49152.

Definition probe_detects_listening_and_closed_ports : Prop :=
  probe (listening true) port None /\ negb (probe (listening false) port None).
Example passes_probe_detects_ports : probe_detects_listening_and_closed_ports.
Proof. run_test. Qed.

Definition http_probe_requires_2xx : Prop :=
  probe (one_shot_server ("HTTP/1.1 204 No Content" +:+ CRLF +:+ CRLF)) port (Some "/healthz")
  /\ starts_with ("GET /healthz HTTP/1.1" +:+ CRLF) (probe_request "/healthz" port)
  /\ negb (probe (one_shot_server ("HTTP/1.1 503 Service Unavailable" +:+ CRLF +:+ CRLF)) port (Some "/healthz"))
  /\ negb (probe (one_shot_server ("SSH-2.0-OpenSSH" +:+ CRLF)) port (Some "/healthz")).
Example passes_http_probe_requires_2xx : http_probe_requires_2xx.
Proof. run_test. Qed.

Definition http_probe_times_out_on_silent_backend : Prop := negb (probe silent port (Some "/healthz")).
Example passes_http_probe_times_out : http_probe_times_out_on_silent_backend.
Proof. run_test. Qed.

Definition parses_status_codes : Prop :=
  parse_status_code "HTTP/1.1 200" = Some 200%Z /\ parse_status_code "HTTP/1.0 404" = Some 404%Z
  /\ parse_status_code "HTTP/2.0 200" = None /\ parse_status_code "HTTP/1.1 2xx" = None.
Example passes_parses_status_codes : parses_status_codes.
Proof. run_test. Qed.

(** ** The drain *)

#[local] Existing Instance Waiting.Examples.tokio_notify.

(** The steps of a drain, in order. *)
Definition drain_steps (acts : list DrainAct) (d : Drain) : option Drain :=
  foldl (fun o a => let* d := o in drain_act a d) (Some d) acts.

(** Two guards are taken and the waiter goes to sleep; both are dropped, the last one
    waking it, and the time-out is not needed. *)
Definition wait_zero_returns_when_the_last_guard_drops : Prop :=
  dr_phase (drain_runs 3 new_drain) = DDone true /\
  let! d := drain_steps [DTrack; DTrack; DRegister; DLook] new_drain in
  dr_phase d = DAsleep /\
  let! d := drain_steps [DDrop; DDrop; DNotify] d in
  dr_phase (drain_runs 3 d) = DDone true.
Example passes_wait_zero_returns : wait_zero_returns_when_the_last_guard_drops.
Proof. run_test. Qed.

Definition wait_zero_times_out_while_work_remains : Prop :=
  let! d := drain_steps [DTrack; DRegister; DLook; DTimeout] new_drain in
  dr_phase d = DDone false /\ dr_count d = 1%Z.
Example passes_wait_zero_times_out : wait_zero_times_out_while_work_remains.
Proof. run_test. Qed.

(** ** Copying *)

(** When [idle_for] looks at the clock, with the latest activity then: first at once, and
    then at each deadline it sleeps until, up to [horizon]. *)
Fixpoint looks (fuel : nat) (limit now horizon : Z) (touches : list Z) : list (Z * Z) :=
  match fuel with
  | O => []
  | S fuel =>
      if (horizon <? now)%Z then []
      else
        let last := foldr Z.max 0%Z (retain (fun t => (t <=? now)%Z) touches) in
        (last, now) :: looks fuel limit (last + limit)%Z horizon touches
  end.

Definition idle_within (horizon : Z) (touches : list Z) : option Z :=
  idle_for IDLE_TIMEOUT_MS (looks 10 IDLE_TIMEOUT_MS 0 horizon touches).

(** Every read is written at once and flushed. *)
Definition copied (chunks : list string) (eof : bool) : string * CopyEnd :=
  copy_then_shutdown ((fun c => Some (c, true)) <$> (chunks ++ if eof then [""] else []))
    (Some <$> (String.length <$> chunks)) true "".

Definition one_way_stream_outlives_the_idle_timeout : Prop :=
  let ticks := Z.to_nat (2 * IDLE_TIMEOUT_MS / 10000) in
  let touches := (fun i => Z.of_nat i * 10000)%Z <$> seq 0 ticks in
  let '(received, down) := copied (repeat "tick" ticks) true in
  let '(_, up) := copied [] true in
  String.length received = ticks * 4
  /\ is_none (idle_within (2 * IDLE_TIMEOUT_MS) touches)
  /\ proxy_bidirectional false up down = Some (Ok tt).
Example passes_one_way_stream : one_way_stream_outlives_the_idle_timeout.
Proof. run_test. Qed.

Definition idle_tunnel_closes_after_the_idle_timeout : Prop :=
  idle_within (3 * IDLE_TIMEOUT_MS) [] = Some IDLE_TIMEOUT_MS
  /\ proxy_bidirectional true (copied [] false).2 (copied [] false).2 = Some (Ok tt).
Example passes_idle_tunnel_closes : idle_tunnel_closes_after_the_idle_timeout.
Proof. run_test. Qed.

Definition idle_timer_restarts_on_traffic : Prop :=
  let '(byte, up) := copied ["x"] false in
  byte = "x"
  /\ idle_within (3 * IDLE_TIMEOUT_MS) [(IDLE_TIMEOUT_MS - 1000)%Z] = Some (2 * IDLE_TIMEOUT_MS - 1000)%Z
  /\ proxy_bidirectional true up (copied [] false).2 = Some (Ok tt).
Example passes_idle_timer_restarts : idle_timer_restarts_on_traffic.
Proof. run_test. Qed.

Definition half_closed_client_still_gets_the_response : Prop :=
  let '(request, up) := copied ["request"] true in
  let '(response, down) := copied ["response to "; request] true in
  response = "response to request" /\ proxy_bidirectional false up down = Some (Ok tt).
Example passes_half_closed_client : half_closed_client_still_gets_the_response.
Proof. run_test. Qed.

Definition a_failed_direction_tears_down_both : Prop :=
  let '(_, up) := copy_then_shutdown [Some ("data", true)] [None] true "" in
  let '(_, down) := copied [] false in
  let! r := proxy_bidirectional false up down in
  is_err r.
Example passes_a_failed_direction : a_failed_direction_tears_down_both.
Proof. run_test. Qed.

(** ** Gossip *)

Definition node (id : string) (version : Z) (unhealthy : list string) : NodeInfo :=
  {| ni_id := id; ni_addr := id +:+ ":1"; ni_relay := None; ni_last_seen := None;
     ni_health := {| sh_version := version; sh_unhealthy := unhealthy |} |}.

Definition merge_health_takes_only_newer_reports : Prop :=
  let existing := node "a" 5 ["api"] in
  let existing := merge_health existing (node "a" 4 []) in
  sh_unhealthy (ni_health existing) = ["api"] /\
  let existing := merge_health existing (node "a" 5 []) in
  sh_unhealthy (ni_health existing) = ["api"] /\
  let existing := merge_health existing (node "a" 6 []) in
  sh_unhealthy (ni_health existing) = [] /\ sh_version (ni_health existing) = 6%Z.
Example passes_merge_health_takes_only_newer : merge_health_takes_only_newer_reports.
Proof. run_test. Qed.

Definition merge_health_ignores_unreported_relay : Prop :=
  let existing := merge_health (node "a" 5 ["api"]) (node "a" 0 []) in
  sh_version (ni_health existing) = 5%Z.
Example passes_merge_health_ignores_unreported : merge_health_ignores_unreported_relay.
Proof. run_test. Qed.

Definition merge_sync_applies_peer_health_but_never_our_own : Prop :=
  let cfg := with_node_id "me" default_config in
  let w := {| w_state := new_state cfg "" false; w_disk := None |} in
  let w := merge_sync Saved 0 default_dynamic_config [node "a" 1 []; node "me" 1 ["x"]] None w in
  let w := merge_sync Saved 0 default_dynamic_config [node "a" 2 ["api"]; node "me" 9 ["x"]] None w in
  let kn := st_known_nodes (w_state w) in
  let! a := kn !! "a" in
  sh_unhealthy (ni_health a) = ["api"] /\
  let! me := kn !! "me" in
  sh_is_unset (ni_health me) /\ negb (service_unhealthy (w_state w) "me" "x").
Example passes_merge_sync_applies_peer_health : merge_sync_applies_peer_health_but_never_our_own.
Proof. run_test. Qed.

Definition snapshot_carries_fresh_local_health : Prop :=
  let cfg := with_node_id "me" default_config in
  let state := set_local_health {| sh_version := 3; sh_unhealthy := ["api"] |} (new_state cfg "" false) in
  let nodes := snapshot_nodes state in
  let! me := find_first (fun n => str_eqb (ni_id n) "me") nodes in
  sh_unhealthy (ni_health me) = ["api"].
Example passes_snapshot_carries_fresh_local_health : snapshot_carries_fresh_local_health.
Proof. run_test. Qed.

Definition named_services (version : Z) (names : list string) : DynamicConfig :=
  let service n := of_value vservice (VObj [("name", VStr n); ("nodeId", VStr "n1"); ("nodePort", VNum 1)]) in
  {| dc_version := version; dc_service_groups := [{| grp_name := "g"; grp_services := omap service names |}]; dc_routes := [] |}.

Definition service_names (dc : DynamicConfig) : list string :=
  match dc_service_groups dc with g :: _ => svc_name <$> grp_services g | [] => [] end.

(** One pass of the poll against a file holding [file] while memory holds [memory]. *)
Definition poll_once (file memory : DynamicConfig) : option (DynamicConfig * DynamicConfig) :=
  let cfg := with_node_id "me" (TestKit.with_dynamic_config file default_config) in
  let w := {| w_state := set_dynamic_config memory (new_state cfg "stouter_poll.json" false); w_disk := Some cfg |} in
  let '(w, _) := config_poll Saved w in
  option_map (fun cfg => (st_dynamic_config (w_state w), dynamic_config cfg)) (w_disk w).

Definition poll_keeps_newer_memory_over_a_stale_file : Prop :=
  let! (memory, file) := poll_once (named_services 5 ["old"]) (named_services 6 ["old"; "new"]) in
  dc_version memory = 6%Z /\ service_names memory = ["old"; "new"] /\ dc_version file = 5%Z.
Example passes_poll_keeps_newer_memory : poll_keeps_newer_memory_over_a_stale_file.
Proof. run_test. Qed.

Definition poll_adopts_hand_edits_and_newer_files : Prop :=
  let! (memory, file) := poll_once (named_services 5 ["old"; "edited"]) (named_services 5 ["old"]) in
  (dc_version memory, service_names memory) = (6%Z, ["old"; "edited"]) /\ file = memory /\
  let! (memory, _) := poll_once (named_services 9 ["cli-added"]) (named_services 5 ["old"]) in
  (dc_version memory, service_names memory) = (9%Z, ["cli-added"]).
Example passes_poll_adopts_hand_edits : poll_adopts_hand_edits_and_newer_files.
Proof. run_test. Qed.
